(* ===== verification/_CoqProject ===== *)
-Q . S2P
Prelude.v
Types.v
Storage.v
HeapPage.v
Transaction.v
Locks.v
BufferPool.v
PoolHistories.v
Wal.v
TupleCodec.v
VisibilityMap.v
Toast.v
Utf8.v
BTreePage.v
BTree.v
BTreeTrees.v
IndexKeys.v
Catalog.v
HashIndex.v
Brin.v
Rbac.v
HeapAccess.v
HeapStatements.v
HeapUpdates.v
HeapHistories.v
HeapRuns.v
SqlText.v
Float64.v
TextOps.v
Ast.v
Eval.v
RowOps.v
Joins.v
GroupBy.v
Window.v
Query.v
Answers.v
Token.v
Parsing.v
ExprParser.v
SelectParser.v
StatementParser.v
SqlParser.v
ExprPrint.v
StatementPrint.v
Wire.v
Requests.v
Server.v
Session.v
Replies.v
SessionRuns.v
Auth.v
Gin.v
Partitions.v
Latches.v
Checkpoints.v
RowSecurity.v
Jsonb.v
FloatOrder.v
TextSearch.v
Gist.v
Statistics.v
Optimizer.v
Channels.v
Copy.v
Parallel.v
Autovacuum.v
Archive.v
Functions.v
