(* ===== verification/Prelude.v ===== *)
(** * postgress-rs: a verification library

    A model in Rocq of [postgress-rs], a PostgreSQL-like database server written in
    Rust, and the theorems on it. The source is under [src/src/]; each file below opens
    with the source files that it models.

    ** The program and its parts

    A connection (server.rs) reads messages, hands the text of each query to the parser
    (sql/), and the statement to a handler (server/query.rs). A handler asks the
    transaction manager (transaction/) for an id and a snapshot, looks relations up in
    the catalog (catalog/), and reads and writes rows through the heap executor
    (executor/heap.rs) or, for SELECT, through the query executor (executor/select/).
    Those read pages through the buffer cache (buffer_cache/) over a page store
    (storage/), find rows by B-trees (btree/), and log what they change (wal/). Around
    these stand parts that no statement reaches: locks, other kinds of index,
    partitions, parallel workers, statistics and the optimizer, JSON and text search,
    access control, authentication, copying, cursors, notifications, autovacuum and
    archiving.

    ** The files

    Foundations
    - Prelude: outcomes ([Ok], [Err], [Panic]), integers at their width ([wrap],
      [add_w]), the profile that says whether overflow panics, bytes, and the lemmas,
      tactics and hints the others share.
    - Types, Storage, TupleCodec, Utf8, SqlText, TextOps, Float64, FloatOrder: the data
      types; the page store as a class with laws and its two implementations; the
      encoding of tuples; Rust strings; IEEE doubles and singles with their parsing,
      printing and order.

    Storage and recovery
    - HeapPage (storage/heap_page.rs), VisibilityMap, Toast; BufferPool, PoolHistories
      and Checkpoints (buffer_cache/mod.rs); Wal (wal/mod.rs, recovery.rs); Archive (wal/archiving.rs and
      the control file).
    - HeapAccess, HeapStatements, HeapUpdates (executor/heap.rs): insertion, scans,
      delete, vacuum and update over pages, cache, log and relation table. HeapHistories:
      any sequence of them, as operations on a table of rows. HeapRuns: concrete
      relations.

    Concurrency
    - Transaction (transaction/mod.rs, timeouts.rs, clog.rs), Locks (locks.rs), Latches
      (concurrency/latch.rs, condition_variable.rs), Parallel (executor/parallel/),
      Autovacuum (concurrency/autovacuum.rs).

    Indexes
    - BTreePage and BTree (btree/page.rs, insert.rs, search.rs, executor/btree.rs),
      BTreeTrees (their theorems on trees of any height), IndexKeys (btree/mod.rs,
      scan.rs, scans of the index alone), HashIndex, Brin, Gin, Gist (the file of each
      name in btree/).

    SQL
    - Ast (sql/ast.rs), Token, Parsing, ExprParser, SelectParser, StatementParser,
      SqlParser (sql/parser.rs and sql/parser/), ExprPrint and StatementPrint (the text
      of expressions and statements, as the specification of the parser), Functions
      (sql/function.rs).
    - Eval (server/eval.rs), RowOps, Joins, GroupBy, Window, Query (executor/select/),
      Answers (what a SELECT means on tables, and that Query computes it), Partitions (executor/partition/), Statistics (catalog/statistics.rs), Optimizer
      (executor/select/optimizer.rs).
    - Jsonb, TextSearch (types/).

    The server
    - Catalog (catalog/mod.rs), Rbac, RowSecurity (security/).
    - Wire, Requests, Auth, Copy, Channels (protocol/).
    - Server (server/query.rs, server/utils.rs, executor/planner.rs), Session (server.rs,
      [handle_query]), Replies (their theorems), SessionRuns (whole sessions).

    ** How the code is modelled

    A [Result] is an [outcome]; a panic is a value of it, so a theorem that a function
    answers [Ok] says that it does not panic. An arithmetic overflow panics or wraps as
    the build profile says; the profile is a class ([Profile]), and theorems hold for
    both values unless they name one. Shared objects behind locks (cache, log, catalog,
    manager) are parts of an explicit state which the operations pass on; what an
    operation changed before an error is in the state it returns. The heap, the queries
    and the handlers are written in state and error monads over that state
    ([heap_m], [query_m], [server_m]), the parser in a monad over the tokens left. Where a
    Rust object is shared by reference and threads interleave inside an operation
    ([begin], latches, parallel workers), the operation is a step relation with one step
    for each atomic access; any other operation is a function, which takes the regions of
    its locks together: what two threads do to each other between them (where
    [fetch_page] leaves the page map before it locks the buffers) is not modelled. A [HashMap] is a [gmap]; where its order of iteration shows,
    that order is an argument of the definition.

    Components depend on each other by classes: [Storage] with [StorageLaws] is what
    cache, log, heap and indexes ask of a store, and Storage proves it of both stores;
    [Bincode] with its laws is what the heap and the log ask of the encoding, and
    TupleCodec proves it of the documented format; [LockEntryLike] is what the release
    of locks asks of an entry; [PartialOrd] what ranges ask of their bounds.

    ** What the theorems show

    - Rows. [heap_refines]: any sequence of insertions, deletions, updates, vacuums and
      scans does to a relation, of any number of pages, what it does to a table of rows,
      as long as the rows find room: an inserted row is no longer than a page and than
      what lies before the end of the free space of the page it goes to (the insert
      panics there), and a new version fits the page of the old (the row is lost there).
      [slow_scan_spec], [tuple_insert_spec], [tuple_delete_spec], [tuple_update_spec] and
      [vacuum_relation_spec] describe the heap by the versions that a relation's pages
      hold: what a statement adds, marks or removes, that it touches no other page, and
      which of them a scan returns. [copy_in_keeps_prefix]: the rows of a COPY that ends,
      and of one that fails. [page_roundtrip], [add_tuple_spec] and
      [hot_update_spec] do so for one page.
    - Queries. [select_answers]: through pool, pages, encoding and visibility a SELECT
      answers what it means on tables of versions, when no index is used and the pool
      has no stale page and room for the others (what happens when it has a stale page
      shows [HeapRuns.cached_scan_is_stale], and when it has no room
      [BufferPool.cache_returns_wrong_page]). [Query.execute_select_reads]: when no
      page in the pool waits to be written a SELECT, index scans included, writes
      nothing. [execute_join_equi], [apply_group_by_spec], [apply_order_by_spec] compare
      the algorithms with reference definitions; [evaluate_expr_typed] is type soundness
      of evaluation.
    - Text. [parse_printed], [print_parse] and [parser_ends]: the parser reads back what
      is printed, and ends. Examples in StatementPrint show texts it does not read.
    - Sessions. [query_reply]: the reply that each query gets, when it does not panic,
      and that only a SELECT that can search an index may not end. [session_invariant]:
      the transactions that messages leave. [encode_read_back] and [extended_refines]
      are about messages and prepared statements.
    - Transactions and locks. [manager_history], [snapshot_sees_finished],
      [locks_mutual_exclusion], [detect_deadlock_exact], [check_privilege_history] speak
      of the state after any history of calls.
    - Durability. [pool_history] (the buffer pool through any calls whose pages fit it),
      [fetch_page_view], [checkpoint_spec], [wal_formats_roundtrip],
      [wal_append_readable], [recover_total].
    - Concurrency. [spin_wait_passes] (liveness under a fair scheduler),
      [async_wait_loses_wakeup] (a run in which a waiter is lost),
      [parallel_any_schedule] (every interleaving).
    - Indexes and the rest. [tree_history] (searches and insertions in an index of
      any height; [split_history] starts from the split of a root), [gin_refines], [gist_spec],
      [ts_match_spec], [collect_stats_spec], [archive_restores].
    - Each file proves more than these: for instance [Partitions.pruning_safe],
      [Jsonb.jsonb_update_spec], [HashIndex.hash_index_refines],
      [Catalog.catalog_invariant], [Channels.Cursors.cursor_reads_once],
      [Autovacuum.decision_after_history], [Functions.registry_history],
      [Token.tokenize_roundtrip], [BTree.btree_insert_search], [Auth.scram_ignores_password].
    - Examples show, on concrete inputs, where the code does not do what it means to
      do: for instance [SessionRuns.own_rows_do_not_show],
      [HeapRuns.relations_share_page_one], [BTree.child_split_loses_keys],
      [BufferPool.cache_returns_wrong_page], [SqlParser.parenthesis_never_ends].

    ** Fuel and bounds

    - Loops over a list, a page or a string take the number of the elements, slots or
      bytes left as fuel; each step takes one, so it cannot run out. Lemmas beside these
      definitions say so ([follow_chain_total], [recover_total], [parser_ends],
      [to_tsquery_total] among them).
    - The rules of the parser call each other through a record of parsers ([grammar]),
      closed to a depth. [parser_ends] shows that one more than the number of tokens is
      deep enough for everything except a statement that begins with a parenthesis,
      EXPLAIN or WITH; [parenthesis_never_ends] shows that the code recurses for ever on
      the first of these.
    - The search of an index follows pointers that may form a circle in a corrupt index.
      Its fuel is an argument and running out of it is [None]; the theorems that find
      something show that it does not run out.
    - The bounds of 64-bit counters are hypotheses where the theorem needs them, and are
      stated as such ([zlen rows < 2 ^ 64]).

    ** Parameters

    Code outside [src/] is a parameter with its documented behaviour as laws: the
    [bincode] encoding ([Bincode], [TupleLaws]), [serde_json] ([SerdeJson]), [tokio]'s
    [Notify] ([Notify]) and channels ([Mpsc]), the tables of Unicode ([Unicode],
    [Alphanumeric]), the natural logarithm ([Ln]), the texts of [Debug] and of errors
    ([Rendering]), the orders of hash maps. Each class with laws has an instance, at
    which the theorems are applied. The file system of Archive and Storage is a map from paths to bytes
    whose only failures are missing files and directories.

    ** Not modelled

    - Sockets, timers and the runtime: [main], the accept loop, the sleeping of the
      background tasks. What they call on each round is modelled.
    - Module declarations, re-exports, [error.rs], the shell, tests and benchmarks;
      derived implementations such as [Debug] and [Clone].
    - sql/parser/types.rs, an older copy of data_type.rs that no module declares. *)

From stdpp Require Export base tactics numbers list option strings gmap sorting.
From Stdlib Require Export ZArith Lia.

Open Scope Z_scope.

Declare Scope rust_scope.
Delimit Scope rust_scope with rust.

(* ------------------------------------------------------------------ *)
(** ** Outcomes of a Rust computation *)

(** An [anyhow] error: the format string of the [anyhow!] or [bail!] that made
    it, and the numbers formatted into it. *)
Record error := Anyhow { err_fmt : string; err_args : list Z }.

(** [Ok] and [Err] are the two values of [anyhow::Result]; [Panic] is a thread
    panic: an out-of-range slice, an [unwrap] of nothing, or an arithmetic
    overflow when overflow checks are compiled in. *)
Inductive outcome (A : Type) :=
| Ok (a : A)
| Err (e : error)
| Panic.
Arguments Ok {A} a.
Arguments Err {A} e.
Arguments Panic {A}.

#[export] Instance error_eq_dec : EqDecision error.
Proof. intros [f a] [g b]. destruct (decide (f = g)), (decide (a = b)); (left + right); congruence. Defined.

#[export] Instance outcome_eq_dec {A} `{!EqDecision A} : EqDecision (outcome A).
Proof.
  intros [a|e|] [b|e'|]; try (right; discriminate).
  - destruct (decide (a = b)); (left + right); congruence.
  - destruct (decide (e = e')); (left + right); congruence.
  - by left.
Defined.

#[export] Instance outcome_ret : MRet outcome := fun A a => Ok a.

#[export] Instance outcome_bind : MBind outcome := fun A B f m =>
  match m with Ok a => f a | Err e => Err e | Panic => Panic end.

#[export] Instance outcome_fmap : FMap outcome := fun A B f m =>
  match m with Ok a => Ok (f a) | Err e => Err e | Panic => Panic end.

(** A [Result::ok()]-like view, used where the source matches [if let Ok(..)]. *)
Definition outcome_ok {A} (m : outcome A) : option A :=
  match m with Ok a => Some a | _ => None end.

Definition is_ok {A} (m : outcome A) : Prop := exists a, m = Ok a.

Lemma bind_ok {A B} (m : outcome A) (f : A -> outcome B) b :
  m ≫= f = Ok b <-> exists a, m = Ok a /\ f a = Ok b.
Proof. destruct m; cbn; naive_solver. Qed.

Lemma bind_step {A B} (m : outcome A) (f : A -> outcome B) a r : m = Ok a -> f a = r -> m ≫= f = r.
Proof. by intros ->. Qed.

Lemma ok_bind {A B} (a : A) (f : A -> outcome B) : Ok a ≫= f = f a.
Proof. reflexivity. Qed.

(* ------------------------------------------------------------------ *)
(** ** Build profile and machine arithmetic *)

(** Whether arithmetic overflow panics ([cargo build], [cargo test]) or wraps
    ([cargo build --release]); the manifest sets no profile, so both occur. *)
Class Profile := overflow_checks : bool.

Definition debug_profile : Profile := true.
Definition release_profile : Profile := false.

(** The value [z] truncated to [w] bits: an [as] cast, [wrapping_add] and so on. *)
Definition wrap (w z : Z) : Z := z `mod` 2 ^ w.

Notation "z 'as_u8'" := (wrap 8 z) (at level 1, left associativity) : rust_scope.
Notation "z 'as_u16'" := (wrap 16 z) (at level 1, left associativity) : rust_scope.
Notation "z 'as_u32'" := (wrap 32 z) (at level 1, left associativity) : rust_scope.
Notation "z 'as_u64'" := (wrap 64 z) (at level 1, left associativity) : rust_scope.
Open Scope rust_scope.

(** [z] is a value of the [w]-bit unsigned type. *)
Definition in_width (w z : Z) : Prop := 0 <= z < 2 ^ w.
Abbreviation is_u8 := (in_width 8).
Abbreviation is_u16 := (in_width 16).
Abbreviation is_u32 := (in_width 32).
Abbreviation is_u64 := (in_width 64).

(** Addition, subtraction and multiplication at width [w], as the profile compiles them. *)
Definition checked {P : Profile} (w z : Z) : outcome Z :=
  if decide (0 <= z < 2 ^ w) then Ok z
  else if overflow_checks then Panic else Ok (wrap w z).

Definition add_w {P : Profile} (w a b : Z) : outcome Z := checked w (a + b).
Definition sub_w {P : Profile} (w a b : Z) : outcome Z := checked w (a - b).
Definition mul_w {P : Profile} (w a b : Z) : outcome Z := checked w (a * b).

Lemma wrap_small w z : in_width w z -> wrap w z = z.
Proof. apply Z.mod_small. Qed.

Lemma wrap_in_width w z : 0 <= w -> in_width w (wrap w z).
Proof. intros. apply Z.mod_pos_bound. lia. Qed.

Lemma wrap_below w z : 0 <= w -> - 2 ^ w <= z < 0 -> wrap w z = z + 2 ^ w.
Proof. intros. unfold wrap. rewrite <- (Z.mod_add _ 1) by lia. rewrite Z.mod_small; lia. Qed.

Lemma wrap_above w z : 0 <= w -> 2 ^ w <= z < 2 * 2 ^ w -> wrap w z = z - 2 ^ w.
Proof. intros. unfold wrap. rewrite <- (Z.mod_add _ (-1)) by lia. rewrite Z.mod_small; lia. Qed.

Lemma checked_ok {P : Profile} w z : in_width w z -> checked w z = Ok z.
Proof. intros H. unfold checked. by rewrite decide_True. Qed.

Lemma checked_overflow {P : Profile} w z :
  ~ in_width w z -> checked w z = if overflow_checks then Panic else Ok (wrap w z).
Proof. intros H. unfold checked. by rewrite decide_False. Qed.

Lemma add_w_ok {P : Profile} w a b : in_width w (a + b) -> add_w w a b = Ok (a + b).
Proof. apply checked_ok. Qed.

Lemma sub_w_ok {P : Profile} w a b : in_width w (a - b) -> sub_w w a b = Ok (a - b).
Proof. apply checked_ok. Qed.

#[export] Instance in_width_dec w z : Decision (in_width w z).
Proof. unfold in_width. apply _. Defined.

(* ------------------------------------------------------------------ *)
(** ** Byte strings and slices *)

(** A [u8] is a number in [0, 256). *)
Abbreviation bytes := (list Z).
Definition bytes_ok (bs : bytes) : Prop := Forall is_u8 bs.

(** The length of a list as a [usize]. *)
Abbreviation zlen l := (Z.of_nat (length l)).

(** [&l[lo..hi]], which panics when the range is not inside [l]. *)
Definition slice {A} (lo hi : Z) (l : list A) : outcome (list A) :=
  if decide (0 <= lo <= hi /\ hi <= zlen l)
  then Ok (take (Z.to_nat (hi - lo)) (drop (Z.to_nat lo) l)) else Panic.

(** [buf[off..off + data.len()].copy_from_slice(data)]. *)
Definition copy_at {A} (off : Z) (data buf : list A) : outcome (list A) :=
  if decide (0 <= off /\ off + zlen data <= zlen buf)
  then Ok (take (Z.to_nat off) buf ++ data ++ drop (Z.to_nat off + length data) buf) else Panic.

(** [l[i]] as an rvalue, and [l.get(i)]. *)
Definition get {A} (i : Z) (l : list A) : option A :=
  if decide (0 <= i) then l !! Z.to_nat i else None.
Definition index {A} (i : Z) (l : list A) : outcome A :=
  match get i l with Some a => Ok a | None => Panic end.

(** [l[i] = x]. *)
Definition set_at {A} (i : Z) (x : A) (l : list A) : outcome (list A) :=
  if decide (0 <= i < zlen l) then Ok (<[Z.to_nat i := x]> l) else Panic.

(** [uN::to_le_bytes] at [n] bytes. *)
Fixpoint to_le (n : nat) (z : Z) : bytes :=
  match n with
  | O => []
  | S n' => z `mod` 256 :: to_le n' (z / 256)
  end.

(** [uN::from_le_bytes]. *)
Fixpoint from_le (bs : bytes) : Z :=
  match bs with
  | [] => 0
  | b :: bs' => b + 256 * from_le bs'
  end.

(** [uN::from_le_bytes(data[off..off+n].try_into().unwrap())]. *)
Definition read_le (n : nat) (off : Z) (data : bytes) : outcome Z :=
  from_le <$> slice off (off + Z.of_nat n) data.

Lemma length_to_le n z : length (to_le n z) = n.
Proof. revert z. induction n; intros; cbn; auto. Qed.

Lemma to_le_bytes_ok n z : bytes_ok (to_le n z).
Proof.
  revert z. induction n as [|n IH]; intros z; cbn; constructor; [|apply IH].
  pose proof (Z.mod_pos_bound z 256). unfold in_width. lia.
Qed.

Lemma from_to_le n z : 0 <= z < 2 ^ (8 * Z.of_nat n) -> from_le (to_le n z) = z.
Proof.
  revert z. induction n as [|n IH]; intros z Hz.
  - change (2 ^ _) with 1 in Hz. cbn. lia.
  - cbn. rewrite IH.
    + pose proof (Z.div_mod z 256). lia.
    + replace (8 * Z.of_nat (S n)) with (8 * Z.of_nat n + 8) in Hz by lia.
      rewrite Z.pow_add_r in Hz by lia. change (2 ^ 8) with 256 in Hz.
      split; [apply Z.div_pos; lia | apply Z.div_lt_upper_bound; lia].
Qed.

Lemma from_le_width bs : bytes_ok bs -> 0 <= from_le bs < 2 ^ (8 * Z.of_nat (length bs)).
Proof.
  induction 1 as [|b bs Hb Hbs IH]; [cbn; lia|].
  cbn [from_le length]. replace (8 * Z.of_nat (S (length bs))) with (8 + 8 * Z.of_nat (length bs)) by lia.
  rewrite Z.pow_add_r by lia. red in Hb. change (2 ^ 8) with 256 in *. lia.
Qed.

Lemma from_le_u16 n : is_u16 n -> from_le (to_le 2 n) = n.
Proof. exact (from_to_le 2 n). Qed.
Lemma from_le_u32 n : is_u32 n -> from_le (to_le 4 n) = n.
Proof. exact (from_to_le 4 n). Qed.
Lemma from_le_u64 n : is_u64 n -> from_le (to_le 8 n) = n.
Proof. exact (from_to_le 8 n). Qed.

Lemma slice_app_exact {A} (pre mid post : list A) lo hi :
  lo = zlen pre -> hi = zlen pre + zlen mid -> slice lo hi (pre ++ mid ++ post) = Ok mid.
Proof.
  intros -> ->. unfold slice. rewrite decide_True by (rewrite !length_app; lia).
  rewrite Nat2Z.id, drop_app_length. replace (Z.to_nat _) with (length mid) by lia.
  by rewrite take_app_length.
Qed.

Lemma slice_ok {A} lo hi (l : list A) :
  0 <= lo <= hi -> hi <= zlen l -> slice lo hi l = Ok (take (Z.to_nat (hi - lo)) (drop (Z.to_nat lo) l)).
Proof. intros. unfold slice. by rewrite decide_True. Qed.

Lemma slice_panic {A} lo hi (l : list A) : zlen l < hi -> slice lo hi l = Panic.
Proof. intros. unfold slice. rewrite decide_False by lia. done. Qed.

Lemma slice_inv {A} lo hi (l x : list A) :
  slice lo hi l = Ok x -> 0 <= lo <= hi /\ hi <= zlen l /\ zlen x = hi - lo.
Proof.
  unfold slice. case_decide; [|done]. intros [= <-].
  rewrite length_take, length_drop. lia.
Qed.

Lemma read_le_app n off (pre post : bytes) z :
  off = zlen pre -> 0 <= z < 2 ^ (8 * Z.of_nat n) ->
  read_le n off (pre ++ to_le n z ++ post) = Ok z.
Proof.
  intros -> Hz. unfold read_le.
  rewrite slice_app_exact by (rewrite ?length_to_le; lia). cbn. by rewrite from_to_le.
Qed.

Lemma read_le_here n z (rest : bytes) :
  0 <= z < 2 ^ (8 * Z.of_nat n) -> read_le n 0 (to_le n z ++ rest) = Ok z.
Proof. intros Hz. by apply (read_le_app n 0 []). Qed.

Lemma read_le_skip n k off z (rest : bytes) :
  Z.of_nat k <= off -> read_le n off (to_le k z ++ rest) = read_le n (off - Z.of_nat k) rest.
Proof.
  intros H. unfold read_le, slice. rewrite length_app, length_to_le.
  case_decide; case_decide; try lia; [|done]. cbn. f_equal. f_equal. f_equal; [lia|].
  rewrite drop_app_ge by (rewrite length_to_le; lia). f_equal. rewrite length_to_le. lia.
Qed.

Lemma copy_at_ok {A} off (data buf : list A) :
  0 <= off -> off + zlen data <= zlen buf ->
  copy_at off data buf = Ok (take (Z.to_nat off) buf ++ data ++ drop (Z.to_nat off + length data) buf).
Proof. intros. unfold copy_at. by rewrite decide_True. Qed.

Lemma copy_at_app {A} off (pre mid mid' post : list A) :
  off = zlen pre -> length mid = length mid' ->
  copy_at off mid' (pre ++ mid ++ post) = Ok (pre ++ mid' ++ post).
Proof.
  intros -> Hl. rewrite copy_at_ok by (rewrite ?length_app; lia).
  rewrite Nat2Z.id, take_app_length. f_equal. f_equal. f_equal.
  rewrite <- Hl, app_assoc, <- length_app. by rewrite drop_app_length.
Qed.

Lemma copy_at_length {A} off (data buf buf' : list A) :
  copy_at off data buf = Ok buf' -> length buf' = length buf.
Proof.
  unfold copy_at. case_decide; [|done]. intros [= <-].
  rewrite !length_app, length_take, length_drop. lia.
Qed.

Lemma get_nat {A} (i : nat) (l : list A) : get (Z.of_nat i) l = l !! i.
Proof. unfold get. rewrite decide_True by lia. by rewrite Nat2Z.id. Qed.

Lemma get_Some_lt {A} i (l : list A) a : get i l = Some a -> 0 <= i < zlen l.
Proof.
  unfold get. case_decide; [|done]. intros Hl%lookup_lt_Some. lia.
Qed.

Lemma get_Some {A} i (l : list A) a : get i l = Some a <-> 0 <= i /\ l !! Z.to_nat i = Some a.
Proof. unfold get. case_decide; naive_solver. Qed.

Lemma get_is_Some {A} i (l : list A) : 0 <= i < zlen l -> exists a, get i l = Some a.
Proof.
  intros H. unfold get. rewrite decide_True by lia. apply lookup_lt_is_Some_2. lia.
Qed.

Lemma index_ok {A} i (l : list A) a : get i l = Some a -> index i l = Ok a.
Proof. intros H. unfold index. by rewrite H. Qed.

Lemma set_at_ok {A} i x (l : list A) : 0 <= i < zlen l -> set_at i x l = Ok (<[Z.to_nat i := x]> l).
Proof. intros. unfold set_at. by rewrite decide_True. Qed.

Lemma get_insert {A} i x (l : list A) : 0 <= i < zlen l -> get i (<[Z.to_nat i := x]> l) = Some x.
Proof.
  intros. unfold get. rewrite decide_True by lia. apply list_lookup_insert_eq. lia.
Qed.

Lemma get_insert_ne {A} i j x (l : list A) : 0 <= i -> i <> j -> get j (<[Z.to_nat i := x]> l) = get j l.
Proof.
  intros. unfold get. case_decide; [|done]. apply list_lookup_insert_ne. lia.
Qed.

(* ------------------------------------------------------------------ *)
(** ** Lists as the source scans them *)

(** [iter().position(p)]: the first index that satisfies [p]. *)
Fixpoint position {A} (p : A -> bool) (l : list A) : option nat :=
  match l with
  | [] => None
  | a :: l' => if p a then Some O else S <$> position p l'
  end.

(** [Vec::remove(i)] for an [i] in range. *)
Definition remove_at {A} (i : nat) (l : list A) : list A := take i l ++ drop (S i) l.

(** [Vec::insert(i, x)] for [i <= len]. *)
Definition insert_at {A} (i : nat) (x : A) (l : list A) : list A := take i l ++ x :: drop i l.

Lemma position_spec {A} (p : A -> bool) l i :
  position p l = Some i ->
  exists a, l !! i = Some a /\ p a = true /\ forall j b, (j < i)%nat -> l !! j = Some b -> p b = false.
Proof.
  revert i. induction l as [|a l IH]; intros i; cbn; [done|].
  destruct (p a) eqn:E.
  - intros [= <-]. exists a. cbn. split_and!; auto. intros; lia.
  - intros (i' & Hi & ->)%fmap_Some.
    destruct (IH _ Hi) as (b & ? & ? & Hlt). exists b. split_and!; auto.
    intros [|j] c ? ?; cbn in *; simplify_eq; auto. eapply Hlt; eauto; lia.
Qed.

Lemma position_None {A} (p : A -> bool) l :
  position p l = None <-> Forall (fun a => p a = false) l.
Proof.
  induction l as [|a l IH]; cbn; [by split|].
  destruct (p a) eqn:E; cbn.
  - split; [done|]. intros H. inversion H; subst. congruence.
  - rewrite fmap_None, IH. split; [by constructor|]. by inversion 1.
Qed.

Lemma remove_at_perm {A} i (l : list A) a : l !! i = Some a -> l ≡ₚ a :: remove_at i l.
Proof.
  intros H. unfold remove_at. rewrite <- (take_drop_middle l i a H) at 1.
  by rewrite Permutation_middle.
Qed.

Lemma insert_at_perm {A} i x (l : list A) : insert_at i x l ≡ₚ x :: l.
Proof.
  unfold insert_at. rewrite <- Permutation_middle. by rewrite take_drop.
Qed.

Lemma length_insert_at {A} i x (l : list A) : length (insert_at i x l) = S (length l).
Proof. by rewrite insert_at_perm. Qed.

Lemma Forall_filter_keep {A} (Q R : A -> Prop) `{forall x, Decision (R x)} l :
  Forall Q l -> Forall Q (filter R l).
Proof. rewrite !Forall_forall. intros HQ x [_ Hx]%list_elem_of_filter. auto. Qed.

(* ------------------------------------------------------------------ *)
(** ** Sorting *)

Section sorting.
Context {A : Type} (cmp : A -> A -> comparison).

(** [slice::sort_by], which is stable: an element stays before those it equals. *)
Fixpoint sorted_insert (x : A) (l : list A) : list A :=
  match l with
  | [] => [x]
  | y :: l' => match cmp x y with Gt => y :: sorted_insert x l' | _ => x :: l end
  end.

Definition sort_by (l : list A) : list A := foldr sorted_insert [] l.

Definition cmp_le (x y : A) : Prop := cmp x y <> Gt.

Lemma sorted_insert_perm x l : sorted_insert x l ≡ₚ x :: l.
Proof. induction l as [|y l IH]; cbn; [done|]. destruct (cmp x y); [done..|]. rewrite IH. constructor. Qed.

Lemma sort_by_perm l : sort_by l ≡ₚ l.
Proof. induction l as [|x l IH]; cbn; [done|]. by rewrite sorted_insert_perm, IH. Qed.

(** The comparison is that of a total preorder. *)
Class TotalOrder : Prop := {
  cmp_antisym : forall x y, cmp y x = CompOpp (cmp x y);
  cmp_trans : forall x y z, cmp_le x y -> cmp_le y z -> cmp_le x z;
}.

Context `{!TotalOrder}.

Lemma cmp_le_total x y : cmp_le x y \/ cmp_le y x.
Proof. unfold cmp_le. rewrite (cmp_antisym x y). by destruct (cmp x y); auto. Qed.

Lemma cmp_gt_le x y : cmp x y = Gt -> cmp_le y x.
Proof. unfold cmp_le. rewrite (cmp_antisym x y). by intros ->. Qed.

Lemma cmp_refl x : cmp x x = Eq.
Proof. pose proof (cmp_antisym x x). by destruct (cmp x x). Qed.

Lemma cmp_eq_l x y z : cmp x y = Eq -> cmp x z = cmp y z.
Proof.
  intros E. assert (Hxy : cmp_le x y) by (unfold cmp_le; congruence).
  assert (Hyx : cmp_le y x) by (unfold cmp_le; by rewrite (cmp_antisym x y), E).
  assert (Hl : cmp_le x z <-> cmp_le y z) by (split; eauto using cmp_trans).
  assert (Hr : cmp_le z x <-> cmp_le z y) by (split; eauto using cmp_trans).
  unfold cmp_le in Hl, Hr. rewrite (cmp_antisym x z), (cmp_antisym y z) in Hr.
  destruct (cmp x z), (cmp y z); cbn in *; intuition congruence.
Qed.

Lemma sorted_insert_sorted x l : StronglySorted cmp_le l -> StronglySorted cmp_le (sorted_insert x l).
Proof.
  induction 1 as [|y l Hl IH Hy]; cbn; [repeat constructor|].
  destruct (cmp x y) eqn:E.
  1,2: constructor; [by constructor|]; constructor; [unfold cmp_le; congruence|];
    eapply Forall_impl; [exact Hy|]; intros z; apply cmp_trans; unfold cmp_le; congruence.
  constructor; [done|]. rewrite (sorted_insert_perm x l). constructor; [by apply cmp_gt_le|done].
Qed.

Lemma sort_by_sorted l : StronglySorted cmp_le (sort_by l).
Proof. induction l as [|x l IH]; cbn; [constructor|]. by apply sorted_insert_sorted. Qed.

(** Elements that compare equal keep their order. *)
Lemma sort_by_stable x l :
  List.filter (fun y => bool_decide (cmp x y = Eq)) (sort_by l) = List.filter (fun y => bool_decide (cmp x y = Eq)) l.
Proof.
  induction l as [|y l IH]; [done|]. cbn [sort_by foldr]. fold (sort_by l).
  pose proof (sort_by_sorted l) as Hs. revert IH Hs. generalize (sort_by l) as r. intros r. cbn [List.filter].
  set (f := fun y => bool_decide (cmp x y = Eq)). intros Hf Hs. rewrite <- Hf. clear Hf.
  induction Hs as [|z r Hr IH Hz]; [done|]. cbn [sorted_insert]. destruct (cmp y z) eqn:E; [done..|].
  cbn [List.filter]. rewrite IH. change (bool_decide (cmp x y = Eq)) with (f y).
  destruct (f y) eqn:Ey, (f z) eqn:Ez; try done. unfold f in Ey, Ez.
  apply bool_decide_eq_true in Ey. apply bool_decide_eq_true in Ez.
  rewrite (cmp_eq_l y x z) in E by (by rewrite (cmp_antisym x y), Ey). congruence.
Qed.
End sorting.

(** Orders from orders: by a key, reversed, and lexicographically. *)
Lemma key_total {A B} (f : A -> B) cmp `{!TotalOrder cmp} : TotalOrder (fun x y => cmp (f x) (f y)).
Proof. split; [intros; apply cmp_antisym|intros x y z; apply (cmp_trans cmp)]; done. Qed.

Lemma reverse_total {A} (cmp : A -> A -> comparison) `{!TotalOrder cmp} : TotalOrder (fun x y => CompOpp (cmp x y)).
Proof.
  split; [intros x y; by rewrite (cmp_antisym cmp x y)|].
  intros x y z. unfold cmp_le. rewrite <- !(cmp_antisym cmp). intros H H'. apply (cmp_trans cmp z y x H' H).
Qed.

Lemma lexicographic_total {A} (c c' : A -> A -> comparison) `{!TotalOrder c, !TotalOrder c'} :
  TotalOrder (fun x y => match c x y with Eq => c' x y | o => o end).
Proof.
  split.
  - intros x y. rewrite (cmp_antisym c x y). destruct (c x y); cbn; [apply cmp_antisym, _|done..].
  - intros x y z. unfold cmp_le. intros H H'.
    assert (Hxy : cmp_le c x y) by (unfold cmp_le; by destruct (c x y)).
    assert (Hyz : cmp_le c y z) by (unfold cmp_le; by destruct (c y z)).
    pose proof (cmp_trans c x y z Hxy Hyz) as Hxz. unfold cmp_le in Hxz. destruct (c x z) eqn:Exz; [|done..].
    assert (Eyx : c x y = Eq).
    { destruct (c x y) eqn:E; [done| |done]. exfalso.
      assert (cmp_le c z x) as Hzx by (unfold cmp_le; by rewrite (cmp_antisym c x z), Exz).
      pose proof (cmp_trans c y z x Hyz Hzx) as Hyx. unfold cmp_le in Hyx. by rewrite (cmp_antisym c x y), E in Hyx. }
    rewrite Eyx in H. rewrite <- (cmp_eq_l c x y z Eyx), Exz in H'. by apply (cmp_trans c' x y z).
Qed.

(* ------------------------------------------------------------------ *)
(** ** Automation *)

Create HintDb rust.
Create Rewrite HintDb rust.
Create Rewrite HintDb rust_len.
#[export] Hint Resolve to_le_bytes_ok wrap_in_width : rust.
#[export] Hint Rewrite length_to_le @length_app @length_replicate @length_take @length_drop : rust_len.
#[export] Hint Rewrite @ok_bind : rust.

(** Length arithmetic on concatenations of byte fields. *)
Ltac len := autorewrite with rust_len in *; cbn [length] in *; lia.

(** Invert a hypothesis [m ≫= f = Ok b] (or a chain of them) into its steps. *)
Ltac inv_bind H :=
  repeat match type of H with
  | _ ≫= _ = Ok _ => let a := fresh "v" in let E := fresh "Hstep" in
      apply bind_ok in H as (a & E & H)
  end.

(** Case analysis on the test the goal is stuck on. *)
Ltac case_test :=
  match goal with
  | |- context [if decide ?P then _ else _] => destruct (decide P)
  | |- context [if ?b then _ else _] => destruct b eqn:?
  end.

(** Run one step of a computation: [step_by tac] proves with [tac] that the
    first action returns, and continues with its result. *)
Ltac step_by tac := eapply bind_step; [solve [tac] | cbv beta].

(** Read a little-endian field at a constant offset of a right-nested
    concatenation of [to_le] fields. *)
Ltac read_field :=
  repeat (rewrite read_le_skip by (vm_compute; discriminate);
    match goal with |- context [read_le _ (?a - ?b) _] =>
      let v := eval vm_compute in (a - b) in change (a - b) with v end);
  apply read_le_here; assumption.

Ltac read_fields := rewrite <- ?app_assoc; repeat step_by read_field.
