(* ===== verification/Types.v ===== *)
(** The shared data types of [src/src/types/mod.rs].

    [Oid], [PageId], [SlotId] and [TransactionId] are one-field tuple structs
    around an unsigned integer; they are the integer here.  An [f64] field is
    kept as its IEEE bit pattern. *)

From S2P Require Import Prelude.

Abbreviation Oid := Z (only parsing).
Abbreviation PageId := Z (only parsing).
Abbreviation SlotId := Z (only parsing).
Abbreviation TransactionId := Z (only parsing).

Record ItemPointerData := {
  ip_page_id : PageId;
  ip_offset : Z;
}.

Record Tuple := {
  tup_slots : list SlotId;
  tup_data : bytes;
  tup_xmin : Z;
  tup_xmax : Z;
  tup_cmin : Z;
  tup_cmax : Z;
  tup_xvac : Z;
}.

Record Attribute := {
  att_name : string;
  att_type_oid : Oid;
  att_attnum : Z;
  att_typmod : Z;
}.

Record TupleDesc := { td_fields : list Attribute }.

Record Relation := {
  rel_oid : Oid;
  rel_name : string;
  rel_tuple_desc : TupleDesc;
  rel_pages : list PageId;
  rel_relpages : Z;
  rel_reltuples_bits : Z;
  rel_relfrozenxid : Z;
}.

(** An [as i16] cast of an index. *)
Definition as_i16 (n : nat) : Z :=
  let w := wrap 16 (Z.of_nat n) in if decide (w < 2 ^ 15) then w else w - 2 ^ 16.

(** [Relation::empty]. *)
Definition Relation_empty (name : string) (cols : list (string * Oid)) : Relation :=
  {| rel_oid := 0;
     rel_name := name;
     rel_tuple_desc := {| td_fields :=
       imap (fun i '(n, ty) =>
         {| att_name := n; att_type_oid := ty; att_attnum := as_i16 i; att_typmod := -1 |}) cols |};
     rel_pages := [];
     rel_relpages := 0;
     rel_reltuples_bits := 0;
     rel_relfrozenxid := 0 |}.

Definition toastable_types : list Oid := [25; 1043; 17; 3802; 114; 1009].

(** [Relation::has_toast_columns]. *)
Definition has_toast_columns (r : Relation) : bool :=
  existsb (fun a => bool_decide (att_type_oid a ∈ toastable_types)) (td_fields (rel_tuple_desc r)).

#[export] Instance ItemPointerData_eq_dec : EqDecision ItemPointerData.
Proof. solve_decision. Defined.

#[export] Instance Tuple_eq_dec : EqDecision Tuple.
Proof. solve_decision. Defined.

#[export] Instance Attribute_eq_dec : EqDecision Attribute.
Proof. solve_decision. Defined.

#[export] Instance TupleDesc_eq_dec : EqDecision TupleDesc.
Proof. solve_decision. Defined.

#[export] Instance Relation_eq_dec : EqDecision Relation.
Proof. solve_decision. Defined.

(** Set the page list of a relation, as the heap's insert does. *)
Definition with_pages (r : Relation) (pages : list PageId) : Relation :=
  {| rel_oid := rel_oid r;
     rel_name := rel_name r;
     rel_tuple_desc := rel_tuple_desc r;
     rel_pages := pages;
     rel_relpages := rel_relpages r;
     rel_reltuples_bits := rel_reltuples_bits r;
     rel_relfrozenxid := rel_relfrozenxid r |}.
