(* ===== verification/Storage.v ===== *)
(** Page storage: the trait [StorageTrait] ([src/src/storage/mod.rs]) as the
    class [Storage], the laws its clients rely on as [StorageLaws], and its two
    implementations [EphemeralStorage] ([ephemeral.rs]) and [MmapStorage]
    ([mmap.rs]), which both satisfy them; relation forks ([fork.rs]). *)

From S2P Require Import Prelude Types.

(** [StorageTrait]. A failing write may leave a different store behind, so the
    store is returned with the outcome. *)
Class Storage (S : Type) := {
  read_page : S -> PageId -> outcome bytes;
  write_page : S -> PageId -> bytes -> outcome unit * S;
  sync_all : S -> outcome unit;
}.

(** What the index and heap code relies on, for stores [s] that satisfy the
    implementation's own validity predicate: writing a full page of [psize]
    bytes succeeds, is read back, and leaves every other page alone. *)
Class StorageLaws (S : Type) `{Storage S} (psize : nat) (valid : S -> Prop) := {
  write_full : forall s p data,
    valid s -> is_u32 p -> length data = psize ->
    exists s', write_page s p data = (Ok tt, s') /\ valid s' /\
      read_page s' p = Ok data /\
      forall q, is_u32 q -> q <> p -> read_page s' q = read_page s q;
}.

(* ------------------------------------------------------------------ *)
(** ** EphemeralStorage *)

Record EphemeralStorage := { eph_pages : gmap PageId bytes }.

Definition EphemeralStorage_new : EphemeralStorage := {| eph_pages := ∅ |}.

Definition zero_page : bytes := replicate (Z.to_nat 8192) 0.

Definition eph_read_page (s : EphemeralStorage) (p : PageId) : outcome bytes :=
  Ok (default zero_page (eph_pages s !! p)).

Definition eph_write_page (s : EphemeralStorage) (p : PageId) (data : bytes) :
    outcome unit * EphemeralStorage :=
  (Ok tt, {| eph_pages := <[p := data]> (eph_pages s) |}).

#[export] Instance Ephemeral_Storage : Storage EphemeralStorage := {
  read_page := eph_read_page;
  write_page := eph_write_page;
  sync_all := fun _ => Ok tt;
}.

Lemma eph_read_write s p data :
  exists s', eph_write_page s p data = (Ok tt, s') /\ eph_read_page s' p = Ok data /\
    forall q, q <> p -> eph_read_page s' q = eph_read_page s q.
Proof.
  eexists. split; [reflexivity|]. unfold eph_read_page. cbn. split.
  - by rewrite lookup_insert_eq.
  - intros q Hq. by rewrite lookup_insert_ne.
Qed.

#[export] Instance Ephemeral_laws psize : StorageLaws EphemeralStorage psize (fun _ => True).
Proof.
  split. intros s p data _ _ _. destruct (eph_read_write s p data) as (s' & ? & ? & ?).
  exists s'. split_and!; cbn; auto.
Qed.

(* ------------------------------------------------------------------ *)
(** ** MmapStorage *)

(** The backing file: its length and the bytes that were written; a byte never
    written reads as zero, as [set_len] leaves it. *)
Record File := { file_len : Z; file_bytes : gmap Z Z }.

Record MmapStorage := { mm_file : File; mm_page_size : nat }.

(** [MmapStorage::open]: the file is truncated and extended to one gibibyte. *)
Definition MmapStorage_open (page_size : nat) : MmapStorage :=
  {| mm_file := {| file_len := 1024 * 1024 * 1024; file_bytes := ∅ |}; mm_page_size := page_size |}.

(** [seek] to [off] and [read_exact] of [n] bytes: an error past the end. *)
Definition file_read_exact (f : File) (off : Z) (n : nat) : outcome bytes :=
  if decide (off + Z.of_nat n <= file_len f)
  then Ok ((fun i => default 0 (file_bytes f !! (off + Z.of_nat i))) <$> seq 0 n)
  else Err (Anyhow "failed to fill whole buffer" []).

Fixpoint write_bytes (off : Z) (data : bytes) (m : gmap Z Z) : gmap Z Z :=
  match data with
  | [] => m
  | b :: data' => write_bytes (off + 1) data' (<[off := b]> m)
  end.

(** [seek] to [off] and [write_all]; writing past the end extends the file. *)
Definition file_write_all (f : File) (off : Z) (data : bytes) : File :=
  {| file_len := if decide (data = []) then file_len f
                 else Z.max (file_len f) (off + Z.of_nat (length data));
     file_bytes := write_bytes off data (file_bytes f) |}.

Definition mm_read_page (s : MmapStorage) (p : PageId) : outcome bytes :=
  file_read_exact (mm_file s) (p * Z.of_nat (mm_page_size s)) (mm_page_size s).

Definition mm_write_page (s : MmapStorage) (p : PageId) (data : bytes) : outcome unit * MmapStorage :=
  if decide (mm_page_size s < length data)%nat
  then (Err (Anyhow "data too large for page" []), s)
  else (Ok tt, {| mm_file := file_write_all (mm_file s) (p * Z.of_nat (mm_page_size s)) data;
                  mm_page_size := mm_page_size s |}).

#[export] Instance Mmap_Storage : Storage MmapStorage := {
  read_page := mm_read_page;
  write_page := mm_write_page;
  sync_all := fun _ => Ok tt;
}.

Lemma write_bytes_lookup off data m k :
  write_bytes off data m !! k =
  if decide (off <= k < off + Z.of_nat (length data))
  then data !! Z.to_nat (k - off) else m !! k.
Proof.
  revert off m. induction data as [|b data IH]; intros off m; cbn.
  - rewrite decide_False by lia. done.
  - rewrite IH. destruct (decide (k = off)) as [->|Hne].
    + rewrite decide_False by lia. rewrite decide_True by lia.
      rewrite lookup_insert_eq. by rewrite Z.sub_diag.
    + rewrite lookup_insert_ne by done. case_decide; case_decide; try lia; [|done].
      replace (Z.to_nat (k - off)) with (S (Z.to_nat (k - (off + 1)))) by lia. done.
Qed.

Lemma file_read_written f off data :
  file_read_exact (file_write_all f off data) off (length data) = Ok data \/
  file_len f < off /\ data = [].
Proof.
  unfold file_read_exact, file_write_all; cbn.
  destruct (decide (data = [])) as [->|Hne]; cbn.
  - destruct (decide (off <= file_len f)); [left|right; split; [lia|done]]. by rewrite decide_True by lia.
  - left. rewrite decide_True by lia. f_equal. apply list_eq. intros i.
    rewrite list_lookup_fmap. destruct (decide (i < length data)%nat).
    + rewrite lookup_seq_lt by done. cbn. rewrite write_bytes_lookup, decide_True by lia.
      replace (Z.to_nat _) with i by lia.
      destruct (lookup_lt_is_Some_2 data i) as [x ->]; done.
    + rewrite lookup_seq_ge by lia. symmetry. by apply lookup_ge_None_2; lia.
Qed.

Lemma file_read_other f off off' data n :
  off + Z.of_nat (length data) <= off' \/ off' + Z.of_nat n <= off ->
  off + Z.of_nat (length data) <= file_len f ->
  file_read_exact (file_write_all f off data) off' n = file_read_exact f off' n.
Proof.
  intros Hdis Hlen. unfold file_read_exact, file_write_all; cbn.
  replace (if decide (data = []) then _ else _) with (file_len f) by (case_decide; lia).
  case_decide; [|done]. f_equal. apply list_fmap_ext. intros i x [-> Hi]%lookup_seq.
  rewrite write_bytes_lookup. rewrite decide_False; [done|]. lia.
Qed.

(** A memory-mapped store is valid when its file is exactly the pages of a
    32-bit page number: every page id is inside the file. *)
Definition mm_valid (psize : nat) (s : MmapStorage) : Prop :=
  mm_page_size s = psize /\ 2 ^ 32 * Z.of_nat psize <= file_len (mm_file s).

#[export] Instance Mmap_laws psize : StorageLaws MmapStorage psize (mm_valid psize).
Proof.
  split. intros s p data [Hps Hlen] Hp Hdata. cbn.
  unfold mm_write_page, mm_read_page. rewrite decide_False by lia.
  eexists. split; [reflexivity|]. cbn. unfold in_width in *.
  assert (p * Z.of_nat psize + Z.of_nat psize <= file_len (mm_file s)) by nia.
  split_and!.
  - split; [done|]. cbn. unfold file_write_all. cbn. case_decide; lia.
  - rewrite Hps, <- Hdata.
    destruct (file_read_written (mm_file s) (p * Z.of_nat (length data)) data) as [E|[? ?]]; [done|].
    subst psize. lia.
  - intros q Hq Hne. rewrite !Hps, <- Hdata. apply file_read_other; nia.
Qed.

(* ------------------------------------------------------------------ *)
(** ** Forks of a relation *)

Inductive ForkType := Main | Fsm | Vm.

#[export] Instance ForkType_eq_dec : EqDecision ForkType.
Proof. solve_decision. Defined.

#[export] Instance ForkType_countable : Countable ForkType.
Proof.
  refine (inj_countable' (fun f => match f with Main => 0%nat | Fsm => 1%nat | Vm => 2%nat end)
                         (fun n => match n with O => Main | 1%nat => Fsm | _ => Vm end) _).
  by intros [].
Defined.

(** [ForkType::suffix]. *)
Definition suffix (f : ForkType) : string :=
  match f with Main => "" | Fsm => "_fsm" | Vm => "_vm" end.

(** [ForkType::all]. *)
Definition all : list ForkType := [Main; Fsm; Vm].

(** [fork_page_id]: both additions wrap at 32 bits. *)
Definition fork_page_id (rel_oid : Oid) (fork : ForkType) (block : Z) : PageId :=
  let fork_offset := match fork with
    | Main => 0
    | Fsm => 1000000000
    | Vm => 2000000000
    end in
  ((rel_oid + fork_offset) as_u32 + block) as_u32.

(** [read_page_fork] and [write_page_fork], the trait's provided methods. *)
Definition read_page_fork {S} `{Storage S} (s : S) (rel_oid : Oid) (fork : ForkType) (block : Z) :
    outcome bytes :=
  read_page s (fork_page_id rel_oid fork block).

Definition write_page_fork {S} `{Storage S} (s : S) (rel_oid : Oid) (fork : ForkType) (block : Z)
    (data : bytes) : outcome unit * S :=
  write_page s (fork_page_id rel_oid fork block) data.

Record ForkFile := {
  ff_rel_oid : Oid;
  ff_fork : ForkType;
  ff_pages : list PageId;
}.

Definition ForkFile_new (rel_oid : Oid) (fork : ForkType) : ForkFile :=
  {| ff_rel_oid := rel_oid; ff_fork := fork; ff_pages := [] |}.

(** [ForkFile::add_page]. *)
Definition add_page (f : ForkFile) (page_id : PageId) : ForkFile :=
  if decide (page_id ∈ ff_pages f) then f
  else {| ff_rel_oid := ff_rel_oid f; ff_fork := ff_fork f; ff_pages := ff_pages f ++ [page_id] |}.

Definition page_count (f : ForkFile) : nat := length (ff_pages f).

Record RelationForks := { rf_forks : gmap ForkType ForkFile }.

(** [RelationForks::new]: one insertion per fork kind. *)
Definition RelationForks_new (rel_oid : Oid) : RelationForks :=
  {| rf_forks := fold_left (fun m fork => <[fork := ForkFile_new rel_oid fork]> m) all ∅ |}.

Definition get_fork (rf : RelationForks) (fork : ForkType) : option ForkFile := rf_forks rf !! fork.

(** [RelationForks::add_page]. *)
Definition RelationForks_add_page (rf : RelationForks) (fork : ForkType) (page_id : PageId) :
    RelationForks :=
  match rf_forks rf !! fork with
  | Some f => {| rf_forks := <[fork := add_page f page_id]> (rf_forks rf) |}
  | None => rf
  end.

(** [main_pages], [fsm_pages] and [vm_pages] differ only in the fork they name. *)
Definition fork_pages (rf : RelationForks) (fork : ForkType) : list PageId :=
  match rf_forks rf !! fork with Some f => ff_pages f | None => [] end.
Definition main_pages (rf : RelationForks) : list PageId := fork_pages rf Main.
Definition fsm_pages (rf : RelationForks) : list PageId := fork_pages rf Fsm.
Definition vm_pages (rf : RelationForks) : list PageId := fork_pages rf Vm.

(** Every fork of the relation is present and lists no page twice. *)
Definition forks_wf (rf : RelationForks) : Prop :=
  forall fork, exists f, rf_forks rf !! fork = Some f /\ ff_fork f = fork /\ NoDup (ff_pages f).

Lemma forks_new_wf rel_oid : forks_wf (RelationForks_new rel_oid).
Proof. intros []; eexists; (split; [reflexivity|]); split; [done|constructor| |constructor| |constructor]; done. Qed.

Lemma add_page_nodup f p : NoDup (ff_pages f) -> NoDup (ff_pages (add_page f p)).
Proof.
  intros H. unfold add_page. case_decide; [done|]. cbn. apply NoDup_app. split_and!; auto.
  - intros x Hx Hx2%list_elem_of_singleton. by subst.
  - apply NoDup_singleton.
Qed.

Lemma add_page_elem f p q : q ∈ ff_pages (add_page f p) <-> q = p \/ q ∈ ff_pages f.
Proof. unfold add_page. case_decide; cbn; set_solver. Qed.

(** Adding a page keeps the forks well formed, lists the page in its fork, and
    leaves the page lists of the other forks alone. *)
Theorem forks_add_page_spec rf fork p :
  forks_wf rf ->
  forks_wf (RelationForks_add_page rf fork p) /\
  (forall q, q ∈ fork_pages (RelationForks_add_page rf fork p) fork <-> q = p \/ q ∈ fork_pages rf fork) /\
  (forall fork', fork' <> fork ->
     fork_pages (RelationForks_add_page rf fork p) fork' = fork_pages rf fork').
Proof.
  intros Hwf. destruct (Hwf fork) as (f & Hf & Hk & Hnd).
  unfold fork_pages, RelationForks_add_page. rewrite Hf. cbn. split_and!.
  - intros fork'. destruct (Hwf fork') as (f' & Hf' & Hk' & Hnd').
    destruct (decide (fork' = fork)) as [->|Hne].
    + cbn. rewrite lookup_insert_eq. eexists. split_and!; [done| |by apply add_page_nodup].
      unfold add_page. by case_decide.
    + cbn. rewrite lookup_insert_ne by done. eauto.
  - intros q. rewrite lookup_insert_eq. apply add_page_elem.
  - intros fork' Hne. by rewrite lookup_insert_ne.
Qed.
