(* ===== verification/HeapPage.v ===== *)
(** The slotted heap page of [src/src/storage/heap_page.rs]: the page header and
    line pointers with their byte encodings, tuple insertion, pruning and
    compaction, HOT updates and chains, and the 8 KiB page encoding. *)

From S2P Require Import Prelude.

Definition PAGE_SIZE : Z := 8192.
Definition PAGE_HEADER_SIZE : Z := 26.
Definition LINE_POINTER_SIZE : Z := 4.
Definition MAX_OFFSET : Z := PAGE_SIZE as_u16.

(* ------------------------------------------------------------------ *)
(** ** Page header *)

Record PageHeader := {
  pd_lsn : Z;
  pd_checksum : Z;
  pd_flags : Z;
  pd_lower : Z;
  pd_upper : Z;
  pd_special : Z;
  pd_pagesize_version : Z;
  pd_prune_xid : Z;
}.

#[export] Instance PageHeader_eq_dec : EqDecision PageHeader.
Proof. solve_decision. Defined.

Definition PageHeader_new : PageHeader :=
  {| pd_lsn := 0; pd_checksum := 0; pd_flags := 0;
     pd_lower := PAGE_HEADER_SIZE as_u16;
     pd_upper := PAGE_SIZE as_u16;
     pd_special := PAGE_SIZE as_u16;
     pd_pagesize_version := 2050;
     pd_prune_xid := 0 |}.

(** The eight range copies cover the 26-byte buffer in order. *)
Definition PageHeader_serialize (h : PageHeader) : bytes :=
  to_le 8 (pd_lsn h) ++ to_le 4 (pd_checksum h) ++ to_le 2 (pd_flags h) ++
  to_le 2 (pd_lower h) ++ to_le 2 (pd_upper h) ++ to_le 2 (pd_special h) ++
  to_le 2 (pd_pagesize_version h) ++ to_le 4 (pd_prune_xid h).

Definition PageHeader_deserialize (data : bytes) : outcome PageHeader :=
  lsn ← read_le 8 0 data;
  checksum ← read_le 4 8 data;
  flags ← read_le 2 12 data;
  lower ← read_le 2 14 data;
  upper ← read_le 2 16 data;
  special ← read_le 2 18 data;
  version ← read_le 2 20 data;
  prune_xid ← read_le 4 22 data;
  Ok {| pd_lsn := lsn; pd_checksum := checksum; pd_flags := flags; pd_lower := lower;
        pd_upper := upper; pd_special := special; pd_pagesize_version := version;
        pd_prune_xid := prune_xid |}.

Definition with_lower_upper (h : PageHeader) (lower upper : Z) : PageHeader :=
  {| pd_lsn := pd_lsn h; pd_checksum := pd_checksum h; pd_flags := pd_flags h;
     pd_lower := lower; pd_upper := upper; pd_special := pd_special h;
     pd_pagesize_version := pd_pagesize_version h; pd_prune_xid := pd_prune_xid h |}.

Definition with_prune_xid (h : PageHeader) (xid : Z) : PageHeader :=
  {| pd_lsn := pd_lsn h; pd_checksum := pd_checksum h; pd_flags := pd_flags h;
     pd_lower := pd_lower h; pd_upper := pd_upper h; pd_special := pd_special h;
     pd_pagesize_version := pd_pagesize_version h; pd_prune_xid := xid |}.

(* ------------------------------------------------------------------ *)
(** ** Line pointers *)

Record LinePointer := { lp_offset : Z; lp_flags : Z }.

#[export] Instance LinePointer_eq_dec : EqDecision LinePointer.
Proof. solve_decision. Defined.

Definition LP_NORMAL : Z := 0.
Definition LP_REDIRECT : Z := 1.
Definition LP_DEAD : Z := 2.

Definition LinePointer_new (offset : Z) : LinePointer :=
  {| lp_offset := offset; lp_flags := LP_NORMAL |}.

Definition LinePointer_serialize (lp : LinePointer) : bytes :=
  to_le 2 (lp_offset lp) ++ to_le 2 (lp_flags lp).

Definition LinePointer_deserialize (data : bytes) : outcome LinePointer :=
  offset ← read_le 2 0 data;
  flags ← read_le 2 2 data;
  Ok {| lp_offset := offset; lp_flags := flags |}.

Definition is_normal (lp : LinePointer) : bool := lp_flags lp =? LP_NORMAL.
Definition is_redirect (lp : LinePointer) : bool := lp_flags lp =? LP_REDIRECT.
Definition is_dead (lp : LinePointer) : bool := lp_flags lp =? LP_DEAD.

Definition set_flags (lp : LinePointer) (flags : Z) : LinePointer :=
  {| lp_offset := lp_offset lp; lp_flags := flags |}.
Definition set_offset (lp : LinePointer) (offset : Z) : LinePointer :=
  {| lp_offset := offset; lp_flags := lp_flags lp |}.

(* ------------------------------------------------------------------ *)
(** ** The page *)

Record PruneResult := {
  tuples_pruned : Z;
  chains_followed : Z;
  page_pruned : bool;
}.

Definition PruneResult_default : PruneResult :=
  {| tuples_pruned := 0; chains_followed := 0; page_pruned := false |}.

Record HeapPage := {
  header : PageHeader;
  line_pointers : list LinePointer;
  tuples : list bytes;
}.

#[export] Instance HeapPage_eq_dec : EqDecision HeapPage.
Proof. solve_decision. Defined.

Definition HeapPage_new : HeapPage :=
  {| header := PageHeader_new; line_pointers := []; tuples := [] |}.

Section Ops.
Context {P : Profile}.

(** The loop of [HeapPage::serialize] that lays the tuples out from the end of
    the page backwards; [ts] is the tuple vector from the current index on, so
    its head is [self.tuples.get(i)]. *)
Fixpoint place_tuples (lps : list LinePointer) (ts : list bytes) (tuple_offset : Z) (page : bytes) :
    outcome (list LinePointer * Z * bytes) :=
  match lps with
  | [] => Ok ([], tuple_offset, page)
  | lp :: lps' =>
      '(lp', tuple_offset', page') ←
        (if is_normal lp then
           match head ts with
           | Some ((_ :: _) as tuple_data) =>
               off ← sub_w 64 tuple_offset (zlen tuple_data);
               stop ← add_w 64 off (zlen tuple_data);
               if decide (off <= stop) then
                 page' ← copy_at off tuple_data page;
                 Ok (set_offset lp (off as_u16), off, page')
               else Panic
           | _ => Ok (lp, tuple_offset, page)
           end
         else Ok (set_offset lp 0, tuple_offset, page));
      '(rest, tuple_offset'', page'') ← place_tuples lps' (tail ts) tuple_offset' page';
      Ok (lp' :: rest, tuple_offset'', page'')
  end.

(** The loop that writes the line pointers after the header. *)
Fixpoint write_line_pointers (lps : list LinePointer) (offset : Z) (page : bytes) : outcome bytes :=
  match lps with
  | [] => Ok page
  | lp :: lps' =>
      page' ← copy_at offset (LinePointer_serialize lp) page;
      write_line_pointers lps' (offset + LINE_POINTER_SIZE) page'
  end.

Definition HeapPage_serialize (p : HeapPage) : outcome bytes :=
  let page := replicate (Z.to_nat PAGE_SIZE) 0 in
  '(lps, tuple_offset, page) ← place_tuples (line_pointers p) (tuples p) PAGE_SIZE page;
  let hdr := with_lower_upper (header p)
    ((PAGE_HEADER_SIZE + zlen lps * LINE_POINTER_SIZE) as_u16) (tuple_offset as_u16) in
  page ← copy_at 0 (PageHeader_serialize hdr) page;
  write_line_pointers lps PAGE_HEADER_SIZE page.

(** The loop that reads [n] line pointers starting at index [i]. *)
Fixpoint read_line_pointers (n : nat) (i : Z) (data : bytes) : outcome (list LinePointer) :=
  match n with
  | O => Ok []
  | S n' =>
      let offset := PAGE_HEADER_SIZE + i * LINE_POINTER_SIZE in
      chunk ← slice offset (offset + LINE_POINTER_SIZE) data;
      lp ← LinePointer_deserialize chunk;
      rest ← read_line_pointers n' (i + 1) data;
      Ok (lp :: rest)
  end.

(** The end of a tuple: the offset of the closest earlier normal line pointer,
    or [pd_special]; [before] holds the earlier pointers, the closest first. *)
Definition tuple_end (before : list LinePointer) (special : Z) : Z :=
  match List.find is_normal before with
  | Some lp => lp_offset lp
  | None => special
  end.

(** The loop that cuts the tuples out of the page. *)
Fixpoint read_tuples (before lps : list LinePointer) (special : Z) (data : bytes) :
    outcome (list bytes) :=
  match lps with
  | [] => Ok []
  | lp :: lps' =>
      t ← (if is_normal lp then
             let start := lp_offset lp in
             let stop := tuple_end before special in
             if decide (start < stop /\ stop <= PAGE_SIZE) then slice start stop data else Ok []
           else Ok []);
      rest ← read_tuples (lp :: before) lps' special data;
      Ok (t :: rest)
  end.

(** A [pd_lower] below the header underflows: a panic under overflow checks,
    and otherwise a capacity beyond [isize::MAX] bytes, which panics too. *)
Definition HeapPage_deserialize (data : bytes) : outcome HeapPage :=
  hdr ← PageHeader_deserialize data;
  span ← sub_w 64 (pd_lower hdr) PAGE_HEADER_SIZE;
  let num_line_pointers := span / LINE_POINTER_SIZE in
  if decide (2 ^ 63 <= num_line_pointers * LINE_POINTER_SIZE) then Panic else
  lps ← read_line_pointers (Z.to_nat num_line_pointers) 0 data;
  ts ← read_tuples [] lps (pd_special hdr) data;
  Ok {| header := hdr; line_pointers := lps; tuples := ts |}.

(** [add_tuple]: reuse the first dead slot, else append one. *)
Definition add_tuple (p : HeapPage) (tuple_data : bytes) : outcome (option Z * HeapPage) :=
  let slot_index := (fun i => (Z.of_nat i) as_u16) <$> position is_dead (line_pointers p) in
  let lower := pd_lower (header p) in
  let new_lower := match slot_index with
                   | None => lower + LINE_POINTER_SIZE
                   | Some _ => lower
                   end in
  new_upper ← sub_w 64 (pd_upper (header p)) (zlen tuple_data);
  if decide (new_upper < new_lower) then Ok (None, p) else
  match slot_index with
  | Some idx =>
      lps ← set_at idx (LinePointer_new (new_upper as_u16)) (line_pointers p);
      let ts := if decide (idx < zlen (tuples p))
                then <[Z.to_nat idx := tuple_data]> (tuples p) else tuples p in
      Ok (Some idx, {| header := with_lower_upper (header p) lower (new_upper as_u16);
                       line_pointers := lps; tuples := ts |})
  | None =>
      let idx := (zlen (line_pointers p)) as_u16 in
      Ok (Some idx,
          {| header := with_lower_upper (header p) (new_lower as_u16) (new_upper as_u16);
             line_pointers := line_pointers p ++ [LinePointer_new (new_upper as_u16)];
             tuples := tuples p ++ [tuple_data] |})
  end.

(** The first loop of [compact]: the pointers that are not dead, each with its
    tuple ([Vec::new()] when the tuple vector is shorter). *)
Fixpoint keep_live (lps : list LinePointer) (ts : list bytes) : list (LinePointer * bytes) :=
  match lps with
  | [] => []
  | lp :: lps' =>
      let rest := keep_live lps' (tail ts) in
      if negb (is_dead lp) then (lp, default [] (head ts)) :: rest else rest
  end.

(** The bytes the normal tuples take. *)
Fixpoint normal_len (lps : list LinePointer) (ts : list bytes) : Z :=
  match lps, ts with
  | lp :: lps', t :: ts' => (if is_normal lp then zlen t else 0) + normal_len lps' ts'
  | _, _ => 0
  end.

Definition compact (p : HeapPage) : outcome HeapPage :=
  let live := keep_live (line_pointers p) (tuples p) in
  let lps := live.*1 in
  let ts := live.*2 in
  upper ← sub_w 64 PAGE_SIZE (normal_len lps ts);
  Ok {| header := with_lower_upper (header p)
          ((PAGE_HEADER_SIZE + zlen lps * LINE_POINTER_SIZE) as_u16) (upper as_u16);
        line_pointers := lps; tuples := ts |}.

(** Whether the pruning loop marks a slot dead: its pointer is normal and the
    eight bytes at 16 hold a nonzero xid whose low half is below the cutoff. *)
Definition prunable (cutoff_xid : Z) (lp : LinePointer) (t : option bytes) : outcome bool :=
  if negb (is_normal lp) then Ok false else
  match t with
  | None => Ok false
  | Some tuple_data =>
      if decide (zlen tuple_data < 23) then Ok false else
      xmax ← read_le 8 16 tuple_data;
      Ok (negb (xmax =? 0) && (xmax as_u32 <? cutoff_xid))
  end.

Fixpoint prune_loop (cutoff_xid : Z) (lps : list LinePointer) (ts : list bytes) (r : PruneResult) :
    outcome (list LinePointer * PruneResult) :=
  match lps with
  | [] => Ok ([], r)
  | lp :: lps' =>
      b ← prunable cutoff_xid lp (head ts);
      pruned ← (if b : bool then add_w 32 (tuples_pruned r) 1 else Ok (tuples_pruned r));
      let r' := if b : bool then {| tuples_pruned := pruned; chains_followed := chains_followed r;
                                    page_pruned := true |} else r in
      '(rest, r'') ← prune_loop cutoff_xid lps' (tail ts) r';
      Ok ((if b : bool then set_flags lp LP_DEAD else lp) :: rest, r'')
  end.

Definition prune (p : HeapPage) (cutoff_xid : Z) : outcome (PruneResult * HeapPage) :=
  '(lps, r) ← prune_loop cutoff_xid (line_pointers p) (tuples p) PruneResult_default;
  if page_pruned r then
    p' ← compact {| header := with_prune_xid (header p) cutoff_xid;
                    line_pointers := lps; tuples := tuples p |};
    Ok (r, p')
  else Ok (r, {| header := header p; line_pointers := lps; tuples := tuples p |}).

(** [hot_update]: append the new version and turn the old slot into a redirect. *)
Definition hot_update (p : HeapPage) (old_slot : Z) (new_tuple_data : bytes) :
    outcome (option Z * HeapPage) :=
  match get old_slot (line_pointers p) with
  | None => Ok (None, p)
  | Some old =>
      if negb (is_normal old) then Ok (None, p) else
      let new_lower := pd_lower (header p) + LINE_POINTER_SIZE in
      new_upper ← sub_w 64 (pd_upper (header p)) (zlen new_tuple_data);
      if decide (new_upper < new_lower) then Ok (None, p) else
      let new_slot := (zlen (line_pointers p)) as_u16 in
      lps ← set_at old_slot {| lp_offset := new_slot; lp_flags := LP_REDIRECT |}
              (line_pointers p ++ [LinePointer_new (new_upper as_u16)]);
      Ok (Some new_slot,
          {| header := with_lower_upper (header p) (new_lower as_u16) (new_upper as_u16);
             line_pointers := lps;
             tuples := tuples p ++ [new_tuple_data] |})
  end.

(** The [loop] of [follow_chain]; [None] when [fuel] runs out. *)
Fixpoint follow_loop (fuel : nat) (lps : list LinePointer) (current visited : Z) :
    option (option Z) :=
  match fuel with
  | O => None
  | S fuel' =>
      match get current lps with
      | None => Some None
      | Some lp =>
          if is_normal lp then Some (Some current) else
          if is_redirect lp then
            let visited' := visited + 1 in
            if (zlen lps) as_u32 <? visited' then Some None
            else follow_loop fuel' lps (lp_offset lp) visited'
          else Some None
      end
  end.

(** One step per visited pointer and one more: [follow_chain_total] shows that
    this is enough. *)
Definition follow_chain (p : HeapPage) (start_slot : Z) : option (option Z) :=
  follow_loop (S (length (line_pointers p))) (line_pointers p) start_slot 0.

Definition free_space (p : HeapPage) : outcome Z :=
  sub_w 16 (pd_upper (header p)) (pd_lower (header p)).

Definition tuple_count (p : HeapPage) : nat := length (line_pointers p).

Definition get_tuple (p : HeapPage) (slot : Z) : option bytes :=
  match get slot (line_pointers p) with
  | Some lp => if is_normal lp then get slot (tuples p) else None
  | None => None
  end.

End Ops.

(* ------------------------------------------------------------------ *)
(** ** Well-formed pages *)

Record header_ok (h : PageHeader) : Prop := {
  hdr_lsn : is_u64 (pd_lsn h);
  hdr_checksum : is_u32 (pd_checksum h);
  hdr_flags : is_u16 (pd_flags h);
  hdr_lower : is_u16 (pd_lower h);
  hdr_upper : is_u16 (pd_upper h);
  hdr_special : is_u16 (pd_special h);
  hdr_version : is_u16 (pd_pagesize_version h);
  hdr_prune : is_u32 (pd_prune_xid h);
}.

Definition lp_ok (lp : LinePointer) : Prop := is_u16 (lp_offset lp) /\ is_u16 (lp_flags lp).

(** The invariant of a page in memory: the vectors have the same length,
    [pd_lower] ends the line pointers, the free space is not negative, and the
    normal tuples fit above [pd_upper]. *)
Record page_wf (p : HeapPage) : Prop := {
  wf_len : length (tuples p) = length (line_pointers p);
  wf_lower : pd_lower (header p) = PAGE_HEADER_SIZE + zlen (line_pointers p) * LINE_POINTER_SIZE;
  wf_free : pd_lower (header p) <= pd_upper (header p) <= PAGE_SIZE;
  wf_special : pd_special (header p) = PAGE_SIZE;
  wf_used : normal_len (line_pointers p) (tuples p) <= PAGE_SIZE - pd_upper (header p);
  wf_header : header_ok (header p);
  wf_lps : Forall lp_ok (line_pointers p);
  wf_bytes : Forall bytes_ok (tuples p);
}.

Ltac page_unfold :=
  unfold PAGE_SIZE, PAGE_HEADER_SIZE, LINE_POINTER_SIZE, LP_NORMAL, LP_REDIRECT, LP_DEAD, in_width in *.

Lemma normal_len_nonneg lps ts : 0 <= normal_len lps ts.
Proof. revert ts. induction lps as [|lp lps IH]; intros [|t ts]; cbn; [lia..|]. specialize (IH ts). destruct is_normal; lia. Qed.

Lemma normal_len_app lps ts lps' ts' :
  length lps = length ts ->
  normal_len (lps ++ lps') (ts ++ ts') = normal_len lps ts + normal_len lps' ts'.
Proof.
  revert ts. induction lps as [|lp lps IH]; intros [|t ts]; cbn; intros [=]; [done|].
  rewrite IH by done. lia.
Qed.

(** Replacing slot [i] changes the normal bytes by that slot's share. *)
Lemma normal_len_insert lps ts i lp t lp' t' :
  lps !! i = Some lp -> ts !! i = Some t ->
  normal_len (<[i:=lp']> lps) (<[i:=t']> ts) =
  normal_len lps ts - (if is_normal lp then zlen t else 0) + (if is_normal lp' then zlen t' else 0).
Proof.
  revert ts i. induction lps as [|lp0 lps IH]; intros [|t0 ts] [|i]; intros H1 H2; simpl in *; simplify_eq; [lia|].
  rewrite (IH ts i) by done. lia.
Qed.

Lemma HeapPage_new_wf : page_wf HeapPage_new.
Proof.
  split; try constructor; cbn; vm_compute; intuition discriminate.
Qed.

(* ------------------------------------------------------------------ *)
(** ** Encodings of the header and of a line pointer *)

Lemma length_header_bytes h : length (PageHeader_serialize h) = 26%nat.
Proof. reflexivity. Qed.

Lemma length_lp_bytes lp : length (LinePointer_serialize lp) = 4%nat.
Proof. reflexivity. Qed.

Theorem header_roundtrip h rest :
  header_ok h -> PageHeader_deserialize (PageHeader_serialize h ++ rest) = Ok h.
Proof.
  intros []. unfold PageHeader_deserialize, PageHeader_serialize. read_fields. by destruct h.
Qed.

Lemma line_pointer_roundtrip lp rest :
  lp_ok lp -> LinePointer_deserialize (LinePointer_serialize lp ++ rest) = Ok lp.
Proof.
  intros []. unfold LinePointer_deserialize, LinePointer_serialize. read_fields. by destruct lp.
Qed.

(* ------------------------------------------------------------------ *)
(** ** Encoding of the page *)

(** No normal slot holds an empty tuple. *)
Fixpoint nonempty_tuples (lps : list LinePointer) (ts : list bytes) : Prop :=
  match lps, ts with
  | lp :: lps', t :: ts' => (is_normal lp = true -> t <> []) /\ nonempty_tuples lps' ts'
  | _, _ => True
  end.

(** What encoding and decoding keep: the tuples of normal slots. *)
Fixpoint kept_tuples (lps : list LinePointer) (ts : list bytes) : list bytes :=
  match lps, ts with
  | lp :: lps', t :: ts' => (if is_normal lp then t else []) :: kept_tuples lps' ts'
  | _, _ => []
  end.

(** The line pointers the encoder computes, from the offset [off] down. *)
Fixpoint laid_pointers (lps : list LinePointer) (ts : list bytes) (off : Z) : list LinePointer :=
  match lps, ts with
  | lp :: lps', t :: ts' =>
      if is_normal lp then set_offset lp ((off - zlen t) as_u16) :: laid_pointers lps' ts' (off - zlen t)
      else set_offset lp 0 :: laid_pointers lps' ts' off
  | _, _ => []
  end.

(** The tuple area the encoder writes, last tuple first. *)
Fixpoint laid_body (lps : list LinePointer) (ts : list bytes) : bytes :=
  match lps, ts with
  | lp :: lps', t :: ts' => laid_body lps' ts' ++ (if is_normal lp then t else [])
  | _, _ => []
  end.

Definition lp_bytes (lps : list LinePointer) : bytes := concat (map LinePointer_serialize lps).

Lemma lp_bytes_cons lp lps : lp_bytes (lp :: lps) = LinePointer_serialize lp ++ lp_bytes lps.
Proof. reflexivity. Qed.

Lemma length_laid_pointers lps ts off :
  length ts = length lps -> length (laid_pointers lps ts off) = length lps.
Proof.
  revert ts off. induction lps as [|lp lps IH]; intros [|t ts] off; cbn; intros [=]; [done|].
  destruct is_normal; cbn; by rewrite IH.
Qed.

Lemma length_laid_body lps ts : zlen (laid_body lps ts) = normal_len lps ts.
Proof.
  revert ts. induction lps as [|lp lps IH]; intros [|t ts]; cbn; [lia..|].
  rewrite length_app. specialize (IH ts). destruct is_normal; cbn; lia.
Qed.

Lemma length_lp_list lps : length (lp_bytes lps) = (4 * length lps)%nat.
Proof.
  induction lps as [|lp lps IH]; [done|]. rewrite lp_bytes_cons, length_app, IH, length_lp_bytes.
  cbn. lia.
Qed.

Lemma laid_pointers_ok lps ts off :
  Forall lp_ok lps -> Forall lp_ok (laid_pointers lps ts off).
Proof.
  intros H. revert ts off. induction H as [|lp lps [_ Hf] _ IH]; intros [|t ts] off; cbn; try constructor.
  destruct is_normal; constructor; try apply IH; split; cbn; auto.
  - apply wrap_in_width; lia.
  - page_unfold; lia.
Qed.

Section RoundTrip.
Context {P : Profile}.

Lemma place_tuples_spec lps ts off T :
  length ts = length lps -> nonempty_tuples lps ts ->
  normal_len lps ts <= off <= PAGE_SIZE ->
  place_tuples lps ts off (replicate (Z.to_nat off) 0 ++ T) =
  Ok (laid_pointers lps ts off, off - normal_len lps ts,
      replicate (Z.to_nat (off - normal_len lps ts)) 0 ++ laid_body lps ts ++ T).
Proof.
  revert ts off T. induction lps as [|lp lps IH]; intros [|t ts] off T; cbn [length];
    intros Hl Hne Hoff; simplify_eq; cbn -[sub_w add_w copy_at] in *; [by rewrite Z.sub_0_r|].
  destruct Hne as [Hne Hnes]. pose proof (normal_len_nonneg lps ts) as Hnn.
  destruct (is_normal lp) eqn:E; rewrite ?E in Hoff.
  - destruct t as [|b t]; [by destruct Hne|]. set (t' := b :: t) in *.
    eapply bind_step.
    { eapply bind_step; [apply sub_w_ok; page_unfold; lia|]. cbv beta.
      eapply bind_step; [apply add_w_ok; page_unfold; lia|]. cbv beta. rewrite decide_True by lia.
      replace (Z.to_nat off) with (Z.to_nat (off - zlen t') + length t')%nat by lia.
      rewrite replicate_add, <- app_assoc, copy_at_app by (rewrite ?length_replicate; lia).
      reflexivity. }
    cbv beta iota. eapply bind_step; [apply IH; [lia|done|lia]|].
    cbv beta iota. change (length (b :: t)) with (length t').
    rewrite Z.sub_add_distr, <- app_assoc. reflexivity.
  - rewrite ok_bind. eapply bind_step; [apply IH; [lia|done|lia]|].
    cbv beta iota. rewrite app_nil_r, Z.add_0_l. reflexivity.
Qed.

Lemma write_line_pointers_spec lps z pre post :
  write_line_pointers lps (zlen pre) (pre ++ replicate (4 * length lps + z) 0 ++ post) =
  Ok (pre ++ lp_bytes lps ++ replicate z 0 ++ post).
Proof.
  revert pre. induction lps as [|lp lps IH]; intros pre; [done|].
  cbn [write_line_pointers]. eapply bind_step.
  { replace (4 * length (lp :: lps) + z)%nat with (4 + (4 * length lps + z))%nat by (cbn; lia).
    rewrite replicate_add, <- app_assoc. apply copy_at_app; [done|reflexivity]. }
  rewrite app_assoc. replace (zlen pre + _) with (zlen (pre ++ LinePointer_serialize lp))
    by (rewrite length_app, length_lp_bytes; page_unfold; lia).
  rewrite IH. rewrite lp_bytes_cons.
  by rewrite <- !app_assoc.
Qed.

Lemma read_line_pointers_spec lps i pre post :
  Forall lp_ok lps -> zlen pre = PAGE_HEADER_SIZE + i * LINE_POINTER_SIZE ->
  read_line_pointers (length lps) i (pre ++ lp_bytes lps ++ post) = Ok lps.
Proof.
  intros H. revert i pre. induction H as [|lp lps Hlp _ IH]; intros i pre Hpre; [done|].
  cbn [length read_line_pointers]. rewrite <- Hpre.
  rewrite lp_bytes_cons.
  rewrite <- app_assoc. eapply bind_step.
  { apply slice_app_exact; [done|]. rewrite length_lp_bytes. page_unfold; lia. }
  eapply bind_step.
  { rewrite <- (app_nil_r (LinePointer_serialize lp)). by apply line_pointer_roundtrip. }
  eapply bind_step; [|done]. rewrite app_assoc. apply IH.
  rewrite length_app, length_lp_bytes. page_unfold; lia.
Qed.

Lemma read_tuples_spec lps ts before special off pre T :
  length ts = length lps -> nonempty_tuples lps ts ->
  zlen pre + normal_len lps ts = off -> off <= PAGE_SIZE -> tuple_end before special = off ->
  read_tuples before (laid_pointers lps ts off) special (pre ++ laid_body lps ts ++ T) =
  Ok (kept_tuples lps ts).
Proof.
  revert ts before off T. induction lps as [|lp lps IH]; intros [|t ts] before off T; cbn [length];
    intros Hl Hne Hoff Hmax Hend; try discriminate Hl; [done|]; injection Hl as Hl.
  cbn in Hne, Hoff. destruct Hne as [Hne Hnes]. pose proof (normal_len_nonneg lps ts) as Hnn.
  cbn [laid_pointers laid_body kept_tuples]. destruct (is_normal lp) eqn:E; rewrite ?E in Hoff.
  - assert (0 < zlen t) by (destruct t; [by destruct Hne|cbn; lia]).
    assert (Hw : wrap 16 (off - zlen t) = off - zlen t) by (apply wrap_small; page_unfold; lia).
    cbn [read_tuples]. change (is_normal (set_offset lp _)) with (is_normal lp). rewrite E, Hend.
    cbn [lp_offset set_offset]. rewrite Hw, decide_True by lia. eapply bind_step.
    { rewrite <- app_assoc, app_assoc. apply slice_app_exact.
      - rewrite length_app. pose proof (length_laid_body lps ts). lia.
      - rewrite length_app. pose proof (length_laid_body lps ts). lia. }
    eapply bind_step; [|done]. rewrite <- app_assoc. apply IH; try done; try lia.
    unfold tuple_end. cbn. change (is_normal (set_offset lp _)) with (is_normal lp). by rewrite E.
  - cbn [read_tuples]. change (is_normal (set_offset lp 0)) with (is_normal lp). rewrite E.
    cbn. rewrite app_nil_r. eapply bind_step; [|done]. apply IH; try done; try lia.
    unfold tuple_end. cbn. change (is_normal (set_offset lp 0)) with (is_normal lp). by rewrite E.
Qed.

(** The page a round trip through the encoding gives back. *)
Definition decoded_page (p : HeapPage) : HeapPage :=
  {| header := with_lower_upper (header p)
       (PAGE_HEADER_SIZE + zlen (line_pointers p) * LINE_POINTER_SIZE)
       (PAGE_SIZE - normal_len (line_pointers p) (tuples p));
     line_pointers := laid_pointers (line_pointers p) (tuples p) PAGE_SIZE;
     tuples := kept_tuples (line_pointers p) (tuples p) |}.

Lemma kept_length lps ts : length ts = length lps -> length (kept_tuples lps ts) = length lps.
Proof.
  revert ts. induction lps as [|lp lps IH]; intros [|t ts]; cbn; intros [=]; auto.
Qed.

Lemma kept_bytes lps ts : Forall bytes_ok ts -> Forall bytes_ok (kept_tuples lps ts).
Proof.
  intros H. revert lps. induction H as [|t ts Ht _ IH]; intros [|lp lps]; cbn; constructor; auto.
  destruct is_normal; [done|constructor].
Qed.

Lemma kept_normal_len lps ts off :
  length ts = length lps ->
  normal_len (laid_pointers lps ts off) (kept_tuples lps ts) = normal_len lps ts.
Proof.
  revert ts off. induction lps as [|lp lps IH]; intros [|t ts] off; cbn; intros [=]; [done|].
  destruct (is_normal lp) eqn:E; cbn;
    change (is_normal (set_offset lp _)) with (is_normal lp); rewrite E, IH by done; done.
Qed.

Lemma decoded_flags lps ts off :
  length ts = length lps -> map lp_flags (laid_pointers lps ts off) = map lp_flags lps.
Proof.
  revert ts off. induction lps as [|lp lps IH]; intros [|t ts] off; cbn; intros [=]; [done|].
  destruct is_normal; cbn; by rewrite IH.
Qed.

Lemma laid_lookup lps ts off i :
  length ts = length lps ->
  (lp ← laid_pointers lps ts off !! i; if is_normal lp then kept_tuples lps ts !! i else None) =
  (lp ← lps !! i; if is_normal lp then ts !! i else None).
Proof.
  revert ts off i. induction lps as [|lp lps IH]; intros [|t ts] off [|i]; cbn; intros [=]; try done.
  - destruct (is_normal lp) eqn:E; cbn; change (is_normal (set_offset lp _)) with (is_normal lp);
      by rewrite E.
  - destruct (is_normal lp); cbn; by apply IH.
Qed.

Lemma laid_lookup_other lps ts off i lp :
  length ts = length lps -> lps !! i = Some lp -> is_normal lp = false ->
  laid_pointers lps ts off !! i = Some (set_offset lp 0).
Proof.
  revert ts off i. induction lps as [|lp0 lps IH]; intros [|t ts] off [|i]; cbn; intros [=] H1 H2;
    simplify_eq; [by rewrite H2|]. destruct (is_normal lp0); cbn; by apply IH.
Qed.

Lemma get_tuple_lookup p slot :
  get_tuple p slot =
  (if decide (0 <= slot)
   then lp ← line_pointers p !! Z.to_nat slot; if is_normal lp then tuples p !! Z.to_nat slot else None
   else None).
Proof. unfold get_tuple, get. case_decide; [|done]. by destruct (_ !! _). Qed.

Lemma decoded_wf p : page_wf p -> page_wf (decoded_page p).
Proof.
  intros [Hl Hlo Hfr Hsp Hu Hh Hlp Hb]. pose proof (normal_len_nonneg (line_pointers p) (tuples p)).
  split; cbn.
  - rewrite kept_length, length_laid_pointers; auto.
  - by rewrite length_laid_pointers.
  - page_unfold; lia.
  - done.
  - rewrite kept_normal_len by done. page_unfold; lia.
  - destruct Hh. split; cbn; try done; page_unfold; lia.
  - by apply laid_pointers_ok.
  - by apply kept_bytes.
Qed.

Lemma page_roundtrip_value p :
  page_wf p -> nonempty_tuples (line_pointers p) (tuples p) ->
  exists data, HeapPage_serialize p = Ok data /\ zlen data = PAGE_SIZE /\
    HeapPage_deserialize data = Ok (decoded_page p).
Proof.
  intros Hwf Hne. pose proof Hwf as [Hl Hlo Hfr Hsp Hu Hh Hlp Hb].
  pose proof (normal_len_nonneg (line_pointers p) (tuples p)) as Hnn.
  set (n := normal_len (line_pointers p) (tuples p)) in *.
  set (lps' := laid_pointers (line_pointers p) (tuples p) PAGE_SIZE).
  assert (Hll : length lps' = length (line_pointers p)) by by apply length_laid_pointers.
  set (body := laid_body (line_pointers p) (tuples p)).
  assert (Hbl : zlen body = n) by apply length_laid_body.
  set (hdr := with_lower_upper (header p) (PAGE_HEADER_SIZE + zlen lps' * LINE_POINTER_SIZE) (PAGE_SIZE - n)).
  set (z := Z.to_nat (PAGE_SIZE - n - (26 + 4 * zlen lps'))).
  assert (Hhdr : header_ok hdr).
  { destruct Hh. split; cbn; try done; page_unfold; lia. }
  set (data := PageHeader_serialize hdr ++ lp_bytes lps' ++ replicate z 0 ++ body ++ []).
  exists data. split_and!.
  - unfold HeapPage_serialize. eapply bind_step.
    { rewrite <- (app_nil_r (replicate (Z.to_nat PAGE_SIZE) 0)).
      apply place_tuples_spec; [done|done|]. fold n. page_unfold; lia. }
    cbv beta iota zeta. fold n lps' body.
    rewrite !wrap_small by (page_unfold; lia). fold hdr.
    replace (Z.to_nat (PAGE_SIZE - n)) with (26 + (4 * length lps' + z))%nat by (page_unfold; lia).
    rewrite replicate_add, <- app_assoc. eapply bind_step.
    { by apply (copy_at_app 0 []). }
    cbn [app]. change PAGE_HEADER_SIZE with (zlen (PageHeader_serialize hdr)).
    apply write_line_pointers_spec.
  - unfold data. rewrite !length_app, length_header_bytes, length_lp_list, length_replicate.
    cbn [length]. page_unfold; lia.
  - unfold HeapPage_deserialize. eapply bind_step; [by apply header_roundtrip|]. cbv beta.
    assert (Hspan : pd_lower hdr - PAGE_HEADER_SIZE = zlen lps' * 4) by (cbn; page_unfold; lia).
    eapply bind_step; [apply sub_w_ok; rewrite Hspan; page_unfold; lia|]. cbv beta zeta.
    rewrite Hspan. change LINE_POINTER_SIZE with 4. rewrite Z.div_mul by lia.
    rewrite decide_False by (page_unfold; lia). rewrite Nat2Z.id. eapply bind_step.
    { apply read_line_pointers_spec; [by apply laid_pointers_ok|]. by rewrite length_header_bytes. }
    eapply bind_step.
    { unfold data. rewrite (app_assoc (lp_bytes lps')), (app_assoc (PageHeader_serialize hdr)).
      apply read_tuples_spec; try done.
      rewrite !length_app, length_header_bytes, length_lp_list, length_replicate. fold n.
      page_unfold; lia. }
    unfold decoded_page. fold n lps'. by rewrite <- Hll.
Qed.

(** C15. Serialising a well-formed page whose normal slots hold nonempty tuples gives
    a full page, without a panic in either build profile, and deserialising it
    gives back a well-formed page with the same slots, flags and live tuples. *)
Theorem page_roundtrip p :
  page_wf p -> nonempty_tuples (line_pointers p) (tuples p) ->
  exists data p', HeapPage_serialize p = Ok data /\ zlen data = PAGE_SIZE /\
    HeapPage_deserialize data = Ok p' /\ page_wf p' /\
    map lp_flags (line_pointers p') = map lp_flags (line_pointers p) /\
    forall slot, get_tuple p' slot = get_tuple p slot.
Proof.
  intros Hwf Hne. destruct (page_roundtrip_value p Hwf Hne) as (data & Hs & Hl & Hd).
  exists data, (decoded_page p). split_and!; try done.
  - by apply decoded_wf.
  - by apply decoded_flags, wf_len.
  - intros slot. rewrite !get_tuple_lookup. case_decide; [|done]. by apply laid_lookup, wf_len.
Qed.

End RoundTrip.

(* ------------------------------------------------------------------ *)
(** ** Insertion and HOT updates *)

(** The live tuple of slot [i], on the vectors of a page. *)
Definition slot_tuple (lps : list LinePointer) (ts : list bytes) (i : nat) : option bytes :=
  lp ← lps !! i; if is_normal lp then ts !! i else None.

Lemma get_tuple_slot p slot : 0 <= slot -> get_tuple p slot = slot_tuple (line_pointers p) (tuples p) (Z.to_nat slot).
Proof. intros. rewrite get_tuple_lookup, decide_True by done. reflexivity. Qed.

Lemma get_tuple_neg p slot : slot < 0 -> get_tuple p slot = None.
Proof. intros. by rewrite get_tuple_lookup, decide_False by lia. Qed.

Lemma slot_tuple_insert lps ts i lp t j :
  (i < length lps)%nat -> length ts = length lps ->
  slot_tuple (<[i:=lp]> lps) (<[i:=t]> ts) j =
  if decide (j = i) then (if is_normal lp then Some t else None) else slot_tuple lps ts j.
Proof.
  intros Hi Hl. unfold slot_tuple. case_decide as Hj.
  - subst. rewrite !list_lookup_insert_eq by lia. done.
  - by rewrite !list_lookup_insert_ne by done.
Qed.

Lemma slot_tuple_snoc lps ts lp t j :
  length ts = length lps ->
  slot_tuple (lps ++ [lp]) (ts ++ [t]) j =
  if decide (j = length lps) then (if is_normal lp then Some t else None) else slot_tuple lps ts j.
Proof.
  intros Hl. unfold slot_tuple. case_decide as Hj.
  - subst. by rewrite !list_lookup_middle by done.
  - destruct (decide (j < length lps)%nat).
    + by rewrite !lookup_app_l by lia.
    + rewrite (lookup_ge_None_2 (lps ++ [lp])) by (rewrite length_app; cbn; lia).
      by rewrite (lookup_ge_None_2 lps) by lia.
Qed.

Lemma page_slots p : page_wf p -> zlen (line_pointers p) <= 2041.
Proof. intros []. page_unfold; lia. Qed.

Lemma is_dead_not_normal lp : is_dead lp = true -> is_normal lp = false.
Proof. unfold is_dead, is_normal. page_unfold. lia. Qed.

Lemma new_pointer_ok off : 0 <= off <= PAGE_SIZE -> lp_ok (LinePointer_new off).
Proof. intros. split; cbn; page_unfold; lia. Qed.

Lemma with_lower_upper_ok h lower upper :
  header_ok h -> is_u16 lower -> is_u16 upper -> header_ok (with_lower_upper h lower upper).
Proof. intros [] ? ?. by split. Qed.

(** The page after appending a tuple at the offset [off]. *)
Definition appended (p : HeapPage) (off : Z) (data : bytes) : HeapPage :=
  {| header := with_lower_upper (header p) (pd_lower (header p) + LINE_POINTER_SIZE) off;
     line_pointers := line_pointers p ++ [LinePointer_new off];
     tuples := tuples p ++ [data] |}.

(** The page after slot [i] is given the pointer [lp] and the tuple [t]. *)
Definition replaced (p : HeapPage) (i : nat) (lp : LinePointer) (t : bytes) (upper : Z) : HeapPage :=
  {| header := with_lower_upper (header p) (pd_lower (header p)) upper;
     line_pointers := <[i := lp]> (line_pointers p);
     tuples := <[i := t]> (tuples p) |}.

Lemma appended_wf p off data :
  page_wf p -> bytes_ok data -> off = pd_upper (header p) - zlen data ->
  pd_lower (header p) + LINE_POINTER_SIZE <= off -> page_wf (appended p off data).
Proof.
  intros [Hl Hlo Hfr Hsp Hu Hh Hlp Hb] Hd -> Hroom. split; cbn.
  - rewrite !length_app. cbn. lia.
  - rewrite length_app. cbn. page_unfold; lia.
  - page_unfold; lia.
  - done.
  - rewrite normal_len_app by done. cbn. page_unfold; lia.
  - apply with_lower_upper_ok; [done|page_unfold; lia..].
  - apply Forall_app_2; [done|]. constructor; [|done]. apply new_pointer_ok. page_unfold; lia.
  - apply Forall_app_2; [done|]. by repeat constructor.
Qed.

Lemma appended_slots p off data s :
  page_wf p ->
  get_tuple (appended p off data) s =
  if decide (s = zlen (line_pointers p)) then Some data else get_tuple p s.
Proof.
  intros [Hl _ _ _ _ _ _ _]. destruct (decide (0 <= s)).
  - rewrite !get_tuple_slot by done. cbn. rewrite slot_tuple_snoc by done.
    case_decide; case_decide; try lia; done.
  - rewrite !get_tuple_neg by lia. by rewrite decide_False by lia.
Qed.

Lemma replaced_wf p i lp t upper old told :
  page_wf p -> line_pointers p !! i = Some old -> tuples p !! i = Some told ->
  lp_ok lp -> bytes_ok t -> pd_lower (header p) <= upper <= pd_upper (header p) ->
  (if is_normal lp then zlen t else 0) <=
    pd_upper (header p) - upper + (if is_normal old then zlen told else 0) ->
  page_wf (replaced p i lp t upper).
Proof.
  intros [Hl Hlo Hfr Hsp Hu Hh Hlp Hb] Hold Htold Hok Ht Hup Hlen. split; cbn.
  - by rewrite !length_insert.
  - by rewrite length_insert.
  - lia.
  - done.
  - rewrite (normal_len_insert _ _ _ _ _ _ _ Hold Htold). lia.
  - apply with_lower_upper_ok; [done|by destruct Hh|page_unfold; lia].
  - by apply Forall_insert.
  - by apply Forall_insert.
Qed.

Lemma replaced_slots p i lp t upper s :
  page_wf p -> (i < length (line_pointers p))%nat ->
  get_tuple (replaced p i lp t upper) s =
  if decide (s = Z.of_nat i) then (if is_normal lp then Some t else None) else get_tuple p s.
Proof.
  intros [Hl _ _ _ _ _ _ _] Hi. destruct (decide (0 <= s)).
  - rewrite !get_tuple_slot by done. cbn. rewrite slot_tuple_insert by done.
    case_decide; case_decide; try lia; done.
  - rewrite !get_tuple_neg by lia. by rewrite decide_False by lia.
Qed.

Lemma get_tuple_out p s : page_wf p -> zlen (line_pointers p) <= s -> get_tuple p s = None.
Proof.
  intros _ Hs. rewrite get_tuple_slot by lia. unfold slot_tuple.
  by rewrite (lookup_ge_None_2 (line_pointers p)) by lia.
Qed.

Section AddTuple.
Context {P : Profile}.

Lemma add_tuple_reuse p data i old :
  page_wf p -> position is_dead (line_pointers p) = Some i -> line_pointers p !! i = Some old ->
  zlen data <= pd_upper (header p) - pd_lower (header p) ->
  let off := pd_upper (header p) - zlen data in
  add_tuple p data = Ok (Some (Z.of_nat i), replaced p i (LinePointer_new off) data off).
Proof.
  intros Hwf Hpos Hold Hroom off. pose proof Hwf as [Hl Hlo Hfr Hsp Hu Hh Hlp Hb].
  pose proof (page_slots p Hwf). pose proof (lookup_lt_Some _ _ _ Hold).
  unfold add_tuple, sub_w. rewrite Hpos, checked_ok by (page_unfold; lia). cbn.
  rewrite !(wrap_small 16 (Z.of_nat i)), wrap_small by (page_unfold; lia).
  rewrite decide_False by (page_unfold; lia). rewrite set_at_ok by lia. cbn.
  rewrite decide_True by lia. rewrite Nat2Z.id. reflexivity.
Qed.

Lemma add_tuple_append p data :
  page_wf p -> position is_dead (line_pointers p) = None ->
  zlen data <= pd_upper (header p) - pd_lower (header p) - LINE_POINTER_SIZE ->
  let off := pd_upper (header p) - zlen data in
  add_tuple p data = Ok (Some (zlen (line_pointers p)), appended p off data).
Proof.
  intros Hwf Hpos Hroom off. pose proof Hwf as [Hl Hlo Hfr Hsp Hu Hh Hlp Hb].
  pose proof (page_slots p Hwf).
  unfold add_tuple, sub_w. rewrite Hpos, checked_ok by (page_unfold; lia). cbn.
  rewrite decide_False by (page_unfold; lia).
  rewrite !wrap_small by (page_unfold; lia). reflexivity.
Qed.

Lemma add_tuple_full p data :
  page_wf p -> zlen data <= pd_upper (header p) ->
  pd_upper (header p) - pd_lower (header p) -
    (if position is_dead (line_pointers p) is Some _ then 0 else LINE_POINTER_SIZE) < zlen data ->
  add_tuple p data = Ok (None, p).
Proof.
  intros [Hl Hlo Hfr Hsp Hu Hh Hlp Hb] Hlen Hroom.
  unfold add_tuple, sub_w. rewrite checked_ok by (page_unfold; lia). cbn.
  destruct position; cbn; by rewrite decide_True by (page_unfold; lia).
Qed.

(** C16. Inserting a tuple no longer than [pd_upper] succeeds or reports a full page:
    on success a slot that held nothing holds the tuple, all other slots are
    unchanged and the page stays well formed; a full page is left as it was. *)
Theorem add_tuple_spec p data :
  page_wf p -> bytes_ok data -> zlen data <= pd_upper (header p) ->
  exists r p', add_tuple p data = Ok (r, p') /\ page_wf p' /\
    match r with
    | Some slot => 0 <= slot /\ get_tuple p slot = None /\ get_tuple p' slot = Some data /\
                   forall s, s <> slot -> get_tuple p' s = get_tuple p s
    | None => p' = p /\ pd_upper (header p) - pd_lower (header p) < zlen data + LINE_POINTER_SIZE
    end.
Proof.
  intros Hwf Hd Hlen. pose proof Hwf as [Hl Hlo Hfr Hsp Hu Hh Hlp Hb].
  destruct (decide (pd_upper (header p) - pd_lower (header p) -
    (if position is_dead (line_pointers p) is Some _ then 0 else LINE_POINTER_SIZE) < zlen data)) as [Hf|Hroom].
  { exists None, p. rewrite add_tuple_full by done. split_and!; try done.
    destruct position; page_unfold; lia. }
  destruct (position is_dead (line_pointers p)) as [i|] eqn:Hpos.
  - pose proof (position_spec _ _ _ Hpos) as (old & Hold & Hdead%is_dead_not_normal & _).
    pose proof (lookup_lt_Some _ _ _ Hold) as Hi.
    destruct (lookup_lt_is_Some_2 (tuples p) i) as [t Ht]; [lia|].
    rewrite (add_tuple_reuse p data i old) by (done || lia). eexists _, _. split; [reflexivity|]. split.
    { eapply replaced_wf; eauto; [apply new_pointer_ok; page_unfold; lia|lia|].
      rewrite Hdead. cbn. lia. }
    split_and!; [lia| | |].
    + rewrite get_tuple_slot, Nat2Z.id by lia. unfold slot_tuple. rewrite Hold. cbn. by rewrite Hdead.
    + rewrite replaced_slots by done. by rewrite decide_True.
    + intros s Hs. rewrite replaced_slots by done. by rewrite decide_False.
  - rewrite add_tuple_append by (done || lia). eexists _, _. split; [reflexivity|]. split.
    { apply appended_wf; (done || lia). }
    split_and!; [lia|by apply get_tuple_out| |].
    + rewrite appended_slots by done. by rewrite decide_True.
    + intros s Hs. rewrite appended_slots by done. by rewrite decide_False.
Qed.

Lemma get_tuple_inv p s t :
  get_tuple p s = Some t ->
  0 <= s /\ exists lp, line_pointers p !! Z.to_nat s = Some lp /\ is_normal lp = true /\
    tuples p !! Z.to_nat s = Some t.
Proof.
  destruct (decide (0 <= s)); [|by rewrite get_tuple_neg by lia].
  rewrite get_tuple_slot by done. unfold slot_tuple. intros (lp & Hlp & H)%bind_Some.
  split; [done|]. exists lp. by destruct (is_normal lp).
Qed.

(** The pointer a HOT update leaves in the old slot. *)
Definition redirect_to (slot : Z) : LinePointer := {| lp_offset := slot; lp_flags := LP_REDIRECT |}.

Lemma hot_update_append p s old data :
  page_wf p -> get_tuple p s = Some old ->
  zlen data <= pd_upper (header p) - pd_lower (header p) - LINE_POINTER_SIZE ->
  let off := pd_upper (header p) - zlen data in
  hot_update p s data =
  Ok (Some (zlen (line_pointers p)),
      replaced (appended p off data) (Z.to_nat s) (redirect_to (zlen (line_pointers p))) old off).
Proof.
  intros Hwf (Hs & lp & Hlp & Hn & Ht)%get_tuple_inv Hroom off.
  pose proof Hwf as [Hl Hlo Hfr Hsp Hu Hh _ _]. pose proof (page_slots p Hwf).
  pose proof (lookup_lt_Some _ _ _ Hlp).
  unfold hot_update, get. rewrite decide_True, Hlp, Hn by done. cbn. unfold sub_w.
  rewrite checked_ok by (page_unfold; lia). cbn. rewrite decide_False by lia.
  rewrite !wrap_small by (page_unfold; lia). rewrite set_at_ok by (rewrite length_app; cbn; lia).
  cbn. unfold replaced, appended. cbn. rewrite (list_insert_id (tuples p ++ _)); [done|].
  by apply lookup_app_l_Some.
Qed.

Lemma follow_chain_redirect p s slot :
  0 <= s -> line_pointers p !! Z.to_nat s = Some (redirect_to slot) ->
  is_Some (get_tuple p slot) -> zlen (line_pointers p) < 2 ^ 32 -> follow_chain p s = Some (Some slot).
Proof.
  intros Hs Hlp [t (Hs' & lp & Hlp' & Hn & _)%get_tuple_inv] Hmax.
  pose proof (lookup_lt_Some _ _ _ Hlp). unfold follow_chain.
  destruct (line_pointers p) as [|lp0 lps] eqn:E; [done|]. rewrite <- E in *.
  replace (S (length (line_pointers p))) with (S (S (length lps))) by (by rewrite E).
  cbn [follow_loop]. unfold get. rewrite decide_True, Hlp by done. cbn [is_normal lp_flags redirect_to].
  rewrite wrap_small by (unfold in_width; lia). cbn. rewrite (proj2 (Z.ltb_ge _ _)) by lia. unfold get.
  rewrite decide_True by done. by rewrite Hlp', Hn.
Qed.

(** Updating a live tuple in place: the new version is appended, the old slot
    becomes a redirect to it, and no other live tuple changes. *)
Theorem hot_update_spec p old_slot old data :
  page_wf p -> bytes_ok data -> zlen data <= pd_upper (header p) ->
  get_tuple p old_slot = Some old ->
  exists r p', hot_update p old_slot data = Ok (r, p') /\ page_wf p' /\
    match r with
    | Some slot => slot = zlen (line_pointers p) /\ get_tuple p' slot = Some data /\
                   follow_chain p' old_slot = Some (Some slot) /\ get_tuple p' old_slot = None /\
                   forall s, s <> slot -> s <> old_slot -> get_tuple p' s = get_tuple p s
    | None => p' = p /\ pd_upper (header p) - pd_lower (header p) < zlen data + LINE_POINTER_SIZE
    end.
Proof.
  intros Hwf Hd Hlen Hget. pose proof Hwf as [Hl Hlo Hfr Hsp Hu Hh Hlp Hb].
  pose proof (page_slots p Hwf) as Hmax. pose proof Hget as (Hs & lp & Hlps & Hn & Ht)%get_tuple_inv.
  pose proof (lookup_lt_Some _ _ _ Hlps) as Hlt.
  destruct (decide (pd_upper (header p) - pd_lower (header p) - LINE_POINTER_SIZE < zlen data)) as [Hf|Hroom].
  { exists None, p. split_and!; try done; [|lia]. unfold hot_update, get.
    rewrite decide_True, Hlps, Hn by done. cbn. unfold sub_w.
    rewrite checked_ok by (page_unfold; lia). cbn. by rewrite decide_True by lia. }
  rewrite (hot_update_append p old_slot old) by (done || lia).
  set (off := pd_upper (header p) - zlen data). set (n := zlen (line_pointers p)).
  assert (Hwa : page_wf (appended p off data)) by (apply appended_wf; (done || lia)).
  assert (Hla : (Z.to_nat old_slot < length (line_pointers (appended p off data)))%nat)
    by (cbn; rewrite length_app; lia).
  set (p' := replaced _ _ _ _ _).
  assert (Hslots : forall s, get_tuple p' s =
    if decide (s = old_slot) then None else if decide (s = n) then Some data else get_tuple p s).
  { intros s. unfold p'. rewrite replaced_slots, Z2Nat.id by done. case_decide; [done|].
    by rewrite appended_slots. }
  eexists _, p'. split; [reflexivity|]. split_and!.
  - eapply replaced_wf; [done|by apply lookup_app_l_Some|by apply lookup_app_l_Some| | | |].
    + split; cbn; page_unfold; lia.
    + eapply Forall_lookup_1; eauto.
    + cbn. page_unfold; lia.
    + rewrite Hn. cbn. lia.
  - done.
  - rewrite Hslots. rewrite decide_False by lia. by rewrite decide_True.
  - apply follow_chain_redirect; [done| | |].
    + unfold p'. cbn. by rewrite list_lookup_insert_eq.
    + rewrite Hslots, decide_False, decide_True by lia. eauto.
    + unfold p'. cbn. rewrite length_insert, length_app. cbn. lia.
  - rewrite Hslots. by rewrite decide_True.
  - intros s Hs1 Hs2. rewrite Hslots. by rewrite !decide_False.
Qed.
End AddTuple.

(* ------------------------------------------------------------------ *)
(** ** Chains *)

Lemma follow_loop_total fuel lps current visited :
  0 <= visited -> Z.max 0 (wrap 32 (zlen lps) - visited) < Z.of_nat fuel ->
  is_Some (follow_loop fuel lps current visited).
Proof.
  revert current visited. induction fuel as [|fuel IH]; intros current visited Hv Hfuel; [lia|].
  cbn. destruct (get current lps) as [lp|]; [|eauto].
  destruct (is_normal lp); [eauto|]. destruct (is_redirect lp); [|eauto].
  case_test; [eauto|]. apply IH; lia.
Qed.

(** Following a chain of redirects always ends, whatever the line pointers hold
    (cycles and dangling redirects included), and a slot it returns is a normal one. *)
Theorem follow_chain_total p start_slot :
  exists r, follow_chain p start_slot = Some r /\
    forall slot, r = Some slot ->
      exists lp, get slot (line_pointers p) = Some lp /\ is_normal lp = true.
Proof.
  destruct (follow_loop_total (S (length (line_pointers p))) (line_pointers p) start_slot 0) as [r Hr];
    [lia| |].
  { pose proof (Z.mod_le (zlen (line_pointers p)) (2 ^ 32)). unfold wrap. lia. }
  exists r. split; [done|]. intros slot ->. unfold follow_chain in *. revert Hr.
  generalize (S (length (line_pointers p))) as fuel. generalize 0 as visited.
  revert start_slot. intros cur v fuel. revert cur v.
  induction fuel as [|fuel IH]; intros cur v; cbn; [done|].
  destruct (get cur (line_pointers p)) as [lp|] eqn:E; [|done].
  destruct (is_normal lp) eqn:En; [intros [= ->]; eauto|].
  destruct (is_redirect lp); [|done]. case_test; [done|]. apply IH.
Qed.

(* ------------------------------------------------------------------ *)
(** ** Compaction and pruning *)

(** The live tuples of a page, in slot order. *)
Fixpoint live_tuples (lps : list LinePointer) (ts : list bytes) : list bytes :=
  match lps, ts with
  | lp :: lps', t :: ts' => (if is_normal lp then [t] else []) ++ live_tuples lps' ts'
  | _, _ => []
  end.

Lemma keep_live_fst lps ts : (keep_live lps ts).*1 = filter (fun lp => is_dead lp = false) lps.
Proof.
  revert ts. induction lps as [|lp lps IH]; intros ts; [done|].
  cbn [keep_live]. destruct (is_dead lp) eqn:E.
  - rewrite filter_cons_False by congruence. apply IH.
  - rewrite filter_cons_True by done. cbn. f_equal. apply IH.
Qed.

Lemma keep_live_length lps ts : length (keep_live lps ts).*2 = length (keep_live lps ts).*1.
Proof. by rewrite !length_fmap. Qed.

Lemma keep_live_normal_len lps ts :
  length ts = length lps -> normal_len (keep_live lps ts).*1 (keep_live lps ts).*2 = normal_len lps ts.
Proof.
  revert ts. induction lps as [|lp lps IH]; intros [|t ts]; cbn; intros [=]; [done|].
  destruct (is_dead lp) eqn:E; cbn; rewrite IH by done; [|done].
  by rewrite is_dead_not_normal.
Qed.

Lemma keep_live_tuples lps ts :
  length ts = length lps -> live_tuples (keep_live lps ts).*1 (keep_live lps ts).*2 = live_tuples lps ts.
Proof.
  revert ts. induction lps as [|lp lps IH]; intros [|t ts]; cbn; intros [=]; [done|].
  destruct (is_dead lp) eqn:E; cbn; rewrite IH by done; [|done].
  by rewrite is_dead_not_normal.
Qed.

Lemma keep_live_bytes lps ts : Forall bytes_ok ts -> Forall bytes_ok (keep_live lps ts).*2.
Proof.
  revert ts. induction lps as [|lp lps IH]; intros ts H; cbn; [constructor|].
  assert (Forall bytes_ok (tail ts)) by (by destruct H).
  destruct (is_dead lp); cbn; [by apply IH|]. constructor; [|by apply IH].
  destruct H; cbn; [constructor|done].
Qed.

Section Prune.
Context {P : Profile}.

Lemma compact_value p :
  page_wf p ->
  let live := keep_live (line_pointers p) (tuples p) in
  compact p = Ok {| header := with_lower_upper (header p)
                      (PAGE_HEADER_SIZE + zlen live.*1 * LINE_POINTER_SIZE)
                      (PAGE_SIZE - normal_len (line_pointers p) (tuples p));
                    line_pointers := live.*1; tuples := live.*2 |} /\
  zlen live.*1 <= zlen (line_pointers p).
Proof.
  intros Hwf live. pose proof Hwf as [Hl Hlo Hfr Hsp Hu Hh Hlp Hb]. pose proof (page_slots p Hwf).
  pose proof (normal_len_nonneg (line_pointers p) (tuples p)).
  assert (Hn : zlen live.*1 <= zlen (line_pointers p)).
  { unfold live. rewrite keep_live_fst. pose proof (length_filter (fun lp => is_dead lp = false) (line_pointers p)). lia. }
  split; [|done]. unfold compact. fold live. unfold live in *.
  rewrite keep_live_normal_len by done. unfold sub_w.
  rewrite checked_ok by (page_unfold; lia). cbn. by rewrite !wrap_small by (page_unfold; lia).
Qed.

(** Compaction drops exactly the dead line pointers, keeps the live tuples in
    order, keeps the page well formed and never loses free space. *)
Theorem compact_spec p :
  page_wf p ->
  exists p', compact p = Ok p' /\ page_wf p' /\
    line_pointers p' = filter (fun lp => is_dead lp = false) (line_pointers p) /\
    live_tuples (line_pointers p') (tuples p') = live_tuples (line_pointers p) (tuples p) /\
    pd_upper (header p) - pd_lower (header p) <= pd_upper (header p') - pd_lower (header p').
Proof.
  intros Hwf. pose proof Hwf as [Hl Hlo Hfr Hsp Hu Hh Hlp Hb]. pose proof (page_slots p Hwf).
  pose proof (normal_len_nonneg (line_pointers p) (tuples p)).
  destruct (compact_value p Hwf) as [Hc Hn]. eexists. split; [exact Hc|].
  split_and!; simpl; [|apply keep_live_fst|by apply keep_live_tuples|page_unfold; lia].
  split; simpl; [apply keep_live_length|done|page_unfold; lia|done| | | |].
  - rewrite keep_live_normal_len by done. page_unfold; lia.
  - apply with_lower_upper_ok; [done|page_unfold; lia..].
  - rewrite keep_live_fst. by apply Forall_filter_keep.
  - by apply keep_live_bytes.
Qed.

(** Whether pruning with [cutoff_xid] removes the tuple [t] of a normal slot. *)
Definition expired (cutoff_xid : Z) (t : bytes) : bool :=
  match read_le 8 16 t with
  | Ok xmax => negb (xmax =? 0) && (xmax as_u32 <? cutoff_xid)
  | _ => false
  end.

(** No live tuple has the one length the guard of the pruning loop lets
    through although the transaction id does not fit in it. *)
Definition no_23 (ts : list bytes) : Prop := Forall (fun t => zlen t <> 23) ts.

Lemma prunable_expired cutoff lp t :
  is_normal lp = true -> zlen t <> 23 -> prunable cutoff lp (Some t) = Ok (expired cutoff t).
Proof.
  intros Hn Hl. unfold prunable, expired, read_le. rewrite Hn. cbn. case_decide.
  - by rewrite slice_panic by lia.
  - rewrite slice_ok by lia. done.
Qed.

Definition pruned_pointers (cutoff : Z) (lps : list LinePointer) (ts : list bytes) : list LinePointer :=
  zip_with (fun lp t => if is_normal lp && expired cutoff t then set_flags lp LP_DEAD else lp) lps ts.

Definition expired_count (cutoff : Z) (lps : list LinePointer) (ts : list bytes) : Z :=
  zlen (filter (fun t => expired cutoff t = true) (live_tuples lps ts)).

Lemma prune_loop_value cutoff lps ts r :
  length ts = length lps -> no_23 (live_tuples lps ts) ->
  0 <= tuples_pruned r -> tuples_pruned r + zlen lps < 2 ^ 32 ->
  prune_loop cutoff lps ts r =
  Ok (pruned_pointers cutoff lps ts,
      {| tuples_pruned := tuples_pruned r + expired_count cutoff lps ts;
         chains_followed := chains_followed r;
         page_pruned := page_pruned r || (0 <? expired_count cutoff lps ts) |}).
Proof.
  revert ts r. induction lps as [|lp lps IH]; intros [|t ts] r; cbn [length]; intros Hl H23 Hr Hmax;
    try discriminate Hl.
  { cbn. unfold expired_count. cbn. rewrite Z.add_0_r, orb_false_r. by destruct r. }
  injection Hl as Hl. cbn [prune_loop head tail live_tuples] in *.
  assert (Hc : 0 <= expired_count cutoff lps ts) by (unfold expired_count; lia).
  unfold expired_count. cbn [live_tuples]. rewrite filter_app, length_app, Nat2Z.inj_add.
  change (zlen (filter _ (live_tuples lps ts))) with (expired_count cutoff lps ts) in *.
  apply Forall_app in H23 as [H23t H23]. cbn [pruned_pointers zip_with].
  destruct (is_normal lp) eqn:En; cbn [andb app].
  - rewrite prunable_expired by (first [done | by inversion H23t]). rewrite ok_bind.
    destruct (expired cutoff t) eqn:Ex; [rewrite filter_cons_True by done|rewrite filter_cons_False by congruence].
    + unfold add_w. rewrite checked_ok by (unfold in_width; lia). rewrite ok_bind.
      rewrite IH by (cbn; (done || lia)). cbn. do 2 f_equal. f_equal; [lia|].
      symmetry. apply orb_true_iff. right. apply Z.ltb_lt. lia.
    + rewrite ok_bind, IH by (done || lia). cbn. reflexivity.
  - unfold prunable. rewrite En. cbn [negb]. rewrite !ok_bind, IH by (done || lia). reflexivity.
Qed.

Lemma pruned_live cutoff lps ts :
  length ts = length lps ->
  live_tuples (pruned_pointers cutoff lps ts) ts =
  filter (fun t => expired cutoff t = false) (live_tuples lps ts).
Proof.
  revert ts. induction lps as [|lp lps IH]; intros [|t ts]; cbn [length]; intros Hl; try discriminate Hl; [done|].
  injection Hl as Hl. cbn [pruned_pointers zip_with live_tuples]. rewrite filter_app.
  change (zip_with _ lps ts) with (pruned_pointers cutoff lps ts). rewrite IH by done. f_equal.
  destruct (is_normal lp) eqn:En; cbn [andb]; [|by rewrite En].
  destruct (expired cutoff t) eqn:Ex.
  - by rewrite filter_cons_False by congruence.
  - rewrite En. by rewrite filter_cons_True by done.
Qed.

Lemma pruned_normal_len cutoff lps ts :
  normal_len (pruned_pointers cutoff lps ts) ts <= normal_len lps ts.
Proof.
  revert ts. induction lps as [|lp lps IH]; intros [|t ts]; cbn; [lia..|].
  specialize (IH ts). unfold pruned_pointers in IH. destruct (is_normal lp) eqn:En; cbn [andb].
  - destruct expired; cbn; rewrite ?En; lia.
  - rewrite En. lia.
Qed.

Lemma pruned_wf p cutoff hdr :
  page_wf p -> header_ok hdr -> pd_lower hdr = pd_lower (header p) ->
  pd_upper hdr = pd_upper (header p) -> pd_special hdr = pd_special (header p) ->
  page_wf {| header := hdr; line_pointers := pruned_pointers cutoff (line_pointers p) (tuples p);
             tuples := tuples p |}.
Proof.
  intros [Hl Hlo Hfr Hsp Hu Hh Hlp Hb] Hok E1 E2 E3.
  assert (Hn : length (pruned_pointers cutoff (line_pointers p) (tuples p)) = length (line_pointers p))
    by (unfold pruned_pointers; rewrite length_zip_with; lia).
  split; cbn; rewrite ?E1, ?E2, ?E3, ?Hn; try done.
  - pose proof (pruned_normal_len cutoff (line_pointers p) (tuples p)). lia.
  - apply Forall_lookup. intros i lp Hi. unfold pruned_pointers in Hi.
    rewrite lookup_zip_with in Hi. destruct (line_pointers p !! i) as [lp0|] eqn:Hi0; [|done].
    cbn in Hi. destruct (tuples p !! i) as [t|]; [|done]. cbn in Hi. simplify_eq.
    pose proof (Forall_lookup_1 _ _ _ _ Hlp Hi0) as [? ?].
    case_test; [|done]. split; cbn; [done|page_unfold; lia].
Qed.

(** Pruning removes exactly the live tuples whose deleting transaction is below
    the cutoff, counts them, keeps the others in order and the page well formed,
    provided no live tuple is exactly 23 bytes long. *)
Theorem prune_spec p cutoff :
  page_wf p -> is_u32 cutoff -> no_23 (live_tuples (line_pointers p) (tuples p)) ->
  exists r p', prune p cutoff = Ok (r, p') /\ page_wf p' /\
    live_tuples (line_pointers p') (tuples p') =
      filter (fun t => expired cutoff t = false) (live_tuples (line_pointers p) (tuples p)) /\
    tuples_pruned r = expired_count cutoff (line_pointers p) (tuples p) /\
    page_pruned r = (0 <? expired_count cutoff (line_pointers p) (tuples p)).
Proof.
  intros Hwf Hc H23. pose proof Hwf as [Hl Hlo Hfr Hsp Hu Hh Hlp Hb]. pose proof (page_slots p Hwf).
  unfold prune. rewrite (prune_loop_value cutoff) by (cbn; (done || lia)). rewrite ok_bind. cbn [tuples_pruned PruneResult_default chains_followed page_pruned orb].
  set (n := expired_count cutoff (line_pointers p) (tuples p)).
  set (lps := pruned_pointers cutoff (line_pointers p) (tuples p)).
  destruct (0 <? n) eqn:En.
  - destruct (compact_spec {| header := with_prune_xid (header p) cutoff;
      line_pointers := lps; tuples := tuples p |}) as (p' & Hcomp & Hwf' & _ & Hlive & _).
    { apply pruned_wf; try done. destruct Hh. by split. }
    rewrite Hcomp. eexists _, p'. split; [reflexivity|]. split_and!; [done| |done|done].
    rewrite Hlive. cbn. by apply pruned_live.
  - eexists _, _. split; [reflexivity|]. split_and!; [|by apply pruned_live|done|done].
    by apply pruned_wf.
Qed.
End Prune.

(* ------------------------------------------------------------------ *)
(** ** Where the code goes wrong *)

(** A live tuple of 23 bytes passes the length guard of [prune], which then
    panics on the slice [16..24], in both build profiles. *)
Theorem prune_23_bytes_panics {P : Profile} h lp t cutoff :
  is_normal lp = true -> length t = 23%nat ->
  prune {| header := h; line_pointers := [lp]; tuples := [t] |} cutoff = Panic.
Proof.
  intros Hn Hl. unfold prune, prune_loop, prunable, read_le. cbn. rewrite Hn, Hl. cbn.
  by rewrite slice_panic by (rewrite Hl; lia).
Qed.

(** The encoder writes offset 0 into every line pointer that is not normal, so a
    HOT chain does not survive a write of its page: every redirect leads to slot 0. *)
Theorem redirects_lost {P : Profile} p i lp :
  page_wf p -> nonempty_tuples (line_pointers p) (tuples p) ->
  line_pointers p !! i = Some lp -> is_redirect lp = true ->
  exists data p', HeapPage_serialize p = Ok data /\ HeapPage_deserialize data = Ok p' /\
    line_pointers p' !! i = Some (redirect_to 0).
Proof.
  intros Hwf Hne Hlp Hr. destruct (page_roundtrip_value p Hwf Hne) as (data & Hs & _ & Hd).
  exists data, (decoded_page p). split_and!; try done. cbn.
  rewrite (laid_lookup_other _ _ _ _ lp); [|by apply wf_len|done|unfold is_redirect, is_normal in *; page_unfold; lia].
  unfold set_offset, redirect_to, is_redirect in *. do 2 f_equal. page_unfold; lia.
Qed.

(** The chain a HOT update builds is gone after the page is written and read:
    the old slot of the updated row leads nowhere. *)
Example hot_chain_lost :
  let P := debug_profile in
  ('(s, p1) ← add_tuple HeapPage_new [1; 1; 1];
   '(n, p2) ← hot_update p1 0 [2; 2; 2; 2];
   data ← HeapPage_serialize p2;
   p3 ← HeapPage_deserialize data;
   Ok (s, n, follow_chain p2 0, follow_chain p3 0))
  = Ok (Some 0, Some 1, Some (Some 1), Some None).
Proof. vm_compute. reflexivity. Qed.

(** Laying out a tuple longer than what is left of the page panics in both
    profiles: by the overflow check, or because the wrapped range is reversed. *)
Lemma place_too_big {P : Profile} {A} off (t : bytes) (k : Z -> outcome A) :
  0 <= off <= PAGE_SIZE -> off < zlen t < 2 ^ 63 ->
  (off ← sub_w 64 off (zlen t); stop ← add_w 64 off (zlen t);
   if decide (off <= stop) then k off else Panic) = Panic.
Proof.
  intros Hoff Ht. unfold sub_w. rewrite checked_overflow by (page_unfold; lia).
  destruct overflow_checks eqn:EO; [done|]. rewrite ok_bind, wrap_below by (page_unfold; lia).
  unfold add_w. rewrite checked_overflow, EO by (page_unfold; lia).
  rewrite ok_bind, wrap_above by (page_unfold; lia). rewrite decide_False; [done|page_unfold; lia].
Qed.

Lemma place_tuples_oversize {P : Profile} lps ts off page lp data :
  length ts = length lps -> normal_len lps ts <= off <= PAGE_SIZE ->
  is_normal lp = true -> off < normal_len lps ts + zlen data -> zlen data < 2 ^ 63 ->
  place_tuples (lps ++ [lp]) (ts ++ [data]) off page = Panic.
Proof.
  intros Hl Hoff Hn Hd Hmax. revert ts off page Hl Hoff Hd.
  induction lps as [|lp0 lps IH]; intros [|t ts] off page Hl Hoff Hd;
    try discriminate Hl; cbn [app place_tuples head tail normal_len] in *.
  - rewrite Hn. destruct data as [|b data]; [cbn in Hd; page_unfold; lia|].
    rewrite place_too_big by lia. reflexivity.
  - injection Hl as Hl. pose proof (normal_len_nonneg lps ts).
    destruct (is_normal lp0); [|by rewrite ok_bind, IH by (done || lia)].
    destruct t as [|b t]; [cbn in Hoff, Hd; by rewrite ok_bind, IH by (done || lia)|].
    unfold sub_w. rewrite checked_ok by (page_unfold; lia). rewrite ok_bind.
    unfold add_w. rewrite checked_ok by (page_unfold; lia). rewrite ok_bind, decide_True by lia.
    unfold copy_at. case_decide; [|done]. rewrite !ok_bind, IH by (done || lia). done.
Qed.

(** A tuple longer than the offset [pd_upper] is not refused: with overflow checks
    the subtraction panics; without them it wraps, the tuple is accepted, and the
    page is left so that its encoding panics. The page need not be full, nor the
    tuple larger than a page. *)
Theorem add_tuple_oversize p data :
  page_wf p -> position is_dead (line_pointers p) = None ->
  pd_upper (header p) < zlen data < 2 ^ 63 ->
  PAGE_SIZE < normal_len (line_pointers p) (tuples p) + zlen data ->
  add_tuple (P := debug_profile) p data = Panic /\
  exists slot p', add_tuple (P := release_profile) p data = Ok (Some slot, p') /\
    get_tuple p' slot = Some data /\
    forall P : Profile, HeapPage_serialize (P := P) p' = Panic.
Proof.
  intros Hwf Hpos Hlen Hbig. pose proof Hwf as [Hl Hlo Hfr Hsp Hu Hh Hlp Hb].
  pose proof (page_slots p Hwf). unfold add_tuple, sub_w. rewrite Hpos. cbn [fmap option_fmap option_map].
  rewrite !checked_overflow by (page_unfold; lia). split; [done|].
  unfold overflow_checks, release_profile. rewrite ok_bind, decide_False
    by (rewrite wrap_below by (page_unfold; lia); page_unfold; lia).
  rewrite (wrap_small 16 (zlen _)) by (page_unfold; lia).
  eexists _, _. split; [reflexivity|]. split.
  - rewrite get_tuple_slot, Nat2Z.id by lia. cbn. rewrite slot_tuple_snoc by done. by rewrite decide_True.
  - intros P. unfold HeapPage_serialize. cbn [line_pointers tuples].
    rewrite place_tuples_oversize; try done; page_unfold; lia.
Qed.

(* ------------------------------------------------------------------ *)
(** ** Witnesses *)

(** A page with a live tuple of 40 bytes whose deleting transaction is 5, one of 3
    bytes that a HOT update moved to a third slot. *)
Definition sample_page : HeapPage :=
  let P := debug_profile in
  let moved :=
    '(_, p1) ← add_tuple HeapPage_new (replicate 16 0 ++ [5; 0; 0; 0; 0; 0; 0; 0] ++ replicate 16 0);
    '(_, p2) ← add_tuple p1 [1; 1; 1];
    '(_, p3) ← hot_update p2 1 [2; 2; 2; 2];
    Ok p3 in
  match moved with Ok p => p | _ => HeapPage_new end.

Lemma sample_page_wf : page_wf sample_page.
Proof.
  split; try split; [vm_compute; intuition discriminate ..| |];
    vm_compute; repeat constructor; vm_compute; intuition discriminate.
Qed.

Lemma page_roundtrip_witness :
  let P := release_profile in
  exists data p', HeapPage_serialize sample_page = Ok data /\ zlen data = PAGE_SIZE /\
    HeapPage_deserialize data = Ok p' /\ page_wf p' /\
    map lp_flags (line_pointers p') = map lp_flags (line_pointers sample_page) /\
    forall slot, get_tuple p' slot = get_tuple sample_page slot.
Proof.
  apply (page_roundtrip (P := release_profile) sample_page sample_page_wf).
  vm_compute. repeat split; discriminate.
Defined.

Lemma add_tuple_spec_witness :
  let P := debug_profile in
  exists r p', add_tuple sample_page [7; 7] = Ok (r, p') /\ page_wf p' /\
    match r with
    | Some slot => 0 <= slot /\ get_tuple sample_page slot = None /\ get_tuple p' slot = Some [7; 7] /\
                   forall s, s <> slot -> get_tuple p' s = get_tuple sample_page s
    | None => p' = sample_page /\
        pd_upper (header sample_page) - pd_lower (header sample_page) < zlen [7; 7] + LINE_POINTER_SIZE
    end.
Proof.
  apply (add_tuple_spec (P := debug_profile) sample_page [7; 7] sample_page_wf);
    [repeat constructor; vm_compute; intuition discriminate|vm_compute; discriminate].
Defined.

Lemma hot_update_spec_witness :
  let P := debug_profile in
  exists r p', hot_update sample_page 2 [7; 7] = Ok (r, p') /\ page_wf p' /\
    match r with
    | Some slot => slot = zlen (line_pointers sample_page) /\ get_tuple p' slot = Some [7; 7] /\
                   follow_chain p' 2 = Some (Some slot) /\ get_tuple p' 2 = None /\
                   forall s, s <> slot -> s <> 2 -> get_tuple p' s = get_tuple sample_page s
    | None => p' = sample_page /\
        pd_upper (header sample_page) - pd_lower (header sample_page) < zlen [7; 7] + LINE_POINTER_SIZE
    end.
Proof.
  apply (hot_update_spec (P := debug_profile) sample_page 2 [2; 2; 2; 2] [7; 7] sample_page_wf);
    [repeat constructor; vm_compute; intuition discriminate|vm_compute; discriminate|by vm_compute].
Defined.

Lemma prune_spec_witness :
  let P := debug_profile in
  exists r p', prune sample_page 10 = Ok (r, p') /\ page_wf p' /\
    live_tuples (line_pointers p') (tuples p') =
      filter (fun t => expired 10 t = false) (live_tuples (line_pointers sample_page) (tuples sample_page)) /\
    tuples_pruned r = expired_count 10 (line_pointers sample_page) (tuples sample_page) /\
    page_pruned r = (0 <? expired_count 10 (line_pointers sample_page) (tuples sample_page)).
Proof.
  apply (prune_spec (P := debug_profile) sample_page 10 sample_page_wf);
    [vm_compute; intuition discriminate|vm_compute; repeat constructor; discriminate].
Defined.

Lemma prune_23_bytes_panics_witness :
  let P := release_profile in
  prune {| header := PageHeader_new; line_pointers := [LinePointer_new 100]; tuples := [replicate 23 1] |} 10 = Panic.
Proof. by apply (prune_23_bytes_panics (P := release_profile)). Defined.

Lemma redirects_lost_witness :
  let P := debug_profile in
  exists data p', HeapPage_serialize sample_page = Ok data /\ HeapPage_deserialize data = Ok p' /\
    line_pointers p' !! 1%nat = Some (redirect_to 0).
Proof.
  apply (redirects_lost (P := debug_profile) sample_page 1 {| lp_offset := 2; lp_flags := 1 |} sample_page_wf);
    [vm_compute; repeat split; discriminate|by vm_compute..].
Defined.

(** A page that holds one tuple of 5000 bytes. *)
Definition half_full_page : HeapPage :=
  {| header := with_lower_upper PageHeader_new 30 3192; line_pointers := [LinePointer_new 3192];
     tuples := [replicate (Z.to_nat 5000) 1] |}.

Lemma half_full_wf : page_wf half_full_page.
Proof.
  split; try split; [vm_compute; intuition discriminate ..| |].
  - repeat constructor; vm_compute; intuition discriminate.
  - apply Forall_singleton, Forall_replicate. vm_compute. intuition discriminate.
Qed.

Lemma add_tuple_oversize_witness :
  add_tuple (P := debug_profile) half_full_page (replicate (Z.to_nat 4000) 1) = Panic /\
  exists slot p', add_tuple (P := release_profile) half_full_page (replicate (Z.to_nat 4000) 1) = Ok (Some slot, p') /\
    get_tuple p' slot = Some (replicate (Z.to_nat 4000) 1) /\
    forall P : Profile, HeapPage_serialize (P := P) p' = Panic.
Proof.
  apply (add_tuple_oversize half_full_page (replicate (Z.to_nat 4000) 1) half_full_wf); [done| |];
    vm_compute; intuition discriminate.
Defined.
