(* ===== verification/Transaction.v ===== *)
(** Transactions ([src/src/transaction/mod.rs]): snapshots, the transaction
    manager and its operations, as functions and as the interleaving of the
    three atomic actions of [begin]; statement timeouts ([timeouts.rs]) and the
    commit log ([clog.rs]). *)

From S2P Require Import Prelude Types.

(* ------------------------------------------------------------------ *)
(** ** Timeouts *)

(** [std::time::Duration], in nanoseconds. *)
Abbreviation Duration := Z (only parsing).

Record TimeoutConfig := {
  statement_timeout : option Duration;
  lock_timeout : option Duration;
}.

Definition TimeoutConfig_new : TimeoutConfig :=
  {| statement_timeout := None; lock_timeout := None |}.

Definition with_statement_timeout (c : TimeoutConfig) (timeout : Duration) : TimeoutConfig :=
  {| statement_timeout := Some timeout; lock_timeout := lock_timeout c |}.

Definition with_lock_timeout (c : TimeoutConfig) (timeout : Duration) : TimeoutConfig :=
  {| statement_timeout := statement_timeout c; lock_timeout := Some timeout |}.

(* ------------------------------------------------------------------ *)
(** ** Snapshots and transactions *)

Inductive IsolationLevel := ReadUncommitted | ReadCommitted | RepeatableRead | Serializable.
Inductive TxnState := Active | Committed | Aborted.

#[export] Instance IsolationLevel_eq_dec : EqDecision IsolationLevel.
Proof. solve_decision. Defined.
#[export] Instance TxnState_eq_dec : EqDecision TxnState.
Proof. solve_decision. Defined.

Record Snapshot := {
  snap_xid : TransactionId;
  active_xids : list TransactionId;
}.

Definition in_snapshot (s : Snapshot) (x : TransactionId) : bool := bool_decide (x ∈ active_xids s).

(** [Snapshot::is_visible]. *)
Definition Snapshot_is_visible (s : Snapshot) (xmin : TransactionId) (xmax : option TransactionId) : bool :=
  if snap_xid s <=? xmin then false else
  if in_snapshot s xmin then false else
  match xmax with
  | Some xmax => (xmax <? snap_xid s) && negb (in_snapshot s xmax)
  | None => true
  end.

Record Transaction := {
  txn_xid : TransactionId;
  txn_isolation : IsolationLevel;
  txn_state : TxnState;
  txn_snapshot : option Snapshot;
  txn_timeout_config : TimeoutConfig;
  txn_locks : list Oid;
}.

Definition Transaction_new (xid : TransactionId) (isolation : IsolationLevel) : Transaction :=
  {| txn_xid := xid; txn_isolation := isolation; txn_state := Active; txn_snapshot := None;
     txn_timeout_config := TimeoutConfig_new; txn_locks := [] |}.

Definition with_state (t : Transaction) (st : TxnState) : Transaction :=
  {| txn_xid := txn_xid t; txn_isolation := txn_isolation t; txn_state := st;
     txn_snapshot := txn_snapshot t; txn_timeout_config := txn_timeout_config t;
     txn_locks := txn_locks t |}.

(** [Transaction::commit], [rollback] and [take_snapshot]. *)
Definition Transaction_commit (t : Transaction) : Transaction := with_state t Committed.
Definition Transaction_rollback (t : Transaction) : Transaction := with_state t Aborted.
Definition take_snapshot (t : Transaction) (s : Snapshot) : Transaction :=
  {| txn_xid := txn_xid t; txn_isolation := txn_isolation t; txn_state := txn_state t;
     txn_snapshot := Some s; txn_timeout_config := txn_timeout_config t; txn_locks := txn_locks t |}.

(* ------------------------------------------------------------------ *)
(** ** The transaction manager *)

Record TransactionManager := {
  next_xid : Z;
  active : gmap TransactionId Transaction;
}.

Definition TransactionManager_new : TransactionManager := {| next_xid := 1; active := ∅ |}.

(** [active.keys().cloned().collect()]: the order of a hash map's keys is not
    specified, and every use of the list tests membership. *)
Definition active_keys (m : TransactionManager) : list TransactionId := (map_to_list (active m)).*1.

(** [create_snapshot] and [get_snapshot_for_statement], the same code. *)
Definition create_snapshot (m : TransactionManager) (current_xid : TransactionId) : Snapshot :=
  {| snap_xid := current_xid; active_xids := active_keys m |}.

Definition get_snapshot_for_statement (m : TransactionManager) (xid : TransactionId) : Snapshot :=
  {| snap_xid := xid; active_xids := active_keys m |}.

(** [next_xid.fetch_add(1)]: atomics wrap in every profile. *)
Definition fetch_add_xid (m : TransactionManager) : TransactionId * TransactionManager :=
  (next_xid m, {| next_xid := (next_xid m + 1) as_u32; active := active m |}).

(** The transaction [begin] builds from its id and the snapshot it took. *)
Definition begun_txn (xid : TransactionId) (isolation : IsolationLevel) (snapshot : Snapshot) : Transaction :=
  let txn := Transaction_new xid isolation in
  match isolation with
  | ReadUncommitted | ReadCommitted => txn
  | RepeatableRead | Serializable => take_snapshot txn snapshot
  end.

(** [self.active.write().insert(xid, txn)]. *)
Definition insert_active (m : TransactionManager) (xid : TransactionId) (txn : Transaction) : TransactionManager :=
  {| next_xid := next_xid m; active := <[xid := txn]> (active m) |}.

(** [begin], when no other thread runs between its three atomic actions. *)
Definition begin (m : TransactionManager) (isolation : IsolationLevel) : TransactionId * TransactionManager :=
  let '(xid, m) := fetch_add_xid m in
  let snapshot := create_snapshot m xid in
  (xid, insert_active m xid (begun_txn xid isolation snapshot)).

Definition get_transaction (m : TransactionManager) (xid : TransactionId) : option Transaction :=
  active m !! xid.

Definition txn_not_found (xid : TransactionId) : error := Anyhow "Transaction {:?} not found" [xid].

(** [commit] and [rollback]: the entry is updated in place, then removed. *)
Definition commit (m : TransactionManager) (xid : TransactionId) : outcome unit * TransactionManager :=
  match active m !! xid with
  | Some txn =>
      let active' := <[xid := Transaction_commit txn]> (active m) in
      (Ok tt, {| next_xid := next_xid m; active := delete xid active' |})
  | None => (Err (txn_not_found xid), m)
  end.

Definition rollback (m : TransactionManager) (xid : TransactionId) : outcome unit * TransactionManager :=
  match active m !! xid with
  | Some txn =>
      let active' := <[xid := Transaction_rollback txn]> (active m) in
      (Ok tt, {| next_xid := next_xid m; active := delete xid active' |})
  | None => (Err (txn_not_found xid), m)
  end.

Definition active_count (m : TransactionManager) : nat := size (active m).

(* ------------------------------------------------------------------ *)
(** ** The visibility rule of the heap *)

(** [executor::heap::is_visible]: the test every scan applies to a tuple. *)
Definition is_visible (tup : Tuple) (s : Snapshot) : bool :=
  if tup_xmin tup =? 0 then false else
  let xmin := (tup_xmin tup) as_u32 in
  let xmax := if tup_xmax tup =? 0 then None else Some ((tup_xmax tup) as_u32) in
  let xmin_visible := negb (in_snapshot s xmin) && (xmin <? snap_xid s) in
  if negb xmin_visible then false else
  match xmax with
  | Some xmax => negb (negb (in_snapshot s xmax) && (xmax <? snap_xid s))
  | None => true
  end.

(* ------------------------------------------------------------------ *)
(** ** Histories of sequential calls *)

(** A call to the manager; an [OpEnd] is a commit ([true]) or a rollback. *)
Inductive txn_op :=
| OpBegin (isolation : IsolationLevel)
| OpEnd (commit : bool) (xid : TransactionId).

(** What happened: transactions that got their id, and those that ended. *)
Inductive event := Began (xid : TransactionId) | Ended (xid : TransactionId).

#[export] Instance event_eq_dec : EqDecision event.
Proof. solve_decision. Defined.

Definition run_op (op : txn_op) (m : TransactionManager) : list event * TransactionManager :=
  match op with
  | OpBegin iso => let '(xid, m') := begin m iso in ([Began xid], m')
  | OpEnd c xid =>
      let '(r, m') := if c : bool then commit m xid else rollback m xid in
      (match r with Ok _ => [Ended xid] | _ => [] end, m')
  end.

(** Run the calls in order, from the first manager, collecting the history. *)
Fixpoint run_ops (ops : list txn_op) (m : TransactionManager) : list event * TransactionManager :=
  match ops with
  | [] => ([], m)
  | op :: ops' =>
      let '(h, m') := run_op op m in
      let '(h', m'') := run_ops ops' m' in (h ++ h', m'')
  end.

Definition is_begin (op : txn_op) : bool := match op with OpBegin _ => true | OpEnd _ _ => false end.

Definition begins (ops : list txn_op) : Z := zlen (List.filter is_begin ops).

(** The state the history determines: ids are dense from 1, and a transaction is
    active when it began and did not end. *)
Record txn_inv (h : list event) (m : TransactionManager) : Prop := {
  inv_began : forall x, Began x ∈ h <-> 1 <= x < next_xid m;
  inv_ended : forall x, Ended x ∈ h -> Began x ∈ h;
  inv_active : forall x, is_Some (active m !! x) <-> Began x ∈ h /\ Ended x ∉ h;
  inv_entry : forall x t, active m !! x = Some t -> txn_xid t = x /\ txn_state t = Active;
}.

Lemma txn_inv_new : txn_inv [] TransactionManager_new.
Proof.
  split; cbn; intros x; try (by rewrite lookup_empty); try set_solver.
  - split; [set_solver|lia].
  - rewrite lookup_empty. split; [by intros []|set_solver].
Qed.

Lemma begin_value m iso :
  next_xid m + 1 < 2 ^ 32 -> 0 <= next_xid m ->
  begin m iso = (next_xid m, insert_active {| next_xid := next_xid m + 1; active := active m |} (next_xid m)
    (begun_txn (next_xid m) iso (create_snapshot m (next_xid m)))).
Proof.
  intros. unfold begin, fetch_add_xid. rewrite wrap_small by (unfold in_width; lia). reflexivity.
Qed.

Lemma begun_txn_fields xid iso s :
  txn_xid (begun_txn xid iso s) = xid /\ txn_state (begun_txn xid iso s) = Active.
Proof. by destruct iso. Qed.

Lemma begin_inv h m iso :
  txn_inv h m -> 1 <= next_xid m -> next_xid m + 1 < 2 ^ 32 ->
  let '(xid, m') := begin m iso in
  xid = next_xid m /\ next_xid m' = next_xid m + 1 /\ (Began xid ∉ h) /\ txn_inv (h ++ [Began xid]) m'.
Proof.
  intros Hinv H1 H2. rewrite begin_value by lia. destruct Hinv as [Hb He Ha Hent].
  assert (Hnew : Began (next_xid m) ∉ h) by (rewrite Hb; lia).
  split_and!; [done|done|done|]. split; cbn.
  - intros x. rewrite elem_of_app, list_elem_of_singleton, Hb.
    split; [intros [?|[= ->]]; lia|]. intros ?.
    destruct (decide (x = next_xid m)) as [->|]; [by right|left; lia].
  - intros x. set_solver.
  - intros x. rewrite lookup_insert. case_decide as Hx.
    + subst. split; [|eauto]. intros _. split; [set_solver|].
      rewrite elem_of_app, list_elem_of_singleton. intros [Hend|?]; [|done]. by apply He in Hend.
    + rewrite Ha, !elem_of_app, !list_elem_of_singleton. naive_solver.
  - intros x t. rewrite lookup_insert. case_decide as Hx; [|eauto].
    intros [= <-]. subst. apply begun_txn_fields.
Qed.

(** Commit and rollback remove the transaction; on an unknown id they are errors
    and change nothing. *)
Lemma end_inv h m (c : bool) xid :
  txn_inv h m ->
  let '(r, m') := if c then commit m xid else rollback m xid in
  next_xid m' = next_xid m /\
  match active m !! xid with
  | Some _ => r = Ok tt /\ active m' = delete xid (active m) /\ txn_inv (h ++ [Ended xid]) m'
  | None => r = Err (txn_not_found xid) /\ m' = m
  end.
Proof.
  intros [Hb He Ha Hent].
  assert (Hgoal : forall txn m', active m !! xid = Some txn -> next_xid m' = next_xid m ->
    active m' = delete xid (active m) -> txn_inv (h ++ [Ended xid]) m').
  { intros txn m' Hx Hn Hact. assert (Hbx : Began xid ∈ h) by (apply Ha; eauto).
    split; rewrite ?Hn, ?Hact.
    - intros x. rewrite elem_of_app, list_elem_of_singleton, Hb. naive_solver.
    - intros x. rewrite !elem_of_app, !list_elem_of_singleton. naive_solver.
    - intros x. rewrite lookup_delete. case_decide as Hxx.
      + subst. split; [by intros []|]. set_solver.
      + rewrite Ha, !elem_of_app, !list_elem_of_singleton. naive_solver.
    - intros x t. rewrite lookup_delete. case_decide; [done|]. eauto. }
  destruct c; unfold commit, rollback; destruct (active m !! xid) as [txn|] eqn:Hx; cbn;
    rewrite ?delete_insert_eq; split_and!; eauto.
Qed.

Lemma run_ops_inv ops h m :
  txn_inv h m -> 1 <= next_xid m -> next_xid m + begins ops < 2 ^ 32 ->
  let '(h', m') := run_ops ops m in
  txn_inv (h ++ h') m' /\ next_xid m' = next_xid m + begins ops.
Proof.
  revert h m. induction ops as [|op ops IH]; intros h m Hinv H1 Hmax; cbn [run_ops run_op].
  { rewrite app_nil_r. split; [done|]. unfold begins. cbn. lia. }
  assert (Hbs : 0 <= begins ops) by (unfold begins; lia).
  destruct op as [iso|c xid]; unfold begins in Hmax; cbn in Hmax; fold (begins ops) in Hmax.
  - change (zlen (OpBegin iso :: _)) with (Z.of_nat (S (length (List.filter is_begin ops)))) in Hmax.
    pose proof (begin_inv h m iso Hinv H1) as Hb. cbn [run_op].
    destruct (begin m iso) as [xid m'] eqn:Eb.
    destruct Hb as (-> & Hn & _ & Hinv'); [unfold begins in *; lia|].
    specialize (IH _ _ Hinv'). destruct (run_ops ops m') as [h' m''].
    destruct IH as [Hi Hn']; [lia|unfold begins in *; lia|].
    cbn [app]. rewrite <- app_assoc in Hi. split; [done|]. unfold begins in *. cbn. lia.
  - pose proof (end_inv h m c xid Hinv) as He. unfold run_op.
    destruct (if c then commit m xid else rollback m xid) as [r m'].
    destruct He as [Hn He]. change (begins (OpEnd c xid :: ops)) with (begins ops).
    destruct (active m !! xid).
    + destruct He as (-> & _ & Hinv'). specialize (IH _ _ Hinv').
      destruct (run_ops ops m') as [h' m'']. rewrite Hn in IH.
      destruct IH as [Hi Hn']; [lia|lia|]. rewrite <- app_assoc in Hi. by split.
    + destruct He as [-> ->]. specialize (IH _ _ Hinv). destruct (run_ops ops m) as [h' m''].
      by apply IH.
Qed.

Lemma run_ops_from_new ops h m :
  run_ops ops TransactionManager_new = (h, m) -> begins ops < 2 ^ 32 - 1 ->
  txn_inv h m /\ next_xid m = 1 + begins ops.
Proof.
  intros Hrun Hmax. pose proof (run_ops_inv ops [] TransactionManager_new txn_inv_new) as H.
  rewrite Hrun in H. apply H; cbn; lia.
Qed.

Lemma run_ops_keys ops h m :
  run_ops ops TransactionManager_new = (h, m) -> begins ops < 2 ^ 32 - 1 ->
  txn_inv h m /\ next_xid m = 1 + begins ops /\
  forall x, in_snapshot {| snap_xid := 0; active_xids := active_keys m |} x = true <->
            Began x ∈ h /\ Ended x ∉ h.
Proof.
  intros Hrun Hmax. destruct (run_ops_from_new _ _ _ Hrun Hmax) as [Hinv Hn]. split_and!; [done|done|]. intros x.
  unfold in_snapshot, active_keys. cbn. rewrite bool_decide_eq_true, list_elem_of_fmap.
  rewrite <- (inv_active _ _ Hinv). split.
  - intros ([x' t] & -> & Hx%elem_of_map_to_list). eauto.
  - intros [t Ht]. exists (x, t). split; [done|]. by apply elem_of_map_to_list.
Qed.

(** Whether the heap's visibility rule accepts a tuple, as a proposition about
    the snapshot, for transaction ids that fit the 32 bits they are cut to. *)
Lemma is_visible_iff tup s :
  is_u32 (tup_xmin tup) -> is_u32 (tup_xmax tup) ->
  is_visible tup s = true <->
  tup_xmin tup <> 0 /\ tup_xmin tup < snap_xid s /\ in_snapshot s (tup_xmin tup) = false /\
  ~ (tup_xmax tup <> 0 /\ tup_xmax tup < snap_xid s /\ in_snapshot s (tup_xmax tup) = false).
Proof.
  intros H1 H2. unfold is_visible. rewrite !wrap_small by done.
  destruct (Z.eqb_spec (tup_xmin tup) 0); [naive_solver|].
  destruct (in_snapshot s (tup_xmin tup)); cbn; [naive_solver|].
  destruct (Z.ltb_spec (tup_xmin tup) (snap_xid s)); cbn; [|naive_solver lia].
  destruct (Z.eqb_spec (tup_xmax tup) 0); [naive_solver|].
  destruct (in_snapshot s (tup_xmax tup)); cbn; [naive_solver|].
  destruct (Z.ltb_spec (tup_xmax tup) (snap_xid s)); cbn; naive_solver lia.
Qed.

(** A snapshot of the active transactions regards an id below its bound as
    finished exactly when the history has its end. *)
Lemma finished_iff ops h m xid x :
  run_ops ops TransactionManager_new = (h, m) -> begins ops < 2 ^ 32 - 1 -> xid <= next_xid m ->
  is_u32 x ->
  x <> 0 /\ x < xid /\ in_snapshot {| snap_xid := xid; active_xids := active_keys m |} x = false <->
  Ended x ∈ h /\ x < xid.
Proof.
  intros Hrun Hmax Hxid Hx32. destruct (run_ops_keys _ _ _ Hrun Hmax) as (Hinv & Hn & Hkeys).
  change (in_snapshot _ x) with (in_snapshot {| snap_xid := 0; active_xids := active_keys m |} x).
  rewrite <- not_true_iff_false, Hkeys. destruct Hinv as [Hb He _ _]. unfold in_width in Hx32. split.
  - intros (? & ? & Hnot). split; [|done]. apply dec_stable. intros Hne. apply Hnot.
    split; [apply Hb; lia|done].
  - intros [Hend ?]. pose proof (He _ Hend) as Hbx. rewrite Hb in Hbx. naive_solver lia.
Qed.

(** What any snapshot of the active transactions shows of a tuple. *)
Lemma visible_through ops h m xid tup :
  run_ops ops TransactionManager_new = (h, m) -> begins ops < 2 ^ 32 - 1 -> xid <= next_xid m ->
  is_u32 (tup_xmin tup) -> is_u32 (tup_xmax tup) ->
  is_visible tup {| snap_xid := xid; active_xids := active_keys m |} = true <->
  (Ended (tup_xmin tup) ∈ h /\ tup_xmin tup < xid) /\ ~ (Ended (tup_xmax tup) ∈ h /\ tup_xmax tup < xid).
Proof.
  intros Hrun Hmax Hxid Hmin Hx. rewrite is_visible_iff by done. cbn [snap_xid].
  rewrite (finished_iff _ _ _ _ (tup_xmax tup) Hrun), <- (finished_iff _ _ _ _ (tup_xmin tup) Hrun) by done.
  tauto.
Qed.

(** C17. The state of the manager after any sequence of calls is the one its history
    determines: ids are handed out in order from 1 without reuse, exactly the
    transactions that began and did not end are in the table, and each entry is
    an [Active] transaction under its own id. *)
Theorem manager_history ops :
  begins ops < 2 ^ 32 - 1 ->
  let '(h, m) := run_ops ops TransactionManager_new in
  txn_inv h m /\ next_xid m = 1 + begins ops.
Proof. intros Hmax. destruct (run_ops ops _) as [h m] eqn:Hrun. by apply (run_ops_from_new ops). Qed.

(** C18. Snapshot isolation, for calls that run one after the other: a REPEATABLE READ
    or SERIALIZABLE transaction stores at [begin] a snapshot through which a
    tuple is visible exactly when the transaction that made it had ended by then
    and no transaction that deleted it had. *)
Theorem snapshot_sees_finished ops h m iso tup :
  run_ops ops TransactionManager_new = (h, m) -> begins ops < 2 ^ 32 - 2 ->
  iso = RepeatableRead \/ iso = Serializable ->
  is_u32 (tup_xmin tup) -> is_u32 (tup_xmax tup) ->
  exists txn s, get_transaction (snd (begin m iso)) (fst (begin m iso)) = Some txn /\
    txn_snapshot txn = Some s /\
    (is_visible tup s = true <-> Ended (tup_xmin tup) ∈ h /\ Ended (tup_xmax tup) ∉ h).
Proof.
  intros Hrun Hmax Hiso Hmin Hx. destruct (run_ops_from_new _ _ _ Hrun) as (Hinv & Hn); [lia|].
  assert (0 <= begins ops) by (unfold begins; lia).
  rewrite begin_value by lia. cbn. unfold get_transaction, insert_active. cbn.
  rewrite lookup_insert_eq. eexists _, (create_snapshot m (next_xid m)). split_and!; [done| |].
  { by destruct Hiso as [-> | ->]. }
  unfold create_snapshot. rewrite (visible_through _ _ _ _ _ Hrun) by (done || lia).
  assert (Hlt : forall x, Ended x ∈ h -> x < next_xid m).
  { intros x Hex%(inv_ended _ _ Hinv). apply (inv_began _ _ Hinv) in Hex. lia. }
  naive_solver.
Qed.

(** READ COMMITTED, as the server runs it: a statement of the running transaction
    [xid] sees a tuple exactly when its maker ended and has a smaller id than
    [xid], and its deleter did not both end and have a smaller id. Rows made by
    the transaction itself, and rows committed before the statement by
    transactions that began after [xid], are not visible. *)
Theorem statement_snapshot_sees ops h m xid tup :
  run_ops ops TransactionManager_new = (h, m) -> begins ops < 2 ^ 32 - 1 ->
  is_Some (get_transaction m xid) ->
  is_u32 (tup_xmin tup) -> is_u32 (tup_xmax tup) ->
  is_visible tup (get_snapshot_for_statement m xid) = true <->
  (Ended (tup_xmin tup) ∈ h /\ tup_xmin tup < xid) /\ ~ (Ended (tup_xmax tup) ∈ h /\ tup_xmax tup < xid).
Proof.
  intros Hrun Hmax Hact Hmin Hx. destruct (run_ops_from_new _ _ _ Hrun Hmax) as (Hinv & Hn).
  apply (inv_active _ _ Hinv) in Hact as [Hbx%(inv_began _ _ Hinv) _].
  apply (visible_through _ _ _ _ _ Hrun); done || lia.
Qed.

(** [Snapshot::is_visible] and the heap's [is_visible] agree on a tuple nobody
    deleted and give opposite answers on one whose maker is visible and whose
    deleter is recorded. *)
Theorem snapshot_is_visible_inverted s tup :
  is_u32 (tup_xmin tup) -> is_u32 (tup_xmax tup) -> tup_xmin tup <> 0 ->
  (tup_xmax tup = 0 -> Snapshot_is_visible s (tup_xmin tup) None = is_visible tup s) /\
  (tup_xmax tup <> 0 -> Snapshot_is_visible s (tup_xmin tup) None = true ->
    Snapshot_is_visible s (tup_xmin tup) (Some (tup_xmax tup)) = negb (is_visible tup s)).
Proof.
  intros H1 H2 H0. unfold is_visible, Snapshot_is_visible. rewrite !wrap_small by done.
  rewrite (proj2 (Z.eqb_neq _ _) H0). unfold is_true.
  destruct (in_snapshot s (tup_xmin tup)), (Z.leb_spec (snap_xid s) (tup_xmin tup)),
    (Z.ltb_spec (tup_xmin tup) (snap_xid s)); cbn; try lia; split; intros Hx; rewrite ?Hx; try done;
    rewrite (proj2 (Z.eqb_neq _ _) Hx); intros _.
  by destruct (in_snapshot s (tup_xmax tup)), (tup_xmax tup <? snap_xid s).
Qed.

(** Two transactions begin, the first commits, a third begins and commits. *)
Definition sample_ops : list txn_op :=
  [OpBegin ReadCommitted; OpBegin ReadCommitted; OpEnd true 1; OpBegin ReadCommitted; OpEnd true 3].

Definition sample_tuple (xmin xmax : Z) : Tuple :=
  {| tup_slots := []; tup_data := []; tup_xmin := xmin; tup_xmax := xmax; tup_cmin := 0; tup_cmax := 0;
     tup_xvac := 0 |}.

Lemma manager_history_witness :
  next_xid (snd (run_ops sample_ops TransactionManager_new)) = 4.
Proof.
  pose proof (manager_history sample_ops ltac:(vm_compute; reflexivity)) as H.
  destruct (run_ops sample_ops TransactionManager_new) as [h m]. exact (proj2 H).
Defined.

Lemma snapshot_sees_finished_witness :
  let '(h, m) := run_ops sample_ops TransactionManager_new in
  exists txn s, get_transaction (snd (begin m Serializable)) 4 = Some txn /\ txn_snapshot txn = Some s /\
    (is_visible (sample_tuple 3 2) s = true <-> Ended 3 ∈ h /\ Ended 2 ∉ h).
Proof.
  destruct (run_ops sample_ops TransactionManager_new) as [h m] eqn:E.
  pose proof (snapshot_sees_finished sample_ops h m Serializable (sample_tuple 3 2) E
    ltac:(vm_compute; reflexivity) (or_intror eq_refl) ltac:(vm_compute; split; [discriminate|reflexivity])
    ltac:(vm_compute; split; [discriminate|reflexivity])) as H.
  vm_compute in E. injection E as <- <-. exact H.
Defined.

(** The third transaction committed before the statement, yet the second, which
    began earlier, does not see its rows. *)
Lemma statement_snapshot_sees_witness :
  is_visible (sample_tuple 3 0)
    (get_snapshot_for_statement (snd (run_ops sample_ops TransactionManager_new)) 2) = true <->
  (Ended 3 ∈ fst (run_ops sample_ops TransactionManager_new) /\ 3 < 2) /\
  ~ (Ended 0 ∈ fst (run_ops sample_ops TransactionManager_new) /\ 0 < 2).
Proof.
  apply (statement_snapshot_sees sample_ops _ _ 2 (sample_tuple 3 0) (surjective_pairing _));
    [vm_compute; reflexivity|vm_compute; eauto| |]; vm_compute; split; (discriminate || reflexivity).
Defined.

Lemma snapshot_is_visible_inverted_witness :
  Snapshot_is_visible {| snap_xid := 10; active_xids := [5; 8] |} 3 (Some 7) =
  negb (is_visible (sample_tuple 3 7) {| snap_xid := 10; active_xids := [5; 8] |}).
Proof.
  refine (proj2 (snapshot_is_visible_inverted {| snap_xid := 10; active_xids := [5; 8] |}
    (sample_tuple 3 7) _ _ _) _ _); vm_compute; (discriminate || reflexivity || split; (discriminate || reflexivity)).
Defined.

(* ------------------------------------------------------------------ *)
(** ** Concurrent calls *)

(** A thread inside [begin]: it has its id, or its id and its snapshot. *)
Inductive begin_pc :=
| GotXid (isolation : IsolationLevel) (xid : TransactionId)
| GotSnapshot (isolation : IsolationLevel) (xid : TransactionId) (s : Snapshot).

Definition pc_xid (pc : begin_pc) : TransactionId :=
  match pc with GotXid _ x | GotSnapshot _ x _ => x end.

(** The manager shared by all threads, and the threads inside [begin]. *)
Record shared := { mgr : TransactionManager; threads : gmap nat begin_pc }.

(** One atomic action of one thread: [begin] is an atomic increment, a read of
    the table under its lock, and a write of it under its lock; [commit] and
    [rollback] hold the lock throughout. *)
Inductive mgr_step : shared -> shared -> Prop :=
| step_fetch m ts t iso :
    ts !! t = None ->
    mgr_step {| mgr := m; threads := ts |}
             {| mgr := snd (fetch_add_xid m); threads := <[t := GotXid iso (fst (fetch_add_xid m))]> ts |}
| step_snapshot m ts t iso xid :
    ts !! t = Some (GotXid iso xid) ->
    mgr_step {| mgr := m; threads := ts |}
             {| mgr := m; threads := <[t := GotSnapshot iso xid (create_snapshot m xid)]> ts |}
| step_insert m ts t iso xid s :
    ts !! t = Some (GotSnapshot iso xid s) ->
    mgr_step {| mgr := m; threads := ts |}
             {| mgr := insert_active m xid (begun_txn xid iso s); threads := delete t ts |}
| step_end m ts (c : bool) xid :
    mgr_step {| mgr := m; threads := ts |}
             {| mgr := snd (if c then commit m xid else rollback m xid); threads := ts |}.

Definition shared_new : shared := {| mgr := TransactionManager_new; threads := ∅ |}.

(** Ids taken so far, those of running threads and of active transactions, are
    below the counter and nobody shares one. *)
Record ids_unique (st : shared) : Prop := {
  ids_pos : 1 <= next_xid (mgr st);
  ids_threads : forall t pc, threads st !! t = Some pc -> 1 <= pc_xid pc < next_xid (mgr st);
  ids_active : forall x, is_Some (active (mgr st) !! x) -> 1 <= x < next_xid (mgr st);
  ids_inj : forall t t' pc pc', threads st !! t = Some pc -> threads st !! t' = Some pc' ->
    pc_xid pc = pc_xid pc' -> t = t';
  ids_fresh : forall t pc, threads st !! t = Some pc -> active (mgr st) !! pc_xid pc = None;
  ids_entry : forall x txn, active (mgr st) !! x = Some txn -> txn_xid txn = x /\ txn_state txn = Active;
}.

Lemma ids_unique_new : ids_unique shared_new.
Proof. split; cbn; intros; rewrite ?lookup_empty in *; try done; try lia. Qed.

Lemma end_active m (c : bool) xid :
  next_xid (snd (if c then commit m xid else rollback m xid)) = next_xid m /\
  active (snd (if c then commit m xid else rollback m xid)) = delete xid (active m).
Proof.
  destruct c; unfold commit, rollback; destruct (active m !! xid) eqn:E; cbn;
    rewrite ?delete_insert_eq; split; try done; by rewrite delete_id.
Qed.

Lemma ids_unique_step st st' :
  mgr_step st st' -> next_xid (mgr st) < 2 ^ 32 - 1 -> ids_unique st -> ids_unique st'.
Proof.
  intros Hstep Hmax [Hp Ht Ha Hi Hf He]. destruct Hstep as [m ts t iso Hn|m ts t iso xid Hx|m ts t iso xid s Hx|m ts c xid];
    cbn -[commit rollback] in *.
  - rewrite wrap_small by (unfold in_width; lia).
    assert (Hnone : active m !! next_xid m = None).
    { apply eq_None_not_Some. intros ?%Ha. lia. }
    split; cbn; [lia| | | | |done].
    + intros t' pc. rewrite lookup_insert. case_decide; [intros [= <-]; cbn; lia|].
      intros H1%Ht. lia.
    + intros x H1%Ha. lia.
    + intros t1 t2 p1 p2. rewrite !lookup_insert. repeat case_decide; subst; [done| | |eauto].
      * intros [= <-] H2%Ht. cbn. lia.
      * intros H2%Ht [= <-]. cbn. lia.
    + intros t' pc. rewrite lookup_insert. case_decide; [by intros [= <-]|eauto].
  - pose proof (Ht _ _ Hx) as Hb. pose proof (Hf _ _ Hx) as Hff. cbn in Hb, Hff.
    split; cbn; [lia| |done| | |done].
    + intros t' pc. rewrite lookup_insert. case_decide; [by intros [= <-]|eauto].
    + intros t1 t2 p1 p2. rewrite !lookup_insert. repeat case_decide; subst; [done| | |eauto].
      * intros [= <-] H2. cbn. intros H3. by apply (Hi _ _ _ _ Hx H2).
      * intros H2 [= <-]. cbn. intros H3. by apply (Hi _ _ _ _ H2 Hx).
    + intros t' pc. rewrite lookup_insert. case_decide; [by intros [= <-]|eauto].
  - pose proof (Ht _ _ Hx) as Hb. cbn in Hb. split; cbn; [lia| | | | |].
    + intros t' pc. rewrite lookup_delete. case_decide; [done|eauto].
    + intros x. rewrite lookup_insert. case_decide; [subst; lia|eauto].
    + intros t1 t2 p1 p2. rewrite !lookup_delete. repeat case_decide; try done. eauto.
    + intros t' pc. rewrite lookup_delete. case_decide as Ht'; [done|]. intros H1.
      rewrite lookup_insert_ne; [eauto|]. intros Heq. apply Ht'. by apply (Hi _ _ _ _ Hx H1).
    + intros x txn. rewrite lookup_insert. case_decide; [|eauto]. intros [= <-]. subst. apply begun_txn_fields.
  - destruct (end_active m c xid) as [E1 E2]. split; cbn -[commit rollback]; rewrite ?E1, ?E2; try done.
    + intros x. rewrite lookup_delete. case_decide; [by intros []|eauto].
    + intros t pc H1. rewrite lookup_delete. case_decide; [done|eauto].
    + intros x txn. rewrite lookup_delete. case_decide; [done|eauto].
Qed.

(** Runs of the threads in which fewer than 2^32 - 2 ids have been taken. *)
Inductive reachable : shared -> Prop :=
| reach_new : reachable shared_new
| reach_step st st' :
    reachable st -> next_xid (mgr st) < 2 ^ 32 - 1 -> mgr_step st st' -> reachable st'.

(** However the threads' actions interleave, no two threads inside [begin] hold
    the same id, no thread holds the id of an active transaction, and every entry
    of the table is an active transaction stored under its own id. *)
Theorem concurrent_ids_unique st : reachable st -> ids_unique st.
Proof.
  induction 1 as [|st st' Hr IH Hmax Hs]; [apply ids_unique_new|]. by apply (ids_unique_step st).
Qed.

(** The states of two overlapping SERIALIZABLE begins: the first takes its id,
    the second runs all of [begin], then the first takes its snapshot and enters
    the table. *)
Definition race_mgr1 : TransactionManager := snd (fetch_add_xid TransactionManager_new).
Definition race_mgr2 : TransactionManager := snd (fetch_add_xid race_mgr1).
Definition race_mgr3 : TransactionManager :=
  insert_active race_mgr2 2 (begun_txn 2 Serializable (create_snapshot race_mgr2 2)).
Definition race_mgr4 : TransactionManager :=
  insert_active race_mgr3 1 (begun_txn 1 Serializable (create_snapshot race_mgr3 1)).

Lemma race_reachable : reachable {| mgr := race_mgr4; threads := ∅ |}.
Proof.
  assert (Hstep : forall st m ts, reachable st -> (next_xid (mgr st) <? 2 ^ 32 - 1) = true ->
    mgr_step st {| mgr := m; threads := ts |} -> forall ts', ts = ts' -> reachable {| mgr := m; threads := ts' |}).
  { intros st m ts Hr Hlt%Z.ltb_lt Hs ts' <-. by apply (reach_step st). }
  pose (one := <[0%nat := GotXid Serializable 1]> (∅ : gmap nat begin_pc)).
  pose (two := <[1%nat := GotXid Serializable 2]> one).
  assert (L0 : (∅ : gmap nat begin_pc) !! 0%nat = None) by apply lookup_empty.
  assert (L1 : one !! 1%nat = None) by done.
  assert (L2 : two !! 1%nat = Some (GotXid Serializable 2)) by apply lookup_insert_eq.
  assert (L3 : one !! 0%nat = Some (GotXid Serializable 1)) by apply lookup_insert_eq.
  pose proof (Hstep _ _ _ reach_new eq_refl (step_fetch _ _ _ Serializable L0) _ eq_refl) as R1.
  pose proof (Hstep _ _ _ R1 eq_refl (step_fetch race_mgr1 _ _ Serializable L1) _ eq_refl) as R2.
  pose proof (Hstep _ _ _ R2 eq_refl (step_snapshot race_mgr2 _ _ _ _ L2) _ eq_refl) as R3.
  assert (R4 : reachable {| mgr := race_mgr3; threads := one |}).
  { refine (Hstep _ _ _ R3 eq_refl (step_insert _ _ _ _ _ _ (lookup_insert_eq _ _ _)) _ _).
    unfold two. by rewrite insert_insert_eq, delete_insert_id. }
  pose proof (Hstep _ _ _ R4 eq_refl (step_snapshot race_mgr3 _ _ _ _ L3) _ eq_refl) as R5.
  refine (Hstep _ _ _ R5 eq_refl (step_insert _ _ _ _ _ _ (lookup_insert_eq _ _ _)) _ _).
  unfold one. by rewrite insert_insert_eq, delete_insert_id.
Qed.

(** Snapshot isolation needs the id and the snapshot to be taken together, which
    [begin] does not do: there is a run after which transaction 1 is still active
    while the stored snapshot of the serializable transaction 2 shows its rows. *)
Theorem begin_race :
  exists st txn s, reachable st /\ threads st = ∅ /\ is_Some (active (mgr st) !! 1) /\
    active (mgr st) !! 2 = Some txn /\ txn_snapshot txn = Some s /\
    is_visible (sample_tuple 1 0) s = true.
Proof.
  eexists _, _, _. split; [apply race_reachable|]. cbn [mgr threads].
  split_and!; try reflexivity. eexists; reflexivity.
Qed.

Lemma concurrent_ids_unique_witness : ids_unique {| mgr := race_mgr4; threads := ∅ |}.
Proof. apply concurrent_ids_unique. apply race_reachable. Defined.

(* ------------------------------------------------------------------ *)
(** ** The commit log ([clog.rs]) *)

Module Clog.

Inductive TxnStatus := InProgress | Committed | Aborted.

#[export] Instance TxnStatus_eq_dec : EqDecision TxnStatus.
Proof. solve_decision. Defined.

Definition as_str (st : TxnStatus) : string :=
  match st with InProgress => "in_progress" | Committed => "committed" | Aborted => "aborted" end.

Record CommitLog := { statuses : gmap Z TxnStatus }.

Definition CommitLog_new : CommitLog := {| statuses := ∅ |}.

Definition set_status (xid : Z) (status : TxnStatus) (c : CommitLog) : CommitLog :=
  {| statuses := <[xid := status]> (statuses c) |}.

Definition get_status (xid : Z) (c : CommitLog) : option TxnStatus := statuses c !! xid.

Definition is_committed (xid : Z) (c : CommitLog) : bool :=
  match statuses c !! xid with Some Committed => true | _ => false end.

Definition is_aborted (xid : Z) (c : CommitLog) : bool :=
  match statuses c !! xid with Some Aborted => true | _ => false end.

Definition is_in_progress (xid : Z) (c : CommitLog) : bool :=
  match statuses c !! xid with Some InProgress => true | _ => false end.

Definition is_known (xid : Z) (c : CommitLog) : bool := bool_decide (is_Some (statuses c !! xid)).

Definition clog_keep (cutoff xid : Z) (status : TxnStatus) : bool :=
  (cutoff <=? xid) || match status with InProgress => true | _ => false end.

Definition truncate (cutoff : Z) (c : CommitLog) : CommitLog :=
  {| statuses := filter (fun kv => clog_keep cutoff kv.1 kv.2 = true) (statuses c) |}.

Definition clog_len (c : CommitLog) : nat := size (statuses c).

Definition clog_is_empty (c : CommitLog) : bool := bool_decide (size (statuses c) = 0%nat).

(** Truncation forgets exactly the finished transactions below the cutoff, and
    therefore never changes whether a transaction is in progress, nor the answer
    for any id at or above the cutoff. *)
Theorem truncate_spec cutoff xid c :
  get_status xid (truncate cutoff c) =
    (if (xid <? cutoff) && negb (is_in_progress xid c) then None else get_status xid c) /\
  is_in_progress xid (truncate cutoff c) = is_in_progress xid c.
Proof.
  unfold is_in_progress, get_status, truncate, clog_keep. cbn [statuses].
  destruct (statuses c !! xid) as [st|] eqn:E.
  - destruct (Z.ltb_spec xid cutoff), (Z.leb_spec cutoff xid); try lia; destruct st; cbn;
      (rewrite map_lookup_filter, E; cbn; rewrite ?(proj2 (Z.leb_le _ _)) by lia;
       rewrite ?(proj2 (Z.leb_gt _ _)) by lia; done).
  - rewrite map_lookup_filter, E. cbn. by destruct (xid <? cutoff).
Qed.

End Clog.
