(* ===== verification/Locks.v ===== *)
(** The lock manager ([src/src/transaction/locks.rs]): table, row and advisory
    locks, the queue of refused requests, and deadlock detection on the wait-for
    graph they induce. *)

From stdpp Require Import relations.
From S2P Require Import Prelude Types.

(* ------------------------------------------------------------------ *)
(** ** Lock modes *)

Inductive LockMode :=
| AccessShare | RowShare | RowExclusive | ShareUpdateExclusive
| Share | ShareRowExclusive | Exclusive | AccessExclusive
| ForUpdate | ForShare | ForNoKeyUpdate | ForKeyShare.

#[export] Instance LockMode_eq_dec : EqDecision LockMode.
Proof. solve_decision. Defined.

Definition is_table_lock (m : LockMode) : bool :=
  match m with
  | ForUpdate | ForShare | ForNoKeyUpdate | ForKeyShare => false
  | _ => true
  end.

Definition conflicts_with (self other : LockMode) : bool :=
  match self, other with
  | AccessShare, Exclusive | Exclusive, AccessShare => true
  | AccessShare, AccessExclusive | AccessExclusive, AccessShare => true
  | RowShare, RowExclusive | RowExclusive, RowShare => true
  | RowShare, ShareUpdateExclusive | ShareUpdateExclusive, RowShare => true
  | RowShare, Exclusive | Exclusive, RowShare => true
  | RowShare, AccessExclusive | AccessExclusive, RowShare => true
  | RowExclusive, ShareUpdateExclusive | ShareUpdateExclusive, RowExclusive => true
  | RowExclusive, Share | Share, RowExclusive => true
  | RowExclusive, ShareRowExclusive | ShareRowExclusive, RowExclusive => true
  | RowExclusive, Exclusive | Exclusive, RowExclusive => true
  | RowExclusive, AccessExclusive | AccessExclusive, RowExclusive => true
  | ShareUpdateExclusive, Share | Share, ShareUpdateExclusive => true
  | ShareUpdateExclusive, ShareRowExclusive | ShareRowExclusive, ShareUpdateExclusive => true
  | ShareUpdateExclusive, Exclusive | Exclusive, ShareUpdateExclusive => true
  | ShareUpdateExclusive, AccessExclusive | AccessExclusive, ShareUpdateExclusive => true
  | Share, ShareRowExclusive | ShareRowExclusive, Share => true
  | Share, Exclusive | Exclusive, Share => true
  | Share, AccessExclusive | AccessExclusive, Share => true
  | ShareRowExclusive, Exclusive | Exclusive, ShareRowExclusive => true
  | ShareRowExclusive, AccessExclusive | AccessExclusive, ShareRowExclusive => true
  | Exclusive, AccessExclusive | AccessExclusive, Exclusive => true
  | ForUpdate, ForUpdate | ForUpdate, ForShare | ForShare, ForUpdate => true
  | ForUpdate, ForNoKeyUpdate | ForNoKeyUpdate, ForUpdate => true
  | ForUpdate, ForKeyShare | ForKeyShare, ForUpdate => true
  | ForShare, ForNoKeyUpdate | ForNoKeyUpdate, ForShare => true
  | ForShare, ForKeyShare | ForKeyShare, ForShare => true
  | ForNoKeyUpdate, ForNoKeyUpdate => true
  | ForKeyShare, ForKeyShare => false
  | _, _ => false
  end.

(** An advisory lock's mode, and the conflict test of [acquire_advisory_lock]. *)
Inductive AdvisoryLockMode := AdvExclusive | AdvShared.

Definition advisory_conflicts (mode existing : AdvisoryLockMode) : bool :=
  match mode, existing with
  | AdvExclusive, _ => true
  | AdvShared, AdvExclusive => true
  | AdvShared, AdvShared => false
  end.

(* ------------------------------------------------------------------ *)
(** ** Tables of lock entries *)

(** What the three kinds of entry have in common: a holder, and a symmetric
    relation between entries that different holders may not have at once. *)
Create HintDb locks.

Class LockEntryLike (E : Type) := {
  entry_holder : E -> TransactionId;
  entry_conflicts : E -> E -> bool;
  entry_conflicts_sym : forall a b, entry_conflicts a b = entry_conflicts b a;
}.

Record LockEntry := { le_holder : TransactionId; le_mode : LockMode }.
Record AdvisoryLockEntry := { adv_holder : TransactionId; adv_mode : AdvisoryLockMode }.

Record LockRequest := {
  req_xid : TransactionId;
  req_mode : LockMode;
  req_relation_oid : Oid;
  req_page_id : option Z;
  req_tuple_offset : option Z;
}.

#[export] Program Instance LockEntry_like : LockEntryLike LockEntry := {|
  entry_holder := le_holder;
  entry_conflicts a b := conflicts_with (le_mode a) (le_mode b);
|}.
Next Obligation. by intros [? []] [? []]. Qed.

#[export] Program Instance AdvisoryLockEntry_like : LockEntryLike AdvisoryLockEntry := {|
  entry_holder := adv_holder;
  entry_conflicts a b := advisory_conflicts (adv_mode a) (adv_mode b);
|}.
Next Obligation. by intros [? []] [? []]. Qed.

(** [existing.holder != xid && mode.conflicts_with(&existing.mode)]. *)
Definition blocks {E} `{LockEntryLike E} (new existing : E) : bool :=
  bool_decide (entry_holder existing <> entry_holder new) && entry_conflicts new existing.

(** [locks.retain(|l| l.holder != xid)]. *)
Definition retain_others {E} `{LockEntryLike E} (xid : TransactionId) (locks : list E) : list E :=
  filter (fun l => entry_holder l <> xid) locks.

(** [retain(|l| l.holder != xid)] on every entry, then dropping empty ones. *)
Definition release_everywhere {K E} `{Countable K} `{LockEntryLike E} (xid : TransactionId)
    (t : gmap K (list E)) : gmap K (list E) :=
  filter (fun kv => kv.2 <> []) (retain_others xid <$> t).

(* ------------------------------------------------------------------ *)
(** ** The lock manager *)

Abbreviation row_key := (Oid * Z * Z)%type.

Record LockManager := {
  table_locks : gmap Oid (list LockEntry);
  row_locks : gmap row_key (list LockEntry);
  wait_queue : list LockRequest;
  advisory_locks : gmap Z (list AdvisoryLockEntry);
}.

Definition LockManager_new : LockManager :=
  {| table_locks := ∅; row_locks := ∅; wait_queue := []; advisory_locks := ∅ |}.

Definition with_table_locks (m : LockManager) t := 
  {| table_locks := t; row_locks := row_locks m; wait_queue := wait_queue m; advisory_locks := advisory_locks m |}.
Definition with_row_locks (m : LockManager) t := 
  {| table_locks := table_locks m; row_locks := t; wait_queue := wait_queue m; advisory_locks := advisory_locks m |}.
Definition with_advisory_locks (m : LockManager) t := 
  {| table_locks := table_locks m; row_locks := row_locks m; wait_queue := wait_queue m; advisory_locks := t |}.
Definition push_wait (m : LockManager) (r : LockRequest) :=
  {| table_locks := table_locks m; row_locks := row_locks m; wait_queue := wait_queue m ++ [r];
     advisory_locks := advisory_locks m |}.

Definition acquire_table_lock (xid : TransactionId) (relation_oid : Oid) (mode : LockMode) (m : LockManager) :
    outcome unit * LockManager :=
  let locks := default [] (table_locks m !! relation_oid) in
  let new := {| le_holder := xid; le_mode := mode |} in
  if existsb (blocks new) locks then
    let m := with_table_locks m (<[relation_oid := locks]> (table_locks m)) in
    (Err (Anyhow "Lock conflict on relation {:?}" [relation_oid]),
     push_wait m {| req_xid := xid; req_mode := mode; req_relation_oid := relation_oid;
                    req_page_id := None; req_tuple_offset := None |})
  else (Ok tt, with_table_locks m (<[relation_oid := locks ++ [new]]> (table_locks m))).

Definition release_table_lock (xid : TransactionId) (relation_oid : Oid) (m : LockManager) : LockManager :=
  match table_locks m !! relation_oid with
  | Some locks =>
      let locks := retain_others xid locks in
      with_table_locks m
        (if decide (locks = []) then delete relation_oid (table_locks m)
         else <[relation_oid := locks]> (table_locks m))
  | None => m
  end.

Definition acquire_row_lock (xid : TransactionId) (relation_oid : Oid) (page_id tuple_offset : Z)
    (mode : LockMode) (m : LockManager) : outcome unit * LockManager :=
  let key := (relation_oid, page_id, tuple_offset) in
  let locks := default [] (row_locks m !! key) in
  let new := {| le_holder := xid; le_mode := mode |} in
  if existsb (blocks new) locks then
    let m := with_row_locks m (<[key := locks]> (row_locks m)) in
    (Err (Anyhow "Row lock conflict on {:?}:{:?}" [page_id; tuple_offset]),
     push_wait m {| req_xid := xid; req_mode := mode; req_relation_oid := relation_oid;
                    req_page_id := Some page_id; req_tuple_offset := Some tuple_offset |})
  else (Ok tt, with_row_locks m (<[key := locks ++ [new]]> (row_locks m))).

Definition release_row_lock (xid : TransactionId) (relation_oid : Oid) (page_id tuple_offset : Z)
    (m : LockManager) : LockManager :=
  let key := (relation_oid, page_id, tuple_offset) in
  match row_locks m !! key with
  | Some locks =>
      let locks := retain_others xid locks in
      with_row_locks m
        (if decide (locks = []) then delete key (row_locks m) else <[key := locks]> (row_locks m))
  | None => m
  end.

Definition release_all_locks (xid : TransactionId) (m : LockManager) : LockManager :=
  let m := with_table_locks m (release_everywhere xid (table_locks m)) in
  with_row_locks m (release_everywhere xid (row_locks m)).

Definition table_lock_holders (relation_oid : Oid) (m : LockManager) : list (TransactionId * LockMode) :=
  (fun l => (le_holder l, le_mode l)) <$> default [] (table_locks m !! relation_oid).

Definition row_lock_holders (relation_oid : Oid) (page_id tuple_offset : Z) (m : LockManager) :
    list (TransactionId * LockMode) :=
  (fun l => (le_holder l, le_mode l)) <$> default [] (row_locks m !! (relation_oid, page_id, tuple_offset)).

Definition acquire_advisory_lock (xid : TransactionId) (key : Z) (mode : AdvisoryLockMode) (m : LockManager) :
    outcome unit * LockManager :=
  let entries := default [] (advisory_locks m !! key) in
  let new := {| adv_holder := xid; adv_mode := mode |} in
  if existsb (blocks new) entries then
    (Err (Anyhow "Advisory lock conflict on key {} (mode {:?})"
            [key; match mode with AdvExclusive => 0 | AdvShared => 1 end]),
     with_advisory_locks m (<[key := entries]> (advisory_locks m)))
  else (Ok tt, with_advisory_locks m (<[key := entries ++ [new]]> (advisory_locks m))).

Definition try_acquire_advisory_lock (xid : TransactionId) (key : Z) (mode : AdvisoryLockMode)
    (m : LockManager) : bool * LockManager :=
  let '(r, m) := acquire_advisory_lock xid key mode m in
  (match r with Ok _ => true | _ => false end, m).

Definition release_advisory_lock (xid : TransactionId) (key : Z) (m : LockManager) : bool * LockManager :=
  match advisory_locks m !! key with
  | Some entries =>
      match position (fun e => bool_decide (adv_holder e = xid)) entries with
      | Some pos =>
          let entries := remove_at pos entries in
          (true, with_advisory_locks m
             (if decide (entries = []) then delete key (advisory_locks m)
              else <[key := entries]> (advisory_locks m)))
      | None => (false, m)
      end
  | None => (false, m)
  end.

Definition release_all_advisory_locks (xid : TransactionId) (m : LockManager) : LockManager :=
  with_advisory_locks m (release_everywhere xid (advisory_locks m)).

Definition advisory_lock_holders (key : Z) (m : LockManager) : list (TransactionId * AdvisoryLockMode) :=
  (fun e => (adv_holder e, adv_mode e)) <$> default [] (advisory_locks m !! key).

(* ------------------------------------------------------------------ *)
(** ** Deadlock detection *)

Abbreviation wait_graph := (gmap TransactionId (list TransactionId)).

(** The holders that block a queued request. *)
Definition blockers_of (m : LockManager) (r : LockRequest) : list TransactionId :=
  let locks :=
    match req_page_id r, req_tuple_offset r with
    | Some page_id, Some tuple_offset => row_locks m !! (req_relation_oid r, page_id, tuple_offset)
    | _, _ => table_locks m !! req_relation_oid r
    end in
  le_holder <$> List.filter (blocks {| le_holder := req_xid r; le_mode := req_mode r |}) (default [] locks).

Definition add_waits (m : LockManager) (wait_for : wait_graph) (r : LockRequest) : wait_graph :=
  let blockers := blockers_of m r in
  if decide (blockers = []) then wait_for
  else <[req_xid r := default [] (wait_for !! req_xid r) ++ blockers]> wait_for.

Definition build_wait_for (m : LockManager) : wait_graph := foldl (add_waits m) ∅ (wait_queue m).

(** The two sets the search threads through, and a cycle if one was found;
    [None] stands for fuel running out. *)
Definition search_result : Type := option (option (list TransactionId) * gset TransactionId * gset TransactionId).

(** The loop of [detect_cycle] over the blockers of [xid]. *)
Fixpoint visit_blockers
    (detect : TransactionId -> gset TransactionId -> gset TransactionId -> search_result)
    (xid : TransactionId) (blockers : list TransactionId) (visited stack : gset TransactionId) : search_result :=
  match blockers with
  | [] => Some (None, visited, stack ∖ {[xid]})
  | blocker :: rest =>
      if decide (blocker ∉ visited) then
        match detect blocker visited stack with
        | Some (None, visited, stack) => visit_blockers detect xid rest visited stack
        | r => r
        end
      else if decide (blocker ∈ stack) then Some (Some [xid; blocker], visited, stack)
      else visit_blockers detect xid rest visited stack
  end.

Fixpoint detect_cycle (fuel : nat) (wait_for : wait_graph) (xid : TransactionId)
    (visited stack : gset TransactionId) : search_result :=
  match fuel with
  | O => None
  | S fuel =>
      visit_blockers (detect_cycle fuel wait_for) xid (default [] (wait_for !! xid))
        ({[xid]} ∪ visited) ({[xid]} ∪ stack)
  end.

(** The loop of [detect_deadlock] over the keys: it calls [detect_cycle] on every
    key, visited or not. *)
Fixpoint detect_from (fuel : nat) (wait_for : wait_graph) (keys : list TransactionId)
    (visited stack : gset TransactionId) : option (option (list TransactionId)) :=
  match keys with
  | [] => Some None
  | xid :: rest =>
      match detect_cycle fuel wait_for xid visited stack with
      | Some (Some cycle, _, _) => Some (Some cycle)
      | Some (None, visited, stack) => detect_from fuel wait_for rest visited stack
      | None => None
      end
  end.

(** Every transaction the graph names; the search recurses at most once into each. *)
Definition graph_nodes (g : wait_graph) : gset TransactionId :=
  dom g ∪ list_to_set (concat (map_to_list g).*2).

(** [detect_deadlock]; [order] is the iteration order of a [HashMap]'s keys. *)
Definition detect_deadlock (order : wait_graph -> list TransactionId) (m : LockManager) :
    option (option (list TransactionId)) :=
  if decide (wait_queue m = []) then Some None else
  let wait_for := build_wait_for m in
  detect_from (S (size (graph_nodes wait_for))) wait_for (order wait_for) ∅ ∅.

(* ------------------------------------------------------------------ *)
(** ** Mutual exclusion *)

(** No two holders have conflicting entries under one key, and no key is kept
    with an empty list. *)
Definition lock_table_ok {K E} `{Countable K} `{LockEntryLike E} (t : gmap K (list E)) : Prop :=
  forall k ls, t !! k = Some ls -> ls <> [] /\
    forall a b, a ∈ ls -> b ∈ ls -> entry_holder a <> entry_holder b -> entry_conflicts a b = false.

Record manager_ok (m : LockManager) : Prop := {
  ok_table : lock_table_ok (table_locks m);
  ok_row : lock_table_ok (row_locks m);
  ok_advisory : lock_table_ok (advisory_locks m);
}.

(** The calls that change the manager. *)
Inductive lock_op :=
| AcquireTable (xid : TransactionId) (rel : Oid) (mode : LockMode)
| ReleaseTable (xid : TransactionId) (rel : Oid)
| AcquireRow (xid : TransactionId) (rel : Oid) (page off : Z) (mode : LockMode)
| ReleaseRow (xid : TransactionId) (rel : Oid) (page off : Z)
| ReleaseAll (xid : TransactionId)
| AcquireAdvisory (xid : TransactionId) (key : Z) (mode : AdvisoryLockMode)
| ReleaseAdvisory (xid : TransactionId) (key : Z)
| ReleaseAllAdvisory (xid : TransactionId).

Definition run_lock_op (m : LockManager) (op : lock_op) : LockManager :=
  match op with
  | AcquireTable xid rel mode => snd (acquire_table_lock xid rel mode m)
  | ReleaseTable xid rel => release_table_lock xid rel m
  | AcquireRow xid rel page off mode => snd (acquire_row_lock xid rel page off mode m)
  | ReleaseRow xid rel page off => release_row_lock xid rel page off m
  | ReleaseAll xid => release_all_locks xid m
  | AcquireAdvisory xid key mode => snd (acquire_advisory_lock xid key mode m)
  | ReleaseAdvisory xid key => snd (release_advisory_lock xid key m)
  | ReleaseAllAdvisory xid => release_all_advisory_locks xid m
  end.

Definition run_lock_ops (ops : list lock_op) : LockManager := foldl run_lock_op LockManager_new ops.

Section table.
Context {K E : Type} `{Countable K} `{LockEntryLike E}.
Implicit Types (t : gmap K (list E)) (ls : list E).

Lemma elem_of_filter_bool {A} (p : A -> bool) (l : list A) x : x ∈ List.filter p l <-> x ∈ l /\ p x = true.
Proof. rewrite !list_elem_of_In. apply filter_In. Qed.

Lemma existsb_blocks new ls :
  existsb (blocks new) ls = true <->
  exists e, e ∈ ls /\ entry_holder e <> entry_holder new /\ entry_conflicts new e = true.
Proof.
  rewrite existsb_exists. unfold blocks. setoid_rewrite andb_true_iff.
  setoid_rewrite bool_decide_eq_true. by setoid_rewrite list_elem_of_In.
Qed.

Lemma elem_of_retain xid ls e : e ∈ retain_others xid ls <-> e ∈ ls /\ entry_holder e <> xid.
Proof. unfold retain_others. rewrite list_elem_of_filter. tauto. Qed.

Lemma table_ok_empty : lock_table_ok (∅ : gmap K (list E)).
Proof. intros k ls. by rewrite lookup_empty. Qed.

Lemma table_ok_default t k a b :
  lock_table_ok t -> a ∈ default [] (t !! k) -> b ∈ default [] (t !! k) ->
  entry_holder a <> entry_holder b -> entry_conflicts a b = false.
Proof.
  intros Hok. destruct (t !! k) as [ls|] eqn:E1; cbn; [|set_solver]. by apply (Hok k).
Qed.

(** A granted request. *)
Lemma table_ok_push t k new :
  lock_table_ok t -> existsb (blocks new) (default [] (t !! k)) = false ->
  lock_table_ok (<[k := default [] (t !! k) ++ [new]]> t).
Proof.
  intros Hok Hb k' ls. rewrite lookup_insert. case_decide; [|apply Hok]. subst. intros [= <-].
  rewrite <- not_true_iff_false, existsb_blocks in Hb.
  assert (Hn : forall e, e ∈ default [] (t !! k') -> entry_holder e <> entry_holder new ->
    entry_conflicts new e = false).
  { intros e He Hne. apply not_true_iff_false. intros Hc. apply Hb. by exists e. }
  split; [by destruct (default [] _)|]. intros a b.
  rewrite !elem_of_app, !list_elem_of_singleton. intros [Ha| ->] [Hb'| ->] Hne; try done.
  - by apply (table_ok_default t k').
  - rewrite entry_conflicts_sym. auto.
  - auto.
Qed.

(** A refused request puts back the list it read. *)
Lemma table_ok_keep t k new :
  lock_table_ok t -> existsb (blocks new) (default [] (t !! k)) = true ->
  <[k := default [] (t !! k)]> t = t.
Proof.
  intros Hok. destruct (t !! k) as [ls|] eqn:E1; cbn; [|done]. intros _. by apply insert_id.
Qed.

(** Any table whose lists are sub-lists of the old ones. *)
Lemma table_ok_sub t t' :
  lock_table_ok t ->
  (forall k ls', t' !! k = Some ls' -> ls' <> [] /\ exists ls, t !! k = Some ls /\ ls' ⊆ ls) ->
  lock_table_ok t'.
Proof.
  intros Hok Hsub k ls' Hk. destruct (Hsub _ _ Hk) as (Hne & ls & Hls & Hin). split; [done|].
  intros a b Ha Hb. apply (Hok k ls Hls); auto.
Qed.

(** Replacing one key's list by a sub-list, dropping it when empty. *)
Lemma table_ok_shrink t k ls ls' :
  lock_table_ok t -> t !! k = Some ls -> ls' ⊆ ls ->
  lock_table_ok (if decide (ls' = []) then delete k t else <[k := ls']> t).
Proof.
  intros Hok Hk Hsub. apply (table_ok_sub t); [done|]. intros k' l.
  assert (Hold : forall l, t !! k' = Some l -> l <> [] /\ exists ls, t !! k' = Some ls /\ l ⊆ ls).
  { intros l0 Hl0. split; [by apply (Hok k')|]. by exists l0. }
  case_decide.
  - rewrite lookup_delete. case_decide; [done|apply Hold].
  - rewrite lookup_insert. case_decide; [|apply Hold]. subst. intros [= <-]. eauto.
Qed.

Lemma release_everywhere_lookup xid t k :
  release_everywhere xid t !! k =
  match t !! k with
  | Some ls => if decide (retain_others xid ls = []) then None else Some (retain_others xid ls)
  | None => None
  end.
Proof.
  unfold release_everywhere. rewrite map_lookup_filter, lookup_fmap.
  destruct (t !! k) as [ls|]; cbn; [|done].
  case_decide; [rewrite option_guard_False by auto|rewrite option_guard_True by auto]; done.
Qed.

Lemma table_ok_release xid t : lock_table_ok t -> lock_table_ok (release_everywhere xid t).
Proof.
  intros Hok. apply (table_ok_sub t); [done|]. intros k ls'. rewrite release_everywhere_lookup.
  destruct (t !! k) as [ls|]; [|done]. case_decide; [done|]. intros [= <-]. split; [done|].
  exists ls. split; [done|]. intros e. rewrite elem_of_retain. tauto.
Qed.
End table.

Lemma retain_subset {E} `{LockEntryLike E} xid (ls : list E) : retain_others xid ls ⊆ ls.
Proof. intros e. rewrite elem_of_retain. tauto. Qed.

Lemma remove_at_subset {A} i (l : list A) : remove_at i l ⊆ l.
Proof.
  intros x. unfold remove_at. rewrite elem_of_app.
  intros [Hx|Hx]; [by apply elem_of_take in Hx as (j & ? & _); eauto using list_elem_of_lookup_2|].
  apply list_elem_of_lookup in Hx as [j Hj]. rewrite lookup_drop in Hj. eauto using list_elem_of_lookup_2.
Qed.

#[export] Hint Resolve table_ok_empty table_ok_push table_ok_shrink table_ok_release retain_subset remove_at_subset : locks.

Lemma manager_ok_new : manager_ok LockManager_new.
Proof. split; apply table_ok_empty. Qed.

Lemma run_lock_op_ok m op : manager_ok m -> manager_ok (run_lock_op m op).
Proof.
  intros [Ht Hr Ha]. destruct op; cbn.
  - unfold acquire_table_lock. destruct (existsb _ _) eqn:E; cbn; split; cbn; eauto with locks.
    by erewrite table_ok_keep.
  - unfold release_table_lock. destruct (_ !! rel) eqn:E; split; cbn; eauto with locks.
  - unfold acquire_row_lock. destruct (existsb _ _) eqn:E; cbn; split; cbn; eauto with locks.
    by erewrite table_ok_keep.
  - unfold release_row_lock. destruct (_ !! (rel, page, off)) eqn:E; split; cbn; eauto with locks.
  - split; cbn; eauto with locks.
  - unfold acquire_advisory_lock. destruct (existsb _ _) eqn:E; cbn; split; cbn; eauto with locks.
    by erewrite table_ok_keep.
  - unfold release_advisory_lock. destruct (_ !! key) as [es|] eqn:E; cbn; [|done].
    destruct (position _ es); cbn; split; cbn; eauto with locks.
  - split; cbn; eauto with locks.
Qed.

(** C19. Whatever sequence of calls is made, two different transactions never hold
    conflicting locks: not on a table, not on a row, and not on an advisory key
    (where an exclusive holder is alone). *)
Theorem locks_mutual_exclusion ops : manager_ok (run_lock_ops ops).
Proof.
  unfold run_lock_ops.
  generalize manager_ok_new. generalize LockManager_new. induction ops as [|op ops IH]; intros m Hm; [done|].
  apply IH. by apply run_lock_op_ok.
Qed.

(* ------------------------------------------------------------------ *)
(** ** What each call grants *)

(** [acquire_table_lock] is refused exactly when another transaction holds a
    conflicting mode on the relation. When it grants, the holders of the relation
    gain that one entry; when it refuses, holders are unchanged and the request is
    queued. Nothing else changes. *)
Theorem acquire_table_lock_spec xid rel mode m :
  manager_ok m ->
  let '(r, m') := acquire_table_lock xid rel mode m in
  (r = Ok tt <-> forall h md, (h, md) ∈ table_lock_holders rel m -> h <> xid -> conflicts_with mode md = false) /\
  (r = Ok tt -> table_lock_holders rel m' = table_lock_holders rel m ++ [(xid, mode)] /\
                wait_queue m' = wait_queue m) /\
  (r <> Ok tt -> table_locks m' = table_locks m /\ exists q, wait_queue m' = wait_queue m ++ [q] /\
                 req_xid q = xid /\ req_mode q = mode /\ req_relation_oid q = rel /\ req_page_id q = None) /\
  (forall rel', rel' <> rel -> table_lock_holders rel' m' = table_lock_holders rel' m) /\
  row_locks m' = row_locks m /\ advisory_locks m' = advisory_locks m.
Proof.
  intros [Hok _ _]. unfold acquire_table_lock, table_lock_holders.
  assert (Hiff : existsb (blocks {| le_holder := xid; le_mode := mode |}) (default [] (table_locks m !! rel)) = false
    <-> forall h md, (h, md) ∈ (fun l => (le_holder l, le_mode l)) <$> default [] (table_locks m !! rel) ->
        h <> xid -> conflicts_with mode md = false).
  { rewrite <- not_true_iff_false, existsb_blocks. cbn. setoid_rewrite list_elem_of_fmap. split.
    - intros Hno h md ([h' md'] & [= -> ->] & Hin) Hne. apply not_true_iff_false. intros Hc. apply Hno.
      by exists {| le_holder := h'; le_mode := md' |}.
    - intros Hall ([h md] & Hin & Hne & Hc). cbn in *. rewrite (Hall h md) in Hc; [done| |done]. by exists {| le_holder := h; le_mode := md |}. }
  destruct (existsb _ _) eqn:E; cbn; split_and!; try done.
  - by rewrite <- Hiff.
  - intros _. split; [by erewrite table_ok_keep|]. by eexists.
  - intros rel' Hne. by rewrite lookup_insert_ne.
  - by rewrite <- Hiff.
  - intros _. split; [|done]. rewrite lookup_insert_eq. cbn. by rewrite fmap_app.
  - intros rel' Hne. by rewrite lookup_insert_ne.
Qed.

(** [release_all_locks], called when a transaction ends, removes every table and
    row lock of that transaction and none of another's; it leaves its advisory
    locks and its queued requests in place. *)
Theorem release_all_locks_spec xid m :
  let m' := release_all_locks xid m in
  (forall rel, table_lock_holders rel m' = filter (fun hm => hm.1 <> xid) (table_lock_holders rel m)) /\
  (forall rel page off, row_lock_holders rel page off m' =
                        filter (fun hm => hm.1 <> xid) (row_lock_holders rel page off m)) /\
  advisory_locks m' = advisory_locks m /\ wait_queue m' = wait_queue m.
Proof.
  assert (Hret : forall ls, (fun l => (le_holder l, le_mode l)) <$> retain_others xid ls =
    filter (fun hm : TransactionId * LockMode => hm.1 <> xid) ((fun l => (le_holder l, le_mode l)) <$> ls)).
  { intros ls. unfold retain_others. induction ls as [|l ls IH]; [done|].
    rewrite fmap_cons, !filter_cons. cbn [entry_holder LockEntry_like fst].
    case_decide; [rewrite fmap_cons; f_equal|]; exact IH. }
  assert (Hkey : forall (K : Type) `{Countable K} (t : gmap K (list LockEntry)) k,
    (fun l => (le_holder l, le_mode l)) <$> default [] (release_everywhere xid t !! k) =
    filter (fun hm : TransactionId * LockMode => hm.1 <> xid)
      ((fun l => (le_holder l, le_mode l)) <$> default [] (t !! k))).
  { intros K ? ? t k. rewrite release_everywhere_lookup. destruct (t !! k) as [ls|]; [|done]. cbn.
    rewrite <- Hret. case_decide as Hd; cbn; [by rewrite Hd|done]. }
  cbn. split_and!; try done; intros; apply Hkey.
Qed.

(** Two transactions can hold ACCESS EXCLUSIVE, EXCLUSIVE, SHARE ROW EXCLUSIVE or
    SHARE UPDATE EXCLUSIVE on one table at the same time: these modes do not
    conflict with themselves, although nothing else may be held beside the first. *)
Theorem exclusive_modes_self_compatible mode :
  mode ∈ [AccessExclusive; Exclusive; ShareRowExclusive; ShareUpdateExclusive] ->
  let m := run_lock_ops [AcquireTable 1 7 mode; AcquireTable 2 7 mode] in
  table_lock_holders 7 m = [(1, mode); (2, mode)] /\ wait_queue m = [].
Proof.
  intros H. repeat (apply elem_of_cons in H as [-> | H]; [by vm_compute|]). by apply elem_of_nil in H.
Qed.

Lemma exclusive_modes_self_compatible_witness :
  table_lock_holders 7 (run_lock_ops [AcquireTable 1 7 AccessExclusive; AcquireTable 2 7 AccessExclusive]) =
  [(1, AccessExclusive); (2, AccessExclusive)].
Proof. refine (proj1 (exclusive_modes_self_compatible AccessExclusive _)). left. Defined.

Lemma acquire_table_lock_spec_witness :
  fst (acquire_table_lock 2 7 RowExclusive (run_lock_ops [AcquireTable 1 7 AccessShare])) = Ok tt <->
  forall h md, (h, md) ∈ [(1, AccessShare)] -> h <> 2 -> conflicts_with RowExclusive md = false.
Proof.
  exact (proj1 (acquire_table_lock_spec 2 7 RowExclusive (run_lock_ops [AcquireTable 1 7 AccessShare])
    (run_lock_op_ok _ _ manager_ok_new))).
Defined.

(* ------------------------------------------------------------------ *)
(** ** Deadlock detection *)

(** [a] waits for [b]: [a] has a queued request, and [b] holds a conflicting lock
    on what it asks for. *)
Definition waits_for (m : LockManager) (a b : TransactionId) : Prop :=
  exists r, r ∈ wait_queue m /\ req_xid r = a /\ b ∈ blockers_of m r.

Definition edge (g : wait_graph) (a b : TransactionId) : Prop := b ∈ default [] (g !! a).

Lemma add_waits_edge m g r a b :
  edge (add_waits m g r) a b <-> edge g a b \/ (req_xid r = a /\ b ∈ blockers_of m r).
Proof.
  unfold add_waits, edge. case_decide as Hd; [rewrite Hd; set_solver|].
  rewrite lookup_insert. case_decide as Ha; cbn; [subst; set_solver|naive_solver].
Qed.

Lemma build_wait_for_edge m a b : edge (build_wait_for m) a b <-> waits_for m a b.
Proof.
  unfold build_wait_for, waits_for.
  assert (Hgen : forall q g, edge (foldl (add_waits m) g q) a b <->
    edge g a b \/ exists r, r ∈ q /\ req_xid r = a /\ b ∈ blockers_of m r).
  { induction q as [|r q IH]; intros g; cbn; [set_solver|]. rewrite IH, add_waits_edge. set_solver. }
  rewrite Hgen. unfold edge. rewrite lookup_empty. set_solver.
Qed.

Section search.
Context (g : wait_graph).
Implicit Types (visited stack black : gset TransactionId).

(** Finished nodes: closed under edges, and on no cycle. *)
Record finished black : Prop := {
  fin_closed : forall x y, x ∈ black -> edge g x y -> y ∈ black;
  fin_acyclic : forall x, x ∈ black -> ~ tc (edge g) x x;
}.

(** A reported pair is an edge of a cycle. *)
Definition on_cycle (c : list TransactionId) : Prop :=
  exists a b, c = [a; b] /\ edge g a b /\ rtc (edge g) b a.

Lemma fin_reach black x y : finished black -> x ∈ black -> rtc (edge g) x y -> y ∈ black.
Proof. intros Hf Hx Hr. induction Hr; [done|]. eauto using fin_closed. Qed.

(** A node whose successors are all finished is finished too. *)
Lemma finished_add black x :
  finished black -> x ∉ black -> (forall y, edge g x y -> y ∈ black) -> finished ({[x]} ∪ black).
Proof.
  intros Hf Hx Hsucc. split.
  - intros a b [->%elem_of_singleton|Ha]%elem_of_union Hab; apply elem_of_union_r; eauto using fin_closed.
  - intros a [->%elem_of_singleton|Ha]%elem_of_union Hc; [|by apply (fin_acyclic _ Hf a)].
    apply Hx. inversion Hc as [? ? He|? y ? He Hr]; subst; [eauto|].
    apply (fin_reach black y); [done|eauto|]. by apply tc_rtc.
Qed.

(** What a search started in [x] returns, given what holds of its sets. *)
Definition search_ok visited stack (x : TransactionId) (r : search_result) : Prop :=
  match r with
  | None => False
  | Some (Some c, _, _) => on_cycle c
  | Some (None, visited', stack') =>
      stack' = stack /\ visited ⊆ visited' /\ x ∈ visited' /\ finished (visited' ∖ stack)
  end.

Lemma visit_blockers_ok detect x bs visited stack :
  (forall b v, b ∉ v -> edge g x b -> {[x]} ∪ stack ⊆ v -> visited ⊆ v -> finished (v ∖ ({[x]} ∪ stack)) ->
     search_ok v ({[x]} ∪ stack) b (detect b v ({[x]} ∪ stack))) ->
  x ∉ stack -> {[x]} ∪ stack ⊆ visited -> finished (visited ∖ ({[x]} ∪ stack)) ->
  (forall s, s ∈ stack -> tc (edge g) s x) ->
  (forall b, b ∈ bs -> edge g x b) ->
  (forall b, edge g x b -> b ∈ bs \/ b ∈ visited ∖ ({[x]} ∪ stack)) ->
  search_ok visited stack x (visit_blockers detect x bs visited ({[x]} ∪ stack)).
Proof.
  revert visited. induction bs as [|b bs IH]; intros visited Hdet Hx Hsub Hfin Hpath Hbs Hcov; cbn.
  - split_and!; [set_solver|done|set_solver|].
    replace (visited ∖ stack) with ({[x]} ∪ visited ∖ ({[x]} ∪ stack)).
    + apply finished_add; [done|set_solver|]. intros y Hy%Hcov. set_solver.
    + apply set_eq. intros y. destruct (decide (y = x)); set_solver.
  - assert (Hb : edge g x b) by (apply Hbs; set_solver).
    destruct (decide (b ∉ visited)) as [Hnew|Hold].
    + pose proof (Hdet b visited Hnew Hb Hsub ltac:(done) Hfin) as Hr.
      destruct (detect _ _ _) as [[[[c|] v] s]|]; [done| |done].
      destruct Hr as (-> & Hv & Hbv & Hf).
      assert (Hmono : search_ok v stack x (visit_blockers detect x bs v ({[x]} ∪ stack))).
      { apply IH; [|done|set_solver|done|done|set_solver|].
        - intros b' v' ? ? ? ? ?. apply Hdet; set_solver.
        - intros y Hy. destruct (Hcov _ Hy) as [[->|?]%elem_of_cons|?]; [|by left|right; set_solver].
          right. set_solver. }
      destruct (visit_blockers _ _ _ _ _) as [[[[c|] v'] s']|]; [done| |done]. cbn in *. set_solver.
    + apply dec_stable in Hold. destruct (decide (b ∈ {[x]} ∪ stack)) as [Hst|Hst].
      * exists x, b. split_and!; [done|done|].
        apply elem_of_union in Hst as [->%elem_of_singleton|Hst]; [done|]. by apply tc_rtc, Hpath.
      * apply IH; try done; [set_solver|].
        intros y Hy. destruct (Hcov _ Hy) as [[->|?]%elem_of_cons|?]; [|by left|by right]. right. set_solver.
Qed.

Lemma edge_node x y : edge g x y -> x ∈ graph_nodes g /\ y ∈ graph_nodes g.
Proof.
  unfold edge, graph_nodes. destruct (g !! x) as [bs|] eqn:E; cbn; [|set_solver]. intros Hy. split.
  - apply elem_of_union_l. by apply elem_of_dom_2 in E.
  - apply elem_of_union_r, elem_of_list_to_set. apply list_elem_of_In, in_concat.
    exists bs. rewrite <- !list_elem_of_In. split; [|done]. apply list_elem_of_fmap. exists (x, bs).
    split; [done|]. by apply elem_of_map_to_list.
Qed.

Lemma detect_cycle_ok fuel x visited stack :
  x ∈ graph_nodes g -> x ∉ visited -> stack ⊆ visited -> finished (visited ∖ stack) ->
  (forall s, s ∈ stack -> tc (edge g) s x) ->
  (size (graph_nodes g ∖ visited) < fuel)%nat ->
  search_ok visited stack x (detect_cycle fuel g x visited stack).
Proof.
  revert x visited stack. induction fuel as [|fuel IH]; intros x visited stack Hn Hx Hsub Hfin Hpath Hf; [lia|].
  cbn [detect_cycle].
  assert (Hres : search_ok ({[x]} ∪ visited) stack x
    (visit_blockers (detect_cycle fuel g) x (default [] (g !! x)) ({[x]} ∪ visited) ({[x]} ∪ stack))).
  { assert (Hsame : ({[x]} ∪ visited) ∖ ({[x]} ∪ stack) = visited ∖ stack).
    { apply set_eq. intros y. destruct (decide (y = x)); set_solver. }
    apply visit_blockers_ok; rewrite ?Hsame; try done; [|set_solver|set_solver|by left].
    intros b v Hb Hxb Hsv Hvv Hfv. apply IH; try done.
    - by apply edge_node in Hxb as [_ ?].
    - intros s [->%elem_of_singleton|Hs]%elem_of_union; [by constructor|].
      apply tc_r with x; auto.
    - assert (size (graph_nodes g ∖ v) < size (graph_nodes g ∖ visited))%nat; [|lia].
      apply subset_size. split; [set_solver|]. intros Hc. specialize (Hc x). set_solver. }
  destruct (visit_blockers _ _ _ _ _) as [[[[c|] v] s]|]; [done| |done]. cbn in *. set_solver.
Qed.

(** Searching again from a finished node visits nothing. *)
Lemma detect_cycle_again fuel x visited :
  x ∈ visited -> finished visited ->
  detect_cycle (S fuel) g x visited ∅ = Some (None, visited, ∅).
Proof.
  intros Hx Hf. cbn [detect_cycle]. replace ({[x]} ∪ visited) with visited by set_solver.
  assert (Hbs : forall b, b ∈ default [] (g !! x) -> b ∈ visited /\ b <> x).
  { intros b Hb. split; [by apply (fin_closed _ Hf x)|]. intros ->.
    apply (fin_acyclic _ Hf x Hx). by constructor. }
  induction (default [] (g !! x)) as [|b bs IHbs]; cbn; [do 2 f_equal; set_solver|].
  destruct (Hbs b) as [? ?]; [set_solver|].
  rewrite decide_False by (intros Hc; by apply Hc). rewrite decide_False by set_solver.
  apply IHbs. set_solver.
Qed.

Lemma detect_from_ok keys visited :
  (forall k, k ∈ keys -> k ∈ graph_nodes g) -> finished visited ->
  match detect_from (S (size (graph_nodes g))) g keys visited ∅ with
  | None => False
  | Some (Some c) => on_cycle c
  | Some None => exists black, finished black /\ visited ⊆ black /\ forall k, k ∈ keys -> k ∈ black
  end.
Proof.
  revert visited. induction keys as [|k keys IH]; intros visited Hk Hf; cbn [detect_from].
  { exists visited. set_solver. }
  destruct (decide (k ∈ visited)) as [Hin|Hnew].
  - rewrite detect_cycle_again by done. specialize (IH visited ltac:(set_solver) Hf).
    destruct (detect_from _ _ _ _ _) as [[c|]|]; [done| |done].
    destruct IH as (black & ? & ? & ?). exists black. set_solver.
  - pose proof (detect_cycle_ok (S (size (graph_nodes g))) k visited ∅) as Hd.
    assert (Hr : search_ok visited ∅ k (detect_cycle (S (size (graph_nodes g))) g k visited ∅)).
    { apply Hd; [set_solver|done|set_solver| |set_solver|].
      - by rewrite difference_empty_L.
      - assert (size (graph_nodes g ∖ visited) <= size (graph_nodes g))%nat; [|lia].
        apply subseteq_size. set_solver. }
    destruct (detect_cycle _ _ _ _ _) as [[[[c|] v] s]|]; [done| |done].
    destruct Hr as (-> & Hv & Hkv & Hfv). rewrite difference_empty_L in Hfv.
    specialize (IH v ltac:(set_solver) Hfv).
    destruct (detect_from _ _ _ _ _) as [[c|]|]; [done| |done].
    destruct IH as (black & ? & ? & ?). exists black. set_solver.
Qed.
End search.

(** C20. [detect_deadlock] is exact, whatever order the hash map's keys come in: it
    always answers, it reports a pair exactly when some transaction waits, through
    others, for itself, and the pair it reports is a step of such a cycle. *)
Theorem detect_deadlock_exact order m :
  (forall g : wait_graph, order g ≡ₚ (map_to_list g).*1) ->
  exists r, detect_deadlock order m = Some r /\
    (r <> None <-> exists x, tc (waits_for m) x x) /\
    (forall c, r = Some c -> exists a b, c = [a; b] /\ waits_for m a b /\ rtc (waits_for m) b a).
Proof.
  intros Horder. unfold detect_deadlock.
  assert (Htc : forall x y, tc (waits_for m) x y <-> tc (edge (build_wait_for m)) x y).
  { intros x y. split; apply (tc_congruence id); intros a b; by rewrite build_wait_for_edge. }
  assert (Hrtc : forall x y, rtc (waits_for m) x y <-> rtc (edge (build_wait_for m)) x y).
  { intros x y. split; apply (rtc_congruence id); intros a b; by rewrite build_wait_for_edge. }
  case_decide as Hq.
  { exists None. split_and!; [done| |done]. split; [done|]. intros [x Hc]. exfalso.
    assert (Hno : forall a b, ~ waits_for m a b) by (intros a b (r & Hr & _); rewrite Hq in Hr; set_solver).
    inversion Hc; subst; eapply Hno; eauto. }
  pose proof (detect_from_ok (build_wait_for m) (order (build_wait_for m)) ∅) as H.
  assert (Hkeys : forall k, k ∈ order (build_wait_for m) <-> k ∈ dom (build_wait_for m)).
  { intros k. rewrite Horder, list_elem_of_fmap, elem_of_dom. split.
    - intros ([k' v] & -> & Hk%elem_of_map_to_list). eauto.
    - intros [v Hv]. exists (k, v). split; [done|]. by apply elem_of_map_to_list. }
  assert (Hsrc : forall x, tc (edge (build_wait_for m)) x x -> x ∈ dom (build_wait_for m)).
  { intros x Hc. apply elem_of_dom. inversion Hc as [? ? He|? ? ? He ?]; subst; unfold edge in He;
      destruct (build_wait_for m !! x); eauto; set_solver. }
  destruct (detect_from _ _ _ _ _) as [[c|]|]; [| |destruct H].
  - exists (Some c). destruct H as (a & b & -> & Hab & Hba).
    { intros k. rewrite Hkeys. unfold graph_nodes. set_solver. }
    { split; set_solver. }
    split_and!; [done| |].
    + split; [|done]. intros _. exists a. rewrite Htc. eapply tc_rtc_r; [by constructor|done].
    + intros ? [= <-]. exists a, b. rewrite Hrtc, <- build_wait_for_edge. done.
  - exists None. destruct H as (black & Hf & _ & Hcov).
    { intros k. rewrite Hkeys. unfold graph_nodes. set_solver. }
    { split; set_solver. }
    split_and!; [done| |done]. split; [done|]. intros [x Hc%Htc]. exfalso.
    by apply (fin_acyclic _ _ Hf x); [apply Hcov, Hkeys, Hsrc|].
  - intros k. rewrite Hkeys. unfold graph_nodes. set_solver.
  - split; set_solver.
Qed.

Definition map_order (g : wait_graph) : list TransactionId := (map_to_list g).*1.

(** Transactions 1 and 2 each lock one table and ask for the other's. *)
Definition deadlocked : LockManager :=
  run_lock_ops [AcquireTable 1 7 AccessExclusive; AcquireTable 2 8 AccessExclusive;
                AcquireTable 2 7 RowExclusive; AcquireTable 1 8 RowExclusive].

Lemma detect_deadlock_exact_witness :
  exists r, detect_deadlock map_order deadlocked = Some r /\
    (r <> None <-> exists x, tc (waits_for deadlocked) x x) /\
    (forall c, r = Some c -> exists a b, c = [a; b] /\ waits_for deadlocked a b /\ rtc (waits_for deadlocked) b a).
Proof. apply (detect_deadlock_exact map_order deadlocked). intros g. reflexivity. Defined.

(** Refused requests are never taken off the queue. After both transactions got,
    and gave back, what they had been refused, each again holding only its own
    table and nobody waiting, [detect_deadlock] reports a deadlock. *)
Theorem stale_wait_deadlock :
  let ops := [AcquireTable 1 7 AccessExclusive; AcquireTable 2 8 AccessExclusive;
              AcquireTable 2 7 RowExclusive; AcquireTable 1 8 RowExclusive;
              ReleaseTable 1 7; AcquireTable 2 7 RowExclusive; ReleaseTable 2 7; AcquireTable 1 7 AccessExclusive;
              ReleaseTable 2 8; AcquireTable 1 8 RowExclusive; ReleaseTable 1 8; AcquireTable 2 8 AccessExclusive] in
  let m := run_lock_ops ops in
  table_lock_holders 7 m = [(1, AccessExclusive)] /\ table_lock_holders 8 m = [(2, AccessExclusive)] /\
  exists c, detect_deadlock map_order m = Some (Some c).
Proof. split_and!; [by vm_compute|by vm_compute|]. eexists. by vm_compute. Qed.
