(* ===== verification/BufferPool.v ===== *)
(** The buffer cache ([src/src/buffer_cache/mod.rs]): the sequential-scan ring,
    the buffer pool with its clock sweep, and the shared cache over them. The
    pool's promise to its clients is stated against the [Storage] interface: what
    a page reads as, through the pool or from the store, does not change. *)

From S2P Require Import Prelude Types Storage.

(* ------------------------------------------------------------------ *)
(** ** The sequential-scan ring *)

Record SeqScanRing := {
  ring_pages : list (option (PageId * bytes));
  ring_head : nat;
  ring_capacity : nat;
}.

Definition SeqScanRing_new (capacity : nat) : SeqScanRing :=
  {| ring_pages := replicate capacity None; ring_head := 0; ring_capacity := capacity |}.

(** [self.head % self.capacity] panics on an empty ring. *)
Definition next_page {S} `{Storage S} (s : S) (page_id : PageId) (r : SeqScanRing) : outcome bytes * SeqScanRing :=
  if decide (ring_capacity r = 0%nat) then (Panic, r) else
  let slot := (ring_head r `mod` ring_capacity r)%nat in
  match ring_pages r !! slot with
  | None => (Panic, r)
  | Some entry =>
      let advance pages :=
        {| ring_pages := pages; ring_head := (ring_head r + 1)%nat; ring_capacity := ring_capacity r |} in
      let miss :=
        match read_page s page_id with
        | Ok data => (Ok data, advance (<[slot := Some (page_id, data)]> (ring_pages r)))
        | Err e => (Err e, r)
        | Panic => (Panic, r)
        end in
      match entry with
      | Some (cached_id, cached_data) =>
          if cached_id =? page_id then (Ok cached_data, advance (ring_pages r)) else miss
      | None => miss
      end
  end.

Definition ring_reset (r : SeqScanRing) : SeqScanRing :=
  {| ring_pages := (fun _ => None) <$> ring_pages r; ring_head := 0; ring_capacity := ring_capacity r |}.

(* ------------------------------------------------------------------ *)
(** ** Buffers and the pool *)

Record Buffer := {
  buf_page_id : PageId;
  buf_data : bytes;
  buf_dirty : bool;
  buf_usage : Z;
  buf_pin : Z;
}.

Record BufferPool := {
  pool_size : nat;
  buffers : list Buffer;
  page_map : gmap PageId nat;
  next_victim : nat;
}.

Definition empty_buffer : Buffer :=
  {| buf_page_id := 0; buf_data := zero_page; buf_dirty := false; buf_usage := 0; buf_pin := 0 |}.

Definition BufferPool_new (pool_size : nat) : BufferPool :=
  {| pool_size := pool_size; buffers := replicate pool_size empty_buffer; page_map := ∅; next_victim := 0 |}.

Definition with_buffers (p : BufferPool) (bs : list Buffer) : BufferPool :=
  {| pool_size := pool_size p; buffers := bs; page_map := page_map p; next_victim := next_victim p |}.
Definition with_page_map (p : BufferPool) (m : gmap PageId nat) : BufferPool :=
  {| pool_size := pool_size p; buffers := buffers p; page_map := m; next_victim := next_victim p |}.
Definition with_hand (p : BufferPool) (h : nat) : BufferPool :=
  {| pool_size := pool_size p; buffers := buffers p; page_map := page_map p; next_victim := h |}.

Definition with_counts (b : Buffer) (usage pin : Z) : Buffer :=
  {| buf_page_id := buf_page_id b; buf_data := buf_data b; buf_dirty := buf_dirty b;
     buf_usage := usage; buf_pin := pin |}.
Definition with_dirty (b : Buffer) (dirty : bool) : Buffer :=
  {| buf_page_id := buf_page_id b; buf_data := buf_data b; buf_dirty := dirty;
     buf_usage := buf_usage b; buf_pin := buf_pin b |}.

(** A client that writes through [lock_pool]. *)
Definition with_data (b : Buffer) (data : bytes) : Buffer :=
  {| buf_page_id := buf_page_id b; buf_data := data; buf_dirty := buf_dirty b;
     buf_usage := buf_usage b; buf_pin := buf_pin b |}.

(** The [for _ in 0..(pool_size * 2)] loop of [find_victim]: the victim with the
    hand it leaves behind, if the loop finds one, and the swept buffers. *)
Fixpoint sweep (n size hand : nat) (bufs : list Buffer) : outcome (option (nat * nat) * list Buffer) :=
  match n with
  | O => Ok (None, bufs)
  | S n =>
      match bufs !! hand with
      | None => Panic
      | Some buf =>
          let next := ((hand + 1) `mod` size)%nat in
          if buf_pin buf =? 0 then
            if 0 <? buf_usage buf then
              sweep n size next (<[hand := with_counts buf (buf_usage buf - 1) (buf_pin buf)]> bufs)
            else Ok (Some (hand, next), bufs)
          else sweep n size next bufs
      end
  end.

Definition find_victim (p : BufferPool) : outcome nat * BufferPool :=
  match sweep (pool_size p * 2) (pool_size p) (next_victim p) (buffers p) with
  | Ok (Some (victim, hand), bufs) => (Ok victim, with_hand (with_buffers p bufs) hand)
  | Ok (None, bufs) =>
      let p := with_buffers p bufs in
      match position (fun buf => buf_pin buf =? 0) bufs with
      | Some i => (Ok i, with_hand p ((i + 1) `mod` pool_size p)%nat)
      | None => (Ok 0%nat, p)
      end
  | Err e => (Err e, p)
  | Panic => (Panic, p)
  end.

Section pool.
Context {P : Profile} {S : Type} `{Storage S}.

(** Both counters of a buffer go up, at 32 bits, the usage first. *)
Definition bump (p : BufferPool) (idx : nat) : outcome nat * BufferPool :=
  match buffers p !! idx with
  | None => (Panic, p)
  | Some b =>
      match add_w 32 (buf_usage b) 1 with
      | Ok u =>
          match add_w 32 (buf_pin b) 1 with
          | Ok n => (Ok idx, with_buffers p (<[idx := with_counts b u n]> (buffers p)))
          | Err e => (Err e, p)
          | Panic => (Panic, with_buffers p (<[idx := with_counts b u (buf_pin b)]> (buffers p)))
          end
      | Err e => (Err e, p)
      | Panic => (Panic, p)
      end
  end.

(** The same, the pin count first. *)
Definition bump_pin (p : BufferPool) (idx : nat) : outcome nat * BufferPool :=
  match buffers p !! idx with
  | None => (Panic, p)
  | Some b =>
      match add_w 32 (buf_pin b) 1 with
      | Ok n =>
          match add_w 32 (buf_usage b) 1 with
          | Ok u => (Ok idx, with_buffers p (<[idx := with_counts b u n]> (buffers p)))
          | Err e => (Err e, p)
          | Panic => (Panic, with_buffers p (<[idx := with_counts b (buf_usage b) n]> (buffers p)))
          end
      | Err e => (Err e, p)
      | Panic => (Panic, p)
      end
  end.

(** Write back what a victim slot holds, when it is dirty and not pinned, and
    forget that page. *)
Definition evict (s : S) (slot : nat) (p : BufferPool) : outcome unit * S * BufferPool :=
  match buffers p !! slot with
  | None => (Panic, s, p)
  | Some b =>
      if buf_dirty b && (buf_pin b =? 0) then
        let '(r, s) := write_page s (buf_page_id b) (buf_data b) in
        match r with
        | Ok _ => (Ok tt, s, with_page_map p (delete (buf_page_id b) (page_map p)))
        | r => (r, s, p)
        end
      else (Ok tt, s, p)
  end.

Definition fill (slot : nat) (page_id : PageId) (data : bytes) (p : BufferPool) : BufferPool :=
  let b := {| buf_page_id := page_id; buf_data := data; buf_dirty := false; buf_usage := 1; buf_pin := 1 |} in
  with_page_map (with_buffers p (<[slot := b]> (buffers p))) (<[page_id := slot]> (page_map p)).

Definition fetch_page (s : S) (page_id : PageId) (p : BufferPool) : outcome nat * S * BufferPool :=
  match page_map p !! page_id with
  | Some idx => let '(r, p) := bump p idx in (r, s, p)
  | None =>
      let '(v, p) := find_victim p in
      match v with
      | Ok slot =>
          match read_page s page_id with
          | Ok data =>
              let '(r, s, p) := evict s slot p in
              match r with
              | Ok _ => (Ok slot, s, fill slot page_id data p)
              | Err e => (Err e, s, p)
              | Panic => (Panic, s, p)
              end
          | Err e => (Err e, s, p)
          | Panic => (Panic, s, p)
          end
      | Err e => (Err e, s, p)
      | Panic => (Panic, s, p)
      end
  end.

Definition pin_page (page_id : PageId) (p : BufferPool) : outcome (option nat) * BufferPool :=
  match page_map p !! page_id with
  | Some idx => let '(r, p) := bump_pin p idx in (Some <$> r, p)
  | None => (Ok None, p)
  end.

(** [saturating_sub(1)], then the dirty flag. *)
Definition unpin_page (page_id : PageId) (is_dirty : bool) (p : BufferPool) : outcome unit * BufferPool :=
  match page_map p !! page_id with
  | Some idx =>
      match buffers p !! idx with
      | None => (Panic, p)
      | Some b =>
          let b := with_counts b (buf_usage b) (Z.max 0 (buf_pin b - 1)) in
          let b := if is_dirty then with_dirty b true else b in
          (Ok tt, with_buffers p (<[idx := b]> (buffers p)))
      end
  | None => (Ok tt, p)
  end.

Definition flush_page (s : S) (page_id : PageId) (p : BufferPool) : outcome unit * S * BufferPool :=
  match page_map p !! page_id with
  | Some idx =>
      match buffers p !! idx with
      | None => (Panic, s, p)
      | Some b =>
          if buf_dirty b then
            let '(r, s) := write_page s page_id (buf_data b) in
            match r with
            | Ok _ => (Ok tt, s, with_buffers p (<[idx := with_dirty b false]> (buffers p)))
            | r => (r, s, p)
            end
          else (Ok tt, s, p)
      end
  | None => (Ok tt, s, p)
  end.

(** The loop of [flush_all] over the pages of a copy of the map, in the order
    the hash map yields them. *)
Fixpoint flush_pages (s : S) (page_ids : list PageId) (p : BufferPool) : outcome unit * S * BufferPool :=
  match page_ids with
  | [] => (Ok tt, s, p)
  | page_id :: rest =>
      let '(r, s, p) := flush_page s page_id p in
      match r with
      | Ok _ => flush_pages s rest p
      | r => (r, s, p)
      end
  end.

Definition flush_all (order : gmap PageId nat -> list PageId) (s : S) (p : BufferPool) : outcome unit * S * BufferPool :=
  flush_pages s (order (page_map p)) p.

Definition dirty_count (p : BufferPool) : nat := length (List.filter buf_dirty (buffers p)).

Definition invalidate_page (page_id : PageId) (p : BufferPool) : outcome unit * BufferPool :=
  match page_map p !! page_id with
  | Some idx =>
      let p := with_page_map p (delete page_id (page_map p)) in
      match buffers p !! idx with
      | None => (Panic, p)
      | Some b =>
          (Ok tt, with_buffers p (<[idx := with_dirty (with_counts b 0 0) false]> (buffers p)))
      end
  | None => (Ok tt, p)
  end.
End pool.

(* ------------------------------------------------------------------ *)
(** ** The shared cache *)

Record MutableRelationState := { mrs_relation : Relation; mrs_dirty_buffers : list PageId }.

Record SharedBufferCache (S : Type) := {
  cache_storage : S;
  cache_pool : BufferPool;
  cache_rels : gmap Oid MutableRelationState;
}.
Arguments Build_SharedBufferCache {S} _ _ _.
Arguments cache_storage {S} _.
Arguments cache_pool {S} _.
Arguments cache_rels {S} _.

Section cache.
Context {P : Profile} {S : Type} `{Storage S}.
Implicit Types c : SharedBufferCache S.

Definition SharedBufferCache_new (storage : S) : SharedBufferCache S :=
  {| cache_storage := storage; cache_pool := BufferPool_new 1024; cache_rels := ∅ |}.

Definition with_cache (c : SharedBufferCache S) (s : S) (p : BufferPool) : SharedBufferCache S :=
  {| cache_storage := s; cache_pool := p; cache_rels := cache_rels c |}.
Definition with_rels (c : SharedBufferCache S) r : SharedBufferCache S :=
  {| cache_storage := cache_storage c; cache_pool := cache_pool c; cache_rels := r |}.

Definition get_relation_state (rel_oid : Oid) c : option MutableRelationState := cache_rels c !! rel_oid.

(** [entry(rel.rel_oid).or_insert_with(..)]. *)
Definition register_relation (rel : Relation) (c : SharedBufferCache S) : SharedBufferCache S :=
  match cache_rels c !! rel_oid rel with
  | Some _ => c
  | None => with_rels c (<[rel_oid rel := {| mrs_relation := rel; mrs_dirty_buffers := [] |}]> (cache_rels c))
  end.

(** [sync_from_catalog], of the relations the catalog lists. *)
Definition sync_from_catalog (relations : list Relation) (c : SharedBufferCache S) : SharedBufferCache S :=
  foldl (fun c rel => register_relation rel c) c relations.

Definition unregister_relation (rel_oid : Oid) (c : SharedBufferCache S) : SharedBufferCache S :=
  with_rels c (delete rel_oid (cache_rels c)).

(** [buffers[idx].data.clone()]. *)
Definition slot_data (p : BufferPool) (idx : nat) : outcome bytes :=
  match buffers p !! idx with Some b => Ok (buf_data b) | None => Panic end.

Definition cache_fetch_page (page_id : PageId) (c : SharedBufferCache S) : outcome bytes * SharedBufferCache S :=
  let '(r, s, p) := fetch_page (cache_storage c) page_id (cache_pool c) in
  (idx ← r; slot_data p idx, with_cache c s p).

Fixpoint fetch_indices (page_ids : list PageId) (c : SharedBufferCache S) :
    outcome (list (PageId * nat)) * SharedBufferCache S :=
  match page_ids with
  | [] => (Ok [], c)
  | pid :: rest =>
      let '(r, s, p) := fetch_page (cache_storage c) pid (cache_pool c) in
      let c := with_cache c s p in
      match r with
      | Ok idx => let '(r, c) := fetch_indices rest c in (cons (pid, idx) <$> r, c)
      | Err e => (Err e, c)
      | Panic => (Panic, c)
      end
  end.

Fixpoint clone_slots (p : BufferPool) (indices : list (PageId * nat)) : outcome (list (PageId * bytes)) :=
  match indices with
  | [] => Ok []
  | (pid, idx) :: rest => data ← slot_data p idx; rest ← clone_slots p rest; Ok ((pid, data) :: rest)
  end.

Definition fetch_pages_batch (page_ids : list PageId) (c : SharedBufferCache S) :
    outcome (list (PageId * bytes)) * SharedBufferCache S :=
  let '(r, c) := fetch_indices page_ids c in
  (indices ← r; clone_slots (cache_pool c) indices, c).

Definition cache_invalidate_page (page_id : PageId) (c : SharedBufferCache S) : outcome unit * SharedBufferCache S :=
  let '(r, p) := invalidate_page page_id (cache_pool c) in (r, with_cache c (cache_storage c) p).

Definition scan_read_page (page_id : PageId) (c : SharedBufferCache S) : outcome bytes :=
  read_page (cache_storage c) page_id.

(** [flush_dirty_pages]: [map] is the copy of the page map it starts from. *)
Fixpoint flush_dirty_from (map : gmap PageId nat) (page_ids : list PageId) (flushed : Z)
    (c : SharedBufferCache S) : outcome Z * SharedBufferCache S :=
  match page_ids with
  | [] => (Ok flushed, c)
  | page_id :: rest =>
      let dirty := match map !! page_id with
                   | Some idx => buf_dirty <$> (buffers (cache_pool c) !! idx)
                   | None => Some false
                   end in
      match dirty with
      | None => (Panic, c)
      | Some true =>
          let '(r, s, p) := flush_page (cache_storage c) page_id (cache_pool c) in
          let c := with_cache c s p in
          match r with
          | Ok _ => flush_dirty_from map rest (flushed + 1) c
          | Err e => (Err e, c)
          | Panic => (Panic, c)
          end
      | Some false => flush_dirty_from map rest flushed c
      end
  end.

Definition flush_dirty_pages (order : gmap PageId nat -> list PageId) (c : SharedBufferCache S) :
    outcome Z * SharedBufferCache S :=
  let map := page_map (cache_pool c) in flush_dirty_from map (order map) 0 c.
End cache.

(* ------------------------------------------------------------------ *)
(** ** The ring returns what the store holds *)

Record ring_ok {S} `{Storage S} (s : S) (r : SeqScanRing) : Prop := {
  ring_length : length (ring_pages r) = ring_capacity r;
  ring_cached : forall slot pid data, ring_pages r !! slot = Some (Some (pid, data)) -> read_page s pid = Ok data;
}.

Lemma ring_new_ok {S} `{Storage S} (s : S) capacity : ring_ok s (SeqScanRing_new capacity).
Proof.
  split; cbn; [apply length_replicate|]. intros slot pid data. intros Hl%lookup_replicate. by destruct Hl.
Qed.

(** While the store does not change, reading through a ring of any capacity but
    zero gives the store's own answer, and the ring stays so. *)
Theorem ring_next_page {S} `{Storage S} (s : S) pid r :
  ring_ok s r -> ring_capacity r <> 0%nat ->
  fst (next_page s pid r) = read_page s pid /\ ring_ok s (snd (next_page s pid r)).
Proof.
  intros [Hl Hc] Hcap. unfold next_page. rewrite decide_False by done.
  assert (Hslot : (ring_head r `mod` ring_capacity r < ring_capacity r)%nat) by (apply Nat.mod_upper_bound; done).
  destruct (lookup_lt_is_Some_2 (ring_pages r) (ring_head r `mod` ring_capacity r)%nat) as [e He]; [lia|].
  rewrite He.
  assert (Hmiss : forall data, read_page s pid = Ok data ->
    ring_ok s {| ring_pages := <[(ring_head r `mod` ring_capacity r)%nat := Some (pid, data)]> (ring_pages r);
                 ring_head := (ring_head r + 1)%nat; ring_capacity := ring_capacity r |}).
  { intros data Hd. split; cbn; [by rewrite length_insert|]. intros i q d.
    rewrite list_lookup_insert_Some. intros [(<- & [= -> ->] & _)|[_ Hi]]; eauto. }
  destruct e as [[cid cdata]|].
  - destruct (Z.eqb_spec cid pid) as [->|].
    + cbn. rewrite (Hc _ _ _ He). split; [done|]. split; cbn; eauto.
    + destruct (read_page s pid) as [data|e|] eqn:Er; cbn; split; auto; split; auto.
  - destruct (read_page s pid) as [data|e|] eqn:Er; cbn; split; auto; split; auto.
Qed.

(* ------------------------------------------------------------------ *)
(** ** The clock sweep *)

Definition pool_shape (p : BufferPool) : Prop :=
  length (buffers p) = pool_size p /\ (next_victim p < pool_size p)%nat.

(** The sweep only lowers usage counts. *)
Definition aged (b b' : Buffer) : Prop := exists u, b' = with_counts b u (buf_pin b).

Lemma aged_refl b : aged b b.
Proof. exists (buf_usage b). by destruct b. Qed.

Lemma aged_trans b1 b2 b3 : aged b1 b2 -> aged b2 b3 -> aged b1 b3.
Proof. intros [u ->] [v ->]. by exists v. Qed.

#[export] Instance aged_preorder : PreOrder aged.
Proof. split; [exact aged_refl|exact aged_trans]. Qed.

Lemma sweep_spec n size hand bufs :
  length bufs = size -> (hand < size)%nat ->
  exists r bufs', sweep n size hand bufs = Ok (r, bufs') /\ Forall2 aged bufs bufs' /\
    match r with
    | Some (v, h) => (h < size)%nat /\ exists b, bufs' !! v = Some b /\ buf_pin b = 0
    | None => True
    end.
Proof.
  revert hand bufs. induction n as [|n IH]; intros hand bufs Hl Hh; cbn [sweep].
  { exists None, bufs. split_and!; [done|reflexivity|done]. }
  assert (Hnext : ((hand + 1) `mod` size < size)%nat) by (apply Nat.mod_upper_bound; lia).
  destruct (lookup_lt_is_Some_2 bufs hand) as [buf Hb]; [lia|]. rewrite Hb.
  destruct (Z.eqb_spec (buf_pin buf) 0) as [Hp|]; [|by apply IH].
  destruct (0 <? buf_usage buf).
  - destruct (IH ((hand + 1) `mod` size)%nat (<[hand := with_counts buf (buf_usage buf - 1) (buf_pin buf)]> bufs))
      as (r & bufs' & Hs & Hag & Hr); [by rewrite length_insert|done|].
    exists r, bufs'. split_and!; [done| |done]. transitivity (<[hand := with_counts buf (buf_usage buf - 1) (buf_pin buf)]> bufs); [|done].
    rewrite <- (list_insert_id bufs hand buf Hb) at 1. apply Forall2_insert; [reflexivity|]. by eexists.
  - exists (Some (hand, ((hand + 1) `mod` size)%nat)), bufs. split_and!; [done|reflexivity|done|eauto].
Qed.

Lemma aged_lookup bufs bufs' i b' : Forall2 aged bufs bufs' -> bufs' !! i = Some b' ->
  exists b, bufs !! i = Some b /\ aged b b'.
Proof. intros HF Hi. by apply (Forall2_lookup_r _ _ _ _ _ HF). Qed.

(** [find_victim] never fails on a well-formed pool and leaves pages, contents
    and pins as they were. *)
Lemma find_victim_shape p :
  pool_shape p ->
  exists v p', find_victim p = (Ok v, p') /\ pool_shape p' /\ pool_size p' = pool_size p /\
    page_map p' = page_map p /\ Forall2 aged (buffers p) (buffers p') /\ (v < pool_size p)%nat /\
    ((exists b, buffers p' !! v = Some b /\ buf_pin b = 0) \/
     v = 0%nat /\ Forall (fun b => buf_pin b <> 0) (buffers p)).
Proof.
  intros [Hl Hh]. unfold find_victim.
  destruct (sweep_spec (pool_size p * 2) (pool_size p) (next_victim p) (buffers p) Hl Hh)
    as (r & bufs & -> & Hag & Hr).
  assert (Hl' : length bufs = pool_size p) by (by rewrite <- (Forall2_length _ _ _ Hag)).
  destruct r as [[v h]|].
  - destruct Hr as [Hlt (b & Hb & Hp)]. eexists _, _. split; [reflexivity|]. cbn.
    pose proof (lookup_lt_Some _ _ _ Hb). split_and!; try done; [lia|]. left. eauto.
  - destruct (position _ bufs) as [i|] eqn:Ep.
    + destruct (position_spec _ _ _ Ep) as (b & Hb & Hp & _). pose proof (lookup_lt_Some _ _ _ Hb).
      eexists _, _. split; [reflexivity|]. cbn. assert ((i + 1) `mod` pool_size p < pool_size p)%nat by (apply Nat.mod_upper_bound; lia).
      split_and!; try done; [lia|]. left. exists b. split; [done|]. by apply Z.eqb_eq.
    + eexists _, _. split; [reflexivity|]. cbn. split_and!; try done; [lia|]. right. split; [done|].
      apply position_None in Ep. rewrite Forall_forall in Ep |- *. intros b [i Hi]%list_elem_of_lookup.
      destruct (Forall2_lookup_l _ _ _ _ _ Hag Hi) as (b' & Hi' & u & ->). 
      specialize (Ep _ (list_elem_of_lookup_2 _ _ _ Hi')). cbn in Ep. by apply Z.eqb_neq in Ep.
Qed.

(* ------------------------------------------------------------------ *)
(** ** Coherence: the pool as a view of the store *)

Section coherence.
Context {P : Profile} {S : Type} (psize : nat) (valid : S -> Prop) `{StorageLaws S psize valid}.
Implicit Types (s : S) (p : BufferPool).

(** What a page reads as: its buffer when it has one, the store otherwise. *)
Definition view s p (pid : PageId) : outcome bytes :=
  match page_map p !! pid with
  | Some idx => slot_data p idx
  | None => read_page s pid
  end.

(** Each mapped page has its own slot; clean slots hold what the store has. *)
Record coherent s p : Prop := {
  coh_shape : pool_shape p;
  coh_valid : valid s;
  coh_map : forall pid idx, page_map p !! pid = Some idx ->
    exists b, buffers p !! idx = Some b /\ buf_page_id b = pid /\ is_u32 pid /\
      length (buf_data b) = psize /\ (buf_dirty b = false -> read_page s pid = Ok (buf_data b));
}.

(** Every dirty slot, but possibly one, belongs to the page that maps to it. *)
Definition dirty_mapped (except : nat -> Prop) p : Prop :=
  forall idx b, buffers p !! idx = Some b -> ~ except idx -> buf_dirty b = true ->
    page_map p !! buf_page_id b = Some idx.

Definition same_view s p s' p' : Prop := forall q, is_u32 q -> view s' p' q = view s p q.

Lemma coherent_inj s p q q' idx :
  coherent s p -> page_map p !! q = Some idx -> page_map p !! q' = Some idx -> q = q'.
Proof.
  intros Hc H1 H2. destruct (coh_map _ _ Hc _ _ H1) as (b & Hb & <- & _).
  destruct (coh_map _ _ Hc _ _ H2) as (b' & Hb' & <- & _). congruence.
Qed.

(** Aging the counters changes nothing clients see. *)
Lemma coherent_aged s p p' :
  coherent s p -> dirty_mapped (fun _ => False) p ->
  pool_shape p' -> page_map p' = page_map p -> Forall2 aged (buffers p) (buffers p') ->
  coherent s p' /\ dirty_mapped (fun _ => False) p' /\ same_view s p s p'.
Proof.
  intros [Hsh Hv Hm] Hd Hsh' Hmap Hag. split_and!.
  - split; [done|done|]. intros pid idx. rewrite Hmap. intros (b & Hb & Hrest)%Hm.
    destruct (Forall2_lookup_l _ _ _ _ _ Hag Hb) as (b' & Hb' & u & ->). by exists (with_counts b u (buf_pin b)).
  - intros idx b' Hb' Hne Hdirty. rewrite Hmap. destruct (aged_lookup _ _ _ _ Hag Hb') as (b & Hb & u & ->).
    by apply (Hd idx b).
  - intros q Hq. unfold view. rewrite Hmap. destruct (page_map p !! q) as [idx|] eqn:E; [|done].
    destruct (Hm _ _ E) as (b & Hb & _). unfold slot_data. rewrite Hb.
    destruct (Forall2_lookup_l _ _ _ _ _ Hag Hb) as (b' & -> & u & ->). done.
Qed.

(** Replacing one slot's buffer by one with the same page, contents and
    cleanliness or a page the store now agrees with. *)
Lemma coherent_touch s p idx b b' :
  coherent s p -> dirty_mapped (fun _ => False) p -> buffers p !! idx = Some b ->
  buf_page_id b' = buf_page_id b -> buf_data b' = buf_data b ->
  (buf_dirty b' = true -> page_map p !! buf_page_id b = Some idx) ->
  (buf_dirty b' = false -> buf_dirty b = false) ->
  let p' := with_buffers p (<[idx := b']> (buffers p)) in
  coherent s p' /\ dirty_mapped (fun _ => False) p' /\ same_view s p s p'.
Proof.
  intros [Hsh Hv Hm] Hd Hb Hpid Hdata Hdirty Hclean p'.
  assert (Hlt := lookup_lt_Some _ _ _ Hb). split_and!.
  - split; [|done|].
    + destruct Hsh. split; cbn; [by rewrite length_insert|done].
    + intros pid i Hi. destruct (Hm _ _ Hi) as (c & Hc & Hc1 & Hc2 & Hc3 & Hc4). cbn.
      destruct (decide (i = idx)) as [->|].
      * rewrite Hb in Hc. injection Hc as <-. exists b'. rewrite list_lookup_insert_eq by done.
        rewrite Hpid, Hdata. split_and!; auto.
      * exists c. by rewrite list_lookup_insert_ne.
  - intros i c. cbn. rewrite list_lookup_insert_Some. intros [(<- & <- & _)|[Hne Hc]] _ Hdc.
    + rewrite Hpid. auto.
    + eapply Hd; eauto.
  - intros q _. unfold view, slot_data. cbn. destruct (page_map p !! q) as [i|]; [|done].
    destruct (decide (i = idx)) as [->|]; [rewrite list_lookup_insert_eq, Hb by done; by rewrite Hdata|].
    by rewrite list_lookup_insert_ne.
Qed.

(** Loading a page into a slot nobody maps to. *)
Lemma coherent_fill s p slot pid data :
  coherent s p -> dirty_mapped (eq slot) p -> (slot < pool_size p)%nat ->
  (forall q, page_map p !! q <> Some slot) -> page_map p !! pid = None ->
  is_u32 pid -> read_page s pid = Ok data -> length data = psize ->
  coherent s (fill slot pid data p) /\ dirty_mapped (fun _ => False) (fill slot pid data p) /\
  same_view s p s (fill slot pid data p).
Proof.
  intros [[Hl Hh] Hv Hm] Hd Hlt Hfree Hnew H32 Hr Hlen. unfold fill. split_and!.
  - split; [|done|].
    + split; cbn; [by rewrite length_insert|done].
    + intros q i. cbn. rewrite lookup_insert. case_decide.
      * subst. intros [= <-]. rewrite list_lookup_insert_eq by lia. eexists. split; [done|]. cbn. auto.
      * intros Hq. destruct (Hm _ _ Hq) as (c & Hc & Hrest). exists c.
        rewrite list_lookup_insert_ne; [done|]. intros ->. by apply (Hfree q).
  - intros i c. cbn. rewrite list_lookup_insert_Some. intros [(<- & <- & _)|[Hne Hc]] _ Hdc; [done|].
    rewrite lookup_insert_ne; [by apply (Hd i c)|]. intros ->. rewrite (Hd i c) in Hnew; done.
  - intros q _. unfold view, slot_data. cbn. rewrite lookup_insert. case_decide.
    + subst. rewrite list_lookup_insert_eq by lia. rewrite Hnew. by rewrite Hr.
    + destruct (page_map p !! q) as [i|] eqn:E; [|done].
      rewrite list_lookup_insert_ne; [done|]. intros ->. by apply (Hfree q).
Qed.

(** Writing back a dirty, unpinned slot and forgetting its page. *)
Lemma coherent_evict s p slot b :
  coherent s p -> dirty_mapped (fun _ => False) p -> buffers p !! slot = Some b ->
  buf_dirty b = true -> buf_pin b = 0 ->
  exists s', evict s slot p = (Ok tt, s', with_page_map p (delete (buf_page_id b) (page_map p))) /\
    coherent s' (with_page_map p (delete (buf_page_id b) (page_map p))) /\
    dirty_mapped (eq slot) (with_page_map p (delete (buf_page_id b) (page_map p))) /\
    (forall q, delete (buf_page_id b) (page_map p) !! q <> Some slot) /\
    same_view s p s' (with_page_map p (delete (buf_page_id b) (page_map p))) /\
    (forall q, is_u32 q -> q <> buf_page_id b -> read_page s' q = read_page s q).
Proof.
  intros Hc Hd Hb Hdirty Hpin. unfold evict. rewrite Hb, Hdirty, Hpin. cbn [andb Z.eqb].
  assert (Hmb : page_map p !! buf_page_id b = Some slot) by (apply (Hd slot b); tauto).
  destruct (coh_map _ _ Hc _ _ Hmb) as (b0 & Hb0 & _ & H32 & Hlen & _).
  rewrite Hb in Hb0. injection Hb0 as <-.
  destruct (write_full s (buf_page_id b) (buf_data b) (coh_valid _ _ Hc) H32 Hlen)
    as (s' & -> & Hv' & Hrd & Hoth).
  assert (Huniq : forall q, page_map p !! q = Some slot -> q = buf_page_id b).
  { intros q Hq. by apply (coherent_inj s p q _ slot). }
  exists s'. split_and!; [done| | | | |done].
  - destruct Hc as [Hsh Hv Hm]. split; [done|done|]. intros q i. cbn. rewrite lookup_delete.
    case_decide; [done|]. intros Hq. destruct (Hm _ _ Hq) as (c & Hc1 & Hc2 & Hc3 & Hc4 & Hc5).
    exists c. split_and!; try done. intros Hcl. rewrite Hoth; auto.
  - intros i c Hi Hne Hdc. cbn in *. rewrite lookup_delete_ne; [apply (Hd i c); auto|].
    intros Heq. pose proof (Hd i c Hi ltac:(tauto) Hdc) as Hmi. rewrite <- Heq, Hmb in Hmi. by injection Hmi.
  - intros q. rewrite lookup_delete. case_decide; [done|]. intros Hq. by apply Huniq in Hq.
  - intros q Hq. unfold view. cbn. rewrite lookup_delete. case_decide as Hqb.
    + subst. rewrite Hmb. unfold slot_data. rewrite Hb. done.
    + destruct (page_map p !! q); [done|]. auto.
Qed.

(** [flush_page] succeeds and makes one page's slot clean, seen by nobody. *)
Lemma flush_page_ok s p pid :
  coherent s p -> dirty_mapped (fun _ => False) p ->
  exists s' p', flush_page s pid p = (Ok tt, s', p') /\ coherent s' p' /\
    dirty_mapped (fun _ => False) p' /\ same_view s p s' p' /\ page_map p' = page_map p /\
    (forall idx b', buffers p' !! idx = Some b' -> buf_dirty b' = true ->
       buffers p !! idx = Some b' /\ buf_page_id b' <> pid).
Proof.
  intros Hc Hd. unfold flush_page. destruct (page_map p !! pid) as [idx|] eqn:Em.
  2:{ exists s, p. split_and!; try done. intros i b Hb Hdb. split; [done|]. intros <-.
      rewrite (Hd i b) in Em by tauto. done. }
  destruct (coh_map _ _ Hc _ _ Em) as (b & Hb & Hpid & H32 & Hlen & Hclean). rewrite Hb.
  destruct (buf_dirty b) eqn:Ed.
  2:{ exists s, p. split_and!; try done. intros i c Hcb Hdc. split; [done|]. intros <-.
      assert (page_map p !! buf_page_id c = Some i) by (apply (Hd i c); tauto). congruence. }
  destruct (write_full s pid (buf_data b) (coh_valid _ _ Hc) H32 Hlen) as (s' & -> & Hv' & Hrd & Hoth).
  assert (Hlt := lookup_lt_Some _ _ _ Hb).
  exists s', (with_buffers p (<[idx := with_dirty b false]> (buffers p))). split; [done|].
  assert (Hview : forall q i c, page_map p !! q = Some i -> i <> idx -> buffers p !! i = Some c -> q <> pid).
  { intros q i c Hq Hi Hcc ->. congruence. }
  split_and!.
  - destruct Hc as [[Hl Hh] Hv Hm]. split; [split; cbn; by rewrite ?length_insert|done|].
    intros q i Hq. cbn in *. destruct (decide (i = idx)) as [->|].
    + destruct (Hm _ _ Hq) as (c & Hcb & Hc1 & Hc2 & Hc3 & Hc4). rewrite Hb in Hcb. injection Hcb as <-.
      rewrite list_lookup_insert_eq by done. eexists. split; [done|]. cbn. split_and!; try done.
      intros _. by rewrite <- Hc1, Hpid.
    + destruct (Hm _ _ Hq) as (c & Hcb & Hc1 & Hc2 & Hc3 & Hc4). exists c.
      rewrite list_lookup_insert_ne by done. split_and!; try done. intros Hcl. rewrite Hoth; eauto.
  - intros i c. cbn. rewrite list_lookup_insert_Some. intros [(<- & <- & _)|[Hne Hcb]] _ Hdc; [done|].
    apply (Hd i c); tauto.
  - intros q Hq. unfold view, slot_data. cbn. destruct (page_map p !! q) as [i|] eqn:Eq.
    + destruct (decide (i = idx)) as [->|]; [rewrite list_lookup_insert_eq, Hb by done; done|].
      by rewrite list_lookup_insert_ne.
    + rewrite Hoth; [done|done|]. intros ->. congruence.
  - done.
  - intros i c. cbn. rewrite list_lookup_insert_Some. intros [(<- & <- & _)|[Hne Hcb]] Hdc; [done|].
    split; [done|]. intros <-. assert (page_map p !! buf_page_id c = Some i) by (apply (Hd i c); tauto). congruence.
Qed.

Lemma flush_pages_ok s p pids :
  coherent s p -> dirty_mapped (fun _ => False) p ->
  exists s' p', flush_pages s pids p = (Ok tt, s', p') /\ coherent s' p' /\
    dirty_mapped (fun _ => False) p' /\ same_view s p s' p' /\ page_map p' = page_map p /\
    (forall idx b', buffers p' !! idx = Some b' -> buf_dirty b' = true ->
       buffers p !! idx = Some b' /\ buf_page_id b' ∉ pids).
Proof.
  revert s p. induction pids as [|pid pids IH]; intros s p Hc Hd; cbn [flush_pages].
  { exists s, p. split_and!; try done. set_solver. }
  destruct (flush_page_ok s p pid Hc Hd) as (s1 & p1 & -> & Hc1 & Hd1 & Hv1 & Hm1 & Hcl1).
  destruct (IH s1 p1 Hc1 Hd1) as (s2 & p2 & -> & Hc2 & Hd2 & Hv2 & Hm2 & Hcl2).
  exists s2, p2. split_and!; try done.
  - intros q Hq. by rewrite Hv2, Hv1.
  - congruence.
  - intros i b Hb Hdb. destruct (Hcl2 _ _ Hb Hdb) as [Hb1 Hni]. destruct (Hcl1 _ _ Hb1 Hdb) as [Hb0 Hne].
    split; [done|]. set_solver.
Qed.
End coherence.

(** The victim the sweep is about to choose is free to reuse: nobody has pinned
    it, and it holds a dirty page or no mapped page at all. *)
Definition victim_reusable (p : BufferPool) : Prop :=
  match find_victim p with
  | (Ok v, p1) =>
      match buffers p1 !! v with
      | Some b => buf_pin b = 0 /\ (buf_dirty b = true \/ forall q, page_map p !! q <> Some v)
      | None => False
      end
  | _ => False
  end.

Definition room_to_pin (p : BufferPool) (pid : PageId) : Prop :=
  forall idx b, page_map p !! pid = Some idx -> buffers p !! idx = Some b ->
    0 <= buf_usage b < 2 ^ 32 - 1 /\ 0 <= buf_pin b < 2 ^ 32 - 1.

(** C22. [fetch_page] keeps the promise of a coherent pool when the page is cached and its
    counters can go up, or the page is not cached and the victim is reusable (not pinned,
    and dirty or with no page mapped to it): it returns a slot that holds what the page
    reads as, pinned; no page reads differently afterwards; an evicted dirty page is in
    the store. With another victim it does not: [clean_eviction_stale_mapping] and
    [cache_returns_wrong_page]. *)
Theorem fetch_page_view {P : Profile} {S} (psize : nat) (valid : S -> Prop) `{StorageLaws S psize valid} s p pid data :
  coherent psize valid s p -> dirty_mapped (fun _ => False) p ->
  is_u32 pid -> view s p pid = Ok data -> length data = psize -> room_to_pin p pid ->
  (page_map p !! pid = None -> victim_reusable p) ->
  exists idx s' p', fetch_page s pid p = (Ok idx, s', p') /\
    coherent psize valid s' p' /\ dirty_mapped (fun _ => False) p' /\
    (forall q, is_u32 q -> view s' p' q = view s p q) /\
    page_map p' !! pid = Some idx /\
    exists b, buffers p' !! idx = Some b /\ buf_data b = data /\ buf_page_id b = pid /\ 1 <= buf_pin b.
Proof.
  intros Hc Hd H32 Hview Hlen Hroom Hvict. unfold fetch_page. unfold view, slot_data in Hview.
  destruct (page_map p !! pid) as [idx|] eqn:Em.
  - destruct (coh_map _ _ _ _ Hc _ _ Em) as (b & Hb & Hpid & _). rewrite Hb in Hview. injection Hview as <-.
    destruct (Hroom _ _ Em Hb) as [Hu Hp]. unfold bump. rewrite Hb.
    rewrite !add_w_ok by (unfold in_width; lia). cbn [mbind outcome_bind].
    destruct (coherent_touch psize valid s p idx b (with_counts b (buf_usage b + 1) (buf_pin b + 1)))
      as (Hc' & Hd' & Hv'); try done; [cbn; intros _; congruence|].
    eexists _, _, _. split; [done|]. split_and!; try done.
    exists (with_counts b (buf_usage b + 1) (buf_pin b + 1)). cbn.
    rewrite list_lookup_insert_eq by (by eapply lookup_lt_Some). split_and!; try done. lia.
  - specialize (Hvict eq_refl). unfold victim_reusable in Hvict.
    destruct (find_victim_shape p (coh_shape _ _ _ _ Hc)) as (v & p1 & Ev & Hsh & Hsize & Hmap & Hag & Hlt & _).
    rewrite Ev in Hvict |- *. destruct (buffers p1 !! v) as [b|] eqn:Eb; [|done].
    destruct Hvict as [Hpin Hfree]. rewrite Hview.
    destruct (coherent_aged psize valid s p p1 Hc Hd Hsh Hmap Hag) as (Hc1 & Hd1 & Hv1).
    assert (Hfill : exists s' p2, evict s v p1 = (Ok tt, s', p2) /\ coherent psize valid s' p2 /\
      dirty_mapped (eq v) p2 /\ (forall q, page_map p2 !! q <> Some v) /\ same_view s p1 s' p2 /\
      page_map p2 !! pid = None /\ read_page s' pid = Ok data /\ pool_size p2 = pool_size p1 /\ buffers p2 = buffers p1).
    { destruct (buf_dirty b) eqn:Ed.
      - destruct (coherent_evict psize valid s p1 v b Hc1 Hd1 Eb Ed Hpin) as (s' & He & Hc2 & Hd2 & Hf2 & Hv2 & Hr2).
        assert (Hne : pid <> buf_page_id b).
        { intros ->. rewrite <- Hmap, (Hd1 v b) in Em by tauto. done. }
        eexists _, _. split; [done|]. split_and!; try done; cbn; [|by rewrite Hr2].
        by rewrite lookup_delete_ne, Hmap.
      - exists s, p1. unfold evict. rewrite Eb, Ed. cbn. split_and!; try done; [| |by rewrite Hmap].
        + intros i c Hi _. by apply (Hd1 i c); [|tauto].
        + destruct Hfree as [?|Hfree]; [done|]. by rewrite Hmap. }
    destruct Hfill as (s' & p2 & -> & Hc2 & Hd2 & Hf2 & Hv2 & Hm2 & Hr2 & Hs2 & Hb2).
    destruct (coherent_fill psize valid s' p2 v pid data Hc2 Hd2) as (Hc3 & Hd3 & Hv3); try done; [congruence|].
    eexists _, _, _. split; [done|]. split_and!; try done.
    + intros q Hq. by rewrite Hv3, Hv2, Hv1.
    + cbn. apply lookup_insert_eq.
    + cbn. rewrite list_lookup_insert_eq by (rewrite Hb2; eapply lookup_lt_Some; eauto).
      eexists. split; [done|]. by cbn.
Qed.

(** [flush_all] on a coherent pool succeeds in whatever order the map is
    iterated, leaves no dirty slot, and afterwards the store itself holds what
    every page reads as. *)
Theorem flush_all_spec {P : Profile} {S} (psize : nat) (valid : S -> Prop) `{StorageLaws S psize valid} order s p :
  (forall m : gmap PageId nat, order m ≡ₚ (map_to_list m).*1) ->
  coherent psize valid s p -> dirty_mapped (fun _ => False) p ->
  exists s' p', flush_all order s p = (Ok tt, s', p') /\ dirty_count p' = 0%nat /\
    coherent psize valid s' p' /\
    forall q, is_u32 q -> read_page s' q = view s p q /\ view s' p' q = view s p q.
Proof.
  intros Hord Hc Hd. unfold flush_all.
  destruct (flush_pages_ok psize valid s p (order (page_map p)) Hc Hd) as (s' & p' & -> & Hc' & Hd' & Hv' & Hm' & Hcl).
  assert (Hclean : forall idx b, buffers p' !! idx = Some b -> buf_dirty b = false).
  { intros idx b Hb. apply not_true_is_false. intros Hdb. destruct (Hcl _ _ Hb Hdb) as [Hb0 Hni].
    apply Hni. rewrite Hord. apply list_elem_of_fmap. exists (buf_page_id b, idx). split; [done|].
    apply elem_of_map_to_list. apply (Hd idx b); tauto. }
  exists s', p'. split_and!; try done.
  - unfold dirty_count. assert (Hnil : List.filter buf_dirty (buffers p') = []); [|by rewrite Hnil].
    assert (Hall : Forall (fun b => buf_dirty b = false) (buffers p')).
    { apply Forall_forall. intros b [i Hi]%list_elem_of_lookup. eauto. }
    clear -Hall. induction Hall as [|b bs Hb _ IH]; [done|]. cbn. by rewrite Hb.
  - intros q Hq. split; [|by apply Hv']. rewrite <- Hv' by done. unfold view, slot_data.
    destruct (page_map p' !! q) as [idx|] eqn:E; [|done].
    destruct (coh_map _ _ _ _ Hc' _ _ E) as (b & Hb & _ & _ & _ & Hr). rewrite Hb. apply Hr. eauto.
Qed.

(** A victim is never a pinned buffer while an unpinned one exists, and finding
    one changes no page, content, dirty flag or pin. *)
Theorem find_victim_unpinned p :
  pool_shape p -> Exists (fun b => buf_pin b = 0) (buffers p) ->
  exists v p' b, find_victim p = (Ok v, p') /\ buffers p' !! v = Some b /\ buf_pin b = 0 /\
    page_map p' = page_map p /\ Forall2 aged (buffers p) (buffers p').
Proof.
  intros Hsh Hex. destruct (find_victim_shape p Hsh) as (v & p' & Ev & _ & _ & Hm & Hag & _ & [(b & Hb & Hp)|[_ Hall]]).
  - exists v, p', b. done.
  - exfalso. apply Exists_exists in Hex as (b & Hin & Hp). rewrite Forall_forall in Hall. by apply (Hall b).
Qed.

(** Fetching some pages in order. *)
Definition fetch_each {P : Profile} {S} `{Storage S} (pids : list PageId) (c : SharedBufferCache S) : SharedBufferCache S :=
  foldl (fun c pid => snd (cache_fetch_page pid c)) c pids.

(** A store whose page [n] holds the number [n] of pages 1 and 1025. *)
Definition numbered_store : EphemeralStorage :=
  snd (write_page (snd (write_page EphemeralStorage_new 1 [1])) 1025 [2]).

(** Fetching through the shared cache never unpins, so once 1024 pages have been
    read the sweep finds no victim and takes slot 0, whose page stays mapped:
    after pages 1 to 1025 have been fetched from a fresh cache over any store
    that can be read, page 1 reads as page 1025. *)
Theorem cache_returns_wrong_page :
  let c := fetch_each (P := release_profile) (seqZ 1 1025) (SharedBufferCache_new numbered_store) in
  read_page numbered_store 1 = Ok [1] /\
  fst (cache_fetch_page (P := release_profile) 1 c) = Ok [2].
Proof. split; [reflexivity|]. by vm_compute. Qed.

(** The same batch of 1025 pages returns the last page's data for the first. *)
Theorem batch_returns_wrong_page :
  (l ← fst (fetch_pages_batch (P := release_profile) (seqZ 1 1025) (SharedBufferCache_new numbered_store));
   Ok (head l)) = Ok (Some (1, [2])).
Proof. by vm_compute. Qed.

(** A pool that unpins its pages goes wrong too: a clean victim's page stays
    mapped to the slot it lost. With two slots, pages 1, 2 and 3 are each fetched
    and unpinned; page 1 then reads as page 3. *)
Theorem clean_eviction_stale_mapping :
  let store := snd (write_page (snd (write_page EphemeralStorage_new 1 [1])) 3 [3]) in
  let visit p pid := snd (unpin_page pid false (snd (fetch_page (P := debug_profile) store pid p))) in
  let p := foldl visit (BufferPool_new 2) [1; 2; 3] in
  page_map p !! 1 = page_map p !! 3 /\ view store p 1 = Ok [3] /\ read_page store 1 = Ok [1].
Proof. by vm_compute. Qed.

Lemma pool_new_coherent {S} (psize : nat) (valid : S -> Prop) `{Storage S} s n :
  valid s -> n <> 0%nat ->
  coherent psize valid s (BufferPool_new n) /\ dirty_mapped (fun _ => False) (BufferPool_new n).
Proof.
  intros Hv Hn. split.
  - split; [split; cbn; [apply length_replicate|lia]|done|]. intros pid idx. cbn. by rewrite lookup_empty.
  - intros idx b. cbn. intros [-> _]%lookup_replicate. done.
Qed.

Lemma ring_next_page_witness :
  fst (next_page numbered_store 1025 (SeqScanRing_new 4)) = Ok [2].
Proof. refine (proj1 (ring_next_page numbered_store 1025 (SeqScanRing_new 4) (ring_new_ok _ _) _)). discriminate. Defined.

Lemma find_victim_unpinned_witness :
  exists v p' b, find_victim (BufferPool_new 2) = (Ok v, p') /\ buffers p' !! v = Some b /\ buf_pin b = 0 /\
    page_map p' = ∅ /\ Forall2 aged (replicate 2 empty_buffer) (buffers p').
Proof.
  apply (find_victim_unpinned (BufferPool_new 2)).
  - split; [reflexivity|cbn; lia].
  - left. reflexivity.
Defined.

Lemma fetch_page_view_witness :
  exists idx s' p', fetch_page (P := debug_profile) numbered_store 1 (BufferPool_new 2) = (Ok idx, s', p') /\
    coherent 1 (fun _ => True) s' p' /\ dirty_mapped (fun _ => False) p' /\
    (forall q, is_u32 q -> view s' p' q = view numbered_store (BufferPool_new 2) q) /\
    page_map p' !! 1 = Some idx /\
    exists b, buffers p' !! idx = Some b /\ buf_data b = [1] /\ buf_page_id b = 1 /\ 1 <= buf_pin b.
Proof.
  destruct (pool_new_coherent 1 (fun _ => True) numbered_store 2 I ltac:(discriminate)) as [Hc Hd].
  apply (fetch_page_view 1 (fun _ => True) numbered_store (BufferPool_new 2) 1 [1] Hc Hd).
  - vm_compute. split; [discriminate|reflexivity].
  - vm_compute. reflexivity.
  - reflexivity.
  - intros idx b Hm. vm_compute in Hm. discriminate Hm.
  - intros _. vm_compute. split; [reflexivity|]. right. discriminate.
Defined.

(** A pool with one slot whose page 1 was changed after it was read. *)
Definition one_dirty : BufferPool :=
  {| pool_size := 1; page_map := {[1 := 0%nat]}; next_victim := 0;
     buffers := [ {| buf_page_id := 1; buf_data := [7]; buf_dirty := true; buf_usage := 1; buf_pin := 0 |} ] |}.

Lemma flush_all_spec_witness :
  exists s' p', flush_all (fun m => (map_to_list m).*1) numbered_store one_dirty = (Ok tt, s', p') /\
    dirty_count p' = 0%nat /\ coherent 1 (fun _ => True) s' p' /\
    forall q, is_u32 q -> read_page s' q = view numbered_store one_dirty q /\ view s' p' q = view numbered_store one_dirty q.
Proof.
  apply (flush_all_spec (P := debug_profile) 1 (fun _ => True)).
  - intros m. reflexivity.
  - split; [split; [reflexivity|cbn; lia]|exact I|]. intros pid idx Hm.
    change (({[1 := 0%nat]} : gmap PageId nat) !! pid = Some idx) in Hm.
    apply lookup_singleton_Some in Hm as [<- <-]. eexists. split; [reflexivity|]. split; [reflexivity|].
    split; [vm_compute; split; [discriminate|reflexivity]|]. split; [reflexivity|]. discriminate.
  - intros [|idx] b Hb _ _; [|done]. cbn in Hb. injection Hb as <-. reflexivity.
Defined.
