(* ===== verification/PoolHistories.v ===== *)
(** The buffer pool over a history of calls ([src/src/buffer_cache/mod.rs]): as long as
    the pages its clients ask for fit, the pool is a memory of pages in front of a
    disk, and no change is lost or written early. *)

From stdpp Require Import functions.
From S2P Require Import Prelude Types Storage BufferPool.

(* ------------------------------------------------------------------ *)
(** ** Calls *)

(** [CallRead] and [CallWrite] are what a client does: fetch the page, then read
    its buffer through [lock_pool], or overwrite it and unpin the page as dirty. *)
Inductive pool_call :=
| CallRead (pid : PageId)
| CallWrite (pid : PageId) (data : bytes)
| CallPin (pid : PageId)
| CallUnpin (pid : PageId)
| CallFlush (pid : PageId)
| CallFlushAll
| CallInvalidate (pid : PageId).

(** *** What they promise *)

(** What clients see, what is stored, which pages the pool holds, and how many of
    its slots were taken since it was made. *)
Record paged := Paged { mem : PageId -> bytes; disk : PageId -> bytes; cached : gset PageId; used : nat }.

Definition touch (pid : PageId) (a : paged) : paged :=
  if decide (pid ∈ cached a) then a else Paged (mem a) (disk a) ({[pid]} ∪ cached a) (used a + 1).

Definition paged_step (c : pool_call) (a : paged) : paged :=
  match c with
  | CallRead pid => touch pid a
  | CallWrite pid data => let a := touch pid a in Paged (<[pid := data]> (mem a)) (disk a) (cached a) (used a)
  | CallPin _ | CallUnpin _ => a
  | CallFlush pid => Paged (mem a) (<[pid := mem a pid]> (disk a)) (cached a) (used a)
  | CallFlushAll => Paged (mem a) (mem a) (cached a) (used a)
  | CallInvalidate pid => Paged (<[pid := disk a pid]> (mem a)) (disk a) (cached a ∖ {[pid]}) (used a)
  end.

Definition paged_answer (c : pool_call) (a : paged) : bytes :=
  match c with CallRead pid => mem a pid | _ => [] end.

Fixpoint paged_run (calls : list pool_call) (a : paged) : list bytes * paged :=
  match calls with
  | [] => ([], a)
  | c :: calls => let '(rs, a') := paged_run calls (paged_step c a) in (paged_answer c a :: rs, a')
  end.

(** A page number fits its type, a page has the store's size, and a page that the
    pool does not hold finds a slot that was never taken. *)
Definition call_fits (psize n : nat) (c : pool_call) (a : paged) : Prop :=
  match c with
  | CallRead pid => is_u32 pid /\ (pid ∈ cached a \/ (used a < n)%nat)
  | CallWrite pid data => is_u32 pid /\ (pid ∈ cached a \/ (used a < n)%nat) /\ length data = psize
  | CallFlush pid | CallInvalidate pid => is_u32 pid
  | _ => True
  end.

Fixpoint calls_fit (psize n : nat) (calls : list pool_call) (a : paged) : Prop :=
  match calls with [] => True | c :: calls => call_fits psize n c a /\ calls_fit psize n calls (paged_step c a) end.

(* ------------------------------------------------------------------ *)
(** ** The slots of a pool that was never full *)

Definition counts_ok (c : Z) (b : Buffer) : Prop := 0 <= buf_usage b <= c /\ 0 <= buf_pin b <= c.

(** The first [u] of [n] slots were taken, the others are as they were made, and
    the clock hand stands behind the former. *)
Record laid_out (n : nat) (c : Z) (u : nat) (p : BufferPool) : Prop := {
  lo_size : pool_size p = n;
  lo_hand : next_victim p = (u `mod` n)%nat;
  lo_free : forall i, (u <= i < n)%nat -> buffers p !! i = Some empty_buffer;
  lo_slots : forall q i, page_map p !! q = Some i -> (i < u)%nat;
  lo_counts : Forall (counts_ok c) (buffers p);
}.

Lemma laid_out_more n c c' u p : laid_out n c u p -> c <= c' -> laid_out n c' u p.
Proof. intros [? ? ? ? Hc] Hle. split; try done. eapply Forall_impl; [exact Hc|]. unfold counts_ok. lia. Qed.

(** One taken slot gets another buffer. *)
Lemma laid_out_insert n c u p idx b :
  laid_out n c u p -> (idx < u)%nat -> counts_ok c b -> laid_out n c u (with_buffers p (<[idx := b]> (buffers p))).
Proof.
  intros [? ? Hf ? Hc] Hi Hb. split; try done; cbn.
  - intros i Hr. rewrite list_lookup_insert_ne by lia. by apply Hf.
  - by apply Forall_insert.
Qed.

Lemma laid_out_delete n c u p pid : laid_out n c u p -> laid_out n c u (with_page_map p (delete pid (page_map p))).
Proof. intros [? ? ? Hs ?]. split; try done. cbn. intros q i [_ Hq]%lookup_delete_Some. eauto. Qed.

(** The next victim is the first slot never taken, which the sweep finds at once. *)
Lemma laid_out_victim n c u p :
  laid_out n c u p -> (u < n)%nat ->
  find_victim p = (Ok u, with_hand p ((u + 1) `mod` n)%nat) /\ buffers p !! u = Some empty_buffer.
Proof.
  intros [Hn Hh Hf _ _] Hu. specialize (Hf u ltac:(lia)). split; [|done].
  unfold find_victim. rewrite Hh, Hn, Nat.mod_small by done. destruct n as [|n]; [lia|].
  replace (Datatypes.S n * 2)%nat with (Datatypes.S (Datatypes.S (n * 2)))%nat by lia. cbn [sweep]. rewrite Hf. cbn. by destruct p.
Qed.

Lemma laid_out_fill n c u p pid data :
  laid_out n c u p -> (u < n)%nat -> length (buffers p) = n -> 1 <= c ->
  laid_out n c (u + 1) (fill u pid data (with_hand p ((u + 1) `mod` n)%nat)).
Proof.
  intros [Hn Hh Hf Hs Hc] Hu Hl H1. unfold fill. split; cbn; try done.
  - intros i Hr. rewrite list_lookup_insert_ne by lia. apply Hf. lia.
  - intros q i [[_ <-]|[_ Hq]]%lookup_insert_Some; [lia|]. apply Hs in Hq. lia.
  - apply Forall_insert; [done|]. unfold counts_ok. cbn. lia.
Qed.

Section steps.
Context {P : Profile} {S : Type} (psize : nat) (valid : S -> Prop) `{StorageLaws S psize valid}.
Context (order : gmap PageId nat -> list PageId) (n : nat).
Implicit Types (s : S) (p : BufferPool).
Abbreviation coherent := (coherent psize valid).
Abbreviation dirty_mapped := (dirty_mapped (fun _ => False)).

(* ------------------------------------------------------------------ *)
(** ** Clients of the pool *)

(** The buffer of a page that was fetched, as [lock_pool] gives it. *)
Definition client_read s pid p : outcome bytes * S * BufferPool :=
  let '(r, s, p) := fetch_page s pid p in (r ≫= slot_data p, s, p).

Definition client_write s pid data p : outcome unit * S * BufferPool :=
  let '(r, s, p) := fetch_page s pid p in
  match r with
  | Ok idx =>
      match buffers p !! idx with
      | Some b => let '(r, p) := unpin_page pid true (with_buffers p (<[idx := with_data b data]> (buffers p))) in (r, s, p)
      | None => (Panic, s, p)
      end
  | Err e => (Err e, s, p)
  | Panic => (Panic, s, p)
  end.

Definition pool_step (c : pool_call) s p : outcome bytes * S * BufferPool :=
  match c with
  | CallRead pid => client_read s pid p
  | CallWrite pid data => let '(r, s, p) := client_write s pid data p in ((fun _ => []) <$> r, s, p)
  | CallPin pid => let '(r, p) := pin_page pid p in ((fun _ => []) <$> r, s, p)
  | CallUnpin pid => let '(r, p) := unpin_page pid false p in ((fun _ => []) <$> r, s, p)
  | CallFlush pid => let '(r, s, p) := flush_page s pid p in ((fun _ => []) <$> r, s, p)
  | CallFlushAll => let '(r, s, p) := flush_all order s p in ((fun _ => []) <$> r, s, p)
  | CallInvalidate pid => let '(r, p) := invalidate_page pid p in ((fun _ => []) <$> r, s, p)
  end.

Fixpoint pool_run (calls : list pool_call) s p : list (outcome bytes) * S * BufferPool :=
  match calls with
  | [] => ([], s, p)
  | c :: calls =>
      let '(r, s, p) := pool_step c s p in
      let '(rs, s, p) := pool_run calls s p in (r :: rs, s, p)
  end.

(* ------------------------------------------------------------------ *)
(** ** Changing and dropping a page *)

Lemma coherent_write s p idx b b' :
  coherent s p -> dirty_mapped p -> buffers p !! idx = Some b -> page_map p !! buf_page_id b = Some idx ->
  buf_page_id b' = buf_page_id b -> buf_dirty b' = true -> length (buf_data b') = psize ->
  let p' := with_buffers p (<[idx := b']> (buffers p)) in
  coherent s p' /\ dirty_mapped p'
  /\ forall q, view s p' q = if decide (q = buf_page_id b) then Ok (buf_data b') else view s p q.
Proof.
  intros Hc Hd Hb Hm Hid Hdirty Hlen p'. assert (Hlt := lookup_lt_Some _ _ _ Hb).
  assert (Huniq : forall q, page_map p !! q = Some idx -> q = buf_page_id b) by (intros q Hq; by apply (coherent_inj psize valid s p q _ idx)).
  destruct Hc as [Hsh Hv Hmap]. split_and!.
  - split; [destruct Hsh; split; cbn; by rewrite ?length_insert|done|].
    intros q i Hq. cbn in Hq |- *. destruct (Hmap _ _ Hq) as (c & Hc & Hc1 & Hc2 & Hc3 & Hc4). destruct (decide (i = idx)) as [->|].
    + rewrite Hb in Hc. injection Hc as <-. exists b'. rewrite list_lookup_insert_eq by done. split_and!; congruence.
    + exists c. by rewrite list_lookup_insert_ne.
  - intros i c. cbn. rewrite list_lookup_insert_Some. intros [(<- & <- & _)|[Hne Hc]] _ Hdc; [by rewrite Hid|]. by apply (Hd i c); [|tauto|].
  - intros q. unfold view, slot_data. cbn. case_decide as Eq.
    + subst q. by rewrite Hm, list_lookup_insert_eq.
    + destruct (page_map p !! q) as [i|] eqn:E; [|done]. rewrite list_lookup_insert_ne; [done|]. intros ->. by apply Huniq in E.
Qed.

Lemma coherent_invalidate s p pid :
  coherent s p -> dirty_mapped p ->
  exists p', invalidate_page pid p = (Ok tt, p') /\ coherent s p' /\ dirty_mapped p' /\ page_map p' = delete pid (page_map p)
    /\ forall q, view s p' q = if decide (q = pid) then read_page s pid else view s p q.
Proof.
  intros Hc Hd. unfold invalidate_page. destruct (page_map p !! pid) as [idx|] eqn:Em.
  2:{ exists p. split_and!; try done; [by rewrite delete_id|]. intros q. case_decide; [|done]. subst q. unfold view. by rewrite Em. }
  destruct (coh_map _ _ _ _ Hc _ _ Em) as (b & Hb & Hpid & H32 & Hlen & _). rewrite (Hb : buffers (with_page_map p _) !! _ = _).
  assert (Hlt := lookup_lt_Some _ _ _ Hb).
  assert (Hne : forall q i, page_map p !! q = Some i -> q <> pid -> i <> idx) by (intros q i Hq Hqp ->; by apply Hqp, (coherent_inj psize valid s p q pid idx)).
  eexists. split; [done|]. split_and!; [| |done|].
  - destruct Hc as [Hsh Hv Hmap]. split; [destruct Hsh; split; cbn; by rewrite ?length_insert|done|].
    intros q i Hq. cbn in Hq |- *. apply lookup_delete_Some in Hq as [Hqp Hq]. rewrite list_lookup_insert_ne by (apply not_eq_sym; eauto). eauto.
  - intros i c. cbn. rewrite list_lookup_insert_Some. intros [(<- & <- & _)|[Hi Hc']] _ Hdc; [done|].
    rewrite lookup_delete_ne; [by apply (Hd i c); [|tauto|]|]. intros ->. rewrite (Hd i c) in Em; [congruence|done|tauto|done].
  - intros q. unfold view, slot_data. cbn. case_decide as Eq; [by subst; rewrite lookup_delete_eq|].
    rewrite lookup_delete_ne by done. destruct (page_map p !! q) as [i|] eqn:E; [|done]. rewrite list_lookup_insert_ne; [done|]. intros <-. by eapply Hne.
Qed.

(** A flush changes no other page of the store, and leaves the slots taken. *)
Lemma flush_page_rest c u s p pid s' p' r :
  coherent s p -> laid_out n c u p -> flush_page s pid p = (r, s', p') ->
  laid_out n c u p' /\ forall q, is_u32 q -> q <> pid -> read_page s' q = read_page s q.
Proof.
  intros Hc Hl. unfold flush_page. destruct (page_map p !! pid) as [idx|] eqn:Em; [|by intros [= <- <- <-]].
  destruct (coh_map _ _ _ _ Hc _ _ Em) as (b & Hb & _ & H32 & Hlen & _). rewrite Hb. destruct (buf_dirty b); [|by intros [= <- <- <-]].
  destruct (write_full s pid (buf_data b) (coh_valid _ _ _ _ Hc) H32 Hlen) as (s1 & -> & _ & _ & Hoth). intros [= <- <- <-].
  split; [|done]. apply laid_out_insert; [done|by eapply lo_slots|]. pose proof (lo_counts _ _ _ _ Hl) as Hall.
  rewrite Forall_lookup in Hall. by apply (Hall _ _ Hb).
Qed.

(** After a flush the store has what the page reads as. *)
Lemma flushed_page s p pid :
  coherent s p -> (forall idx b, buffers p !! idx = Some b -> buf_dirty b = true -> buf_page_id b <> pid) -> read_page s pid = view s p pid.
Proof.
  intros Hc Hclean. unfold view, slot_data. destruct (page_map p !! pid) as [idx|] eqn:Em; [|done].
  destruct (coh_map _ _ _ _ Hc _ _ Em) as (b & Hb & Hpid & _ & _ & Hr). rewrite Hb. apply Hr.
  apply not_true_is_false. intros Hdb. by apply (Hclean _ _ Hb Hdb).
Qed.

Lemma flush_pages_rest c u pids s p :
  coherent s p -> dirty_mapped p -> laid_out n c u p -> laid_out n c u (flush_pages s pids p).2.
Proof.
  revert s p. induction pids as [|pid pids IH]; intros s p Hc Hd Hl; [done|]. cbn [flush_pages].
  destruct (flush_page_ok psize valid s p pid Hc Hd) as (s' & p' & E & Hc' & Hd' & _). rewrite E. apply IH; [done..|].
  by destruct (flush_page_rest _ _ _ _ _ _ _ _ Hc Hl E).
Qed.

(* ------------------------------------------------------------------ *)
(** ** The pool as pages *)

(** [c] bounds the counters of the buffers. *)
Record shows (c : Z) s p (a : paged) : Prop := {
  sh_coherent : coherent s p;
  sh_dirty : dirty_mapped p;
  sh_layout : laid_out n c (used a) p;
  sh_mem : forall q, is_u32 q -> view s p q = Ok (mem a q) /\ length (mem a q) = psize;
  sh_disk : forall q, is_u32 q -> read_page s q = Ok (disk a q) /\ length (disk a q) = psize;
  sh_cached : forall q, q ∈ cached a <-> is_Some (page_map p !! q);
}.

Lemma shows_more c c' s p a : shows c s p a -> c <= c' -> shows c' s p a.
Proof. intros [] Hc. split; try done. by eapply laid_out_more. Qed.

Lemma shows_counts c s p a idx b : shows c s p a -> buffers p !! idx = Some b -> counts_ok c b.
Proof. intros Hs Hb. pose proof (lo_counts _ _ _ _ (sh_layout _ _ _ _ Hs)) as Hall. rewrite Forall_lookup in Hall. eauto. Qed.

(** A buffer of the same page and contents. *)
Lemma shows_touch c s p a pid idx b b' :
  shows c s p a -> page_map p !! pid = Some idx -> buffers p !! idx = Some b -> counts_ok c b' ->
  buf_page_id b' = buf_page_id b -> buf_data b' = buf_data b -> buf_dirty b' = buf_dirty b ->
  shows c s (with_buffers p (<[idx := b']> (buffers p))) a.
Proof.
  intros [Hc Hd Hl Hm Hk Hr] Em Hb Hc' Hid Hdata Hdirty.
  destruct (coherent_touch psize valid s p idx b b') as (Hc1 & Hd1 & Hv1); try done; [|by rewrite Hdirty|].
  { intros Hdb. rewrite Hdirty in Hdb. by apply (Hd idx b); [|tauto|]. }
  split; try done; [|by intros q Hq; rewrite Hv1; auto]. apply laid_out_insert; [done|by eapply lo_slots|done].
Qed.

Lemma bump_ok c s p a pid idx b :
  shows c s p a -> c < 2 ^ 32 - 1 -> page_map p !! pid = Some idx -> buffers p !! idx = Some b ->
  exists b', bump p idx = (Ok idx, with_buffers p (<[idx := b']> (buffers p))) /\ buf_page_id b' = buf_page_id b /\ buf_data b' = buf_data b
    /\ shows (c + 1) s (with_buffers p (<[idx := b']> (buffers p))) a.
Proof.
  intros Hs Hc Em Hb. destruct (shows_counts _ _ _ _ _ _ Hs Hb) as [Hu Hp]. unfold bump. rewrite Hb, !add_w_ok by (unfold in_width; lia).
  exists (with_counts b (buf_usage b + 1) (buf_pin b + 1)). split_and!; try done.
  eapply shows_touch; [apply (shows_more c); [done|lia]|done..| | | |]; try done. unfold counts_ok. cbn. lia.
Qed.

Lemma bump_pin_ok c s p a idx b :
  shows c s p a -> c < 2 ^ 32 - 1 -> buffers p !! idx = Some b -> bump_pin p idx = bump p idx.
Proof.
  intros Hs Hc Hb. destruct (shows_counts _ _ _ _ _ _ Hs Hb) as [Hu Hp]. unfold bump_pin, bump. by rewrite Hb, !add_w_ok by (unfold in_width; lia).
Qed.

(** Fetching a page the pool holds, or has a fresh slot for. *)
Lemma fetch_shows c s p a pid :
  shows c s p a -> 0 <= c < 2 ^ 32 - 1 -> is_u32 pid -> pid ∈ cached a \/ (used a < n)%nat ->
  exists idx b p', fetch_page s pid p = (Ok idx, s, p') /\ shows (c + 1) s p' (touch pid a)
    /\ page_map p' !! pid = Some idx /\ buffers p' !! idx = Some b /\ buf_page_id b = pid /\ buf_data b = mem a pid /\ page_map p ⊆ page_map p'.
Proof.
  intros Hs Hc H32 Hroom. unfold fetch_page, touch. pose proof (sh_cached _ _ _ _ Hs pid) as Hcached.
  destruct (sh_mem _ _ _ _ Hs _ H32) as [Hview Hlen]. unfold view, slot_data in Hview. destruct (page_map p !! pid) as [idx|] eqn:Em.
  - rewrite decide_True by (apply Hcached; eauto). destruct (coh_map _ _ _ _ (sh_coherent _ _ _ _ Hs) _ _ Em) as (b & Hb & Hpid & _).
    rewrite Hb in Hview. injection Hview as Hview. destruct (bump_ok c s p a pid idx b Hs ltac:(lia) Em Hb) as (b' & -> & Hid & Hdata & Hs').
    exists idx, b'. eexists. split; [done|]. split_and!; [done|done| |congruence|congruence|done]. cbn. apply list_lookup_insert_eq. by eapply lookup_lt_Some.
  - assert (Hni : pid ∉ cached a) by (rewrite Hcached; intros [? ?]; done). rewrite decide_False by done. destruct Hroom as [?|Hu]; [done|].
    destruct Hs as [Hco Hd Hl Hm Hk Hr]. destruct (laid_out_victim _ _ _ _ Hl Hu) as [-> Hfree]. rewrite Hview. unfold evict.
    set (p1 := with_hand p ((used a + 1) `mod` n)%nat). rewrite (Hfree : buffers p1 !! _ = _). cbn [empty_buffer buf_dirty andb].
    destruct (coh_shape _ _ _ _ Hco) as [Hlb Hhand]. pose proof (lo_size _ _ _ _ Hl) as Hsize.
    destruct (coherent_aged psize valid s p p1 Hco Hd) as (Hc1 & Hd1 & Hv1); [|done|reflexivity|].
    { split; [done|]. unfold p1. cbn. rewrite Hsize. apply Nat.mod_upper_bound. lia. }
    destruct (coherent_fill psize valid s p1 (used a) pid (mem a pid) Hc1) as (Hc2 & Hd2 & Hv2); try done; [|cbn; lia| |].
    { intros i b Hi _. apply (Hd1 i b Hi). tauto. }
    { intros q Hq. apply (lo_slots _ _ _ _ Hl) in Hq. lia. }
    eexists _, _, _. split; [done|]. split_and!; cbn; [|apply lookup_insert_eq|apply list_lookup_insert_eq; lia|done|done|by apply insert_subseteq].
    split; cbn; try done.
    + apply laid_out_fill; [apply (laid_out_more n c); [done|lia]|done|lia|lia].
    + intros q Hq. rewrite Hv2, Hv1 by done. by apply Hm.
    + intros q. rewrite elem_of_union, elem_of_singleton, lookup_insert_is_Some, Hr. destruct (decide (pid = q)); naive_solver.
Qed.

Lemma write_shows c s p a pid data :
  shows c s p a -> 0 <= c < 2 ^ 32 - 1 -> is_u32 pid -> pid ∈ cached a \/ (used a < n)%nat -> length data = psize ->
  exists p', client_write s pid data p = (Ok tt, s, p') /\ shows (c + 1) s p' (paged_step (CallWrite pid data) a).
Proof.
  intros Hs Hc H32 Hroom Hdata. unfold client_write.
  destruct (fetch_shows c s p a pid Hs Hc H32 Hroom) as (idx & b & p1 & -> & Hs1 & Em & Hb & Hpid & _). rewrite Hb.
  assert (Hlt := lookup_lt_Some _ _ _ Hb). unfold unpin_page. rewrite (Em : page_map (with_buffers p1 _) !! pid = _).
  cbn [with_buffers buffers]. rewrite list_lookup_insert_eq, list_insert_insert_eq by done.
  set (b' := with_dirty _ true). pose proof (shows_counts _ _ _ _ _ _ Hs1 Hb) as [Hu Hp]. destruct Hs1 as [Hco Hd Hl Hm Hk Hr].
  destruct (coherent_write s p1 idx b b' Hco Hd Hb) as (Hc2 & Hd2 & Hv2); try done; [by rewrite Hpid|].
  eexists. split; [done|]. change (with_buffers _ ?l) with (with_buffers p1 l). split; cbn [paged_step mem disk cached used]; try done.
  - apply laid_out_insert; [done|by eapply lo_slots|]. subst b'. unfold counts_ok. cbn. lia.
  - intros q Hq. rewrite Hv2, Hpid. case_decide as E; [by subst; rewrite fn_lookup_insert|].
    rewrite fn_lookup_insert_ne by done. auto.
Qed.

Lemma flush_shows c s p a pid :
  shows c s p a -> is_u32 pid ->
  exists s' p', flush_page s pid p = (Ok tt, s', p') /\ shows c s' p' (paged_step (CallFlush pid) a).
Proof.
  intros [Hco Hd Hl Hm Hk Hr] H32. destruct (flush_page_ok psize valid s p pid Hco Hd) as (s' & p' & E & Hc' & Hd' & Hv & Hmap & Hcl).
  destruct (flush_page_rest _ _ _ _ _ _ _ _ Hco Hl E) as [Hl' Hoth]. exists s', p'. split; [done|].
  assert (Hm' : forall q, is_u32 q -> view s' p' q = Ok (mem a q) /\ length (mem a q) = psize) by (intros q Hq; rewrite Hv; auto).
  split; cbn [paged_step mem disk cached used]; try done.
  - intros q Hq. destruct (decide (pid = q)) as [<-|Hne].
    + rewrite fn_lookup_insert. rewrite (flushed_page s' p'); [by apply Hm'|done|]. intros i b Hb Hdb. by apply (Hcl _ _ Hb Hdb).
    + rewrite fn_lookup_insert_ne by done. rewrite Hoth by auto. auto.
  - intros q. by rewrite Hmap.
Qed.

Lemma flush_all_shows c s p a :
  (forall m, order m ≡ₚ (map_to_list m).*1) -> shows c s p a ->
  exists s' p', flush_all order s p = (Ok tt, s', p') /\ shows c s' p' (paged_step CallFlushAll a).
Proof.
  intros Hord [Hco Hd Hl Hm Hk Hr]. unfold flush_all. pose proof (flush_pages_rest c (used a) (order (page_map p)) s p Hco Hd Hl) as Hl'.
  destruct (flush_pages_ok psize valid s p (order (page_map p)) Hco Hd) as (s' & p' & E & Hc' & Hd' & Hv & Hmap & Hcl).
  rewrite E in Hl' |- *. exists s', p'. split; [done|].
  assert (Hm' : forall q, is_u32 q -> view s' p' q = Ok (mem a q) /\ length (mem a q) = psize) by (intros q Hq; rewrite Hv; auto).
  split; cbn [paged_step mem disk cached used]; try done.
  - intros q Hq. rewrite (flushed_page s' p' q); [by apply Hm'|done|]. intros i b Hb Hdb <-. destruct (Hcl _ _ Hb Hdb) as [Hb0 Hni].
    apply Hni. rewrite Hord. apply list_elem_of_fmap. exists (buf_page_id b, i). split; [done|].
    apply elem_of_map_to_list. apply (Hd i b); tauto.
  - intros q. by rewrite Hmap.
Qed.

Lemma invalidate_shows c s p a pid :
  shows c s p a -> 0 <= c -> is_u32 pid ->
  exists p', invalidate_page pid p = (Ok tt, p') /\ shows c s p' (paged_step (CallInvalidate pid) a).
Proof.
  intros [Hco Hd Hl Hm Hk Hr] Hc H32. destruct (coherent_invalidate s p pid Hco Hd) as (p' & E & Hc' & Hd' & Hmap & Hv).
  exists p'. split; [done|]. split; cbn [paged_step mem disk cached used]; try done.
  - unfold invalidate_page in E. destruct (page_map p !! pid) as [idx|] eqn:Em; [|by injection E as <-].
    destruct (buffers _ !! idx) as [b|]; [|done]. injection E as <-.
    apply (laid_out_insert n c (used a) (with_page_map p (delete pid (page_map p)))); [by apply laid_out_delete|by eapply lo_slots|]. unfold counts_ok. cbn. lia.
  - intros q Hq. rewrite Hv. case_decide as E'; [subst; rewrite fn_lookup_insert; auto|]. rewrite fn_lookup_insert_ne by done. auto.
  - intros q. rewrite Hmap, elem_of_difference, elem_of_singleton, lookup_delete_is_Some, Hr. naive_solver.
Qed.

Lemma step_shows call c s p a :
  (forall m, order m ≡ₚ (map_to_list m).*1) -> shows c s p a -> 0 <= c < 2 ^ 32 - 1 -> call_fits psize n call a ->
  exists s' p', pool_step call s p = (Ok (paged_answer call a), s', p') /\ shows (c + 1) s' p' (paged_step call a).
Proof.
  intros Hord Hs Hc Hfit. destruct call as [pid|pid data|pid|pid|pid| |pid]; cbn in Hfit; cbn [pool_step paged_answer].
  - destruct Hfit as [H32 Hroom]. unfold client_read.
    destruct (fetch_shows c s p a pid Hs Hc H32 Hroom) as (idx & b & p' & -> & Hs' & _ & Hb & _ & Hdata & _).
    eexists _, _. split; [|exact Hs']. cbn. unfold slot_data. by rewrite Hb, Hdata.
  - destruct Hfit as (H32 & Hroom & Hdata). destruct (write_shows c s p a pid data Hs Hc H32 Hroom Hdata) as (p' & -> & Hs'). eauto.
  - unfold pin_page. destruct (page_map p !! pid) as [idx|] eqn:Em; [|eexists _, _; split; [done|apply (shows_more c); [done|lia]]].
    destruct (coh_map _ _ _ _ (sh_coherent _ _ _ _ Hs) _ _ Em) as (b & Hb & _).
    rewrite (bump_pin_ok c s p a idx b Hs) by (done || lia). destruct (bump_ok c s p a pid idx b Hs ltac:(lia) Em Hb) as (b' & -> & _ & _ & Hs'). eauto.
  - unfold unpin_page. destruct (page_map p !! pid) as [idx|] eqn:Em; [|eexists _, _; split; [done|apply (shows_more c); [done|lia]]].
    destruct (coh_map _ _ _ _ (sh_coherent _ _ _ _ Hs) _ _ Em) as (b & Hb & _). rewrite Hb. eexists _, _. split; [done|].
    pose proof (shows_counts _ _ _ _ _ _ Hs Hb) as [Hu Hp].
    eapply shows_touch; [apply (shows_more c); [done|lia]|done..| | | |]; try done. unfold counts_ok. cbn. lia.
  - destruct (flush_shows c s p a pid Hs Hfit) as (s' & p' & -> & Hs'). eexists _, _. split; [done|]. apply (shows_more c); [done|lia].
  - destruct (flush_all_shows c s p a Hord Hs) as (s' & p' & -> & Hs'). eexists _, _. split; [done|]. apply (shows_more c); [done|lia].
  - destruct (invalidate_shows c s p a pid Hs ltac:(lia) Hfit) as (p' & -> & Hs'). eexists _, _. split; [done|]. apply (shows_more c); [done|lia].
Qed.

Lemma run_shows calls c s p a :
  (forall m, order m ≡ₚ (map_to_list m).*1) -> shows c s p a -> 0 <= c -> c + zlen calls < 2 ^ 32 -> calls_fit psize n calls a ->
  exists s' p', pool_run calls s p = (Ok <$> (paged_run calls a).1, s', p') /\ shows (c + zlen calls) s' p' (paged_run calls a).2.
Proof.
  intros Hord. revert c s p a. induction calls as [|call calls IH]; intros c s p a Hs Hc Hlen Hfit.
  { exists s, p. split; [done|]. by rewrite Z.add_0_r. }
  cbn [length] in Hlen |- *. destruct Hfit as [Hcall Hfit]. cbn [pool_run paged_run].
  destruct (step_shows call c s p a Hord Hs ltac:(lia) Hcall) as (s1 & p1 & -> & Hs1).
  destruct (IH (c + 1) s1 p1 _ Hs1 ltac:(lia) ltac:(lia) Hfit) as (s2 & p2 & -> & Hs2).
  destruct (paged_run calls (paged_step call a)) as [rs a'] eqn:E. exists s2, p2. split; [done|].
  by replace (c + Z.of_nat (Datatypes.S (length calls))) with (c + 1 + zlen calls) by lia.
Qed.

Lemma new_shows s d :
  valid s -> n <> 0%nat -> (forall q, is_u32 q -> read_page s q = Ok (d q) /\ length (d q) = psize) ->
  shows 0 s (BufferPool_new n) (Paged d d ∅ 0).
Proof.
  intros Hv Hn Hd. destruct (pool_new_coherent psize valid s n Hv Hn) as [Hc Hdirty]. split; cbn [mem disk cached used]; try done.
  - split; cbn; [done|by rewrite Nat.mod_0_l| |by intros q i; rewrite lookup_empty|].
    + intros i Hi. apply lookup_replicate_2. lia.
    + apply Forall_replicate. unfold counts_ok. cbn. lia.
  - intros q. cbn. rewrite lookup_empty. split; [set_solver|by intros [? ?]].
Qed.

(** C21. A fresh pool, through any calls whose pages find slots that were never taken: every
    call succeeds, each read gives what was last written to the page (or stored, when
    the change was dropped by an invalidation), the store changes by flushes alone and
    then holds what clients see. *)
Theorem pool_history calls s0 d0 :
  (forall m, order m ≡ₚ (map_to_list m).*1) -> valid s0 -> n <> 0%nat ->
  (forall q, is_u32 q -> read_page s0 q = Ok (d0 q) /\ length (d0 q) = psize) ->
  zlen calls < 2 ^ 32 -> calls_fit psize n calls (Paged d0 d0 ∅ 0) ->
  let '(rs, a) := paged_run calls (Paged d0 d0 ∅ 0) in
  exists s p, pool_run calls s0 (BufferPool_new n) = (Ok <$> rs, s, p)
    /\ forall q, is_u32 q -> view s p q = Ok (mem a q) /\ read_page s q = Ok (disk a q).
Proof.
  intros Hord Hv Hn Hd Hlen Hfit. destruct (run_shows calls 0 s0 (BufferPool_new n) _ Hord (new_shows s0 d0 Hv Hn Hd) ltac:(lia) ltac:(lia) Hfit) as (s & p & E & Hs).
  destruct (paged_run _ _) as [rs a]. exists s, p. split; [done|]. intros q Hq.
  split; [by destruct (sh_mem _ _ _ _ Hs q Hq)|by destruct (sh_disk _ _ _ _ Hs q Hq)].
Qed.
End steps.

(** Two pages in three slots: a change is read before it is stored, a flush stores it,
    and an invalidation drops the next one. *)
Definition page_of (x : Z) : bytes := replicate (Z.to_nat 8192) x.

Definition some_pool_calls : list pool_call :=
  [CallWrite 1 (page_of 7); CallRead 1; CallRead 2; CallUnpin 2; CallPin 1; CallFlush 1; CallWrite 1 (page_of 8); CallRead 1;
   CallInvalidate 1; CallRead 1; CallFlushAll].

Lemma pool_history_witness :
  exists s p, pool_run (P := debug_profile) (fun m => (map_to_list m).*1) some_pool_calls EphemeralStorage_new (BufferPool_new 3)
      = (Ok <$> [[]; page_of 7; zero_page; []; []; []; []; page_of 8; []; page_of 7; []], s, p)
    /\ view s p 2 = Ok zero_page /\ read_page s 1 = Ok (page_of 7).
Proof.
  pose proof (pool_history (P := debug_profile) (Z.to_nat 8192) (fun _ => True) (fun m => (map_to_list m).*1) 3 some_pool_calls
    EphemeralStorage_new (fun _ => zero_page)) as Hh.
  destruct Hh as (s & p & E & Hq); [done|done|done| |done| |].
  - intros q _. split; [by vm_compute|apply length_replicate].
  - unfold some_pool_calls. cbn [calls_fit call_fits].
    repeat match goal with
      | |- _ /\ _ => split
      | |- True => exact I
      | |- is_u32 _ => split; [discriminate|reflexivity]
      | |- length _ = _ => apply length_replicate
      | |- _ \/ _ => first [right; vm_compute; lia|left; apply (bool_decide_unpack _); vm_compute; exact I]
      end.
  - exists s, p. split; [exact E|]. split; [exact (proj1 (Hq 2 ltac:(split; [discriminate|reflexivity])))|exact (proj2 (Hq 1 ltac:(split; [discriminate|reflexivity])))].
Defined.
