(* ===== verification/Wal.v ===== *)
(** The write-ahead log ([src/src/wal/mod.rs]) and its recovery
    ([wal/recovery.rs]): the fixed binary formats, the record checksum, the
    appender over its own ephemeral store, and the replay loop. The encoding of a
    [WALRecord] is that of the [bincode] crate, a parameter here. *)

From S2P Require Import Prelude Types Storage.

(* ------------------------------------------------------------------ *)
(** ** Page headers *)

Definition XLOG_PAGE_MAGIC : Z := 0xD106.
Definition XLP_FIRST_IS_CONTRECORD : Z := 0x0001.
Definition XLP_LONG_HEADER : Z := 0x0002.

Record XLogPageHeader := {
  xlp_magic : Z;
  xlp_flags : Z;
  xlp_tli : Z;
  xlp_page_addr : Z;
  xlp_max_block : Z;
  xlp_checkpoint_copy : Z;
}.

Definition XLogPageHeader_new (page_addr : Z) : XLogPageHeader :=
  {| xlp_magic := XLOG_PAGE_MAGIC; xlp_flags := 0; xlp_tli := 1; xlp_page_addr := page_addr;
     xlp_max_block := 0; xlp_checkpoint_copy := 0 |}.

Definition XLogPageHeader_serialize (h : XLogPageHeader) : bytes :=
  to_le 2 (xlp_magic h) ++ to_le 2 (xlp_flags h) ++ to_le 4 (xlp_tli h) ++
  to_le 8 (xlp_page_addr h) ++ to_le 4 (xlp_max_block h) ++ to_le 8 (xlp_checkpoint_copy h).

Definition XLogPageHeader_deserialize (data : bytes) : outcome XLogPageHeader :=
  magic ← read_le 2 0 data;
  flags ← read_le 2 2 data;
  tli ← read_le 4 4 data;
  addr ← read_le 8 8 data;
  max_block ← read_le 4 16 data;
  copy ← read_le 8 20 data;
  Ok {| xlp_magic := magic; xlp_flags := flags; xlp_tli := tli; xlp_page_addr := addr;
        xlp_max_block := max_block; xlp_checkpoint_copy := copy |}.

Record page_header_ok (h : XLogPageHeader) : Prop := {
  pho_magic : is_u16 (xlp_magic h);
  pho_flags : is_u16 (xlp_flags h);
  pho_tli : is_u32 (xlp_tli h);
  pho_addr : is_u64 (xlp_page_addr h);
  pho_block : is_u32 (xlp_max_block h);
  pho_copy : is_u64 (xlp_checkpoint_copy h);
}.

(* ------------------------------------------------------------------ *)
(** ** The checksum *)

Inductive RmgrId := RmHeap | RmXlog | RmClog | RmBtree.

(** One turn of the inner loop of [compute_crc]. *)
Definition crc_shift (crc : Z) : Z :=
  if Z.land crc 1 =? 0 then Z.shiftr crc 1 else Z.lxor (Z.shiftr crc 1) 0xEDB88320.

(** One byte: [crc ^= byte], then eight turns. *)
Definition crc_byte (crc byte : Z) : Z := Nat.iter 8 crc_shift (Z.lxor crc byte).

Definition compute_crc (data : bytes) : Z := Z.lxor (foldl crc_byte 0xFFFFFFFF data) 0xFFFFFFFF.

(* ------------------------------------------------------------------ *)
(** ** Record headers *)

Record XLogRecord := {
  xl_tot_len : Z;
  xl_xid : Z;
  xl_info : Z;
  xl_rmid : Z;
  xl_pad : Z * Z * Z;
  xl_crc : Z;
}.

Definition XLogRecord_new {P : Profile} (xid info rmid : Z) (data : bytes) : outcome XLogRecord :=
  tot ← add_w 32 24 ((zlen data) as_u32);
  Ok {| xl_tot_len := tot; xl_xid := xid; xl_info := info; xl_rmid := rmid; xl_pad := (0, 0, 0);
        xl_crc := compute_crc data |}.

(** The 24-byte buffer starts zeroed, and its last four bytes stay so. *)
Definition XLogRecord_serialize (r : XLogRecord) : bytes :=
  let '(p0, p1, p2) := xl_pad r in
  to_le 4 (xl_tot_len r) ++ to_le 4 (xl_xid r) ++ to_le 4 (xl_info r) ++
  [xl_rmid r] ++ [p0; p1; p2] ++ to_le 4 (xl_crc r) ++ [0; 0; 0; 0].

Definition XLogRecord_deserialize (data : bytes) : outcome XLogRecord :=
  tot ← read_le 4 0 data;
  xid ← read_le 4 4 data;
  info ← read_le 4 8 data;
  rmid ← index 12 data;
  p0 ← index 13 data;
  p1 ← index 14 data;
  p2 ← index 15 data;
  crc ← read_le 4 16 data;
  Ok {| xl_tot_len := tot; xl_xid := xid; xl_info := info; xl_rmid := rmid; xl_pad := (p0, p1, p2);
        xl_crc := crc |}.

Definition verify_crc (r : XLogRecord) (data : bytes) : bool := xl_crc r =? compute_crc data.

Record xlog_record_ok (r : XLogRecord) : Prop := {
  xro_len : is_u32 (xl_tot_len r);
  xro_xid : is_u32 (xl_xid r);
  xro_info : is_u32 (xl_info r);
  xro_rmid : is_u8 (xl_rmid r);
  xro_crc : is_u32 (xl_crc r);
}.

(* ------------------------------------------------------------------ *)
(** ** Checkpoint records and the control file *)

Record CheckpointRecord := {
  cp_next_xid : Z;
  cp_next_oid : Z;
  cp_next_multixact : Z;
  cp_oldest_xid : Z;
  cp_oldest_multixact : Z;
  cp_oldest_commit_ts_xid : Z;
  cp_new_commit_ts_xid : Z;
  cp_checkpoint_lsn : Z;
  cp_redo_lsn : Z;
  cp_timeline_id : Z;
}.

Definition CheckpointRecord_serialize (c : CheckpointRecord) : bytes :=
  to_le 4 (cp_next_xid c) ++ to_le 4 (cp_next_oid c) ++ to_le 4 (cp_next_multixact c) ++
  to_le 4 (cp_oldest_xid c) ++ to_le 4 (cp_oldest_multixact c) ++ to_le 4 (cp_oldest_commit_ts_xid c) ++
  to_le 4 (cp_new_commit_ts_xid c) ++ to_le 8 (cp_checkpoint_lsn c) ++ to_le 8 (cp_redo_lsn c) ++
  to_le 4 (cp_timeline_id c).

Definition CheckpointRecord_deserialize (data : bytes) : outcome CheckpointRecord :=
  next_xid ← read_le 4 0 data;
  next_oid ← read_le 4 4 data;
  next_multixact ← read_le 4 8 data;
  oldest_xid ← read_le 4 12 data;
  oldest_multixact ← read_le 4 16 data;
  oldest_commit_ts_xid ← read_le 4 20 data;
  new_commit_ts_xid ← read_le 4 24 data;
  checkpoint_lsn ← read_le 8 28 data;
  redo_lsn ← read_le 8 36 data;
  timeline_id ← read_le 4 44 data;
  Ok {| cp_next_xid := next_xid; cp_next_oid := next_oid; cp_next_multixact := next_multixact;
        cp_oldest_xid := oldest_xid; cp_oldest_multixact := oldest_multixact;
        cp_oldest_commit_ts_xid := oldest_commit_ts_xid; cp_new_commit_ts_xid := new_commit_ts_xid;
        cp_checkpoint_lsn := checkpoint_lsn; cp_redo_lsn := redo_lsn; cp_timeline_id := timeline_id |}.

Record checkpoint_ok (c : CheckpointRecord) : Prop := {
  cpo_next_xid : is_u32 (cp_next_xid c);
  cpo_next_oid : is_u32 (cp_next_oid c);
  cpo_next_multixact : is_u32 (cp_next_multixact c);
  cpo_oldest_xid : is_u32 (cp_oldest_xid c);
  cpo_oldest_multixact : is_u32 (cp_oldest_multixact c);
  cpo_oldest_commit_ts_xid : is_u32 (cp_oldest_commit_ts_xid c);
  cpo_new_commit_ts_xid : is_u32 (cp_new_commit_ts_xid c);
  cpo_checkpoint_lsn : is_u64 (cp_checkpoint_lsn c);
  cpo_redo_lsn : is_u64 (cp_redo_lsn c);
  cpo_timeline_id : is_u32 (cp_timeline_id c);
}.

Definition PG_CONTROL_VERSION : Z := 170000.

Record ControlFile := {
  system_identifier : Z;
  pg_control_version : Z;
  catalog_version_no : Z;
  check_point_lsn : Z;
  redo_lsn : Z;
  timeline : Z;
  cf_next_xid : Z;
  next_oid : Z;
  oldest_xid : Z;
  oldest_commit_ts_xid : Z;
  next_multixact_id : Z;
  oldest_multixact_id : Z;
  time_checkpoint : Z;
}.

Definition ControlFile_create (system_id : Z) : ControlFile :=
  {| system_identifier := system_id; pg_control_version := PG_CONTROL_VERSION; catalog_version_no := 202401011;
     check_point_lsn := 0; redo_lsn := 0; timeline := 1; cf_next_xid := 1; next_oid := 10000; oldest_xid := 1;
     oldest_commit_ts_xid := 1; next_multixact_id := 1; oldest_multixact_id := 1; time_checkpoint := 0 |}.

Definition ControlFile_serialize (c : ControlFile) : bytes :=
  to_le 8 (system_identifier c) ++ to_le 4 (pg_control_version c) ++ to_le 4 (catalog_version_no c) ++
  to_le 8 (check_point_lsn c) ++ to_le 8 (redo_lsn c) ++ to_le 4 (timeline c) ++ to_le 4 (cf_next_xid c) ++
  to_le 4 (next_oid c) ++ to_le 4 (oldest_xid c) ++ to_le 4 (oldest_commit_ts_xid c) ++
  to_le 4 (next_multixact_id c) ++ to_le 4 (oldest_multixact_id c) ++ to_le 8 (time_checkpoint c).

(** [i64::from_le_bytes]: the top bit is the sign. *)
Definition read_i64 (off : Z) (data : bytes) : outcome Z :=
  (fun z => if decide (z < 2 ^ 63) then z else z - 2 ^ 64) <$> read_le 8 off data.

Definition ControlFile_deserialize (data : bytes) : outcome ControlFile :=
  system_identifier ← read_le 8 0 data;
  version ← read_le 4 8 data;
  catalog ← read_le 4 12 data;
  cp_lsn ← read_le 8 16 data;
  redo ← read_le 8 24 data;
  tl ← read_le 4 32 data;
  nxid ← read_le 4 36 data;
  noid ← read_le 4 40 data;
  oxid ← read_le 4 44 data;
  octs ← read_le 4 48 data;
  nmx ← read_le 4 52 data;
  omx ← read_le 4 56 data;
  time ← read_i64 60 data;
  Ok {| system_identifier := system_identifier; pg_control_version := version; catalog_version_no := catalog;
        check_point_lsn := cp_lsn; redo_lsn := redo; timeline := tl; cf_next_xid := nxid; next_oid := noid;
        oldest_xid := oxid; oldest_commit_ts_xid := octs; next_multixact_id := nmx; oldest_multixact_id := omx;
        time_checkpoint := time |}.

Definition ControlFile_is_valid (c : ControlFile) : bool := pg_control_version c =? PG_CONTROL_VERSION.

Record control_ok (c : ControlFile) : Prop := {
  cfo_system : is_u64 (system_identifier c);
  cfo_version : is_u32 (pg_control_version c);
  cfo_catalog : is_u32 (catalog_version_no c);
  cfo_cp : is_u64 (check_point_lsn c);
  cfo_redo : is_u64 (redo_lsn c);
  cfo_tl : is_u32 (timeline c);
  cfo_nxid : is_u32 (cf_next_xid c);
  cfo_noid : is_u32 (next_oid c);
  cfo_oxid : is_u32 (oldest_xid c);
  cfo_octs : is_u32 (oldest_commit_ts_xid c);
  cfo_nmx : is_u32 (next_multixact_id c);
  cfo_omx : is_u32 (oldest_multixact_id c);
  cfo_time : - 2 ^ 63 <= time_checkpoint c < 2 ^ 63;
}.

(* ------------------------------------------------------------------ *)
(** ** Log records and the appender *)

Inductive WALRecord :=
| WalBegin (xid : Z)
| WalInsert (rel_oid : Oid) (page_id : PageId) (tuple : Tuple)
| WalUpdate (rel_oid : Oid) (page_id : PageId) (old_tuple new_tuple : Tuple)
| WalDelete (rel_oid : Oid) (page_id : PageId) (tuple : Tuple)
| WalCommit (xid : Z)
| WalAbort (xid : Z)
| WalCheckpoint (record : CheckpointRecord).

(** [bincode::serialize] and [bincode::deserialize] at one type; the second reads
    a prefix of its input and ignores the rest. *)
Class Bincode (R : Type) := {
  bincode_serialize : R -> outcome bytes;
  bincode_deserialize : bytes -> outcome R;
}.

(** What the crate documents: what it wrote it reads back, whatever follows. *)
Class BincodeLaws (R : Type) `{Bincode R} := {
  bincode_roundtrip : forall r data rest, bincode_serialize r = Ok data -> bincode_deserialize (data ++ rest) = Ok r;
}.

Record WAL := {
  wal_storage : EphemeralStorage;
  current_lsn : Z;
  flushed_lsn : Z;
  current_xid : Z;
  segment_size : Z;
  flush_count : Z;
}.

Definition WAL_new (segment_size : Z) : WAL :=
  {| wal_storage := EphemeralStorage_new; current_lsn := 0; flushed_lsn := 0; current_xid := 1;
     segment_size := segment_size; flush_count := 0 |}.

Definition with_wal_storage (w : WAL) s : WAL :=
  {| wal_storage := s; current_lsn := current_lsn w; flushed_lsn := flushed_lsn w; current_xid := current_xid w;
     segment_size := segment_size w; flush_count := flush_count w |}.
Definition with_current_lsn (w : WAL) lsn : WAL :=
  {| wal_storage := wal_storage w; current_lsn := lsn; flushed_lsn := flushed_lsn w; current_xid := current_xid w;
     segment_size := segment_size w; flush_count := flush_count w |}.
Definition with_flushed (w : WAL) lsn count : WAL :=
  {| wal_storage := wal_storage w; current_lsn := current_lsn w; flushed_lsn := lsn; current_xid := current_xid w;
     segment_size := segment_size w; flush_count := count |}.

Definition allocate_xid (w : WAL) : Z * WAL :=
  (current_xid w,
   {| wal_storage := wal_storage w; current_lsn := current_lsn w; flushed_lsn := flushed_lsn w;
      current_xid := (current_xid w + 1) as_u64; segment_size := segment_size w; flush_count := flush_count w |}).

(** [page.resize(n, 0)] when the page is shorter. *)
Definition resize_page (n : Z) (page : bytes) : bytes :=
  page ++ replicate (Z.to_nat (n - zlen page)) 0.

Section appender.
Context {P : Profile} `{Bincode WALRecord}.

(** The position the record gets: the current one, or the start of the next
    segment when it would not fit in this one; and the position after it. *)
Definition place_record (w : WAL) (record_size : Z) : outcome (Z * Z) :=
  let current := current_lsn w in
  if segment_size w =? 0 then Panic else
  let offset_in_segment := current `mod` segment_size w in
  end_ ← add_w 64 offset_in_segment record_size;
  current ← (if segment_size w <? end_ then
               room ← sub_w 64 (segment_size w) offset_in_segment; add_w 64 current room
             else Ok current);
  next ← add_w 64 current record_size;
  Ok (current, next).

(** The page of a segment with the record written into it. *)
Definition write_record (w : WAL) (current : Z) (data : bytes) : outcome unit * WAL :=
  match add_w 64 1 (current / segment_size w) with
  | Ok id =>
      let page_id := id as_u32 in
      match read_page (wal_storage w) page_id with
      | Ok page =>
          let page := if zlen page <? segment_size w then resize_page (segment_size w) page else page in
          match copy_at (current `mod` segment_size w) data page with
          | Ok page =>
              let '(r, s) := write_page (wal_storage w) page_id page in (r, with_wal_storage w s)
          | Err e => (Err e, w)
          | Panic => (Panic, w)
          end
      | Err e => (Err e, w)
      | Panic => (Panic, w)
      end
  | Err e => (Err e, w)
  | Panic => (Panic, w)
  end.

Definition append (record : WALRecord) (w : WAL) : outcome Z * WAL :=
  match bincode_serialize record with
  | Ok data =>
      match place_record w (zlen data) with
      | Ok (current, next) =>
          let '(r, w) := write_record (with_current_lsn w next) current data in
          ((fun _ => current) <$> r, w)
      | Err e => (Err e, w)
      | Panic => (Panic, w)
      end
  | Err e => (Err e, w)
  | Panic => (Panic, w)
  end.

Definition flush (w : WAL) : WAL := with_flushed w (current_lsn w) ((flush_count w + 1) as_u64).

Definition get_flushed_lsn (w : WAL) : Z := flushed_lsn w.

Definition ensure_flushed (lsn : Z) (w : WAL) : WAL :=
  if (flushed_lsn w <? current_lsn w) && (flushed_lsn w <=? lsn) then flush w else w.
End appender.

(* ------------------------------------------------------------------ *)
(** ** Recovery *)

Record RecoveryResult := { replayed_lsn : Z; records_replayed : Z; consistent : bool }.

Definition with_redo (c : ControlFile) (redo cp : Z) : ControlFile :=
  {| system_identifier := system_identifier c; pg_control_version := pg_control_version c;
     catalog_version_no := catalog_version_no c; check_point_lsn := cp; redo_lsn := redo;
     timeline := timeline c; cf_next_xid := cf_next_xid c; next_oid := next_oid c; oldest_xid := oldest_xid c;
     oldest_commit_ts_xid := oldest_commit_ts_xid c; next_multixact_id := next_multixact_id c;
     oldest_multixact_id := oldest_multixact_id c; time_checkpoint := time_checkpoint c |}.

(** [apply_record]: every arm is empty. *)
Definition apply_record (record : WALRecord) : outcome unit :=
  match record with
  | WalBegin _ | WalCommit _ | WalAbort _ => Ok tt
  | WalInsert _ _ _ | WalUpdate _ _ _ _ | WalDelete _ _ _ => Ok tt
  | WalCheckpoint _ => Ok tt
  end.

Definition recovery_segment_size : Z := 16 * 1024 * 1024.

Section recovery.
Context {P : Profile} `{Bincode WALRecord} {St : Type} `{Storage St}.

(** The [while offset < page_data.len()] loop; [None] stands for fuel running
    out. It threads [replayed_lsn] and [records_replayed]. *)
Fixpoint replay_page (fuel : nat) (redo : Z) (seg : Z) (page_data : bytes) (offset lsn_done count : Z) :
    option (outcome (Z * Z)) :=
  match fuel with
  | O => None
  | S fuel =>
      if zlen page_data <=? offset then Some (Ok (lsn_done, count)) else
      match bincode_deserialize (drop (Z.to_nat offset) page_data) with
      | Ok record =>
          let data_len := match bincode_serialize record with Ok d => zlen d | _ => 0 end in
          if data_len =? 0 then Some (Ok (lsn_done, count)) else
          let lsn := seg * recovery_segment_size + offset in
          if redo <=? lsn then
            match apply_record record with
            | Ok _ => replay_page fuel redo seg page_data (offset + data_len) (lsn + data_len) (count + 1)
            | Err e => Some (Err e)
            | Panic => Some Panic
            end
          else replay_page fuel redo seg page_data (offset + data_len) (lsn + data_len) count
      | _ => Some (Ok (lsn_done, count))
      end
  end.

(** The loop over the segments; an unreadable page ends it. *)
Fixpoint replay_segments (s : St) (redo : Z) (segs : list Z) (lsn_done count : Z) : option (outcome (Z * Z)) :=
  match segs with
  | [] => Some (Ok (lsn_done, count))
  | seg :: rest =>
      match read_page s (seg + 1) with
      | Ok page_data =>
          match replay_page (length page_data + 1)%nat redo seg page_data 0 lsn_done count with
          | Some (Ok (lsn_done, count)) => replay_segments s redo rest lsn_done count
          | r => r
          end
      | Err _ => Some (Ok (lsn_done, count))
      | Panic => Some Panic
      end
  end.

Definition recover (s : St) (control : ControlFile) : option (outcome RecoveryResult) * ControlFile :=
  let start_segment := (redo_lsn control / recovery_segment_size) as_u32 in
  match add_w 32 start_segment 10 with
  | Err e => (Some (Err e), control)
  | Panic => (Some Panic, control)
  | Ok end_segment =>
  match replay_segments s (redo_lsn control) (seqZ start_segment (end_segment - start_segment))
          (redo_lsn control) 0 with
  | Some (Ok (lsn_done, count)) =>
      (Some (Ok {| replayed_lsn := lsn_done; records_replayed := count; consistent := true |}),
       with_redo control lsn_done lsn_done)
  | Some (Err e) => (Some (Err e), control)
  | Some Panic => (Some Panic, control)
  | None => (None, control)
  end
  end.
End recovery.

(* ------------------------------------------------------------------ *)
(** ** The fixed formats round trip *)

Lemma read_le_nil_end n z : 0 <= z < 2 ^ (8 * Z.of_nat n) -> read_le n 0 (to_le n z) = Ok z.
Proof. intros Hz. rewrite <- (app_nil_r (to_le n z)). by apply read_le_here. Qed.

Lemma page_header_roundtrip_lemma h rest :
  page_header_ok h -> XLogPageHeader_deserialize (XLogPageHeader_serialize h ++ rest) = Ok h.
Proof.
  intros [? ? ? ? ? ?]. unfold XLogPageHeader_deserialize, XLogPageHeader_serialize. read_fields.
  by destruct h.
Qed.

Lemma checkpoint_roundtrip_lemma c rest :
  checkpoint_ok c -> CheckpointRecord_deserialize (CheckpointRecord_serialize c ++ rest) = Ok c.
Proof.
  intros [? ? ? ? ? ? ? ? ? ?]. unfold CheckpointRecord_deserialize, CheckpointRecord_serialize. read_fields.
  by destruct c.
Qed.

Lemma read_le_skip_bytes n off (l rest : bytes) :
  zlen l <= off -> read_le n off (l ++ rest) = read_le n (off - zlen l) rest.
Proof.
  intros H. unfold read_le, slice. rewrite length_app. case_decide; case_decide; try lia; [|done].
  cbn. f_equal. f_equal. f_equal; [lia|]. rewrite drop_app_ge by lia. f_equal. lia.
Qed.

Lemma xlog_record_roundtrip_lemma r rest :
  xlog_record_ok r -> XLogRecord_deserialize (XLogRecord_serialize r ++ rest) = Ok r.
Proof.
  destruct r as [tot xid info rmid [[p0 p1] p2] crc]. intros [? ? ? ? ?].
  unfold XLogRecord_deserialize. match goal with |- context [XLogRecord_serialize ?r ++ rest] => set (bs := XLogRecord_serialize r ++ rest) end.
  assert (Hbs : bs = to_le 4 tot ++ to_le 4 xid ++ to_le 4 info ++
    [rmid] ++ [p0; p1; p2] ++ to_le 4 crc ++ [0; 0; 0; 0] ++ rest) by (subst bs; reflexivity).
  rewrite Hbs. repeat step_by read_field.
  do 4 (eapply bind_step; [reflexivity|cbv beta]).
  eapply bind_step; [|reflexivity]. do 3 (rewrite read_le_skip by (vm_compute; discriminate)).
  do 2 (rewrite read_le_skip_bytes by (vm_compute; discriminate)). apply read_le_here. assumption.
Qed.

Lemma read_i64_here z (rest : bytes) : - 2 ^ 63 <= z < 2 ^ 63 -> read_i64 0 (to_le 8 z ++ rest) = Ok z.
Proof.
  intros Hz. unfold read_i64.
  assert (Hle : forall n a, to_le n a = to_le n (wrap (8 * Z.of_nat n) a)).
  { clear. induction n as [|n IH]; intros a; [done|]. cbn [to_le]. unfold wrap.
    replace (8 * Z.of_nat (S n)) with (8 + 8 * Z.of_nat n) by lia. rewrite Z.pow_add_r by lia.
    change (2 ^ 8) with 256. rewrite Z.rem_mul_r by lia. f_equal.
    - rewrite (Z.mul_comm 256), Z.mod_add by lia. symmetry. apply Z.mod_mod. lia.
    - rewrite (Z.mul_comm 256), Z.div_add by lia. rewrite (Z.div_small (a mod 256)) by (apply Z.mod_pos_bound; lia).
      rewrite Z.add_0_l. apply IH. }
  rewrite Hle. rewrite read_le_here by (apply wrap_in_width; lia). cbn. f_equal.
  change (8 * Z.of_nat 8) with 64. destruct (decide (0 <= z)).
  - rewrite wrap_small by (unfold in_width; lia). rewrite decide_True; lia.
  - rewrite wrap_below by lia. rewrite decide_False; lia.
Qed.

Lemma read_i64_skip_bytes off (l rest : bytes) :
  zlen l <= off -> read_i64 off (l ++ rest) = read_i64 (off - zlen l) rest.
Proof. intros H. unfold read_i64. by rewrite read_le_skip_bytes. Qed.

Lemma control_file_roundtrip_lemma c rest :
  control_ok c -> ControlFile_deserialize (ControlFile_serialize c ++ rest) = Ok c.
Proof.
  intros [? ? ? ? ? ? ? ? ? ? ? ? ?]. unfold ControlFile_deserialize, ControlFile_serialize. read_fields.
  eapply bind_step.
  { do 12 (rewrite read_i64_skip_bytes by (rewrite length_to_le; vm_compute; discriminate)).
    rewrite !length_to_le. by apply read_i64_here. }
  by destruct c.
Qed.

(** C24. Every fixed binary format of the log decodes what it encodes, whatever bytes
    follow: page headers (28 bytes), record headers (24), checkpoint records (48)
    and the control file (68). *)
Theorem wal_formats_roundtrip rest :
  (forall h, page_header_ok h -> XLogPageHeader_deserialize (XLogPageHeader_serialize h ++ rest) = Ok h) /\
  (forall r, xlog_record_ok r -> XLogRecord_deserialize (XLogRecord_serialize r ++ rest) = Ok r) /\
  (forall c, checkpoint_ok c -> CheckpointRecord_deserialize (CheckpointRecord_serialize c ++ rest) = Ok c) /\
  (forall c, control_ok c -> ControlFile_deserialize (ControlFile_serialize c ++ rest) = Ok c).
Proof.
  split_and!; intros; [by apply page_header_roundtrip_lemma|by apply xlog_record_roundtrip_lemma|
    by apply checkpoint_roundtrip_lemma|by apply control_file_roundtrip_lemma].
Qed.

(* ------------------------------------------------------------------ *)
(** ** The checksum detects a changed byte *)

Lemma lxor_width w a b : 0 <= w -> in_width w a -> in_width w b -> in_width w (Z.lxor a b).
Proof.
  intros Hw [Ha Ha'] [Hb Hb']. split; [apply Z.lxor_nonneg; tauto|].
  destruct (Z.eq_dec (Z.lxor a b) 0) as [->|Hne]; [apply Z.pow_pos_nonneg; lia|].
  assert (0 <= Z.lxor a b) by (apply Z.lxor_nonneg; tauto).
  assert (Hlog : forall x, 0 < x -> x < 2 ^ w -> Z.log2 x < w) by (intros x Hx Hx2; by apply Z.log2_lt_pow2).
  assert (Hwpos : a <> 0 \/ b <> 0).
  { destruct (Z.eq_dec a 0) as [->|]; [|tauto]. right. intros ->. by rewrite Z.lxor_0_l in Hne. }
  assert (0 < w). { destruct (Z.eq_dec w 0) as [->|]; [|lia]. change (2 ^ 0) with 1 in *. lia. }
  apply Z.log2_lt_pow2; [lia|]. pose proof (Z.log2_lxor a b Ha Hb).
  assert (Z.log2 a < w). { destruct (Z.eq_dec a 0) as [->|]; [done|]. apply Hlog; lia. }
  assert (Z.log2 b < w). { destruct (Z.eq_dec b 0) as [->|]; [done|]. apply Hlog; lia. }
  lia.
Qed.

Lemma shiftr1_width c : is_u32 c -> 0 <= Z.shiftr c 1 < 2 ^ 31.
Proof. unfold in_width. rewrite Z.shiftr_div_pow2 by lia. change (2 ^ 1) with 2. intros H. split; [apply Z.div_pos; lia|]. apply Z.div_lt_upper_bound; lia. Qed.

Lemma crc_shift_width c : is_u32 c -> is_u32 (crc_shift c).
Proof.
  intros H. pose proof (shiftr1_width c H). unfold crc_shift. case_match; [unfold in_width; lia|].
  apply lxor_width; [lia|unfold in_width; lia|]. by vm_compute.
Qed.

Lemma crc_shift_inj c d : is_u32 c -> is_u32 d -> crc_shift c = crc_shift d -> c = d.
Proof.
  intros Hc Hd. pose proof (shiftr1_width c Hc) as Hsc. pose proof (shiftr1_width d Hd) as Hsd.
  assert (Hsplit : forall x, x = 2 * Z.shiftr x 1 + Z.land x 1).
  { intros x. rewrite Z.shiftr_div_pow2 by lia. change 1 with (Z.ones 1) at 2. rewrite Z.land_ones by lia.
    apply Z.div_mod. lia. }
  assert (Hbit : forall x, Z.land x 1 = 0 \/ Z.land x 1 = 1).
  { intros x. pose proof (Z.land_ones x 1 ltac:(lia)) as E. change (Z.ones 1) with 1 in E. rewrite E.
    pose proof (Z.mod_pos_bound x (2 ^ 1)). lia. }
  assert (Htop : forall x y, 0 <= x < 2 ^ 31 -> 0 <= y < 2 ^ 31 -> x <> Z.lxor y 0xEDB88320).
  { intros x y Hx Hy He. assert (Hxy : Z.lxor x y = 0xEDB88320).
    { rewrite He, (Z.lxor_comm y), Z.lxor_assoc, Z.lxor_nilpotent. apply Z.lxor_0_r. }
    pose proof (lxor_width 31 x y ltac:(lia) Hx Hy) as [_ Hlt]. rewrite Hxy in Hlt. by vm_compute in Hlt. }
  unfold crc_shift. pose proof (Hsplit c). pose proof (Hsplit d). clear Hsplit.
  destruct (Hbit c) as [Ec|Ec], (Hbit d) as [Ed|Ed]; rewrite Ec, Ed in *; cbn [Z.eqb]; intros He.
  - lia.
  - exfalso. by apply Htop in He.
  - exfalso. symmetry in He. by apply Htop in He.
  - assert (Z.shiftr c 1 = Z.shiftr d 1); [|lia].
    apply (f_equal (fun z => Z.lxor z 0xEDB88320)) in He.
    by rewrite !Z.lxor_assoc, Z.lxor_nilpotent, !Z.lxor_0_r in He.
Qed.

Lemma crc_iter_width n c : is_u32 c -> is_u32 (Nat.iter n crc_shift c).
Proof. intros H. induction n; [done|]. by apply crc_shift_width. Qed.

Lemma crc_iter_inj n c d : is_u32 c -> is_u32 d -> Nat.iter n crc_shift c = Nat.iter n crc_shift d -> c = d.
Proof.
  intros Hc Hd. induction n as [|n IH]; [done|]. rewrite !Nat.iter_succ. intros He%crc_shift_inj; auto using crc_iter_width.
Qed.

Lemma byte_u32 b : is_u8 b -> is_u32 b.
Proof. unfold in_width. lia. Qed.

Lemma crc_byte_width c b : is_u32 c -> is_u8 b -> is_u32 (crc_byte c b).
Proof. intros Hc Hb. apply crc_iter_width, lxor_width; auto using byte_u32. lia. Qed.

Lemma crc_byte_inj c d b b' :
  is_u32 c -> is_u32 d -> is_u8 b -> is_u8 b' -> crc_byte c b = crc_byte d b' -> Z.lxor c b = Z.lxor d b'.
Proof. intros ? ? ? ?. apply crc_iter_inj; apply lxor_width; auto using byte_u32; lia. Qed.

Lemma crc_fold_width data c : is_u32 c -> bytes_ok data -> is_u32 (foldl crc_byte c data).
Proof.
  intros Hc Hd. revert c Hc. induction Hd as [|b data Hb _ IH]; intros c Hc; [done|]. apply IH. by apply crc_byte_width.
Qed.

Lemma crc_fold_inj data c d :
  is_u32 c -> is_u32 d -> bytes_ok data -> foldl crc_byte c data = foldl crc_byte d data -> c = d.
Proof.
  intros Hc Hd Hdata. revert c d Hc Hd. induction Hdata as [|b data Hb _ IH]; intros c d Hc Hd; [done|]. cbn.
  intros He%IH; [|by apply crc_byte_width..]. apply crc_byte_inj in He; try done.
  apply (f_equal (fun z => Z.lxor z b)) in He. by rewrite !Z.lxor_assoc, Z.lxor_nilpotent, !Z.lxor_0_r in He.
Qed.

Lemma compute_crc_width data : bytes_ok data -> is_u32 (compute_crc data).
Proof. intros H. apply lxor_width; [lia|apply crc_fold_width; [by vm_compute|done]|by vm_compute]. Qed.

(** The checksum of a record made by [new] accepts its data, and rejects the data
    with any one byte changed to any other value. *)
Theorem crc_detects_byte_change {P : Profile} xid info rmid pre b b' post r :
  XLogRecord_new xid info rmid (pre ++ b :: post) = Ok r ->
  bytes_ok (pre ++ b :: post) -> is_u8 b' ->
  verify_crc r (pre ++ b :: post) = true /\ (b <> b' -> verify_crc r (pre ++ b' :: post) = false).
Proof.
  unfold XLogRecord_new, verify_crc. intros Hr Hok Hb'. apply bind_ok in Hr as (tot & _ & [= <-]). cbn.
  split; [apply Z.eqb_refl|]. intros Hne. apply Z.eqb_neq. intros He.
  apply Forall_app in Hok as [Hpre Hpost]. inversion Hpost as [|? ? Hb Hpost']; subst.
  unfold compute_crc in He. apply (f_equal (fun z => Z.lxor z 0xFFFFFFFF)) in He.
  rewrite !Z.lxor_assoc, !Z.lxor_nilpotent, !Z.lxor_0_r, !foldl_app in He. cbn in He.
  assert (Hs : is_u32 (foldl crc_byte 0xFFFFFFFF pre)) by (apply crc_fold_width; [by vm_compute|done]).
  apply crc_fold_inj in He; [|by apply crc_byte_width..|done]. apply crc_byte_inj in He; try done.
  apply Hne. apply (f_equal (Z.lxor (foldl crc_byte 0xFFFFFFFF pre))) in He.
  by rewrite <- !Z.lxor_assoc, !Z.lxor_nilpotent, !Z.lxor_0_l in He.
Qed.

(* ------------------------------------------------------------------ *)
(** ** Appending *)

Lemma slice_copy_data {A} off (data buf buf' : list A) :
  copy_at off data buf = Ok buf' -> 0 <= off -> slice off (off + zlen data) buf' = Ok data.
Proof.
  unfold copy_at. case_decide; [|done]. intros [= <-] Hoff. apply slice_app_exact; rewrite length_take; lia.
Qed.

Lemma slice_copy_before {A} off (data buf buf' : list A) lo hi :
  copy_at off data buf = Ok buf' -> hi <= off -> slice lo hi buf' = slice lo hi buf.
Proof.
  intros Hc Hhi. pose proof (copy_at_length _ _ _ _ Hc) as Hl. unfold copy_at in Hc.
  case_decide; [|done]. injection Hc as <-. unfold slice. rewrite Hl. case_decide; [|done]. f_equal.
  rewrite drop_app_le by (rewrite length_take; lia). rewrite take_app_le by (rewrite length_drop, length_take; lia).
  rewrite skipn_firstn_comm, take_take. f_equal. lia.
Qed.

Lemma slice_prefix {A} lo hi (l d rest : list A) : slice lo hi l = Ok d -> slice lo hi (l ++ rest) = Ok d.
Proof.
  intros Hs. destruct (slice_inv _ _ _ _ Hs) as (? & ? & ?). unfold slice in *.
  rewrite decide_True in Hs by lia. rewrite decide_True by (rewrite length_app; lia).
  injection Hs as <-. f_equal. rewrite drop_app_le by lia. rewrite take_app_le; [done|]. rewrite length_drop. lia.
Qed.

(** A slice is a prefix of what starts at its offset. *)
Lemma slice_drop {A} lo hi (l d : list A) : slice lo hi l = Ok d -> exists rest, drop (Z.to_nat lo) l = d ++ rest.
Proof.
  unfold slice. case_decide; [|done]. intros [= <-]. eexists. symmetry. apply take_drop.
Qed.

(** The page of the segment that holds a log position, and the bytes there. *)
Definition lsn_page (w : WAL) (lsn : Z) : PageId := 1 + lsn / segment_size w.

Definition stored_at (w : WAL) (lsn : Z) (data : bytes) : Prop :=
  exists page, read_page (wal_storage w) (lsn_page w lsn) = Ok page /\
    slice (lsn `mod` segment_size w) (lsn `mod` segment_size w + zlen data) page = Ok data.

(** What appending the records of [h] leaves: each is stored whole inside one
    segment, before the current position, and they follow one another. *)
Record wal_log (h : list (Z * bytes)) (w : WAL) : Prop := {
  wl_segment : 0 < segment_size w < 2 ^ 32;
  wl_current : 0 <= current_lsn w <= zlen h * segment_size w;
  wl_stored : forall lsn d, (lsn, d) ∈ h -> 0 <= lsn /\ lsn + zlen d <= current_lsn w /\
    lsn `mod` segment_size w + zlen d <= segment_size w /\ stored_at w lsn d;
  wl_ordered : forall i j lsn d lsn' d', (i < j)%nat -> h !! i = Some (lsn, d) -> h !! j = Some (lsn', d') ->
    lsn + zlen d <= lsn';
}.

Lemma wal_log_new seg : 0 < seg < 2 ^ 32 -> wal_log [] (WAL_new seg).
Proof. intros H. split; cbn; [done|lia|set_solver|done]. Qed.

Lemma seg_bound seg k x : 0 < seg -> x <= k * seg -> x `mod` seg <> 0 -> x - x `mod` seg + seg <= k * seg.
Proof.
  intros Hs Hx Hm. pose proof (Z.div_mod x seg ltac:(lia)) as Hdm. pose proof (Z.mod_pos_bound x seg Hs).
  assert (x / seg < k) by nia. nia.
Qed.

(** Where [place_record] puts a record that fits in a segment. *)
Lemma place_record_ok {P : Profile} h w size :
  wal_log h w -> 0 <= size <= segment_size w -> zlen h + 2 < 2 ^ 32 ->
  exists lsn, place_record w size = Ok (lsn, lsn + size) /\
    current_lsn w <= lsn /\ lsn `mod` segment_size w + size <= segment_size w /\
    lsn + size <= (zlen h + 1) * segment_size w.
Proof.
  intros [Hs Hc _ _] Hsize Hn. unfold place_record. set (seg := segment_size w) in *. set (cur := current_lsn w) in *.
  rewrite (proj2 (Z.eqb_neq seg 0)) by lia. pose proof (Z.mod_pos_bound cur seg ltac:(lia)) as Hm.
  assert (Hbig : (zlen h + 1) * seg < 2 ^ 64) by nia.
  rewrite add_w_ok by (unfold in_width; lia). rewrite ok_bind. cbv beta.
  destruct (Z.ltb_spec seg (cur `mod` seg + size)) as [Hlt|Hle].
  - assert (Hmod : cur `mod` seg <> 0) by lia.
    pose proof (seg_bound seg (zlen h) cur ltac:(lia) ltac:(lia) Hmod) as Hb.
    rewrite sub_w_ok by (unfold in_width; lia). rewrite ok_bind.
    rewrite add_w_ok by (unfold in_width; lia). rewrite ok_bind.
    replace (cur + (seg - cur `mod` seg)) with (cur - cur `mod` seg + seg) by lia.
    assert (Hz : (cur - cur `mod` seg + seg) `mod` seg = 0).
    { replace (cur - cur `mod` seg + seg) with ((cur / seg + 1) * seg) by (pose proof (Z.div_mod cur seg); lia).
      apply Z.mod_mul. lia. }
    rewrite add_w_ok by (unfold in_width; nia).
    eexists. split; [reflexivity|]. split_and!; [lia|lia|nia].
  - rewrite ok_bind. rewrite add_w_ok by (unfold in_width; nia). eexists. split; [reflexivity|]. split_and!; nia.
Qed.

(** Two positions of one segment keep their order and distance inside it. *)
Lemma same_segment seg a b :
  0 < seg -> a / seg = b / seg -> b `mod` seg - a `mod` seg = b - a.
Proof. intros Hs He. pose proof (Z.div_mod a seg). pose proof (Z.div_mod b seg). nia. Qed.

(** Writing a record at [lsn] into its segment page stores it and leaves every
    record that ends before it stored. *)
Lemma stored_after_write h w w' lsn d rest page' :
  let seg := segment_size w in
  let page0 := default zero_page (eph_pages (wal_storage w) !! (1 + lsn / seg)) in
  wal_log h w -> current_lsn w <= lsn ->
  copy_at (lsn `mod` seg) d (page0 ++ rest) = Ok page' ->
  wal_storage w' = {| eph_pages := <[1 + lsn / seg := page']> (eph_pages (wal_storage w)) |} ->
  segment_size w' = seg ->
  stored_at w' lsn d /\ forall lsn0 d0, (lsn0, d0) ∈ h -> stored_at w' lsn0 d0.
Proof.
  intros seg page0 [Hs Hc Hst Hord] Hcur Ecp Hws Hsw. pose proof (Z.mod_pos_bound lsn seg ltac:(unfold seg; lia)) as Hm.
  unfold stored_at, lsn_page. rewrite Hws, Hsw. cbn. unfold eph_read_page. cbn. split.
  - exists page'. rewrite lookup_insert_eq. split; [done|]. apply (slice_copy_data _ _ _ _ Ecp). lia.
  - intros lsn0 d0 Hin. destruct (Hst _ _ Hin) as (H0 & Hle & Hfit0 & (p0 & Hp0 & Hs0)).
    unfold lsn_page in Hp0. cbn in Hp0. unfold eph_read_page in Hp0. fold seg in Hp0, Hs0.
    destruct (decide (lsn0 / seg = lsn / seg)) as [He|Hne].
    + exists page'. rewrite He, lookup_insert_eq. split; [done|].
      rewrite (slice_copy_before _ _ _ _ _ _ Ecp).
      2:{ pose proof (same_segment seg lsn0 lsn ltac:(unfold seg; lia) He). lia. }
      rewrite He in Hp0. fold page0 in Hp0. injection Hp0 as <-. by apply slice_prefix.
    + exists p0. rewrite lookup_insert_ne by lia. done.
Qed.

Lemma append_log {P : Profile} `{Bincode WALRecord} h w r d :
  wal_log h w -> bincode_serialize r = Ok d -> zlen d <= segment_size w -> zlen h + 2 < 2 ^ 32 ->
  exists lsn w', append r w = (Ok lsn, w') /\ wal_log (h ++ [(lsn, d)]) w' /\
    segment_size w' = segment_size w /\ flushed_lsn w' = flushed_lsn w.
Proof.
  intros Hw Hser Hlen Hn. unfold append. rewrite Hser.
  destruct (place_record_ok h w (zlen d) Hw ltac:(lia) Hn) as (lsn & -> & Hcur & Hfit & Hmax).
  pose proof Hw as [Hs Hc Hst Hord]. unfold write_record. cbn [segment_size with_current_lsn wal_storage].
  set (seg := segment_size w) in *.
  assert (Hdiv : 0 <= lsn / seg) by (apply Z.div_pos; lia).
  assert (Hdiv2 : lsn / seg <= zlen h + 1) by (apply Z.div_le_upper_bound; nia).
  pose proof (Z.mod_pos_bound lsn seg ltac:(lia)) as Hm.
  rewrite add_w_ok by (unfold in_width; lia). rewrite wrap_small by (unfold in_width; lia).
  cbn [read_page Ephemeral_Storage eph_read_page]. set (page0 := default zero_page _).
  set (page := if zlen page0 <? seg then resize_page seg page0 else page0).
  assert (Hpl : seg <= zlen page).
  { unfold page. destruct (Z.ltb_spec (zlen page0) seg); [|lia].
    unfold resize_page. rewrite length_app, length_replicate. lia. }
  assert (Hpre : exists rest, page = page0 ++ rest).
  { unfold page. case_match; [by eexists|]. exists []. by rewrite app_nil_r. }
  destruct (copy_at (lsn `mod` seg) d page) as [page'|e|] eqn:Ecp;
    [|rewrite copy_at_ok in Ecp by lia; done..].
  cbn. eexists _, _. split; [reflexivity|]. split; [|done]. destruct Hpre as [rest Hpre]. rewrite Hpre in Ecp.
  split; cbn; [done|rewrite length_app; cbn; fold seg; nia| |].
  - match goal with |- context [stored_at ?w' _ _] =>
      destruct (stored_after_write h w w' lsn d rest page' Hw Hcur Ecp eq_refl eq_refl) as [Hn1 Hn2] end.
    intros lsn0 d0 [Hin|[= -> ->]%list_elem_of_singleton]%elem_of_app; [|split_and!; done || lia].
    destruct (Hst _ _ Hin) as (H0 & Hle & Hfit0 & _). split_and!; [done|lia|done|by apply Hn2].
  - intros i j l0 d0 l1 d1 Hij Hi Hj.
    destruct (decide (j < length h)%nat) as [Hjh|Hjh]; [rewrite lookup_app_l in Hi, Hj by lia; eauto|].
    rewrite lookup_app_r in Hj by lia. destruct (j - length h)%nat eqn:Ej; [|done]. cbn in Hj.
    injection Hj as <- <-. rewrite lookup_app_l in Hi by (apply lookup_lt_Some in Hi; rewrite length_app in Hi; cbn in Hi; lia).
    destruct (Hst _ _ (list_elem_of_lookup_2 _ _ _ Hi)) as (_ & Hle & _). lia.
Qed.

(** Append the records in order, collecting their positions. *)
Fixpoint append_all {P : Profile} `{Bincode WALRecord} (rs : list WALRecord) (w : WAL) : outcome (list Z) * WAL :=
  match rs with
  | [] => (Ok [], w)
  | r :: rest =>
      let '(o, w) := append r w in
      match o with
      | Ok lsn => let '(o, w) := append_all rest w in (cons lsn <$> o, w)
      | Err e => (Err e, w)
      | Panic => (Panic, w)
      end
  end.

Lemma append_all_log {P : Profile} `{Bincode WALRecord} rs h w :
  wal_log h w ->
  Forall (fun r => exists d, bincode_serialize r = Ok d /\ zlen d <= segment_size w) rs ->
  zlen h + zlen rs + 2 < 2 ^ 32 ->
  exists lsns ds w', append_all rs w = (Ok lsns, w') /\ wal_log (h ++ zip lsns ds) w' /\
    length lsns = length rs /\ Forall2 (fun r d => bincode_serialize r = Ok d) rs ds.
Proof.
  revert h w. induction rs as [|r rs IH]; intros h w Hw Hall Hn.
  { exists [], [], w. cbn. rewrite app_nil_r. split_and!; auto. }
  inversion Hall as [|? ? (d & Hd & Hlen) Hall']; subst. cbn [length] in Hn. cbn [append_all].
  destruct (append_log h w r d Hw Hd Hlen) as (lsn & w1 & -> & Hw1 & Hseg & _); [lia|].
  destruct (IH _ _ Hw1) as (lsns & ds & w' & -> & Hw' & Hl & Hds).
  { by rewrite Hseg. }
  { rewrite length_app. cbn. lia. }
  exists (lsn :: lsns), (d :: ds), w'. cbn. rewrite <- app_assoc in Hw'. split_and!; auto.
Qed.

(** C25. Every record appended to a new log can be decoded at the position [append]
    returned for it, after all the records that follow it were appended: whatever
    the segment size, records do not overlap, do not cross segments and are not
    overwritten. *)
Theorem wal_append_readable {P : Profile} `{BincodeLaws WALRecord} seg rs :
  0 < seg < 2 ^ 32 -> zlen rs + 2 < 2 ^ 32 ->
  Forall (fun r => exists d, bincode_serialize r = Ok d /\ zlen d <= seg) rs ->
  exists lsns w, append_all rs (WAL_new seg) = (Ok lsns, w) /\ length lsns = length rs /\
    forall i lsn r, lsns !! i = Some lsn -> rs !! i = Some r ->
      exists page, read_page (wal_storage w) (1 + lsn / segment_size w) = Ok page /\
        bincode_deserialize (drop (Z.to_nat (lsn `mod` segment_size w)) page) = Ok r.
Proof.
  intros Hseg Hn Hall.
  destruct (append_all_log rs [] (WAL_new seg) (wal_log_new seg Hseg) Hall) as (lsns & ds & w & He & Hw & Hl & Hds);
    [cbn; lia|].
  exists lsns, w. split_and!; [done|done|]. intros i lsn r Hi Hr.
  destruct (Forall2_lookup_l _ _ _ _ _ Hds Hr) as (d & Hd & Hser).
  assert (Hin : (lsn, d) ∈ zip lsns ds).
  { apply (list_elem_of_lookup_2 _ i). apply lookup_zip_with_Some. eauto. }
  destruct (wl_stored _ _ Hw lsn d Hin) as (_ & _ & _ & (page & Hp & Hs)).
  exists page. split; [done|]. destruct (slice_drop _ _ _ _ Hs) as [rest ->]. by apply bincode_roundtrip.
Qed.

(** A record longer than a segment makes [append] panic, and the log position has
    moved past it all the same. *)
Theorem append_oversize {P : Profile} `{Bincode WALRecord} seg r d :
  0 < seg -> 8192 <= seg < 2 ^ 32 -> bincode_serialize r = Ok d -> seg < zlen d < 2 ^ 63 ->
  exists w', append r (WAL_new seg) = (Panic, w') /\ current_lsn w' = seg + zlen d.
Proof.
  intros H0 Hs Hser Hlen. unfold append. rewrite Hser. unfold place_record, WAL_new. cbn [segment_size current_lsn].
  rewrite (proj2 (Z.eqb_neq seg 0)) by lia. rewrite Z.mod_0_l by lia.
  rewrite add_w_ok by (unfold in_width; lia). rewrite ok_bind, (proj2 (Z.ltb_lt _ _)) by lia.
  rewrite sub_w_ok by (unfold in_width; lia). rewrite ok_bind, add_w_ok by (unfold in_width; lia).
  rewrite ok_bind, add_w_ok by (unfold in_width; lia). rewrite ok_bind.
  unfold write_record. cbn [segment_size with_current_lsn wal_storage].
  replace (0 + (seg - 0)) with seg by lia. rewrite Z.div_same, Z.mod_same by lia.
  rewrite add_w_ok by (unfold in_width; lia). cbn [read_page Ephemeral_Storage eph_read_page].
  assert (Hz : zlen (default zero_page (eph_pages EphemeralStorage_new !! wrap 32 (1 + 1))) = 8192) by reflexivity.
  unfold eph_read_page. set (page0 := default _ _) in *.
  set (page := if zlen page0 <? seg then resize_page seg page0 else page0).
  assert (zlen page = seg).
  { unfold page. destruct (Z.ltb_spec (zlen page0) seg); [|lia]. unfold resize_page.
    rewrite length_app, length_replicate. lia. }
  unfold copy_at. rewrite decide_False by lia. eexists. split; [reflexivity|]. cbn. lia.
Qed.

(** [ensure_flushed lsn]: afterwards the flushed position is beyond [lsn], or it
    is the current one; it never moves back, and a flush happens only when there
    is something to flush. *)
Theorem ensure_flushed_spec lsn w :
  flushed_lsn w <= current_lsn w ->
  let w' := ensure_flushed lsn w in
  (lsn < flushed_lsn w' \/ flushed_lsn w' = current_lsn w') /\
  flushed_lsn w <= flushed_lsn w' <= current_lsn w' /\ current_lsn w' = current_lsn w /\
  (flushed_lsn w = current_lsn w -> w' = w).
Proof.
  intros Hle. unfold ensure_flushed.
  destruct (Z.ltb_spec (flushed_lsn w) (current_lsn w)), (Z.leb_spec (flushed_lsn w) lsn); cbn; split_and!; try done; try lia.
Qed.

(* ------------------------------------------------------------------ *)
(** ** Replay *)

(** A part of the encoding that satisfies the laws, for the witnesses: the
    crate's 4-byte variant index and 8-byte transaction id; other records are
    refused. *)
Definition toy_tagged (tag xid : Z) : outcome bytes :=
  if decide (is_u64 xid) then Ok (to_le 4 tag ++ to_le 8 xid) else Err (Anyhow "range" []).

Definition toy_serialize (r : WALRecord) : outcome bytes :=
  match r with
  | WalBegin xid => toy_tagged 0 xid
  | WalCommit xid => toy_tagged 4 xid
  | WalAbort xid => toy_tagged 5 xid
  | _ => Err (Anyhow "unsupported" [])
  end.

Definition toy_of_tag (tag xid : Z) : outcome WALRecord :=
  if tag =? 0 then Ok (WalBegin xid) else if tag =? 4 then Ok (WalCommit xid)
  else if tag =? 5 then Ok (WalAbort xid) else Err (Anyhow "tag" []).

Definition toy_deserialize (data : bytes) : outcome WALRecord :=
  if zlen data <? 12 then Err (Anyhow "end of input" []) else
  tag ← read_le 4 0 data; xid ← read_le 8 4 data; toy_of_tag tag xid.

Definition toy_bincode : Bincode WALRecord :=
  {| bincode_serialize := toy_serialize; bincode_deserialize := toy_deserialize |}.

Lemma toy_deserialize_tag tag xid rest :
  is_u32 tag -> is_u64 xid -> toy_deserialize ((to_le 4 tag ++ to_le 8 xid) ++ rest) = toy_of_tag tag xid.
Proof.
  intros H H'. unfold toy_deserialize. destruct (Z.ltb_spec (zlen ((to_le 4 tag ++ to_le 8 xid) ++ rest)) 12); [len|].
  rewrite <- app_assoc. step_by read_field. step_by read_field. done.
Qed.

Lemma toy_laws : @BincodeLaws WALRecord toy_bincode.
Proof.
  split. intros r data rest H.
  assert (Hx : exists tag xid, is_u32 tag /\ is_u64 xid /\ data = to_le 4 tag ++ to_le 8 xid /\
    toy_of_tag tag xid = Ok r).
  { revert H. cbn [bincode_serialize toy_bincode]. unfold toy_serialize, toy_tagged.
    destruct r as [xid| | | |xid|xid|]; try done; case_decide; try done; intros E; injection E as E.
    - by exists 0, xid.
    - by exists 4, xid.
    - by exists 5, xid. }
  destruct Hx as (tag & xid & H32 & H64 & -> & <-). by apply toy_deserialize_tag.
Qed.

Section replay.
Context {P : Profile} `{BincodeLaws WALRecord}.

(** How many of the records laid out from [lsn] on start at or after [redo]. *)
Fixpoint due (redo lsn : Z) (ds : list bytes) : Z :=
  match ds with
  | [] => 0
  | d :: ds => (if redo <=? lsn then 1 else 0) + due redo (lsn + zlen d) ds
  end.

Lemma replay_page_records rs ds pre rest fuel redo seg lsn_done count :
  Forall2 (fun r d => bincode_serialize r = Ok d /\ d <> []) rs ds ->
  (rest = [] \/ exists e, bincode_deserialize rest = Err e) ->
  (length rs < fuel)%nat -> (rs = [] -> lsn_done = seg * recovery_segment_size + zlen pre) ->
  replay_page fuel redo seg (pre ++ concat ds ++ rest) (zlen pre) lsn_done count =
  Some (Ok (seg * recovery_segment_size + zlen pre + zlen (concat ds),
            count + due redo (seg * recovery_segment_size + zlen pre) ds)).
Proof.
  intros HF Hrest. revert pre fuel lsn_done count.
  induction HF as [|r d rs ds [Hser Hne] HF IH]; intros pre fuel lsn_done count Hfuel Hdone;
    (destruct fuel as [|fuel]; [lia|]); cbn [replay_page concat app due].
  - rewrite (Hdone eq_refl). cbn [length]. rewrite !Z.add_0_r.
    destruct (Z.leb_spec (zlen (pre ++ rest)) (zlen pre)) as [|Hlt]; [done|].
    rewrite Nat2Z.id, drop_app_length.
    destruct Hrest as [-> |[e ->]]; [rewrite app_nil_r in Hlt; lia|done].
  - assert (Hlen : 0 < zlen d) by (destruct d; [done|cbn; lia]).
    destruct (Z.leb_spec (zlen (pre ++ (d ++ concat ds) ++ rest)) (zlen pre)) as [Hle|Hlt];
      [rewrite !length_app in Hle; lia|].
    rewrite Nat2Z.id, drop_app_length. rewrite <- app_assoc, (bincode_roundtrip r d) by done. rewrite Hser.
    rewrite (proj2 (Z.eqb_neq _ _)) by lia.
    assert (Hpre : pre ++ d ++ concat ds ++ rest = (pre ++ d) ++ concat ds ++ rest) by (by rewrite <- app_assoc).
    assert (Hap : apply_record r = Ok tt) by (by destruct r). rewrite Hap.
    replace (zlen pre + zlen d) with (zlen (pre ++ d)) by (rewrite length_app; lia).
    rewrite Hpre. cbn [length] in Hfuel.
    assert (Hlsn : rs = [] -> seg * recovery_segment_size + zlen pre + zlen d =
      seg * recovery_segment_size + zlen (pre ++ d)) by (intros _; rewrite length_app; lia).
    destruct (Z.leb_spec redo (seg * recovery_segment_size + zlen pre)); rewrite IH by (done || lia);
      rewrite !length_app; do 3 f_equal; try lia; rewrite <- Z.add_assoc; f_equal;
      rewrite ?Nat2Z.inj_add, ?Z.add_assoc; lia.
Qed.
End replay.

Lemma replay_page_terminates {P : Profile} `{Bincode WALRecord} fuel redo seg page offset lsn_done count :
  0 <= offset -> (0 < fuel)%nat -> zlen page - offset < Z.of_nat fuel ->
  exists r, replay_page fuel redo seg page offset lsn_done count = Some (Ok r).
Proof.
  revert offset lsn_done count. induction fuel as [|fuel IH]; intros offset lsn_done count Ho Hf0 Hf; cbn [replay_page].
  - lia.
  - destruct (Z.leb_spec (zlen page) offset); [eauto|].
    destruct (bincode_deserialize _) as [r|e|]; [|eauto..]. set (n := match bincode_serialize r with Ok d => zlen d | _ => 0 end).
    assert (0 <= n) by (unfold n; destruct (bincode_serialize r); lia).
    destruct (Z.eqb_spec n 0); [eauto|].
    assert (Hap : apply_record r = Ok tt) by (by destruct r). rewrite Hap. case_match; (apply IH; [lia|lia|]); rewrite Nat2Z.inj_succ in Hf; lia.
Qed.

Lemma replay_segments_terminates {P : Profile} `{Bincode WALRecord} {St} `{Storage St} (s : St) redo segs lsn_done count :
  (exists r, replay_segments s redo segs lsn_done count = Some (Ok r)) \/
  replay_segments s redo segs lsn_done count = Some Panic /\ exists pid, read_page s pid = Panic.
Proof.
  revert lsn_done count. induction segs as [|seg segs IH]; intros lsn_done count; cbn [replay_segments]; [eauto|].
  destruct (read_page s (seg + 1)) as [page|e|] eqn:E; [|eauto..].
  destruct (replay_page_terminates (length page + 1) redo seg page 0 lsn_done count) as [[l c] ->]; [lia..|]. apply IH.
Qed.

(** C26. Recovery always ends, whatever the store holds and however the encoding
    behaves, when the redo position is at least ten segments below the last 32-bit
    segment number. It reports success; the control file's two positions become the
    position it reached and nothing else in it changes. Only a panic of the store, while
    a page is read, is a panic of recovery, and then the control file is as it was. *)
Theorem recover_total {P : Profile} `{Bincode WALRecord} {St} `{Storage St} (s : St) control :
  0 <= redo_lsn control < 2 ^ 32 * recovery_segment_size - 10 * recovery_segment_size ->
  (exists res, recover s control = (Some (Ok res), with_redo control (replayed_lsn res) (replayed_lsn res)) /\ consistent res = true) \/
  recover s control = (Some Panic, control) /\ exists pid, read_page s pid = Panic.
Proof.
  intros Hr. unfold recover.
  assert (0 <= redo_lsn control / recovery_segment_size < 2 ^ 32 - 10).
  { split; [apply Z.div_pos; [lia|by vm_compute]|]. apply Z.div_lt_upper_bound; [by vm_compute|]. lia. }
  rewrite wrap_small by (unfold in_width; lia). rewrite add_w_ok by (unfold in_width; lia).
  destruct (replay_segments_terminates s (redo_lsn control)
    (seqZ (redo_lsn control / recovery_segment_size)
       (redo_lsn control / recovery_segment_size + 10 - redo_lsn control / recovery_segment_size))
    (redo_lsn control) 0) as [[[l c] ->]|[-> Hp]]; [left|by right].
  exists {| replayed_lsn := l; records_replayed := c; consistent := true |}. split; reflexivity.
Qed.

(** The tail of a log page is zeros, and a run of zeros is an encoded [Begin] of
    transaction 0 (variant index 0, then the id). Recovering a log nothing was
    ever appended to therefore replays 682 records from each of ten pages and
    moves the redo position past them. *)
Theorem recovery_replays_zeros {P : Profile} `{BincodeLaws WALRecord} id :
  bincode_serialize (WalBegin 0) = Ok (replicate 12 0) ->
  (exists e, bincode_deserialize (replicate 8 0) = Err e) ->
  fst (recover EphemeralStorage_new (ControlFile_create id)) =
  Some (Ok {| replayed_lsn := 9 * recovery_segment_size + 8184; records_replayed := 6820; consistent := true |}).
Proof.
  intros Hser Hend. unfold recover. cbn [redo_lsn ControlFile_create].
  change (wrap 32 (0 / recovery_segment_size)) with 0. rewrite add_w_ok by (by vm_compute).
  change (0 + 10 - 0) with 10.
  assert (Hpage : forall seg l c, 0 <= seg ->
    replay_page (length zero_page + 1) 0 seg zero_page 0 l c =
    Some (Ok (seg * recovery_segment_size + 8184, c + 682))).
  { intros seg l c Hseg.
    assert (Hz : zero_page = [] ++ concat (replicate 682 (replicate 12 0)) ++ replicate 8 0) by (by vm_compute).
    rewrite Hz. change 0 with (zlen (@nil Z)) at 4.
    rewrite (replay_page_records (replicate 682 (WalBegin 0)) (replicate 682 (replicate 12 0)) []); [| |by right|by vm_compute; lia|done].
    - assert (Hdue : forall n lsn, 0 <= lsn -> due 0 lsn (replicate n (replicate 12 0)) = Z.of_nat n).
      { induction n as [|n IH]; intros lsn Hl; [done|]. cbn [replicate due]. rewrite IH by lia.
        rewrite (proj2 (Z.leb_le _ _)) by lia. lia. }
      assert (0 <= seg * recovery_segment_size) by (unfold recovery_segment_size; lia).
      rewrite Hdue by (cbn [length]; lia). do 3 f_equal. cbn [length]. 
      assert (zlen (concat (replicate 682 (replicate 12 0))) = 8184) by (by vm_compute). lia.
    - apply Forall2_replicate. done. }
  assert (Hsegs : forall n seg l c, 0 <= seg -> n <> 0%nat ->
    replay_segments EphemeralStorage_new 0 (seqZ seg (Z.of_nat n)) l c =
    Some (Ok ((seg + Z.of_nat n - 1) * recovery_segment_size + 8184, c + Z.of_nat n * 682))).
  { induction n as [|n IH]; intros seg l c Hs Hn; [done|]. rewrite seqZ_cons by lia. cbn [replay_segments].
    change (read_page EphemeralStorage_new (seg + 1)) with (Ok zero_page). cbn iota. rewrite Hpage by done.
    replace (Z.pred (Z.of_nat (S n))) with (Z.of_nat n) by lia.
    destruct n as [|n].
    - change (Z.of_nat 0) with 0. change (Z.of_nat 1) with 1. change (seqZ (Z.succ seg) 0) with (@nil Z). cbn [replay_segments]. do 2 f_equal.
      apply pair_equal_spec. split; lia.
    - rewrite IH by lia. do 2 f_equal. apply pair_equal_spec. split; [f_equal; f_equal|]; lia. }
  change 10 with (Z.of_nat 10). rewrite Hsegs by lia. reflexivity.
Qed.

Lemma recovery_replays_zeros_witness :
  @fst _ ControlFile (@recover debug_profile toy_bincode _ _ EphemeralStorage_new (ControlFile_create 7)) =
  Some (Ok {| replayed_lsn := 150994944 + 8184; records_replayed := 6820; consistent := true |}).
Proof.
  apply (@recovery_replays_zeros debug_profile toy_bincode toy_laws 7); [reflexivity|].
  eexists. reflexivity.
Defined.

Lemma recover_total_witness :
  exists res, @recover debug_profile toy_bincode _ _ EphemeralStorage_new (ControlFile_create 7) =
    (Some (Ok res), with_redo (ControlFile_create 7) (replayed_lsn res) (replayed_lsn res)) /\ consistent res = true.
Proof.
  destruct (@recover_total debug_profile toy_bincode _ _ EphemeralStorage_new (ControlFile_create 7)) as [Hr|[_ [pid Hp]]];
    [vm_compute; split; [discriminate|reflexivity]|exact Hr|discriminate Hp].
Defined.

Lemma wal_append_readable_witness :
  exists lsns w, @append_all debug_profile toy_bincode [WalBegin 1; WalCommit 1; WalAbort 2] (WAL_new 30) = (Ok lsns, w) /\
    length lsns = 3%nat /\
    forall i lsn r, lsns !! i = Some lsn -> [WalBegin 1; WalCommit 1; WalAbort 2] !! i = Some r ->
      exists page, read_page (wal_storage w) (1 + lsn / segment_size w) = Ok page /\
        toy_deserialize (drop (Z.to_nat (lsn `mod` segment_size w)) page) = Ok r.
Proof.
  apply (@wal_append_readable debug_profile toy_bincode toy_laws 30); [lia|cbn; lia|].
  repeat constructor; eexists; (split; [reflexivity|vm_compute; discriminate]).
Defined.

(** A record of 9000 bytes in the server's 8192-byte segments. *)
Definition long_bincode : Bincode WALRecord :=
  {| bincode_serialize := fun _ => Ok (replicate (Z.to_nat 9000) 0); bincode_deserialize := fun _ => Ok (WalBegin 0) |}.

Lemma append_oversize_witness :
  exists w', @append debug_profile long_bincode (WalBegin 0) (WAL_new 8192) = (Panic, w') /\ current_lsn w' = 17192.
Proof.
  destruct (@append_oversize debug_profile long_bincode 8192 (WalBegin 0) (replicate (Z.to_nat 9000) 0) ltac:(lia) ltac:(lia)
    eq_refl) as (w' & Ha & Hl).
  - rewrite length_replicate. lia.
  - exists w'. split; [exact Ha|]. rewrite Hl. rewrite length_replicate. reflexivity.
Defined.

Lemma ensure_flushed_spec_witness :
  let w := with_current_lsn (WAL_new 8192) 100 in
  50 < flushed_lsn (ensure_flushed 50 w) \/ flushed_lsn (ensure_flushed 50 w) = current_lsn (ensure_flushed 50 w).
Proof.
  refine (proj1 (ensure_flushed_spec 50 (with_current_lsn (WAL_new 8192) 100) _)). vm_compute. discriminate.
Defined.

Lemma crc_detects_byte_change_witness :
  verify_crc {| xl_tot_len := 27; xl_xid := 1; xl_info := 2; xl_rmid := 3; xl_pad := (0, 0, 0);
                xl_crc := compute_crc [1; 2; 3] |} [1; 7; 3] = false.
Proof.
  refine (proj2 (@crc_detects_byte_change debug_profile 1 2 3 [1] 2 7 [3] _ eq_refl _ _) _).
  - repeat constructor; vm_compute; discriminate || reflexivity.
  - vm_compute. split; [discriminate|reflexivity].
  - discriminate.
Defined.
