(* ===== verification/TupleCodec.v ===== *)
(** What the heap relies on of the encoding of its tuples, the derived [bincode]
    one, as the class [TupleLaws]; and an instance in [bincode]'s documented
    format (integers in little-endian at their width, vectors after their length
    as a [u64]), at which the theorems are applied to concrete pages. *)

From S2P Require Import Prelude Types Wal.

Record tuple_wf (t : Tuple) : Prop := {
  tw_slots : Forall is_u16 (tup_slots t);
  tw_nslots : zlen (tup_slots t) < 2 ^ 32;
  tw_data : bytes_ok (tup_data t);
  tw_ndata : zlen (tup_data t) < 2 ^ 32;
  tw_xmin : is_u64 (tup_xmin t);
  tw_xmax : is_u64 (tup_xmax t);
  tw_cmin : is_u32 (tup_cmin t);
  tw_cmax : is_u32 (tup_cmax t);
  tw_xvac : is_u64 (tup_xvac t);
}.

Definition with_xmax (t : Tuple) (xmax : Z) : Tuple :=
  {| tup_slots := tup_slots t; tup_data := tup_data t; tup_xmin := tup_xmin t; tup_xmax := xmax;
     tup_cmin := tup_cmin t; tup_cmax := tup_cmax t; tup_xvac := tup_xvac t |}.

(** [bincode] writes integers at their width: it encodes every tuple, in a length
    that only the lengths of its two vectors determine; what it reads as a tuple begins with that
    tuple's encoding; nothing is not a tuple. *)
Class TupleLaws `{Bincode Tuple} := {
  tl_encode : forall t, tuple_wf t -> exists d, bincode_serialize t = Ok d /\ bytes_ok d /\ d <> [];
  tl_decode : forall t d rest, bincode_serialize t = Ok d -> bincode_deserialize (d ++ rest) = Ok t;
  tl_prefix : forall d t, bytes_ok d -> bincode_deserialize d = Ok t ->
    tuple_wf t /\ exists d' rest, bincode_serialize t = Ok d' /\ d = d' ++ rest;
  tl_length : forall t t' d d',
    length (tup_slots t') = length (tup_slots t) -> length (tup_data t') = length (tup_data t) ->
    bincode_serialize t = Ok d -> bincode_serialize t' = Ok d' -> length d' = length d;
  tl_empty : exists e, bincode_deserialize [] = Err e;
}.

(* ------------------------------------------------------------------ *)
(** ** Reading fields off the front *)

Definition eof : error := Anyhow "unexpected end of file" [].

Definition take_le (n : nat) (d : bytes) : outcome (Z * bytes) :=
  if decide (n <= length d)%nat then Ok (from_le (take n d), drop n d) else Err eof.

Fixpoint take_les (k n : nat) (d : bytes) : outcome (list Z * bytes) :=
  match k with
  | O => Ok ([], d)
  | S k => '(v, d) ← take_le n d; '(vs, d) ← take_les k n d; Ok (v :: vs, d)
  end.

(** A vector of integers of [n] bytes; a length the input cannot hold is an error
    before anything is read. *)
Definition take_vec (n : nat) (d : bytes) : outcome (list Z * bytes) :=
  '(len, d) ← take_le 8 d;
  if decide (len < 2 ^ 32 /\ len <= zlen d) then take_les (Z.to_nat len) n d else Err eof.

Definition put_les (n : nat) (vs : list Z) : bytes := concat (to_le n <$> vs).

Definition put_vec (n : nat) (vs : list Z) : bytes := to_le 8 (zlen vs) ++ put_les n vs.

Lemma to_from_le bs : bytes_ok bs -> to_le (length bs) (from_le bs) = bs.
Proof.
  induction 1 as [|b bs Hb _ IH]; [done|]. cbn [length from_le to_le]. unfold in_width in Hb. change (2 ^ 8) with 256 in Hb.
  f_equal; [rewrite (Z.mul_comm 256), Z_mod_plus_full; by apply Z.mod_small|].
  rewrite (Z.mul_comm 256), Z.div_add, (Z.div_small b) by lia. exact IH.
Qed.

Lemma take_le_put n v d : 0 <= v < 2 ^ (8 * Z.of_nat n) -> take_le n (to_le n v ++ d) = Ok (v, d).
Proof.
  intros Hv. unfold take_le. rewrite decide_True by (rewrite length_app, length_to_le; lia).
  rewrite take_app_length' by (by rewrite length_to_le). rewrite drop_app_length' by (by rewrite length_to_le). by rewrite from_to_le.
Qed.

Lemma take_le_inv n v d d' :
  bytes_ok d -> take_le n d = Ok (v, d') -> d = to_le n v ++ d' /\ 0 <= v < 2 ^ (8 * Z.of_nat n) /\ bytes_ok d'.
Proof.
  intros Hd. unfold take_le. case_decide as Hn; [|done]. intros [= <- <-].
  assert (Hl : length (take n d) = n) by (rewrite length_take; lia).
  assert (Ht : bytes_ok (take n d)) by (by apply Forall_take).
  pose proof (from_le_width _ Ht) as Hw. rewrite Hl in Hw. split; [|split; [done|by apply Forall_drop]].
  rewrite <- Hl at 1. rewrite to_from_le by done. by rewrite take_drop.
Qed.

Lemma take_les_put n vs d :
  Forall (fun v => 0 <= v < 2 ^ (8 * Z.of_nat n)) vs -> take_les (length vs) n (put_les n vs ++ d) = Ok (vs, d).
Proof.
  intros Hv. revert d. induction Hv as [|v vs Hv _ IH]; intros d; [done|].
  cbn [length take_les]. unfold put_les. cbn [fmap list_fmap concat]. rewrite <- app_assoc.
  rewrite take_le_put, ok_bind by done. fold (put_les n vs). by rewrite IH.
Qed.

Lemma take_les_inv k n vs d d' :
  bytes_ok d -> take_les k n d = Ok (vs, d') ->
  d = put_les n vs ++ d' /\ Forall (fun v => 0 <= v < 2 ^ (8 * Z.of_nat n)) vs /\ length vs = k /\ bytes_ok d'.
Proof.
  revert vs d. induction k as [|k IH]; intros vs d Hd; cbn [take_les].
  - intros [= <- <-]. by split_and!.
  - intros ([v d1] & H1 & H2)%bind_ok. apply bind_ok in H2 as ([vs1 d2] & H2 & [= <- <-]).
    destruct (take_le_inv _ _ _ _ Hd H1) as (-> & Hv & Hd1). destruct (IH _ _ Hd1 H2) as (-> & Hvs & <- & Hd2).
    split_and!; [|by constructor|done|done]. unfold put_les. cbn [fmap list_fmap concat]. by rewrite <- app_assoc.
Qed.

Lemma length_put_les n vs : length (put_les n vs) = (n * length vs)%nat.
Proof. unfold put_les. induction vs as [|v vs IH]; cbn; [lia|]. rewrite length_app, length_to_le, IH. lia. Qed.

Lemma take_vec_put n vs d :
  (0 < n)%nat -> zlen vs < 2 ^ 32 -> Forall (fun v => 0 <= v < 2 ^ (8 * Z.of_nat n)) vs ->
  take_vec n (put_vec n vs ++ d) = Ok (vs, d).
Proof.
  intros Hn Hl Hv. unfold take_vec, put_vec. rewrite <- app_assoc, take_le_put, ok_bind by lia.
  rewrite decide_True by (rewrite length_app, length_put_les; split; [done|nia]). rewrite Nat2Z.id. by apply take_les_put.
Qed.

Lemma take_vec_inv n vs d d' :
  bytes_ok d -> take_vec n d = Ok (vs, d') ->
  d = put_vec n vs ++ d' /\ Forall (fun v => 0 <= v < 2 ^ (8 * Z.of_nat n)) vs /\ zlen vs < 2 ^ 32 /\ bytes_ok d'.
Proof.
  intros Hd. unfold take_vec. intros ([len d1] & H1 & H2)%bind_ok.
  destruct (take_le_inv _ _ _ _ Hd H1) as (-> & Hlen & Hd1). case_decide as Hdec; [|done].
  destruct (take_les_inv _ _ _ _ _ Hd1 H2) as (-> & Hvs & Hl & Hd2).
  assert (Hz : zlen vs = len) by lia. split_and!; [|done|lia|done]. unfold put_vec. by rewrite Hz, <- app_assoc.
Qed.

(* ------------------------------------------------------------------ *)
(** ** Tuples *)

#[export] Instance tuple_wf_dec t : Decision (tuple_wf t).
Proof.
  refine (cast_if (decide (Forall is_u16 (tup_slots t) /\ zlen (tup_slots t) < 2 ^ 32 /\ Forall is_u8 (tup_data t) /\
    zlen (tup_data t) < 2 ^ 32 /\ is_u64 (tup_xmin t) /\ is_u64 (tup_xmax t) /\ is_u32 (tup_cmin t) /\ is_u32 (tup_cmax t) /\
    is_u64 (tup_xvac t)))).
  - abstract (by split; naive_solver).
  - abstract (by intros []; naive_solver).
Defined.

Definition tuple_bytes (t : Tuple) : bytes :=
  put_vec 2 (tup_slots t) ++ put_vec 1 (tup_data t) ++ to_le 8 (tup_xmin t) ++ to_le 8 (tup_xmax t) ++
  to_le 4 (tup_cmin t) ++ to_le 4 (tup_cmax t) ++ to_le 8 (tup_xvac t).

Definition tuple_serialize (t : Tuple) : outcome bytes :=
  if decide (tuple_wf t) then Ok (tuple_bytes t) else Err (Anyhow "not a tuple" []).

Definition tuple_deserialize (d : bytes) : outcome Tuple :=
  '(slots, d) ← take_vec 2 d; '(data, d) ← take_vec 1 d;
  '(xmin, d) ← take_le 8 d; '(xmax, d) ← take_le 8 d;
  '(cmin, d) ← take_le 4 d; '(cmax, d) ← take_le 4 d; '(xvac, _) ← take_le 8 d;
  Ok {| tup_slots := slots; tup_data := data; tup_xmin := xmin; tup_xmax := xmax; tup_cmin := cmin; tup_cmax := cmax;
        tup_xvac := xvac |}.

#[local] Instance Tuple_Bincode : Bincode Tuple :=
  {| bincode_serialize := tuple_serialize; bincode_deserialize := tuple_deserialize |}.

Lemma put_les_ok n vs : bytes_ok (put_les n vs).
Proof. unfold put_les. induction vs as [|v vs IH]; cbn; [constructor|]. apply Forall_app. by split; [apply to_le_bytes_ok|]. Qed.

Lemma tuple_bytes_ok t : bytes_ok (tuple_bytes t).
Proof.
  unfold tuple_bytes, put_vec, bytes_ok. rewrite !Forall_app.
  split_and!; try apply to_le_bytes_ok; apply put_les_ok.
Qed.

Lemma tuple_decode_bytes t rest : tuple_wf t -> tuple_deserialize (tuple_bytes t ++ rest) = Ok t.
Proof.
  intros []. unfold tuple_deserialize, tuple_bytes. rewrite <- !app_assoc.
  do 2 (rewrite take_vec_put, ok_bind by (done || lia)).
  do 5 (rewrite take_le_put, ok_bind by done). by destruct t.
Qed.

Lemma tuple_decode_inv d t :
  bytes_ok d -> tuple_deserialize d = Ok t -> tuple_wf t /\ exists rest, d = tuple_bytes t ++ rest.
Proof.
  intros Hd. unfold tuple_deserialize. intros ([slots d1] & H1 & H)%bind_ok. apply bind_ok in H as ([data d2] & H2 & H).
  apply bind_ok in H as ([xmin d3] & H3 & H). apply bind_ok in H as ([xmax d4] & H4 & H).
  apply bind_ok in H as ([cmin d5] & H5 & H). apply bind_ok in H as ([cmax d6] & H6 & H).
  apply bind_ok in H as ([xvac d7] & H7 & [= <-]).
  destruct (take_vec_inv _ _ _ _ Hd H1) as (-> & ? & ? & Hd1). destruct (take_vec_inv _ _ _ _ Hd1 H2) as (-> & ? & ? & Hd2).
  destruct (take_le_inv _ _ _ _ Hd2 H3) as (-> & ? & Hd3). destruct (take_le_inv _ _ _ _ Hd3 H4) as (-> & ? & Hd4).
  destruct (take_le_inv _ _ _ _ Hd4 H5) as (-> & ? & Hd5). destruct (take_le_inv _ _ _ _ Hd5 H6) as (-> & ? & Hd6).
  destruct (take_le_inv _ _ _ _ Hd6 H7) as (-> & ? & Hd7).
  split; [by split|]. exists d7. unfold tuple_bytes. by rewrite <- !app_assoc.
Qed.

#[local] Instance Tuple_laws : TupleLaws.
Proof.
  split; cbn [bincode_serialize bincode_deserialize Tuple_Bincode]; unfold tuple_serialize.
  - intros t Ht. rewrite decide_True by done. exists (tuple_bytes t). split_and!; [done|apply tuple_bytes_ok|done].
  - intros t d rest. case_decide; [|done]. intros [= <-]. by apply tuple_decode_bytes.
  - intros d t Hd Ht. destruct (tuple_decode_inv d t Hd Ht) as [Hwf [rest ->]]. split; [done|].
    exists (tuple_bytes t), rest. rewrite decide_True by done. by split.
  - intros t t' d d' Hs Hd. do 2 (case_decide; [|done]). intros [= <-] [= <-]. unfold tuple_bytes, put_vec.
    rewrite !length_app, !length_to_le, !length_put_les. by rewrite Hs, Hd.
  - by eexists.
Qed.
