(* ===== verification/VisibilityMap.v ===== *)
(** The visibility map ([src/src/storage/visibility_map.rs]): one bit per heap
    page, refined to the set of pages marked all-visible. *)

From S2P Require Import Prelude.

Definition BITS_PER_BYTE : Z := 8.
Definition PAGES_PER_BYTE : Z := BITS_PER_BYTE.

Record VisibilityMap := { vm_data : bytes; vm_num_pages : Z }.

(** [num_pages.div_ceil(PAGES_PER_BYTE)]. *)
Definition vm_bytes_needed (num_pages : Z) : nat :=
  Z.to_nat ((num_pages + PAGES_PER_BYTE - 1) / PAGES_PER_BYTE).

Definition VisibilityMap_new (num_pages : Z) : VisibilityMap :=
  {| vm_data := replicate (vm_bytes_needed num_pages) 0; vm_num_pages := num_pages |}.

Definition is_page_all_visible (page_idx : Z) (vm : VisibilityMap) : outcome bool :=
  if vm_num_pages vm <=? page_idx then Ok false else
  let byte_idx := page_idx / PAGES_PER_BYTE in
  let bit_idx := page_idx `mod` PAGES_PER_BYTE in
  b ← index byte_idx (vm_data vm);
  Ok (negb (Z.land b (Z.shiftl 1 bit_idx) =? 0)).

(** [self.data[byte_idx] |= 1 << bit_idx]. *)
Definition mark_all_visible (page_idx : Z) (vm : VisibilityMap) : outcome VisibilityMap :=
  if vm_num_pages vm <=? page_idx then Ok vm else
  let byte_idx := page_idx / PAGES_PER_BYTE in
  let bit_idx := page_idx `mod` PAGES_PER_BYTE in
  b ← index byte_idx (vm_data vm);
  data ← set_at byte_idx (Z.lor b (Z.shiftl 1 bit_idx)) (vm_data vm);
  Ok {| vm_data := data; vm_num_pages := vm_num_pages vm |}.

(** [self.data[byte_idx] &= !(1 << bit_idx)], where [!] complements eight bits. *)
Definition clear_all_visible (page_idx : Z) (vm : VisibilityMap) : outcome VisibilityMap :=
  if vm_num_pages vm <=? page_idx then Ok vm else
  let byte_idx := page_idx / PAGES_PER_BYTE in
  let bit_idx := page_idx `mod` PAGES_PER_BYTE in
  b ← index byte_idx (vm_data vm);
  data ← set_at byte_idx (Z.land b (Z.lxor 255 (Z.shiftl 1 bit_idx))) (vm_data vm);
  Ok {| vm_data := data; vm_num_pages := vm_num_pages vm |}.

Definition vm_serialize (vm : VisibilityMap) : bytes := to_le 4 (vm_num_pages vm) ++ vm_data vm.

Definition vm_deserialize (data : bytes) : outcome VisibilityMap :=
  if zlen data <? 4 then Ok (VisibilityMap_new 0) else
  num_pages ← read_le 4 0 data;
  Ok {| vm_data := drop 4 data; vm_num_pages := num_pages |}.

(* ------------------------------------------------------------------ *)
(** ** The map as a set of pages *)

Record vm_wf (vm : VisibilityMap) : Prop := {
  vmw_pages : is_u32 (vm_num_pages vm);
  vmw_data : (vm_bytes_needed (vm_num_pages vm) <= length (vm_data vm))%nat;
}.

(** The map [vm] holds exactly the pages that satisfy [s]. *)
Definition vm_models (vm : VisibilityMap) (s : Z -> bool) : Prop :=
  vm_wf vm /\ forall i, 0 <= i -> is_page_all_visible i vm = Ok (bool_decide (i < vm_num_pages vm) && s i).

Lemma vm_new_wf n : is_u32 n -> vm_wf (VisibilityMap_new n).
Proof. intros H. split; cbn; [done|]. by rewrite length_replicate. Qed.

Lemma vm_byte vm i : vm_wf vm -> 0 <= i < vm_num_pages vm -> exists b, get (i / PAGES_PER_BYTE) (vm_data vm) = Some b.
Proof.
  intros [_ Hl] Hi. apply get_is_Some. unfold vm_bytes_needed, PAGES_PER_BYTE, BITS_PER_BYTE in *.
  pose proof (Z.div_mod i 8 ltac:(lia)). pose proof (Z.mod_pos_bound i 8 ltac:(lia)).
  pose proof (Z.div_mod (vm_num_pages vm + 8 - 1) 8 ltac:(lia)).
  pose proof (Z.mod_pos_bound (vm_num_pages vm + 8 - 1) 8 ltac:(lia)).
  split; [apply Z.div_pos; lia|]. lia.
Qed.

Lemma land_bit b i : 0 <= i -> negb (Z.land b (Z.shiftl 1 i) =? 0) = Z.testbit b i.
Proof.
  intros Hi. destruct (Z.testbit b i) eqn:E.
  - rewrite negb_true_iff, Z.eqb_neq. intros H0. apply (f_equal (fun z => Z.testbit z i)) in H0.
    rewrite Z.land_spec, Z.shiftl_spec, Z.sub_diag, E, Z.bits_0 in H0 by lia. done.
  - rewrite negb_false_iff, Z.eqb_eq. apply Z.bits_inj'. intros n Hn.
    rewrite Z.land_spec, Z.shiftl_spec, Z.bits_0 by lia. destruct (decide (n = i)) as [->|Hne]; [by rewrite E|].
    rewrite andb_comm. destruct (Z.testbit 1 (n - i)) eqn:E1; [|done].
    apply (f_equal negb) in E1. destruct (Z.ltb_spec n i).
    + rewrite Z.testbit_neg_r in E1 by lia. done.
    + change 1 with (2 ^ 0) in E1. rewrite Z.pow2_bits_false in E1 by lia. done.
Qed.

Lemma is_visible_bit vm i b :
  0 <= i < vm_num_pages vm -> get (i / PAGES_PER_BYTE) (vm_data vm) = Some b ->
  is_page_all_visible i vm = Ok (Z.testbit b (i `mod` PAGES_PER_BYTE)).
Proof.
  intros Hi Hb. unfold is_page_all_visible. rewrite (proj2 (Z.leb_gt _ _)) by lia.
  unfold index. rewrite Hb, ok_bind, land_bit; [done|]. apply Z.mod_pos_bound. by vm_compute.
Qed.

Lemma is_visible_beyond vm i : vm_num_pages vm <= i -> is_page_all_visible i vm = Ok false.
Proof. intros Hi. unfold is_page_all_visible. by rewrite (proj2 (Z.leb_le _ _)). Qed.

Lemma page_index_split i j :
  0 <= i -> 0 <= j -> i / PAGES_PER_BYTE = j / PAGES_PER_BYTE -> i `mod` PAGES_PER_BYTE = j `mod` PAGES_PER_BYTE -> i = j.
Proof.
  unfold PAGES_PER_BYTE, BITS_PER_BYTE. intros _ _ Hd Hm.
  pose proof (Z.div_mod i 8 ltac:(lia)). pose proof (Z.div_mod j 8 ltac:(lia)). lia.
Qed.

(** Rewriting the byte of page [i] by [f], which sets its bit to [v] and keeps
    the other bits. *)
Lemma vm_update vm s i (f : Z -> Z) (v : bool) :
  vm_models vm s -> 0 <= i < vm_num_pages vm ->
  (forall b n, 0 <= n < 8 -> Z.testbit (f b) n = if decide (n = i `mod` PAGES_PER_BYTE) then v else Z.testbit b n) ->
  exists vm', (b ← index (i / PAGES_PER_BYTE) (vm_data vm);
               data ← set_at (i / PAGES_PER_BYTE) (f b) (vm_data vm);
               Ok {| vm_data := data; vm_num_pages := vm_num_pages vm |}) = Ok vm' /\
    vm_num_pages vm' = vm_num_pages vm /\
    vm_models vm' (fun j => if decide (j = i) then v else s j).
Proof.
  intros [Hwf Hm] Hi Hf. destruct (vm_byte vm i Hwf Hi) as [b Hb].
  assert (Hk : 0 <= i / PAGES_PER_BYTE) by (apply Z.div_pos; [lia|by vm_compute]).
  assert (Hlt := get_Some_lt _ _ _ Hb).
  unfold index. rewrite Hb, ok_bind, set_at_ok, ok_bind by done.
  eexists. split; [reflexivity|]. split; [done|]. split.
  { destruct Hwf. split; cbn; [done|]. by rewrite length_insert. }
  intros j Hj. cbn [vm_num_pages]. case_bool_decide as Hjn; [|apply is_visible_beyond; cbn; lia].
  destruct (vm_byte vm j Hwf ltac:(lia)) as [c Hc].
  assert (Hj8 : 0 <= j `mod` PAGES_PER_BYTE < 8) by (apply Z.mod_pos_bound; by vm_compute).
  destruct (decide (j / PAGES_PER_BYTE = i / PAGES_PER_BYTE)) as [He|Hne].
  - rewrite (is_visible_bit _ j (f b)); [|cbn; lia|cbn [vm_data]; rewrite He; by apply get_insert].
    rewrite Hf by done. f_equal. rewrite He, Hb in Hc. injection Hc as <-.
    destruct (decide (j = i)) as [->|Hji]; [by rewrite decide_True|].
    rewrite decide_False by (intros Hmod; apply Hji; apply page_index_split; done || lia).
    specialize (Hm j Hj). rewrite (is_visible_bit _ j b) in Hm by (lia || by rewrite He).
    injection Hm as ->. by rewrite bool_decide_eq_true_2.
  - rewrite (is_visible_bit _ j c); [|cbn; lia|cbn [vm_data]; rewrite get_insert_ne by (done || congruence); done]. rewrite decide_False by naive_solver.
    specialize (Hm j Hj). rewrite (is_visible_bit _ j c) in Hm by (lia || done).
    by rewrite bool_decide_eq_true_2 in Hm.
Qed.

Lemma testbit_one_shift n k : 0 <= n -> 0 <= k -> Z.testbit (Z.shiftl 1 k) n = bool_decide (n = k).
Proof.
  intros Hn Hk. rewrite Z.shiftl_1_l. case_bool_decide as E; [subst; by apply Z.pow2_bits_true|].
  apply Z.pow2_bits_false. lia.
Qed.

(** The map implements a set of page numbers: a new map is empty, marking adds
    one page, clearing removes one, numbers outside the map are ignored and never
    visible, and no operation panics. *)
Theorem vm_refines_set vm s i :
  vm_models vm s -> 0 <= i ->
  (exists vm', mark_all_visible i vm = Ok vm' /\ vm_num_pages vm' = vm_num_pages vm /\
     vm_models vm' (fun j => if decide (j = i) then true else s j)) /\
  (exists vm', clear_all_visible i vm = Ok vm' /\ vm_num_pages vm' = vm_num_pages vm /\
     vm_models vm' (fun j => if decide (j = i) then false else s j)).
Proof.
  intros Hm Hi.
  assert (Hmod : 0 <= i `mod` PAGES_PER_BYTE < 8) by (apply Z.mod_pos_bound; by vm_compute).
  unfold mark_all_visible, clear_all_visible. destruct (Z.leb_spec (vm_num_pages vm) i) as [Hout|Hin].
  - assert (Hsame : forall v, vm_models vm (fun j => if decide (j = i) then v else s j)).
    { intros v. destruct Hm as [Hwf Hm]. split; [done|]. intros j Hj. rewrite Hm by done.
      case_bool_decide; [|done]. rewrite decide_False by lia. done. }
    split; exists vm; auto.
  - split; apply vm_update; try done; intros b n Hn.
    + rewrite Z.lor_spec, testbit_one_shift by lia. case_bool_decide; case_decide; try done; [apply orb_true_r|apply orb_false_r].
    + rewrite Z.land_spec, Z.lxor_spec, testbit_one_shift by lia.
      assert (H255 : Z.testbit 255 n = true) by (change 255 with (Z.ones 8); apply Z.ones_spec_low; lia).
      rewrite H255. case_bool_decide; case_decide; try done; [apply andb_false_r|apply andb_true_r].
Qed.

Lemma vm_new_models n : is_u32 n -> vm_models (VisibilityMap_new n) (fun _ => false).
Proof.
  intros Hn. split; [by apply vm_new_wf|]. intros i Hi. rewrite andb_false_r.
  destruct (decide (i < n)) as [Hlt|]; [|apply is_visible_beyond; cbn; lia].
  destruct (vm_byte _ i (vm_new_wf n Hn)) as [b Hb]; [cbn; lia|].
  rewrite (is_visible_bit _ i b) by (done || (cbn; lia)).
  apply get_Some in Hb as [_ [-> _]%lookup_replicate]. by rewrite Z.bits_0.
Qed.

Lemma vm_refines_set_witness :
  exists vm', mark_all_visible 9 (VisibilityMap_new 20) = Ok vm' /\ vm_num_pages vm' = 20 /\
    vm_models vm' (fun j => if decide (j = 9) then true else false).
Proof.
  refine (proj1 (vm_refines_set (VisibilityMap_new 20) (fun _ => false) 9 (vm_new_models 20 _) _)).
  - vm_compute. split; [discriminate|reflexivity].
  - discriminate.
Defined.

(** A map that was written out is read back unchanged. *)
Theorem vm_roundtrip vm : is_u32 (vm_num_pages vm) -> vm_deserialize (vm_serialize vm) = Ok vm.
Proof.
  intros H. unfold vm_deserialize, vm_serialize. destruct (Z.ltb_spec (zlen (to_le 4 (vm_num_pages vm) ++ vm_data vm)) 4); [len|].
  rewrite read_le_here by done. rewrite ok_bind. rewrite drop_app_ge by (rewrite length_to_le; lia).
  rewrite length_to_le. by destruct vm.
Qed.

Lemma vm_roundtrip_witness : vm_deserialize (vm_serialize (VisibilityMap_new 20)) = Ok (VisibilityMap_new 20).
Proof. apply vm_roundtrip. vm_compute. split; [discriminate|reflexivity]. Defined.
