(* ===== verification/Toast.v ===== *)
(** Oversized attributes ([src/src/storage/toast.rs]): the decision to store a
    value out of line, its division into chunks, and reassembly. *)

From S2P Require Import Prelude Types.

Definition TOAST_THRESHOLD : Z := 2040.
Definition TOAST_MAX_CHUNK_SIZE : Z := 1996.

Record ToastPointer := {
  raw_size : Z;
  stored_size : Z;
  toast_table_oid : Oid;
  chunk_ids : list Z;
}.

Definition is_toasted (p : ToastPointer) : bool := TOAST_THRESHOLD <? raw_size p.

(** [data.len().div_ceil(TOAST_MAX_CHUNK_SIZE)]. *)
Definition chunk_count (data : bytes) : nat :=
  Z.to_nat ((zlen data + TOAST_MAX_CHUNK_SIZE - 1) / TOAST_MAX_CHUNK_SIZE).

Definition maybe_toast (data : bytes) (rel_oid : Oid) : option ToastPointer :=
  if zlen data <=? TOAST_THRESHOLD then None else
  Some {| raw_size := (zlen data) as_u32; stored_size := (zlen data) as_u32;
          toast_table_oid := (rel_oid + 1) as_u32;
          chunk_ids := (fun i => (Z.of_nat i) as_u32) <$> seq 0 (chunk_count data) |}.

(** [chunk_index * TOAST_MAX_CHUNK_SIZE] does not overflow for an index that a
    value held in memory can have. *)
Definition chunk_data (data : bytes) (chunk_index : nat) : option bytes :=
  let start := Z.of_nat chunk_index * TOAST_MAX_CHUNK_SIZE in
  if zlen data <=? start then None else
  let end_ := Z.min (start + TOAST_MAX_CHUNK_SIZE) (zlen data) in
  outcome_ok (slice start end_ data).

(** [sort_by_key(|c| c.0)], the stable sort by chunk number. *)
Fixpoint insert_by_key (c : Z * bytes) (l : list (Z * bytes)) : list (Z * bytes) :=
  match l with
  | [] => [c]
  | c' :: l' => if c.1 <=? c'.1 then c :: l else c' :: insert_by_key c l'
  end.

Definition sort_by_key (l : list (Z * bytes)) : list (Z * bytes) := foldr insert_by_key [] l.

(** [Vec::truncate] is [take]. *)
Definition detoast_chunks (chunks : list (Z * bytes)) (raw_size : Z) : bytes :=
  take (Z.to_nat raw_size) (concat (snd <$> sort_by_key chunks)).

(* ------------------------------------------------------------------ *)
(** ** The sort *)

Definition key_le (a b : Z * bytes) : Prop := a.1 <= b.1.

Lemma insert_by_key_perm c l : insert_by_key c l ≡ₚ c :: l.
Proof.
  induction l as [|c' l IH]; cbn; [done|]. case_match; [done|]. rewrite IH. apply Permutation_swap.
Qed.

Lemma insert_by_key_sorted c l : StronglySorted key_le l -> StronglySorted key_le (insert_by_key c l).
Proof.
  induction 1 as [|c' l Hs IH Hall]; cbn; [by repeat constructor|].
  destruct (Z.leb_spec c.1 c'.1) as [Hle|Hgt].
  - constructor; [by constructor|]. constructor; [done|].
    eapply Forall_impl; [apply Hall|]. unfold key_le. intros; lia.
  - constructor; [done|]. rewrite insert_by_key_perm. constructor; [unfold key_le; lia|done].
Qed.

Lemma sort_by_key_perm l : sort_by_key l ≡ₚ l.
Proof. induction l as [|c l IH]; cbn; [done|]. by rewrite insert_by_key_perm, IH. Qed.

Lemma sort_by_key_sorted l : StronglySorted key_le (sort_by_key l).
Proof. induction l; cbn; [constructor|by apply insert_by_key_sorted]. Qed.

(** Sorting a rearrangement of a list in strict key order gives that list. *)
Lemma sort_by_key_unique l l' :
  StronglySorted (fun a b => a.1 < b.1) l -> l' ≡ₚ l -> sort_by_key l' = l.
Proof.
  intros Hl Hp. apply (StronglySorted_unique_strong key_le).
  - intros a b Ha Hb Hab Hba. unfold key_le in *. rewrite sort_by_key_perm, Hp in Ha.
    assert (He : a.1 = b.1) by lia. clear -Hl Ha Hb He.
    induction Hl as [|c l _ IH Hall]; [by apply elem_of_nil in Ha|]. rewrite Forall_forall in Hall.
    apply elem_of_cons in Ha as [-> |Ha], Hb as [-> |Hb]; auto.
    + apply Hall in Hb. lia.
    + apply Hall in Ha. lia.
  - apply sort_by_key_sorted.
  - clear -Hl. induction Hl as [|c l _ IH Hall]; constructor; [done|].
    eapply Forall_impl; [apply Hall|]. unfold key_le. intros; lia.
  - by rewrite sort_by_key_perm.
Qed.

(* ------------------------------------------------------------------ *)
(** ** Chunks *)

Lemma chunk_data_value data i :
  Z.of_nat i * TOAST_MAX_CHUNK_SIZE < zlen data ->
  chunk_data data i = Some (take (Z.to_nat TOAST_MAX_CHUNK_SIZE) (drop (i * Z.to_nat TOAST_MAX_CHUNK_SIZE) data)).
Proof.
  unfold TOAST_MAX_CHUNK_SIZE. intros Hi. unfold chunk_data, TOAST_MAX_CHUNK_SIZE.
  rewrite (proj2 (Z.leb_gt _ _)) by lia. rewrite slice_ok by lia. cbn [outcome_ok]. f_equal.
  replace (Z.to_nat (Z.of_nat i * 1996)) with (i * Z.to_nat 1996)%nat by lia.
  destruct (decide (Z.of_nat i * 1996 + 1996 <= zlen data)).
  - f_equal. lia.
  - rewrite !take_ge; [done| |]; rewrite length_drop; lia.
Qed.

Lemma chunk_data_beyond data i : zlen data <= Z.of_nat i * TOAST_MAX_CHUNK_SIZE -> chunk_data data i = None.
Proof. intros Hi. unfold chunk_data. by rewrite (proj2 (Z.leb_le _ _)). Qed.

Lemma concat_chunks (n : nat) : (0 < n)%nat -> forall (k : nat) (data : bytes) (start : nat),
  (length data <= (start + k) * n)%nat ->
  concat ((fun i => take n (drop (i * n) data)) <$> seq start k) = drop (start * n) data.
Proof.
  intros Hn. induction k as [|k IH]; intros data start Hl; cbn [seq fmap list_fmap concat].
  - symmetry. apply drop_ge. lia.
  - change (list_fmap _ _ ?f ?l) with (f <$> l). rewrite IH by lia.
    replace (S start * n)%nat with (start * n + n)%nat by lia. rewrite <- drop_drop. apply take_drop.
Qed.

(** The chunks a toasted value is stored as, in order of their numbers. *)
Definition toast_chunks (p : ToastPointer) (data : bytes) : list (Z * bytes) :=
  (fun i => (i, default [] (chunk_data data (Z.to_nat i)))) <$> chunk_ids p.

Lemma chunk_count_bound data :
  zlen data <= Z.of_nat (chunk_count data) * TOAST_MAX_CHUNK_SIZE < zlen data + TOAST_MAX_CHUNK_SIZE.
Proof.
  unfold chunk_count, TOAST_MAX_CHUNK_SIZE.
  pose proof (Z.div_mod (zlen data + 1996 - 1) 1996 ltac:(lia)).
  pose proof (Z.mod_pos_bound (zlen data + 1996 - 1) 1996 ltac:(lia)).
  assert (0 <= (zlen data + 1996 - 1) / 1996) by (apply Z.div_pos; lia). lia.
Qed.

Lemma toast_chunks_value data rel_oid p :
  maybe_toast data rel_oid = Some p -> zlen data < 2 ^ 32 ->
  toast_chunks p data = (fun i => (Z.of_nat i, take (Z.to_nat TOAST_MAX_CHUNK_SIZE)
    (drop (i * Z.to_nat TOAST_MAX_CHUNK_SIZE) data))) <$> seq 0 (chunk_count data).
Proof.
  unfold maybe_toast, toast_chunks. case_match; [done|]. intros [= <-] Hmax. cbn [chunk_ids].
  rewrite <- list_fmap_compose. apply list_fmap_ext. intros k i Hi%lookup_seq. destruct Hi as [-> Hi].
  pose proof (chunk_count_bound data) as Hb. unfold TOAST_MAX_CHUNK_SIZE in Hb.
  cbn [compose Nat.add]. rewrite wrap_small by (unfold in_width; lia). rewrite Nat2Z.id.
  rewrite chunk_data_value; [done|]. unfold TOAST_MAX_CHUNK_SIZE. lia.
Qed.

(** A value is stored out of line exactly when it is longer than the threshold;
    every numbered chunk exists, none is longer than the maximum, there is no
    further chunk, and reassembling the chunks in whatever order they are fetched
    gives the value back. *)
Theorem toast_roundtrip data rel_oid :
  zlen data < 2 ^ 32 ->
  match maybe_toast data rel_oid with
  | None => zlen data <= TOAST_THRESHOLD
  | Some p =>
      TOAST_THRESHOLD < zlen data /\ is_toasted p = true /\
      Forall (fun c => 0 < zlen c.2 <= TOAST_MAX_CHUNK_SIZE) (toast_chunks p data) /\
      chunk_data data (length (chunk_ids p)) = None /\
      forall fetched, fetched ≡ₚ toast_chunks p data -> detoast_chunks fetched (raw_size p) = data
  end.
Proof.
  intros Hmax. destruct (maybe_toast data rel_oid) as [p|] eqn:Ep.
  2:{ unfold maybe_toast in Ep. destruct (Z.leb_spec (zlen data) TOAST_THRESHOLD); [done|discriminate]. }
  pose proof (toast_chunks_value data rel_oid p Ep Hmax) as Hval. rewrite Hval.
  pose proof (chunk_count_bound data) as Hb.
  unfold maybe_toast in Ep. destruct (Z.leb_spec (zlen data) TOAST_THRESHOLD) as [|Hgt]; [discriminate|].
  injection Ep as <-. unfold is_toasted. cbn [raw_size chunk_ids].
  rewrite wrap_small by (unfold in_width; lia). split_and!.
  - done.
  - by apply Z.ltb_lt.
  - apply Forall_fmap, Forall_forall. intros i Hi%list_elem_of_In%in_seq. cbn.
    unfold TOAST_MAX_CHUNK_SIZE in *. rewrite length_take, length_drop. lia.
  - rewrite length_fmap, length_seq. apply chunk_data_beyond. lia.
  - intros fetched Hp. unfold detoast_chunks.
    erewrite (sort_by_key_unique _ fetched); [|clear Hval|exact Hp].
    + rewrite <- list_fmap_compose.
      change (snd ∘ (fun i : nat => (Z.of_nat i, take (Z.to_nat TOAST_MAX_CHUNK_SIZE)
        (drop (i * Z.to_nat TOAST_MAX_CHUNK_SIZE) data)))) with
        (fun i => take (Z.to_nat TOAST_MAX_CHUNK_SIZE) (drop (i * Z.to_nat TOAST_MAX_CHUNK_SIZE) data)).
      unfold TOAST_MAX_CHUNK_SIZE in *. rewrite concat_chunks by lia. rewrite Nat.mul_0_l, drop_0.
      rewrite take_ge; [done|lia].
    + generalize (chunk_count data) 0%nat. intros n. induction n as [|n IH]; intros start; cbn; constructor.
      * apply IH.
      * apply Forall_fmap, Forall_forall. intros i Hi%list_elem_of_In%in_seq. cbn. lia.
Qed.

Lemma toast_roundtrip_witness :
  detoast_chunks [(1, drop 1996 (replicate (Z.to_nat 3000) 7)); (0, take 1996 (replicate (Z.to_nat 3000) 7))] 3000
  = replicate (Z.to_nat 3000) 7.
Proof.
  pose proof (toast_roundtrip (replicate (Z.to_nat 3000) 7) 1) as H.
  assert (E : maybe_toast (replicate (Z.to_nat 3000) 7) 1 =
    Some {| raw_size := 3000; stored_size := 3000; toast_table_oid := 2; chunk_ids := [0; 1] |}) by (by vm_compute).
  rewrite E in H. destruct H as (_ & _ & _ & _ & H); [by vm_compute|].
  apply H. change (toast_chunks _ ?d) with (toast_chunks {| raw_size := 3000; stored_size := 3000; toast_table_oid := 2; chunk_ids := [0; 1] |} d).
  match goal with |- _ ≡ₚ ?r => let v := eval vm_compute in r in change r with v end. apply Permutation_swap.
Defined.
