(* ===== verification/Utf8.v ===== *)
(** UTF-8 as the Rust standard library checks it: [str::from_utf8] and
    [String::from_utf8_lossy]. A [String] is its list of bytes. *)

From S2P Require Import Prelude.

Definition between (lo hi b : Z) : bool := (lo <=? b) && (b <=? hi).

(** Whether a continuation byte in a range comes next. *)
Definition next_in (lo hi : Z) (rest : bytes) : bool :=
  match rest with b :: _ => between lo hi b | [] => false end.

(** The first sequence of a nonempty byte string: how many bytes it takes and
    whether they are a character; else they are the longest prefix that could
    have become one, which is what the lossy conversion replaces at once. *)
Definition utf8_unit (b : Z) (rest : bytes) : nat * bool :=
  let second lo hi len :=
    if next_in lo hi rest then
      match len with
      | 2%nat => (2%nat, true)
      | _ =>
          if next_in 128 191 (drop 1 rest) then
            match len with
            | 3%nat => (3%nat, true)
            | _ => if next_in 128 191 (drop 2 rest) then (4%nat, true) else (3%nat, false)
            end
          else (2%nat, false)
      end
    else (1%nat, false) in
  if between 0 127 b then (1%nat, true)
  else if between 194 223 b then second 128 191 2%nat
  else if b =? 224 then second 160 191 3%nat
  else if between 225 236 b then second 128 191 3%nat
  else if b =? 237 then second 128 159 3%nat
  else if between 238 239 b then second 128 191 3%nat
  else if b =? 240 then second 144 191 4%nat
  else if between 241 243 b then second 128 191 4%nat
  else if b =? 244 then second 128 143 4%nat
  else (1%nat, false).

Fixpoint utf8_check (fuel : nat) (data : bytes) : bool :=
  match fuel, data with
  | _, [] => true
  | O, _ => false
  | S fuel, b :: rest =>
      let '(n, ok) := utf8_unit b rest in ok && utf8_check fuel (drop n data)
  end.

(** Every unit takes a byte at least, so the length is fuel enough. *)
Definition is_utf8 (data : bytes) : bool := utf8_check (length data) data.

Definition valid_utf8 (data : bytes) : Prop := is_utf8 data = true.

(** [str::from_utf8]. *)
Definition from_utf8 (data : bytes) : option bytes := if is_utf8 data then Some data else None.

(** U+FFFD. *)
Definition replacement : bytes := [239; 191; 189].

Fixpoint lossy_loop (fuel : nat) (data : bytes) : bytes :=
  match fuel, data with
  | S fuel, b :: rest =>
      let '(n, ok) := utf8_unit b rest in
      (if ok then take n data else replacement) ++ lossy_loop fuel (drop n data)
  | _, _ => []
  end.

Definition from_utf8_lossy (data : bytes) : bytes := lossy_loop (length data) data.

Lemma utf8_unit_pos b rest : (1 <= (utf8_unit b rest).1)%nat.
Proof. unfold utf8_unit. repeat case_match; cbn; lia. Qed.

(** Text that is UTF-8 goes through the lossy conversion unchanged. *)
Lemma lossy_valid data : valid_utf8 data -> from_utf8_lossy data = data.
Proof.
  unfold valid_utf8, is_utf8, from_utf8_lossy. generalize (length data) as fuel. intros fuel.
  revert data. induction fuel as [|fuel IH]; intros [|b rest]; cbn [utf8_check lossy_loop]; try done.
  destruct (utf8_unit b rest) as [n ok] eqn:E. intros [-> Hc]%andb_true_iff. rewrite IH by done. apply take_drop.
Qed.

(** Fuel beyond the length changes nothing. *)
Lemma utf8_check_fuel fuel fuel' data :
  (length data <= fuel)%nat -> (length data <= fuel')%nat -> utf8_check fuel data = utf8_check fuel' data.
Proof.
  revert fuel' data. induction fuel as [|fuel IH]; intros [|fuel'] [|b rest] H H'; cbn in H, H'; try lia; try done.
  cbn [utf8_check]. pose proof (utf8_unit_pos b rest). destruct (utf8_unit b rest) as [n ok]. cbn [fst] in *.
  f_equal. apply IH; rewrite length_drop; cbn; lia.
Qed.

Lemma ascii_utf8 data : Forall (fun b => 0 <= b < 128) data -> valid_utf8 data.
Proof.
  unfold valid_utf8, is_utf8. induction 1 as [|b rest Hb _ IH]; [done|]. cbn [length utf8_check].
  unfold utf8_unit, between. rewrite (proj2 (Z.leb_le 0 b)), (proj2 (Z.leb_le b 127)) by lia. exact IH.
Qed.

Lemma next_in_app lo hi k r x :
  next_in lo hi (drop k r) = true -> next_in lo hi (drop k (r ++ x)) = true /\ (k < length r)%nat.
Proof.
  intros Hn. assert (Hk : (k < length r)%nat).
  { destruct (decide (k < length r)%nat) as [|Hk]; [done|]. by rewrite drop_ge in Hn by lia. }
  split; [|done]. rewrite drop_app_le by lia. by destruct (drop k r).
Qed.

(** A character is the same whatever follows it. *)
Lemma utf8_unit_app b rest x n : utf8_unit b rest = (n, true) -> utf8_unit b (rest ++ x) = (n, true) /\ (n <= S (length rest))%nat.
Proof.
  assert (H0 : forall lo hi, next_in lo hi rest = true -> next_in lo hi (rest ++ x) = true /\ (0 < length rest)%nat)
    by (intros lo hi; apply (next_in_app lo hi 0)).
  assert (H1 : forall lo hi, next_in lo hi (drop 1 rest) = true -> next_in lo hi (drop 1 (rest ++ x)) = true /\ (1 < length rest)%nat)
    by (intros lo hi; apply (next_in_app lo hi 1)).
  assert (H2 : forall lo hi, next_in lo hi (drop 2 rest) = true -> next_in lo hi (drop 2 (rest ++ x)) = true /\ (2 < length rest)%nat)
    by (intros lo hi; apply (next_in_app lo hi 2)).
  unfold utf8_unit. intros E.
  repeat match type of E with
  | (if ?c then _ else _) = _ =>
      match c with
      | next_in ?lo ?hi rest => destruct (next_in lo hi rest) eqn:E0; [destruct (H0 _ _ E0) as [-> ?]|discriminate]
      | next_in ?lo ?hi (drop 1 rest) => destruct (next_in lo hi (drop 1 rest)) eqn:E1; [destruct (H1 _ _ E1) as [-> ?]|discriminate]
      | next_in ?lo ?hi (drop 2 rest) => destruct (next_in lo hi (drop 2 rest)) eqn:E2; [destruct (H2 _ _ E2) as [-> ?]|discriminate]
      | _ => destruct c
      end
  end; injection E as <-; (split; [done|lia]).
Qed.

Lemma utf8_check_mono fuel fuel' data : utf8_check fuel data = true -> (fuel <= fuel')%nat -> utf8_check fuel' data = true.
Proof.
  revert fuel' data. induction fuel as [|fuel IH]; intros [|fuel'] [|b rest] Hd Hf; try done; [lia|]. cbn [utf8_check] in *.
  destruct (utf8_unit b rest) as [n ok]. apply andb_true_iff in Hd as [-> Hd]. apply IH; [done|lia].
Qed.

Lemma utf8_check_app fuel fuel' a b :
  utf8_check fuel a = true -> utf8_check fuel' b = true -> utf8_check (fuel + fuel') (a ++ b) = true.
Proof.
  revert a. induction fuel as [|fuel IH]; intros [|c rest] Ha Hb; try done; [by apply (utf8_check_mono fuel'); [|lia]|].
  cbn [utf8_check app plus Nat.add] in *. destruct (utf8_unit c rest) as [n ok] eqn:E. apply andb_true_iff in Ha as [-> Ha].
  destruct (utf8_unit_app c rest b n E) as [-> Hn]. cbn [andb].
  replace (drop n (c :: rest ++ b)) with (drop n (c :: rest) ++ b); [by apply IH|].
  change (c :: rest ++ b) with ((c :: rest) ++ b). rewrite drop_app_le; [done|]. cbn. lia.
Qed.

(** Valid text followed by valid text is valid. *)
Lemma valid_app a b : valid_utf8 a -> valid_utf8 b -> valid_utf8 (a ++ b).
Proof. unfold valid_utf8, is_utf8. intros Ha Hb. rewrite length_app. by apply utf8_check_app. Qed.

(** An overlong or cut sequence is replaced, once for each maximal prefix. *)
Example lossy_replaces :
  from_utf8_lossy [65; 226; 130; 66; 192; 128] = [65] ++ replacement ++ [66] ++ replacement ++ replacement.
Proof. reflexivity. Qed.
