(* ===== verification/BTreePage.v ===== *)
(** B-tree pages ([src/src/btree/page.rs], and the page format of
    [btree/insert.rs]): the order of keys, sorted insertion and splitting of a
    page, and the encoding of a page into a fixed-size block. *)

From S2P Require Import Prelude Types.

(* ------------------------------------------------------------------ *)
(** ** Keys *)

(** The order of [&[u8]]: lexicographic. *)
Fixpoint key_cmp (a b : bytes) : comparison :=
  match a, b with
  | [], [] => Eq
  | [], _ => Lt
  | _, [] => Gt
  | x :: a', y :: b' => match x ?= y with Eq => key_cmp a' b' | c => c end
  end.

Definition key_leb (a b : bytes) : bool := match key_cmp a b with Gt => false | _ => true end.
Definition key_ltb (a b : bytes) : bool := match key_cmp a b with Lt => true | _ => false end.
Definition key_eqb (a b : bytes) : bool := match key_cmp a b with Eq => true | _ => false end.

Definition key_le (a b : bytes) : Prop := key_leb a b = true.
Definition key_lt (a b : bytes) : Prop := key_ltb a b = true.

Lemma key_cmp_eq a b : key_cmp a b = Eq <-> a = b.
Proof.
  revert b. induction a as [|x a IH]; intros [|y b]; cbn; try (split; congruence).
  destruct (Z.compare_spec x y); rewrite ?IH; split; intros H1; try congruence; naive_solver lia.
Qed.

Lemma key_cmp_antisym a b : key_cmp b a = CompOpp (key_cmp a b).
Proof.
  revert b. induction a as [|x a IH]; intros [|y b]; cbn; try done.
  rewrite Z.compare_antisym. destruct (x ?= y); cbn; auto.
Qed.

Lemma key_lt_trans a b c : key_lt a b -> key_lt b c -> key_lt a c.
Proof.
  unfold key_lt, key_ltb. revert b c. induction a as [|x a IH]; intros [|y b] [|z c]; cbn; try done.
  destruct (Z.compare_spec x y), (Z.compare_spec y z), (Z.compare_spec x z); try done; try lia; subst; intros; try lia; eauto.
Qed.

Lemma key_le_lteq a b : key_le a b <-> key_lt a b \/ a = b.
Proof.
  unfold key_le, key_lt, key_leb, key_ltb. pose proof (key_cmp_eq a b).
  destruct (key_cmp a b); naive_solver.
Qed.

Lemma key_nle_lt a b : key_leb a b = false <-> key_lt b a.
Proof. unfold key_lt, key_leb, key_ltb. rewrite (key_cmp_antisym a b). by destruct (key_cmp a b). Qed.

Lemma key_nlt_le a b : key_ltb a b = false <-> key_le b a.
Proof. unfold key_le, key_leb, key_ltb. rewrite (key_cmp_antisym a b). by destruct (key_cmp a b). Qed.

Lemma key_eqb_eq a b : key_eqb a b = true <-> a = b.
Proof. unfold key_eqb. rewrite <- key_cmp_eq. by destruct (key_cmp a b). Qed.

Lemma key_eqb_refl a : key_eqb a a = true.
Proof. by apply key_eqb_eq. Qed.

Lemma key_lt_irrefl a : ~ key_lt a a.
Proof. unfold key_lt, key_ltb. by rewrite (proj2 (key_cmp_eq a a)). Qed.

#[export] Instance key_le_preorder : PreOrder key_le.
Proof.
  split.
  - intros a. apply key_le_lteq. by right.
  - intros a b c. rewrite !key_le_lteq. intros [?| ->] [?| ->]; eauto using key_lt_trans.
Qed.

Lemma key_lt_le_trans a b c : key_lt a b -> key_le b c -> key_lt a c.
Proof. rewrite key_le_lteq. intros ? [?| ->]; eauto using key_lt_trans. Qed.

Lemma key_le_lt_trans a b c : key_le a b -> key_lt b c -> key_lt a c.
Proof. rewrite key_le_lteq. intros [?| ->] ?; eauto using key_lt_trans. Qed.

(* ------------------------------------------------------------------ *)
(** ** Pages in memory *)

Inductive BTreePageType := Meta | Root | Internal | Leaf | Overflow.

#[export] Instance BTreePageType_eq_dec : EqDecision BTreePageType.
Proof. solve_decision. Defined.

Record IndexTuple := {
  it_key : bytes;
  heap_pointer : Z * Z;
  heap_oid : Oid;
}.

Record BTreePage := {
  bp_type : BTreePageType;
  bp_id : PageId;
  bp_level : Z;
  bp_keys : list IndexTuple;
  left_sibling : option PageId;
  right_sibling : option PageId;
}.

Definition BTreePage_new (page_type : BTreePageType) (page_id : PageId) : BTreePage :=
  {| bp_type := page_type; bp_id := page_id; bp_level := 0; bp_keys := []; left_sibling := None;
     right_sibling := None |}.

Definition with_keys (p : BTreePage) (ks : list IndexTuple) : BTreePage :=
  {| bp_type := bp_type p; bp_id := bp_id p; bp_level := bp_level p; bp_keys := ks;
     left_sibling := left_sibling p; right_sibling := right_sibling p |}.
Definition with_type (p : BTreePage) (ty : BTreePageType) : BTreePage :=
  {| bp_type := ty; bp_id := bp_id p; bp_level := bp_level p; bp_keys := bp_keys p;
     left_sibling := left_sibling p; right_sibling := right_sibling p |}.

Definition is_full (page_size : Z) (p : BTreePage) : bool := page_size / 64 <=? zlen (bp_keys p).

(** [slice::binary_search_by]: the loop narrows [left, right); [inl] is a match,
    [inr] the place to insert. *)
Fixpoint search_between (fuel : nat) (keys : list IndexTuple) (key : bytes) (left right : nat) : nat + nat :=
  match fuel with
  | O => inr left
  | S fuel =>
      if decide (left < right)%nat then
        let mid := (left + (right - left) / 2)%nat in
        match keys !! mid with
        | None => inr left
        | Some t =>
            match key_cmp (it_key t) key with
            | Lt => search_between fuel keys key (mid + 1) right
            | Gt => search_between fuel keys key left mid
            | Eq => inl mid
            end
        end
      else inr left
  end.

Definition binary_search (keys : list IndexTuple) (key : bytes) : nat + nat :=
  search_between (S (length keys)) keys key 0 (length keys).

Definition insert_sorted (tuple : IndexTuple) (p : BTreePage) : BTreePage :=
  let pos := match binary_search (bp_keys p) (it_key tuple) with inl i => i | inr i => i end in
  with_keys p (insert_at pos tuple (bp_keys p)).

(** [split_at]: the page that keeps the first keys, and the new right page;
    [split_off] panics past the end. *)
Definition split_at (split_pos : nat) (p : BTreePage) : outcome (BTreePage * BTreePage) :=
  if decide (length (bp_keys p) < split_pos)%nat then Panic else
  let right := {| bp_type := bp_type p; bp_id := 0; bp_level := bp_level p;
                  bp_keys := drop split_pos (bp_keys p); left_sibling := None; right_sibling := None |} in
  Ok (with_keys p (take split_pos (bp_keys p)), right).

Record BTreeMetaPage := {
  meta_magic : Z;
  meta_version : Z;
  meta_root_page : PageId;
  meta_fast_root : option PageId;
  meta_height : Z;
  meta_page_size : Z;
}.

Definition BTreeMetaPage_new (root_page : PageId) : BTreeMetaPage :=
  {| meta_magic := 0x805842; meta_version := 1; meta_root_page := root_page; meta_fast_root := None;
     meta_height := 1; meta_page_size := 8192 |}.

(* ------------------------------------------------------------------ *)
(** ** Pages on disk *)

Definition type_byte (ty : BTreePageType) : Z :=
  match ty with Meta => 0 | Root => 1 | Internal => 2 | Leaf => 3 | Overflow => 4 end.

(** The loop over the entries: it stops at the first one that does not fit. *)
Fixpoint write_entries (page_size : Z) (keys : list IndexTuple) (pos : Z) (data : bytes) : outcome bytes :=
  match keys with
  | [] => Ok data
  | t :: rest =>
      let key_len := (zlen (it_key t)) as_u32 in
      if page_size <? pos + 4 + key_len + 6 then Ok data else
      data ← copy_at pos (to_le 4 key_len) data;
      let pos := pos + 4 in
      data ← (if key_len =? zlen (it_key t) then copy_at pos (it_key t) data else Panic);
      let pos := pos + key_len in
      data ← copy_at pos (to_le 4 (heap_pointer t).1) data;
      let pos := pos + 4 in
      data ← copy_at pos (to_le 2 (heap_pointer t).2) data;
      write_entries page_size rest (pos + 2) data
  end.

Definition sibling_id (s : option PageId) : Z := match s with Some p => p | None => 0 end.

Definition serialize_page (page_size : Z) (p : BTreePage) : outcome bytes :=
  let data := replicate (Z.to_nat page_size) 0 in
  data ← set_at 0 (type_byte (bp_type p)) data;
  data ← copy_at 1 (to_le 2 (bp_level p)) data;
  data ← copy_at 3 (to_le 2 ((zlen (bp_keys p)) as_u16)) data;
  data ← copy_at 8 (to_le 4 (sibling_id (left_sibling p))) data;
  data ← copy_at 12 (to_le 4 (sibling_id (right_sibling p))) data;
  write_entries page_size (bp_keys p) 64 data.

Definition byte_type (b : Z) : BTreePageType :=
  if b =? 0 then Leaf else if b =? 1 then Root else if b =? 2 then Internal
  else if b =? 3 then Leaf else if b =? 4 then Overflow else Leaf.

(** The loop over [num_keys] entries: it stops at the end of the data or at an
    entry of length zero. *)
Fixpoint read_entries (num_keys : nat) (pos : Z) (data : bytes) : outcome (list IndexTuple) :=
  match num_keys with
  | O => Ok []
  | S n =>
      if zlen data <? pos + 4 + 6 then Ok [] else
      key_len ← read_le 4 pos data;
      if (key_len =? 0) || (zlen data <? pos + 4 + key_len + 6) then Ok [] else
      let pos := pos + 4 in
      key ← slice pos (pos + key_len) data;
      let pos := pos + key_len in
      heap_page ← read_le 4 pos data;
      let pos := pos + 4 in
      heap_offset ← read_le 2 pos data;
      rest ← read_entries n (pos + 2) data;
      Ok ({| it_key := key; heap_pointer := (heap_page, heap_offset); heap_oid := 0 |} :: rest)
  end.

Definition sibling_of (v : Z) : option PageId := if v =? 0 then None else Some v.

Definition deserialize_page (page_id : PageId) (data : bytes) : outcome BTreePage :=
  if zlen data <? 16 then Ok (BTreePage_new Leaf page_id) else
  ty ← index 0 data;
  level ← read_le 2 1 data;
  num_keys ← read_le 2 3 data;
  left_val ← read_le 4 8 data;
  right_val ← read_le 4 12 data;
  keys ← read_entries (Z.to_nat num_keys) 64 data;
  Ok {| bp_type := byte_type ty; bp_id := page_id; bp_level := level; bp_keys := keys;
        left_sibling := sibling_of left_val; right_sibling := sibling_of right_val |}.

(* ------------------------------------------------------------------ *)
(** ** Sorted insertion *)

Definition keys_sorted (keys : list IndexTuple) : Prop := StronglySorted (fun a b => key_le (it_key a) (it_key b)) keys.

Lemma sorted_lookup keys i j a b :
  keys_sorted keys -> (i <= j)%nat -> keys !! i = Some a -> keys !! j = Some b -> key_le (it_key a) (it_key b).
Proof.
  intros Hs. revert i j. induction Hs as [|c keys _ IH Hall]; intros [|i] [|j] Hij Hi Hj; cbn in *; try done; try lia.
  - simplify_eq. reflexivity.
  - simplify_eq. rewrite Forall_forall in Hall. apply Hall. by eapply list_elem_of_lookup_2.
  - apply (IH i j); auto. lia.
Qed.

(** The contract of the search on a sorted slice. *)
Definition search_result_ok (keys : list IndexTuple) (key : bytes) (r : nat + nat) : Prop :=
  match r with
  | inl i => exists t, keys !! i = Some t /\ it_key t = key
  | inr i => (i <= length keys)%nat /\
      (forall j t, (j < i)%nat -> keys !! j = Some t -> key_lt (it_key t) key) /\
      (forall j t, (i <= j)%nat -> keys !! j = Some t -> key_lt key (it_key t))
  end.

Lemma search_between_ok fuel keys key left right :
  keys_sorted keys -> (left <= right <= length keys)%nat -> (right - left < fuel)%nat ->
  (forall j t, (j < left)%nat -> keys !! j = Some t -> key_lt (it_key t) key) ->
  (forall j t, (right <= j)%nat -> keys !! j = Some t -> key_lt key (it_key t)) ->
  search_result_ok keys key (search_between fuel keys key left right).
Proof.
  intros Hs. revert left right. induction fuel as [|fuel IH]; intros left right Hb Hf Hl Hr; [lia|].
  cbn [search_between]. case_decide as Hlt.
  2:{ replace left with right in * by lia. split_and!; [lia|done|done]. }
  set (mid := (left + (right - left) / 2)%nat).
  assert (Hdiv : ((right - left) / 2 < right - left)%nat) by (apply Nat.div_lt; lia).
  assert (Hmid : (left <= mid < right)%nat) by (unfold mid; lia).
  destruct (lookup_lt_is_Some_2 keys mid) as [t Ht]; [lia|]. rewrite Ht.
  destruct (key_cmp (it_key t) key) eqn:E.
  - exists t. split; [done|]. by apply key_cmp_eq.
  - apply IH; [lia|lia| |done]. intros j u Hj Hu.
    apply (key_le_lt_trans _ (it_key t)); [apply (sorted_lookup keys j mid); auto; lia|].
    unfold key_lt, key_ltb. by rewrite E.
  - apply IH; [lia|lia|done|]. intros j u Hj Hu.
    apply (key_lt_le_trans _ (it_key t)); [|apply (sorted_lookup keys mid j); auto; lia].
    unfold key_lt, key_ltb. by rewrite key_cmp_antisym, E.
Qed.

Lemma binary_search_ok keys key : keys_sorted keys -> search_result_ok keys key (binary_search keys key).
Proof.
  intros Hs. apply search_between_ok; [done|lia|lia|lia|]. intros j t Hj Ht%lookup_lt_Some. lia.
Qed.

Lemma insert_at_sorted i t keys :
  keys_sorted keys -> (i <= length keys)%nat ->
  (forall j u, (j < i)%nat -> keys !! j = Some u -> key_le (it_key u) (it_key t)) ->
  (forall j u, (i <= j)%nat -> keys !! j = Some u -> key_le (it_key t) (it_key u)) ->
  keys_sorted (insert_at i t keys).
Proof.
  intros Hs. revert i. induction Hs as [|c keys Hs IH Hall]; intros [|i] Hi Hbefore Hafter; cbn in *; try lia.
  - repeat constructor.
  - constructor; [by constructor|]. apply Forall_forall. intros u [j Hj]%list_elem_of_lookup. apply (Hafter j); [lia|done].
  - unfold insert_at in *. cbn. constructor.
    + apply IH; [lia| |].
      * intros j u Hj Hu. apply (Hbefore (S j)); [lia|done].
      * intros j u Hj Hu. apply (Hafter (S j)); [lia|done].
    + rewrite <- Permutation_middle, take_drop. constructor; [|done]. apply (Hbefore 0%nat); [lia|done].
Qed.

(** Inserting into a sorted page gives a sorted page with exactly one more entry,
    wherever the binary search lands among equal keys, and touches nothing else. *)
Lemma insert_sorted_ok t p :
  keys_sorted (bp_keys p) ->
  keys_sorted (bp_keys (insert_sorted t p)) /\ bp_keys (insert_sorted t p) ≡ₚ t :: bp_keys p /\
  with_keys (insert_sorted t p) [] = with_keys p [].
Proof.
  intros Hs. split; [|split; [apply insert_at_perm|done]]. unfold insert_sorted. cbn [bp_keys with_keys].
  pose proof (binary_search_ok (bp_keys p) (it_key t) Hs) as Hok.
  destruct (binary_search _ _) as [i|i]; unfold search_result_ok in Hok.
  - destruct Hok as (u & Hu & He). assert (Hlt := lookup_lt_Some _ _ _ Hu).
    apply insert_at_sorted; [done|lia| |]; intros j v Hj Hv; rewrite <- He.
    + apply (sorted_lookup (bp_keys p) j i); auto; lia.
    + apply (sorted_lookup (bp_keys p) i j); auto.
  - destruct Hok as (Hle & Hb & Ha). apply insert_at_sorted; [done|done| |].
    + intros j v Hj Hv. apply key_le_lteq. left. eauto.
    + intros j v Hj Hv. apply key_le_lteq. left. eauto.
Qed.

(* ------------------------------------------------------------------ *)
(** ** The page format *)

Definition entry_bytes (t : IndexTuple) : bytes :=
  to_le 4 (zlen (it_key t)) ++ it_key t ++ to_le 4 (heap_pointer t).1 ++ to_le 2 (heap_pointer t).2.

Definition entry_size (t : IndexTuple) : Z := 10 + zlen (it_key t).

(** The entries [serialize_page] writes from [pos] on. *)
Fixpoint written (page_size pos : Z) (keys : list IndexTuple) : list IndexTuple :=
  match keys with
  | [] => []
  | t :: rest =>
      if page_size <? pos + entry_size t then [] else t :: written page_size (pos + entry_size t) rest
  end.

(** The entries before the first empty key, where reading stops. *)
Fixpoint until_empty (keys : list IndexTuple) : list IndexTuple :=
  match keys with
  | [] => []
  | t :: rest => if decide (it_key t = []) then [] else t :: until_empty rest
  end.

(** The format has no field for the relation. *)
Definition forget_oid (t : IndexTuple) : IndexTuple :=
  {| it_key := it_key t; heap_pointer := heap_pointer t; heap_oid := 0 |}.

(** What a page reads back as. *)
Definition stored_keys (page_size : Z) (keys : list IndexTuple) : list IndexTuple :=
  forget_oid <$> take (Z.to_nat ((zlen keys) as_u16)) (until_empty (written page_size 64 keys)).

Definition stored_page (page_size : Z) (p : BTreePage) : BTreePage :=
  {| bp_type := byte_type (type_byte (bp_type p)); bp_id := bp_id p; bp_level := bp_level p;
     bp_keys := stored_keys page_size (bp_keys p);
     left_sibling := sibling_of (sibling_id (left_sibling p));
     right_sibling := sibling_of (sibling_id (right_sibling p)) |}.

Record tuple_ok (t : IndexTuple) : Prop := {
  tok_len : zlen (it_key t) < 2 ^ 32;
  tok_page : is_u32 (heap_pointer t).1;
  tok_off : is_u16 (heap_pointer t).2;
}.

Record bpage_ok (p : BTreePage) : Prop := {
  bpo_level : is_u16 (bp_level p);
  bpo_left : is_u32 (sibling_id (left_sibling p));
  bpo_right : is_u32 (sibling_id (right_sibling p));
  bpo_keys : Forall tuple_ok (bp_keys p);
}.

Lemma length_entry_bytes t : zlen (entry_bytes t) = entry_size t.
Proof. unfold entry_bytes, entry_size. len. Qed.

Lemma copy_at_zeros (pre x : bytes) m off :
  off = zlen pre -> (length x <= m)%nat ->
  copy_at off x (pre ++ replicate m 0) = Ok ((pre ++ x) ++ replicate (m - length x) 0).
Proof.
  intros -> Hm. replace m with (length x + (m - length x))%nat at 1 by lia. rewrite replicate_add.
  rewrite copy_at_app by (try done; by rewrite length_replicate). by rewrite app_assoc.
Qed.

Lemma write_entries_ok page_size keys pre m :
  zlen pre + Z.of_nat m = page_size -> Forall tuple_ok keys ->
  exists m', write_entries page_size keys (zlen pre) (pre ++ replicate m 0) =
    Ok (pre ++ concat (entry_bytes <$> written page_size (zlen pre) keys) ++ replicate m' 0) /\
    zlen pre + zlen (concat (entry_bytes <$> written page_size (zlen pre) keys)) + Z.of_nat m' = page_size.
Proof.
  intros Hsize Hok. revert pre m Hsize. induction Hok as [|t keys [Hlen Hp Ho] _ IH]; intros pre m Hsize;
    cbn [write_entries written].
  { exists m. cbn. split; [done|lia]. }
  rewrite wrap_small by (unfold in_width; lia).
  replace (zlen pre + 4 + zlen (it_key t) + 6) with (zlen pre + entry_size t) by (unfold entry_size; lia).
  destruct (Z.ltb_spec page_size (zlen pre + entry_size t)) as [|Hfit].
  { exists m. cbn. split; [done|lia]. }
  unfold entry_size in Hfit. rewrite Z.eqb_refl.
  do 4 (rewrite copy_at_zeros, ok_bind by (rewrite ?length_app, ?length_to_le; lia); cbn beta).
  set (pre' := (((pre ++ _) ++ _) ++ _) ++ _). set (m' := (m - _ - _ - _ - _)%nat).
  assert (Hpre : pre' = pre ++ entry_bytes t) by (unfold pre', entry_bytes; by rewrite <- !app_assoc).
  assert (Hl : zlen pre' = zlen pre + entry_size t) by (rewrite Hpre, length_app; pose proof (length_entry_bytes t); lia).
  replace (zlen pre + 4 + zlen (it_key t) + 4 + 2) with (zlen pre') by (rewrite Hl; unfold entry_size; lia).
  destruct (IH pre' m') as (m2 & -> & Hm2).
  { unfold m'. rewrite !length_to_le. rewrite Hl. unfold entry_size. lia. }
  exists m2. rewrite <- Hl. split.
  - f_equal. rewrite Hpre. cbn [fmap list_fmap concat]. by rewrite <- !app_assoc.
  - cbn [fmap list_fmap concat]. rewrite Hl in Hm2 |- *. rewrite length_app. pose proof (length_entry_bytes t). lia.
Qed.

Lemma read_le_zeros n off (pre : bytes) m :
  off = zlen pre -> (n <= m)%nat -> read_le n off (pre ++ replicate m 0) = Ok 0.
Proof.
  intros -> Hm. unfold read_le. replace m with (n + (m - n))%nat by lia. rewrite replicate_add.
  rewrite slice_app_exact by (rewrite ?length_replicate; lia). cbn. f_equal.
  clear. induction n as [|n IH]; [done|]. cbn [replicate from_le]. lia.
Qed.

Lemma read_entries_ok ws n pre m :
  Forall tuple_ok ws ->
  read_entries n (zlen pre) (pre ++ concat (entry_bytes <$> ws) ++ replicate m 0) =
  Ok (forget_oid <$> take n (until_empty ws)).
Proof.
  intros Hok. revert n pre. induction Hok as [|t ws [Hlen Hp Ho] _ IH]; intros [|n] pre; cbn [read_entries]; try done.
  { cbn [fmap list_fmap concat app until_empty take]. destruct (Z.ltb_spec (zlen (pre ++ replicate m 0)) (zlen pre + 4 + 6)) as [|Hge]; [done|].
    rewrite length_app, length_replicate in Hge. rewrite read_le_zeros by lia. done. }
  cbn [fmap list_fmap concat until_empty]. rewrite <- app_assoc.
  set (tail := concat _ ++ replicate m 0). set (buf := pre ++ entry_bytes t ++ tail).
  pose proof (length_entry_bytes t) as Hel. unfold entry_size in Hel.
  assert (Hbl : zlen buf = zlen pre + (10 + zlen (it_key t)) + zlen tail) by (unfold buf; rewrite !length_app; lia).
  set (h1 := pre ++ to_le 4 (zlen (it_key t))). set (h2 := h1 ++ it_key t). set (h3 := h2 ++ to_le 4 (heap_pointer t).1).
  assert (Hb0 : buf = pre ++ to_le 4 (zlen (it_key t)) ++ (it_key t ++ to_le 4 (heap_pointer t).1 ++ to_le 2 (heap_pointer t).2 ++ tail)).
  { unfold buf, entry_bytes. by rewrite <- !app_assoc. }
  assert (Hb1 : buf = h1 ++ it_key t ++ (to_le 4 (heap_pointer t).1 ++ to_le 2 (heap_pointer t).2 ++ tail)).
  { rewrite Hb0. unfold h1. by rewrite <- !app_assoc. }
  assert (Hb2 : buf = h2 ++ to_le 4 (heap_pointer t).1 ++ (to_le 2 (heap_pointer t).2 ++ tail)).
  { rewrite Hb1. unfold h2. by rewrite <- !app_assoc. }
  assert (Hb3 : buf = h3 ++ to_le 2 (heap_pointer t).2 ++ tail).
  { rewrite Hb2. unfold h3. by rewrite <- !app_assoc. }
  assert (Hl1 : zlen h1 = zlen pre + 4) by (unfold h1; rewrite length_app, length_to_le; lia).
  assert (Hl2 : zlen h2 = zlen pre + 4 + zlen (it_key t)) by (unfold h2; rewrite length_app; lia).
  assert (Hl3 : zlen h3 = zlen pre + 4 + zlen (it_key t) + 4) by (unfold h3; rewrite length_app, length_to_le; lia).
  rewrite (proj2 (Z.ltb_ge _ _)) by lia.
  rewrite Hb0 at 1. rewrite read_le_app by (try done; lia). rewrite ok_bind.
  case_decide as He; [rewrite He; done|].
  assert (Hpos : 0 < zlen (it_key t)) by (destruct (it_key t); [done|cbn; lia]).
  rewrite (proj2 (Z.eqb_neq _ _)) by lia. cbn [orb]. rewrite (proj2 (Z.ltb_ge _ _)) by lia.
  rewrite Hb1 at 1. rewrite slice_app_exact by lia. rewrite ok_bind.
  rewrite Hb2 at 1. rewrite read_le_app by (exact Hp || lia). rewrite ok_bind.
  rewrite Hb3 at 1. rewrite read_le_app by (exact Ho || lia). rewrite ok_bind.
  replace (zlen pre + 4 + zlen (it_key t) + 4 + 2) with (zlen (pre ++ entry_bytes t)) by (rewrite length_app; lia).
  unfold buf. rewrite app_assoc. unfold tail. rewrite IH, ok_bind. by destruct t as [? [? ?] ?].
Qed.

Lemma written_ok page_size pos keys : Forall tuple_ok keys -> Forall tuple_ok (written page_size pos keys).
Proof.
  intros H. revert pos. induction H as [|t keys Ht _ IH]; intros pos; cbn; [done|].
  case_match; by constructor.
Qed.

Lemma page_codec page_size p :
  64 <= page_size -> bpage_ok p ->
  exists data, serialize_page page_size p = Ok data /\ zlen data = page_size /\
    deserialize_page (bp_id p) data = Ok (stored_page page_size p).
Proof.
  intros Hps [Hlv Hl Hr Hk]. unfold serialize_page.
  set (n := (zlen (bp_keys p)) as_u16). assert (Hn : is_u16 n) by (apply wrap_in_width; lia).
  replace (Z.to_nat page_size) with (S (2 + (2 + (3 + (4 + (4 + (48 + Z.to_nat (page_size - 64))))))))%nat by lia.
  cbn [replicate]. rewrite !replicate_add.
  rewrite set_at_ok by (cbn [length]; lia). rewrite ok_bind.
  match goal with |- context [<[Z.to_nat 0 := ?t]> (0 :: ?l)] => change (<[Z.to_nat 0 := t]> (0 :: l)) with ([t] ++ l) end.
  rewrite (copy_at_app 1 [type_byte (bp_type p)] (replicate 2 0)) by (cbn; done || by rewrite length_to_le). rewrite ok_bind.
  set (h1 := [type_byte (bp_type p)] ++ to_le 2 (bp_level p)).
  rewrite (app_assoc [type_byte (bp_type p)]). fold h1.
  assert (Hh1 : length h1 = 3%nat) by (unfold h1; by rewrite length_app, length_to_le).
  rewrite (copy_at_app 3 h1 (replicate 2 0)) by (rewrite ?Hh1, ?length_to_le; done). rewrite ok_bind.
  set (h2 := (h1 ++ to_le 2 n) ++ replicate 3 0).
  rewrite (app_assoc h1), (app_assoc (h1 ++ _) (replicate 3 0)). fold h2.
  assert (Hh2 : length h2 = 8%nat) by (unfold h2; rewrite !length_app, Hh1, length_to_le; done).
  rewrite (copy_at_app 8 h2 (replicate 4 0)) by (rewrite ?Hh2, ?length_to_le; done). rewrite ok_bind.
  set (h3 := h2 ++ to_le 4 (sibling_id (left_sibling p))). rewrite (app_assoc h2). fold h3.
  assert (Hh3 : length h3 = 12%nat) by (unfold h3; by rewrite length_app, Hh2, length_to_le).
  rewrite (copy_at_app 12 h3 (replicate 4 0)) by (rewrite ?Hh3, ?length_to_le; done). rewrite ok_bind.
  set (h4 := (h3 ++ to_le 4 (sibling_id (right_sibling p))) ++ replicate 48 0).
  rewrite (app_assoc h3), (app_assoc (h3 ++ _) (replicate 48 0)). fold h4.
  assert (Hh4 : zlen h4 = 64) by (unfold h4; by rewrite !length_app, Hh3, length_to_le, length_replicate).
  destruct (write_entries_ok page_size (bp_keys p) h4 (Z.to_nat (page_size - 64))) as (m' & Hw & Hm'); [lia|done|].
  rewrite Hh4 in Hw, Hm'. rewrite Hw. eexists. split; [done|].
  set (body := concat _) in *. split; [rewrite !length_app, length_replicate; lia|].
  unfold deserialize_page. destruct (Z.ltb_spec (zlen (h4 ++ body ++ replicate m' 0)) 16) as [Hlt|_];
    [rewrite length_app in Hlt; lia|].
  assert (Hall : h4 ++ body ++ replicate m' 0 = [type_byte (bp_type p)] ++ to_le 2 (bp_level p) ++ to_le 2 n ++ replicate 3 0 ++
    to_le 4 (sibling_id (left_sibling p)) ++ to_le 4 (sibling_id (right_sibling p)) ++ (replicate 48 0 ++ body ++ replicate m' 0)).
  { unfold h4, h3, h2, h1. by rewrite <- !app_assoc. }
  assert (Hf : forall k pre z post, h4 ++ body ++ replicate m' 0 = pre ++ to_le k z ++ post ->
    0 <= z < 2 ^ (8 * Z.of_nat k) -> forall off, off = zlen pre -> read_le k off (h4 ++ body ++ replicate m' 0) = Ok z).
  { intros k pre z post -> Hz off ->. by apply read_le_app. }
  rewrite Hall at 1. cbn [app]. change (index 0 (?x :: ?l)) with (Ok x). rewrite ok_bind.
  rewrite (Hf 2%nat [type_byte (bp_type p)] _ _ Hall Hlv 1 eq_refl). rewrite ok_bind.
  rewrite (Hf 2%nat h1 n _ ltac:(rewrite Hall; unfold h1; by rewrite <- !app_assoc) Hn 3 ltac:(by rewrite Hh1)). rewrite ok_bind.
  rewrite (Hf 4%nat h2 _ _ ltac:(rewrite Hall; unfold h2, h1; by rewrite <- !app_assoc) Hl 8 ltac:(by rewrite Hh2)). rewrite ok_bind.
  rewrite (Hf 4%nat h3 _ _ ltac:(rewrite Hall; unfold h3, h2, h1; by rewrite <- !app_assoc) Hr 12 ltac:(by rewrite Hh3)). rewrite ok_bind.
  rewrite <- Hh4 at 1. unfold body. rewrite read_entries_ok by (by apply written_ok). rewrite ok_bind. done.
Qed.
