(* ===== verification/BTree.v ===== *)
(** The B-tree over page storage ([src/src/btree/insert.rs], [search.rs], and the
    entry points of [executor/btree.rs]): single-page and splitting insertion as
    a state and error monad over a store and a page allocator, and search. *)

From S2P Require Import Prelude Types Storage BTreePage.

(* ------------------------------------------------------------------ *)
(** ** Pages in a store *)

Section pages.
Context {St : Type} `{Storage St}.

Definition btree_read_page (s : St) (page_id : PageId) : outcome BTreePage :=
  data ← read_page s page_id;
  if zlen data <? 16 then Ok (BTreePage_new Leaf page_id) else deserialize_page page_id data.

Definition btree_write_page (s : St) (page_id : PageId) (page : BTreePage) (page_size : Z) : outcome unit * St :=
  match serialize_page page_size page with
  | Ok data => write_page s page_id data
  | Err e => (Err e, s)
  | Panic => (Panic, s)
  end.

(** [btree_insert]: read the root, insert, write it back. *)
Definition btree_insert (s : St) (root_page : PageId) (tuple : IndexTuple) (page_size : Z) : outcome PageId * St :=
  match btree_read_page s root_page with
  | Ok page =>
      let '(r, s) := btree_write_page s root_page (insert_sorted tuple page) page_size in
      (_ ← r; Ok root_page, s)
  | Err e => (Err e, s)
  | Panic => (Panic, s)
  end.

(** The child whose separator is the last one not above the key; the first
    child when all are above it. *)
Fixpoint descend (child : PageId) (keys : list IndexTuple) (search_key : bytes) : PageId :=
  match keys with
  | [] => child
  | k :: rest =>
      if key_leb (it_key k) search_key then descend (heap_pointer k).1 rest search_key else child
  end.

Definition find_descend_child (page : BTreePage) (search_key : bytes) : PageId :=
  match bp_keys page with
  | [] => bp_id page
  | k :: _ => descend (heap_pointer k).1 (bp_keys page) search_key
  end.

Definition matching (search_key : bytes) (keys : list IndexTuple) : list IndexTuple :=
  List.filter (fun k => key_eqb (it_key k) search_key) keys.

(** [search_page]; [None] stands for fuel running out. *)
Fixpoint search_page (fuel : nat) (s : St) (page_id : PageId) (search_key : bytes) : option (outcome (list IndexTuple)) :=
  match fuel with
  | O => None
  | S fuel =>
      match btree_read_page s page_id with
      | Ok page =>
          match bp_type page with
          | Leaf | Overflow => Some (Ok (matching search_key (bp_keys page)))
          | Root | Internal => search_page fuel s (find_descend_child page search_key) search_key
          | Meta => Some (Ok [])
          end
      | Err _ => Some (Err (Anyhow "reading page {:?} during search" [page_id]))
      | Panic => Some Panic
      end
  end.

Definition btree_search := search_page.
End pages.

(* ------------------------------------------------------------------ *)
(** ** Insertion with splits *)

(** A computation over the store and the state of the page allocator; [None]
    stands for fuel running out. *)
Definition tree_m (St A X : Type) : Type := St * A -> option (outcome X * (St * A)).

#[export] Instance tree_ret {St A} : MRet (tree_m St A) := fun X x w => Some (Ok x, w).

#[export] Instance tree_bind {St A} : MBind (tree_m St A) := fun X Y f m w =>
  match m w with
  | Some (Ok x, w) => f x w
  | Some (Err e, w) => Some (Err e, w)
  | Some (Panic, w) => Some (Panic, w)
  | None => None
  end.

Section insert.
Context {P : Profile} {St A : Type} `{Storage St}.
Abbreviation M := (tree_m St A).
(** The closure [next_page_id]. *)
Variable next_page_id : A -> PageId * A.

Definition m_lift {X} (o : outcome X) : M X := fun w => Some (o, w).
Definition m_read (id : PageId) : M BTreePage := fun w => Some (btree_read_page w.1 id, w).
Definition m_write (id : PageId) (page : BTreePage) (page_size : Z) : M unit := fun w =>
  let '(r, s) := btree_write_page w.1 id page page_size in Some (r, (s, w.2)).
Definition m_alloc : M PageId := fun w =>
  let '(id, a) := next_page_id w.2 in Some (Ok id, (w.1, a)).

Definition with_pointer (t : IndexTuple) (id : PageId) : IndexTuple :=
  {| it_key := it_key t; heap_pointer := (id, 0); heap_oid := heap_oid t |}.

(** A fresh root over two children, both under the separator. *)
Definition two_child_root (id : PageId) (level : Z) (sep : IndexTuple) (left right : PageId) : BTreePage :=
  {| bp_type := Root; bp_id := id; bp_level := level;
     bp_keys := [with_pointer sep left; with_pointer sep right]; left_sibling := None; right_sibling := None |}.

Definition find_child_page_id (page : BTreePage) (key : bytes) : PageId :=
  match bp_keys page with
  | [] => bp_id page
  | k :: _ => descend (heap_pointer k).1 (bp_keys page) key
  end.

Definition as_right (right : BTreePage) (id level : Z) (left : PageId) : BTreePage :=
  {| bp_type := bp_type right; bp_id := id; bp_level := level; bp_keys := bp_keys right;
     left_sibling := Some left; right_sibling := right_sibling right |}.

Definition empty_sep : IndexTuple := {| it_key := []; heap_pointer := (0, 0); heap_oid := 0 |}.

(** The split of a full leaf, [page] being the leaf without the new tuple. *)
Definition split_leaf (page : BTreePage) (page_id : PageId) (tuple : IndexTuple) (page_size : Z) (is_root : bool) :
    M (option PageId) :=
  halves ← m_lift (split_at (length (bp_keys page) / 2) page);
  let '(page, rpage) := (halves : BTreePage * BTreePage) in
  right_id ← m_alloc;
  let first := match bp_keys rpage with k :: _ => it_key k | [] => [] end in
  let goes_left := key_ltb (it_key tuple) first in
  let page := if goes_left then insert_sorted tuple page else page in
  let rpage := if goes_left then rpage else insert_sorted tuple rpage in
  let push_up_key := head (bp_keys rpage) in
  let rpage := as_right rpage right_id (bp_level page) (bp_id page) in
  _ ← m_write page_id page page_size;
  _ ← m_write right_id rpage page_size;
  if is_root then
    new_root_id ← m_alloc;
    level ← m_lift (add_w 16 (bp_level page) 1);
    let sep := default empty_sep push_up_key in
    _ ← m_write new_root_id (two_child_root new_root_id level sep (bp_id page) right_id) page_size;
    mret (Some new_root_id)
  else mret (Some right_id).

Definition split_internal (page : BTreePage) (updated_child_id : PageId) (page_size : Z) : M (option PageId) :=
  halves ← m_lift (split_at (length (bp_keys page) / 2) page);
  let '(page, rpage) := (halves : BTreePage * BTreePage) in
  right_id ← m_alloc;
  let rpage := as_right rpage right_id (bp_level page) (bp_id page) in
  let rpage := with_keys rpage
    (match bp_keys rpage with k :: rest => with_pointer k updated_child_id :: rest | [] => [] end) in
  let page := with_type page Internal in
  let rpage := with_type rpage Internal in
  _ ← m_write (bp_id page) page page_size;
  _ ← m_write right_id rpage page_size;
  new_root_id ← m_alloc;
  level ← m_lift (add_w 16 (bp_level page) 1);
  push_up ← m_lift (match bp_keys rpage with k :: _ => Ok k | [] => Panic end);
  _ ← m_write new_root_id (two_child_root new_root_id level push_up (bp_id page) right_id) page_size;
  mret (Some new_root_id).

(** Point the first separator that leads to [child] at [new_child] instead. *)
Fixpoint repoint (child new_child : PageId) (keys : list IndexTuple) : list IndexTuple :=
  match keys with
  | [] => []
  | k :: rest =>
      if (heap_pointer k).1 =? child then with_pointer k new_child :: rest
      else k :: repoint child new_child rest
  end.

Fixpoint insert_recursive (fuel : nat) (page_id : PageId) (tuple : IndexTuple) (page_size : Z) (is_root : bool) :
    M (option PageId) :=
  match fuel with
  | O => fun _ => None
  | S fuel =>
      page ← m_read page_id;
      if bool_decide (bp_type page = Leaf) || bool_decide (bp_keys page = []) then
        let page := if bool_decide (bp_keys page = []) then with_type page Leaf else page in
        if is_full page_size page then split_leaf page page_id tuple page_size is_root
        else
          _ ← m_write page_id (insert_sorted tuple page) page_size;
          mret None
      else
        let child_page_id := find_child_page_id page (it_key tuple) in
        r ← insert_recursive fuel child_page_id tuple page_size false;
        match r with
        | None => mret None
        | Some new_child_id =>
            updated ← m_read page_id;
            let updated := with_keys updated (repoint child_page_id new_child_id (bp_keys updated)) in
            if negb (is_full page_size updated) then
              _ ← m_write page_id updated page_size;
              mret None
            else split_internal updated new_child_id page_size
        end
  end.

Definition btree_insert_multipage (fuel : nat) (root_page : PageId) (tuple : IndexTuple) (page_size : Z) : M PageId :=
  result ← insert_recursive fuel root_page tuple page_size true;
  mret (default root_page result).
End insert.

(* ------------------------------------------------------------------ *)
(** ** The executor's entry points *)

Record BTreeInsert := {
  bi_index_oid : Oid;
  bi_root_page : PageId;
  bi_key : bytes;
  bi_heap_page : Z;
  bi_heap_offset : Z;
}.

Record BTreeScanOp := { bs_index_oid : Oid; bs_scan_from : bytes }.

Section executor.
Context {St : Type} `{Storage St}.

(** [executor::btree::btree_insert]; its page allocator is never used. *)
Definition exec_btree_insert (s : St) (op : BTreeInsert) (page_size : Z) : outcome unit * St :=
  let tuple := {| it_key := bi_key op; heap_pointer := (bi_heap_page op, bi_heap_offset op); heap_oid := 0 |} in
  let '(r, s) := btree_insert s (bi_root_page op) tuple page_size in
  (_ ← r; Ok tt, s).

Definition exec_btree_scan (fuel : nat) (s : St) (op : BTreeScanOp) (root_page : PageId) :
    option (outcome (list (bytes * (PageId * Z)))) :=
  match btree_search fuel s root_page (bs_scan_from op) with
  | Some r => Some (ts ← r; Ok (List.map (fun t => (it_key t, heap_pointer t)) ts))
  | None => None
  end.
End executor.

(* ------------------------------------------------------------------ *)
(** ** Pages that fit *)

Definition entries_size (keys : list IndexTuple) : Z := foldr (fun t n => entry_size t + n) 0 keys.

(** Everything on the page survives being written: non-empty keys, values of
    their width, and room for all entries. *)
Record page_fits (page_size : Z) (keys : list IndexTuple) : Prop := {
  pf_room : 64 + entries_size keys <= page_size;
  pf_small : page_size < 2 ^ 19;
  pf_tuples : Forall (fun t => tuple_ok t /\ it_key t <> []) keys;
}.

Lemma entry_size_pos t : 10 <= entry_size t.
Proof. unfold entry_size. lia. Qed.

Lemma entries_size_cons t keys : entries_size (t :: keys) = entry_size t + entries_size keys.
Proof. done. Qed.

Lemma entries_size_length keys : 10 * zlen keys <= entries_size keys.
Proof.
  induction keys as [|t keys IH]; [done|]. rewrite entries_size_cons. cbn [length].
  pose proof (entry_size_pos t). lia.
Qed.

Lemma entries_size_app l l' : entries_size (l ++ l') = entries_size l + entries_size l'.
Proof. induction l as [|t l IH]; cbn [app]; rewrite ?entries_size_cons; [done|]. lia. Qed.

Lemma entries_size_perm l l' : l ≡ₚ l' -> entries_size l = entries_size l'.
Proof. induction 1; rewrite ?entries_size_cons; lia. Qed.

Lemma page_fits_perm ps l l' : l ≡ₚ l' -> page_fits ps l -> page_fits ps l'.
Proof.
  intros Hp [H1 H2 H3]. split; [by rewrite <- (entries_size_perm _ _ Hp)|done|by rewrite <- Hp].
Qed.

Lemma page_fits_sub ps l l' : page_fits ps (l ++ l') -> page_fits ps l /\ page_fits ps l'.
Proof.
  intros [H1 H2 H3]. rewrite entries_size_app in H1. apply Forall_app in H3 as [? ?].
  pose proof (entries_size_length l). pose proof (entries_size_length l'). split; split; try done; lia.
Qed.

Lemma written_all ps keys pos : pos + entries_size keys <= ps -> written ps pos keys = keys.
Proof.
  revert pos. induction keys as [|t keys IH]; intros pos H; [done|].
  rewrite entries_size_cons in H. cbn [written]. pose proof (entries_size_length keys).
  rewrite (proj2 (Z.ltb_ge _ _)) by lia. by rewrite IH by lia.
Qed.

Lemma until_empty_all keys : Forall (fun t => tuple_ok t /\ it_key t <> []) keys -> until_empty keys = keys.
Proof. induction 1 as [|t keys [_ Ht] _ IH]; cbn; [done|]. by rewrite decide_False, IH. Qed.

Lemma stored_keys_fit ps keys : page_fits ps keys -> stored_keys ps keys = forget_oid <$> keys.
Proof.
  intros [H1 H2 H3]. unfold stored_keys. rewrite written_all by lia. rewrite until_empty_all by done.
  pose proof (entries_size_length keys). rewrite wrap_small by (unfold in_width; lia). by rewrite Nat2Z.id, firstn_all.
Qed.

Lemma bpage_ok_fit ps p :
  page_fits ps (bp_keys p) -> is_u16 (bp_level p) -> is_u32 (sibling_id (left_sibling p)) ->
  is_u32 (sibling_id (right_sibling p)) -> bpage_ok p.
Proof. intros [_ _ H3] ? ? ?. split; try done. eapply Forall_impl; [apply H3|]. by intros t [? _]. Qed.

(* ------------------------------------------------------------------ *)
(** ** Trees in a store *)

Section store.
Context {St : Type} (psize : nat) (valid : St -> Prop) `{StorageLaws St psize valid}.
Implicit Types s : St.

(** Writing a page that fits and reading it back. *)
Lemma btree_write_read s id page :
  valid s -> is_u32 id -> 64 <= Z.of_nat psize -> bpage_ok page ->
  exists s', btree_write_page s id page (Z.of_nat psize) = (Ok tt, s') /\ valid s' /\
    btree_read_page s' id =
      Ok {| bp_type := bp_type (stored_page (Z.of_nat psize) page); bp_id := id; bp_level := bp_level page;
            bp_keys := stored_keys (Z.of_nat psize) (bp_keys page);
            left_sibling := left_sibling (stored_page (Z.of_nat psize) page);
            right_sibling := right_sibling (stored_page (Z.of_nat psize) page) |} /\
    forall q, is_u32 q -> q <> id -> btree_read_page s' q = btree_read_page s q.
Proof.
  intros Hv Hid Hps Hok. destruct (page_codec (Z.of_nat psize) page Hps Hok) as (data & Hser & Hlen & Hdes).
  unfold btree_write_page. rewrite Hser.
  destruct (write_full s id data Hv Hid ltac:(lia)) as (s' & Hw & Hv' & Hr & Ho).
  exists s'. split_and!; [done|done| |].
  - unfold btree_read_page. rewrite Hr, ok_bind, (proj2 (Z.ltb_ge _ _)) by lia.
    unfold deserialize_page in *. rewrite (proj2 (Z.ltb_ge _ _)) in * by lia.
    apply bind_ok in Hdes as (ty & -> & Hdes). rewrite ok_bind.
    apply bind_ok in Hdes as (lv & -> & Hdes). rewrite ok_bind.
    apply bind_ok in Hdes as (nk & -> & Hdes). rewrite ok_bind.
    apply bind_ok in Hdes as (lf & -> & Hdes). rewrite ok_bind.
    apply bind_ok in Hdes as (rt & -> & Hdes). rewrite ok_bind.
    apply bind_ok in Hdes as (ks & -> & Hdes). rewrite ok_bind.
    injection Hdes as -> -> -> -> ->. done.
  - intros q Hq Hne. unfold btree_read_page. by rewrite Ho.
Qed.

(** The page at [id] is a leaf with these entries. *)
Definition leaf_at s (id : PageId) (keys : list IndexTuple) : Prop :=
  exists page, btree_read_page s id = Ok page /\ bp_type page = Leaf /\ bp_id page = id /\
    bp_keys page = keys /\ is_u16 (bp_level page) /\
    is_u32 (sibling_id (left_sibling page)) /\ is_u32 (sibling_id (right_sibling page)).

Lemma leaf_search s id keys fuel k :
  leaf_at s id keys -> (0 < fuel)%nat -> btree_search fuel s id k = Some (Ok (matching k keys)).
Proof.
  intros (page & Hr & Hty & _ & Hk & _) Hf. destruct fuel; [lia|]. unfold btree_search. cbn. by rewrite Hr, Hty, Hk.
Qed.

Lemma write_leaf s id page :
  valid s -> is_u32 id -> 64 <= Z.of_nat psize -> bp_type page = Leaf -> is_u16 (bp_level page) ->
  is_u32 (sibling_id (left_sibling page)) -> is_u32 (sibling_id (right_sibling page)) ->
  page_fits (Z.of_nat psize) (bp_keys page) ->
  exists s', btree_write_page s id page (Z.of_nat psize) = (Ok tt, s') /\ valid s' /\
    leaf_at s' id (forget_oid <$> bp_keys page) /\
    forall q, is_u32 q -> q <> id -> btree_read_page s' q = btree_read_page s q.
Proof.
  intros Hv Hid Hps Hty Hlv Hl Hr Hfit.
  destruct (btree_write_read s id page Hv Hid Hps) as (s' & Hw & Hv' & Hrd & Ho); [by eapply bpage_ok_fit|].
  exists s'. split_and!; [done|done| |done].
  eexists. split; [exact Hrd|]. cbn. rewrite Hty, stored_keys_fit by done.
  assert (Hsib : forall o, is_u32 (sibling_id o) -> is_u32 (sibling_id (sibling_of (sibling_id o)))).
  { intros o Ho'. unfold sibling_of. case_match; [by vm_compute|done]. }
  split_and!; auto.
Qed.
End store.

Lemma matching_perm k l l' : l ≡ₚ l' -> matching k l ≡ₚ matching k l'.
Proof.
  unfold matching. induction 1; cbn; repeat case_match; auto; try by constructor. by etransitivity.
Qed.

#[export] Instance matching_proper k : Proper ((≡ₚ) ==> (≡ₚ)) (matching k).
Proof. intros l l'. apply matching_perm. Qed.

Lemma matching_fmap_forget k l : matching k (forget_oid <$> l) = forget_oid <$> matching k l.
Proof. unfold matching. induction l as [|t l IH]; cbn; [done|]. case_match; cbn; by rewrite IH. Qed.

Lemma matching_app k l l' : matching k (l ++ l') = matching k l ++ matching k l'.
Proof. apply List.filter_app. Qed.

Lemma forget_forget t : forget_oid (forget_oid t) = forget_oid t.
Proof. done. Qed.

(** A page whose entries fit, of any kind but a meta page, is written as one full
    page and reads back as itself, except that the format keeps no relation id in
    the entries and encodes an absent sibling as page 0. *)
Theorem btree_page_roundtrip page_size p :
  64 <= page_size -> page_fits page_size (bp_keys p) -> is_u16 (bp_level p) -> bp_type p <> Meta ->
  is_u32 (sibling_id (left_sibling p)) -> is_u32 (sibling_id (right_sibling p)) ->
  left_sibling p <> Some 0 -> right_sibling p <> Some 0 ->
  exists data, serialize_page page_size p = Ok data /\ zlen data = page_size /\
    deserialize_page (bp_id p) data =
      Ok {| bp_type := bp_type p; bp_id := bp_id p; bp_level := bp_level p; bp_keys := forget_oid <$> bp_keys p;
            left_sibling := left_sibling p; right_sibling := right_sibling p |}.
Proof.
  intros Hps Hfit Hlv Hty Hl Hr Hl0 Hr0.
  destruct (page_codec page_size p Hps (bpage_ok_fit _ _ Hfit Hlv Hl Hr)) as (data & Hs & Hlen & Hd).
  exists data. split_and!; [done|done|]. rewrite Hd. unfold stored_page. rewrite stored_keys_fit by done.
  assert (Hsib : forall o : option PageId, o <> Some 0 -> sibling_of (sibling_id o) = o).
  { intros [v|] Ho; [|done]. cbn. unfold sibling_of. destruct (Z.eqb_spec v 0); [congruence|done]. }
  rewrite !Hsib by done. by destruct (bp_type p).
Qed.

(** Inserting into an index that is one leaf with room: the call succeeds, the
    leaf stays sorted, a search for any key finds what it found before and, if it
    is the new entry's key, the new entry (the format keeps no relation id); no
    other page changes. *)
Theorem btree_insert_search {St} (psize : nat) (valid : St -> Prop) `{StorageLaws St psize valid}
    s root keys tuple :
  valid s -> is_u32 root -> 64 <= Z.of_nat psize -> leaf_at s root keys -> keys_sorted keys ->
  page_fits (Z.of_nat psize) (tuple :: keys) ->
  exists s' keys', btree_insert s root tuple (Z.of_nat psize) = (Ok root, s') /\ valid s' /\
    leaf_at s' root keys' /\ keys_sorted keys' /\ keys' ≡ₚ forget_oid <$> tuple :: keys /\
    (forall k fuel, (0 < fuel)%nat -> exists found, btree_search fuel s' root k = Some (Ok found) /\
       found ≡ₚ (if decide (it_key tuple = k) then [forget_oid tuple] else []) ++ (forget_oid <$> matching k keys)) /\
    (forall q, is_u32 q -> q <> root -> btree_read_page s' q = btree_read_page s q).
Proof.
  intros Hv Hid Hps Hleaf Hs Hfit. pose proof Hleaf as (page & Hr & Hty & _ & Hk & Hlv & Hl & Hrt). subst keys.
  destruct (insert_sorted_ok tuple page Hs) as (Hs' & Hperm & Hrest).
  destruct (write_leaf psize valid s root (insert_sorted tuple page)) as (s' & Hw & Hv' & Hleaf' & Ho); try done.
  { by eapply page_fits_perm. }
  exists s', (forget_oid <$> bp_keys (insert_sorted tuple page)). unfold btree_insert. rewrite Hr, Hw.
  split_and!; [done|done|done| |by rewrite Hperm| |done].
  - clear -Hs'. unfold keys_sorted in *. induction Hs' as [|t l _ IH Hall]; cbn; constructor; [done|].
    apply Forall_fmap. eapply Forall_impl; [apply Hall|]. done.
  - intros k fuel Hf. eexists. split; [by apply leaf_search|].
    rewrite matching_fmap_forget, (matching_perm _ _ _ Hperm). unfold matching at 1. cbn.
    case_decide as Hkt.
    + subst k. rewrite key_eqb_refl. done.
    + destruct (key_eqb (it_key tuple) k) eqn:E; [by apply key_eqb_eq in E|]. done.
Qed.

(* ------------------------------------------------------------------ *)
(** ** Splitting a root leaf *)

Definition keys_strict (keys : list IndexTuple) : Prop := StronglySorted (fun a b => key_lt (it_key a) (it_key b)) keys.

Lemma strict_sorted keys : keys_strict keys -> keys_sorted keys.
Proof.
  unfold keys_strict, keys_sorted. induction 1 as [|t l _ IH Hall]; constructor; [done|].
  eapply Forall_impl; [apply Hall|]. intros u Hu. apply key_le_lteq. by left.
Qed.

Lemma sorted_app (R : IndexTuple -> IndexTuple -> Prop) l l' :
  StronglySorted R (l ++ l') -> StronglySorted R l /\ StronglySorted R l' /\ forall x y, x ∈ l -> y ∈ l' -> R x y.
Proof.
  induction l as [|t l IH]; cbn; intros Hs.
  - split_and!; [constructor|done|set_solver].
  - inversion Hs as [|? ? Hs' Hall]; subst. destruct (IH Hs') as (H1 & H2 & H3).
    apply Forall_app in Hall as [Ha Hb]. split_and!; [by constructor|done|].
    intros x y [-> |Hx]%elem_of_cons Hy; [|eauto]. rewrite Forall_forall in Hb. auto.
Qed.

Lemma key_le_antisym a b : key_le a b -> key_le b a -> a = b.
Proof. rewrite !key_le_lteq. intros [Hab|] [Hba|]; auto. exfalso. by apply (key_lt_irrefl a), (key_lt_trans _ b). Qed.

Lemma matching_none k l : (forall t, t ∈ l -> it_key t <> k) -> matching k l = [].
Proof.
  unfold matching. induction l as [|t l IH]; intros H; cbn; [done|].
  destruct (key_eqb (it_key t) k) eqn:E; [apply key_eqb_eq in E; destruct (H t); [left|done]|].
  apply IH. intros u Hu. apply H. by right.
Qed.

(** The two halves after the new entry has gone to its side: everything left is
    below the separator, everything right is not. *)
Lemma halves_ordered tuple keys left right first rest :
  keys_strict keys -> keys = left ++ right -> right = first :: rest ->
  let goes_left := key_ltb (it_key tuple) (it_key first) in
  exists left' right' sep rest', 
    left' = (if goes_left then bp_keys (insert_sorted tuple (with_keys (BTreePage_new Leaf 0) left)) else left) /\
    right' = (if goes_left then right else bp_keys (insert_sorted tuple (with_keys (BTreePage_new Leaf 0) right))) /\
    right' = sep :: rest' /\ left' ++ right' ≡ₚ tuple :: keys /\ keys_sorted left' /\ keys_sorted right' /\
    (forall u, u ∈ left' -> key_lt (it_key u) (it_key sep)) /\ (forall u, u ∈ right' -> key_le (it_key sep) (it_key u)).
Proof.
  intros Hs -> ->. destruct (sorted_app _ _ _ Hs) as (Hl & Hr & Hlr).
  pose proof (strict_sorted _ Hl) as Hl'. pose proof (strict_sorted _ Hr) as Hr'.
  destruct (insert_sorted_ok tuple (with_keys (BTreePage_new Leaf 0) left) Hl') as (Hls & Hlp & _).
  destruct (insert_sorted_ok tuple (with_keys (BTreePage_new Leaf 0) (first :: rest)) Hr') as (Hrs & Hrp & _).
  cbn [bp_keys with_keys] in Hlp, Hrp. cbn zeta.
  assert (Hmin : forall u, u ∈ first :: rest -> key_le (it_key first) (it_key u)).
  { intros u [j Hj]%list_elem_of_lookup. apply (sorted_lookup (first :: rest) 0 j); auto; lia. }
  destruct (key_ltb (it_key tuple) (it_key first)) eqn:Eg.
  - eexists _, (first :: rest), first, rest. split_and!; try done.
    + by rewrite Hlp.
    + intros u. rewrite Hlp. intros [-> |Hu]%elem_of_cons; [done|]. apply Hlr; [done|left].
  - destruct (bp_keys (insert_sorted tuple (with_keys (BTreePage_new Leaf 0) (first :: rest)))) as [|sep rest'] eqn:Ei.
    { by apply Permutation_nil_cons in Hrp. }
    exists left, (sep :: rest'), sep, rest'.
    assert (Hsep : forall u, u ∈ sep :: rest' -> key_le (it_key sep) (it_key u)).
    { intros u [j Hj]%list_elem_of_lookup. apply (sorted_lookup (sep :: rest') 0 j); auto; lia. }
    assert (Hsf : it_key sep = it_key first).
    { apply key_le_antisym; [apply Hsep; rewrite Hrp; set_solver|].
      assert (Hin : sep ∈ tuple :: first :: rest) by (rewrite <- Hrp; left).
      apply elem_of_cons in Hin as [-> |Hin]; [by apply key_nlt_le|by apply Hmin]. }
    split_and!; try done.
    + rewrite Hrp. by rewrite <- Permutation_middle.
    + intros u Hu. rewrite Hsf. apply Hlr; [done|left].
Qed.

(** Searching a two-child root. *)
Lemma two_child_search {St} `{Storage St} s nid left right sep page lk rk fuel k :
  btree_read_page s nid = Ok page -> bp_type page = Root ->
  bp_keys page = [forget_oid (with_pointer sep left); forget_oid (with_pointer sep right)] ->
  leaf_at s left lk -> leaf_at s right rk -> (2 <= fuel)%nat ->
  (forall u, u ∈ lk -> key_lt (it_key u) (it_key sep)) -> (forall u, u ∈ rk -> key_le (it_key sep) (it_key u)) ->
  btree_search fuel s nid k = Some (Ok (matching k (lk ++ rk))).
Proof.
  intros Hr Hty Hk Hl Hrt Hf Hlt Hge. destruct fuel as [|fuel]; [lia|]. unfold btree_search. cbn [search_page].
  rewrite Hr, Hty. unfold find_descend_child. rewrite Hk. cbn. rewrite matching_app.
  destruct (key_leb (it_key sep) k) eqn:E.
  - pose proof (leaf_search s right rk fuel k Hrt ltac:(lia)) as Hs. unfold btree_search in Hs. rewrite Hs.
    rewrite (matching_none k lk); [done|]. intros t Ht <-. apply Hlt in Ht.
    apply (key_lt_irrefl (it_key t)). by apply (key_lt_le_trans _ (it_key sep)).
  - pose proof (leaf_search s left lk fuel k Hl ltac:(lia)) as Hs. unfold btree_search in Hs. rewrite Hs.
    rewrite (matching_none k rk); [by rewrite app_nil_r|]. intros t Ht <-. apply Hge in Ht.
    apply key_nle_lt in E. apply (key_lt_irrefl (it_key t)). by apply (key_lt_le_trans _ (it_key sep)).
Qed.

Lemma lt_forget (l : list IndexTuple) (Q : bytes -> Prop) :
  (forall u, u ∈ l -> Q (it_key u)) -> forall u, u ∈ forget_oid <$> l -> Q (it_key u).
Proof. intros H u (v & -> & Hv)%list_elem_of_fmap. cbn. auto. Qed.

(** Steps of the monad. *)
Lemma bind_run {St A X Y} (m : tree_m St A X) (f : X -> tree_m St A Y) w x w' :
  m w = Some (Ok x, w') -> (m ≫= f) w = f x w'.
Proof. intros H. unfold mbind, tree_bind. by rewrite H. Qed.

Lemma m_read_run {St A} `{Storage St} s (a : A) id page :
  btree_read_page s id = Ok page -> m_read id (s, a) = Some (Ok page, (s, a)).
Proof. intros Hr. unfold m_read. cbn. by rewrite Hr. Qed.

Lemma m_write_run {St A} `{Storage St} s (a : A) id page ps s' :
  btree_write_page s id page ps = (Ok tt, s') -> m_write id page ps (s, a) = Some (Ok tt, (s', a)).
Proof. intros Hw. unfold m_write. cbn. by rewrite Hw. Qed.

Lemma m_alloc_run {St A} (next : A -> PageId * A) (s : St) a id a' :
  next a = (id, a') -> m_alloc next (s, a) = Some (Ok id, (s, a')).
Proof. intros Hn. unfold m_alloc. cbn. by rewrite Hn. Qed.

(** The two leaves a full leaf is split into, [first] being the first key that
    moves right: the new tuple goes to the side its key is on. *)
Definition split_left (page : BTreePage) (tuple first : IndexTuple) : BTreePage :=
  let l := with_keys page (take (length (bp_keys page) / 2) (bp_keys page)) in
  if key_ltb (it_key tuple) (it_key first) then insert_sorted tuple l else l.

Definition split_right (page : BTreePage) (tuple first : IndexTuple) : BTreePage :=
  let r := {| bp_type := bp_type page; bp_id := 0; bp_level := bp_level page;
              bp_keys := drop (length (bp_keys page) / 2) (bp_keys page);
              left_sibling := None; right_sibling := None |} in
  if key_ltb (it_key tuple) (it_key first) then r else insert_sorted tuple r.

Lemma split_halves page tuple :
  keys_strict (bp_keys page) -> bp_keys page <> [] ->
  exists first rest sep rest', drop (length (bp_keys page) / 2) (bp_keys page) = first :: rest /\
    let lp := split_left page tuple first in let rp := split_right page tuple first in
    bp_keys rp = sep :: rest' /\ bp_keys lp ++ bp_keys rp ≡ₚ tuple :: bp_keys page /\
    (forall u, u ∈ bp_keys lp -> key_lt (it_key u) (it_key sep)) /\
    (forall u, u ∈ bp_keys rp -> key_le (it_key sep) (it_key u)) /\
    with_keys lp [] = with_keys page [] /\ bp_type rp = bp_type page /\ right_sibling rp = None /\
    keys_sorted (bp_keys lp) /\ keys_sorted (bp_keys rp).
Proof.
  intros Hs Hne. set (keys := bp_keys page) in *.
  assert (Hhalf : (length keys / 2 < length keys)%nat) by (destruct keys; [done|]; apply Nat.div_lt; cbn; lia).
  destruct (drop (length keys / 2) keys) as [|first rest] eqn:Ed.
  { apply (f_equal length) in Ed. rewrite length_drop in Ed. cbn [length] in Ed. lia. }
  destruct (halves_ordered tuple keys (take (length keys / 2) keys) (first :: rest) first rest Hs)
    as (lk & rk & sep & rest' & Hlk & Hrk & Hrk' & Hperm & Hls & Hrs & Hlt & Hge);
    [by rewrite <- Ed, take_drop|done|].
  exists first, rest, sep, rest'. split; [done|]. cbn zeta.
  assert (El : bp_keys (split_left page tuple first) = lk) by (unfold split_left; rewrite Hlk; by destruct key_ltb).
  assert (Er : bp_keys (split_right page tuple first) = rk)
    by (unfold split_right; rewrite Hrk; fold keys; rewrite Ed; by destruct key_ltb).
  rewrite El, Er. split_and!; try done.
  - unfold split_left. by destruct key_ltb.
  - unfold split_right. by destruct key_ltb.
  - unfold split_right. by destruct key_ltb.
Qed.

(** A root over two children, under a separator that was an entry, fits its page. *)
Lemma two_child_fits psize nid level sep left right :
  tuple_ok sep -> it_key sep <> [] -> 64 + 2 * entry_size sep <= psize -> psize < 2 ^ 19 ->
  is_u32 left -> is_u32 right -> page_fits psize (bp_keys (two_child_root nid level sep left right)).
Proof.
  intros Hok Hne Hsize Hsmall Hl Hr. split; [|done|].
  - cbn. unfold entry_size in *. cbn. lia.
  - assert (Hptr : forall id, is_u32 id -> tuple_ok (with_pointer sep id) /\ it_key (with_pointer sep id) <> []).
    { intros id Hid. destruct Hok. split; [|done]. split; cbn; try done. }
    repeat constructor; by apply Hptr.
Qed.

(** What splitting a full root leaf does to the store: the two halves in the old
    page and the first new one, a root over them in the second, nothing else. *)
Lemma split_root_run {P : Profile} {St A} (psize : nat) (valid : St -> Prop) `{StorageLaws St psize valid}
    (next : A -> PageId * A) s a page tuple first rest sep rest' rid nid a1 a2 :
  let lp := split_left page tuple first in let rp := split_right page tuple first in
  valid s -> 64 <= Z.of_nat psize -> bp_type page = Leaf ->
  is_u16 (bp_level page) -> bp_level page < 2 ^ 16 - 1 ->
  is_u32 (sibling_id (left_sibling page)) -> is_u32 (sibling_id (right_sibling page)) ->
  drop (length (bp_keys page) / 2) (bp_keys page) = first :: rest -> bp_keys rp = sep :: rest' ->
  with_keys lp [] = with_keys page [] -> bp_type rp = bp_type page -> right_sibling rp = None ->
  page_fits (Z.of_nat psize) (bp_keys lp) -> page_fits (Z.of_nat psize) (bp_keys rp) ->
  64 + 2 * entry_size sep <= Z.of_nat psize ->
  next a = (rid, a1) -> next a1 = (nid, a2) ->
  is_u32 (bp_id page) -> is_u32 rid -> is_u32 nid -> bp_id page <> rid -> bp_id page <> nid -> rid <> nid ->
  exists s' rootp, split_leaf next page (bp_id page) tuple (Z.of_nat psize) true (s, a) = Some (Ok (Some nid), (s', a2)) /\ valid s' /\
    leaf_at s' (bp_id page) (forget_oid <$> bp_keys lp) /\ leaf_at s' rid (forget_oid <$> bp_keys rp) /\
    btree_read_page s' nid = Ok rootp /\ bp_type rootp = Root /\
    bp_keys rootp = [forget_oid (with_pointer sep (bp_id page)); forget_oid (with_pointer sep rid)] /\
    (forall q, is_u32 q -> q <> bp_id page -> q <> rid -> q <> nid -> btree_read_page s' q = btree_read_page s q).
Proof.
  intros lp rp Hv Hps Hty Hlv Hlvl Hl Hrt Ed Hrk Hlp Hrty Hrrt Hlfit Hrfit Hsep Hn1 Hn2 Hu1 Hu2 Hu3 Hd1 Hd2 Hd3.
  injection Hlp as Hlty Hlid Hllv Hllf Hlrt.
  destruct (write_leaf psize valid s (bp_id page) lp) as (s1 & Hw1 & Hv1 & Hleaf1 & Ho1); try done; try congruence.
  set (rp' := as_right rp rid (bp_level lp) (bp_id lp)).
  destruct (write_leaf psize valid s1 rid rp') as (s2 & Hw2 & Hv2 & Hleaf2 & Ho2); unfold rp'; cbn; try done; try congruence.
  { by rewrite Hrrt. }
  pose proof Hrfit as [_ Hsmall Htup]. rewrite Hrk in Htup. apply Forall_cons in Htup as [[Hsepok Hsepne] _].
  set (rootp := two_child_root nid (bp_level lp + 1) sep (bp_id lp) rid).
  assert (Hrootfit : page_fits (Z.of_nat psize) (bp_keys rootp)) by (apply two_child_fits; try done; congruence).
  destruct (btree_write_read psize valid s2 nid rootp Hv2 Hu3 Hps) as (s3 & Hw3 & Hv3 & Hr3 & Ho3).
  { eapply bpage_ok_fit; [done| |by vm_compute..]. cbn. rewrite Hllv. unfold in_width in *. lia. }
  exists s3. eexists. split_and!; [|done|destruct Hleaf1 as (pg & Hpg & ?)|destruct Hleaf2 as (pg & Hpg & ?)|exact Hr3|done| |].
  - unfold split_leaf, split_at. rewrite decide_False.
    2:{ apply (f_equal length) in Ed. rewrite length_drop in Ed. cbn [length] in Ed. lia. }
    erewrite bind_run by reflexivity. cbv beta iota. erewrite bind_run by (by apply m_alloc_run).
    cbv beta. cbn [bp_keys]. rewrite Ed. change (_ :: rest) with (first :: rest). rewrite <- Ed.
    fold (split_left page tuple first) (split_right page tuple first) lp rp rp'.
    erewrite bind_run by (by apply m_write_run). erewrite bind_run by (by apply m_write_run).
    erewrite bind_run by (by apply m_alloc_run).
    erewrite bind_run by (unfold m_lift; rewrite add_w_ok by (unfold in_width in *; lia); reflexivity).
    rewrite Hrk. cbn [default head]. fold rootp. by erewrite bind_run by (by apply m_write_run).
  - exists pg. split; [|done]. by rewrite Ho3, Ho2.
  - exists pg. split; [|done]. by rewrite Ho3.
  - cbn [bp_keys]. rewrite stored_keys_fit by done. cbn. by rewrite Hlid.
  - intros q Hq H1 H2 H3. rewrite Ho3, Ho2, Ho1; auto.
Qed.

(** Inserting into a full root leaf with distinct keys splits it: the call returns
    a new root page, from which every key, old and new, is found, and nothing
    else; pages other than the three written keep their contents. *)
Theorem root_split_search {P : Profile} {St A} (psize : nat) (valid : St -> Prop) `{StorageLaws St psize valid}
    (next : A -> PageId * A) s a root keys tuple fuel rid nid a1 a2 :
  valid s -> 64 <= Z.of_nat psize -> leaf_at s root keys -> keys_strict keys ->
  Z.of_nat psize / 64 <= zlen keys -> keys <> [] ->
  page_fits (Z.of_nat psize) (tuple :: keys) ->
  (forall u, u ∈ tuple :: keys -> 64 + 2 * entry_size u <= Z.of_nat psize) ->
  next a = (rid, a1) -> next a1 = (nid, a2) ->
  is_u32 root -> is_u32 rid -> is_u32 nid -> root <> rid -> root <> nid -> rid <> nid ->
  (forall page, btree_read_page s root = Ok page -> bp_level page < 2 ^ 16 - 1) ->
  exists s', btree_insert_multipage next (S fuel) root tuple (Z.of_nat psize) (s, a) = Some (Ok nid, (s', a2)) /\
    (forall k n, (2 <= n)%nat -> exists found, btree_search n s' nid k = Some (Ok found) /\
       found ≡ₚ forget_oid <$> matching k (tuple :: keys)) /\
    (forall q, is_u32 q -> q <> root -> q <> rid -> q <> nid -> btree_read_page s' q = btree_read_page s q).
Proof.
  intros Hv Hps Hleaf Hs Hfull Hne Hfit Hsep Hn1 Hn2 Hu1 Hu2 Hu3 Hd1 Hd2 Hd3 Hlvl.
  pose proof Hleaf as (page & Hr & Hty & Hpid & Hk & Hlv & Hl & Hrt). specialize (Hlvl page Hr). subst keys root.
  destruct (split_halves page tuple Hs Hne)
    as (first & rest & sep & rest' & Ed & Hrk & Hperm & Hlt & Hge & Hlp & Hrty & Hrrt & _).
  destruct (page_fits_sub _ _ _ (page_fits_perm _ _ _ (symmetry Hperm) Hfit)) as [Hlfit Hrfit].
  assert (Hsepin : sep ∈ tuple :: bp_keys page) by (rewrite <- Hperm, Hrk; apply elem_of_app; right; left).
  destruct (split_root_run psize valid next s a page tuple first rest sep rest' rid nid a1 a2)
    as (s' & rootp & Hsplit & _ & Hl' & Hr' & Hroot & Hrty' & Hrkeys & Ho); try done; [by apply Hsep|].
  exists s'. split_and!; [|intros k n Hn|done].
  - unfold btree_insert_multipage. rewrite (bind_run _ _ _ (Some nid) (s', a2)); [reflexivity|]. cbn [insert_recursive].
    erewrite bind_run by (by apply m_read_run). rewrite Hty. rewrite bool_decide_eq_true_2 by done.
    rewrite bool_decide_eq_false_2 by done. unfold is_full. rewrite (proj2 (Z.leb_le _ _)) by lia. exact Hsplit.
  - eexists. split.
    + by eapply (two_child_search s' nid (bp_id page) rid sep _ _ _ n k Hroot Hrty' Hrkeys Hl' Hr' Hn
        (lt_forget _ (fun x => key_lt x (it_key sep)) Hlt) (lt_forget _ (fun x => key_le (it_key sep) x) Hge)).
    + rewrite <- fmap_app, matching_fmap_forget. by rewrite (matching_perm k _ _ Hperm).
Qed.

(* ------------------------------------------------------------------ *)
(** ** Concrete runs *)

(** An entry whose key is [n] repeated [len] times. *)
Definition sample_entry (len : nat) (n : Z) : IndexTuple :=
  {| it_key := replicate len n; heap_pointer := (n, 1); heap_oid := 0 |}.

(** A page allocator that counts up. *)
Definition count_up (a : Z) : PageId * Z := (a, a + 1).

(** Insert the entries one after the other, each at the root the last returned. *)
Fixpoint insert_many {P : Profile} {St} `{Storage St} (root : PageId) (ts : list IndexTuple) (page_size : Z) :
    tree_m St Z PageId :=
  match ts with
  | [] => mret root
  | t :: rest => root ← btree_insert_multipage count_up 5 root t page_size; insert_many root rest page_size
  end.

(** How many entries a search finds. *)
Definition found_count {St} `{Storage St} (fuel : nat) (s : St) (root : PageId) (k : bytes) : option (outcome nat) :=
  match btree_search fuel s root k with Some r => Some (l ← r; Ok (length l)) | None => None end.

(** A split below the root loses half of the leaf: the parent's pointer to the
    old page is replaced by the new right page. In 256-byte pages, after keys 1
    to 7 were inserted in order, every insertion having succeeded, keys 3 and 4
    are not found from the root. *)
Theorem child_split_loses_keys :
  match insert_many (P := debug_profile) 1 (List.map (sample_entry 1) [1; 2; 3; 4; 5; 6; 7]) 256 (EphemeralStorage_new, 10) with
  | Some (Ok root, (s, _)) =>
      List.map (fun k => found_count 5 s root [k]) [1; 2; 3; 4; 5; 6; 7] =
      List.map (fun n => Some (Ok n)) [1; 1; 0; 0; 1; 1; 1]%nat
  | _ => False
  end.
Proof. vm_compute. reflexivity. Qed.

(** The executor inserts into a single page and never splits it. In an 8192-byte
    page the ninth entry with a 1000-byte key is dropped when the page is
    written: the call succeeds, and a search for the key finds nothing. *)
Theorem full_page_drops_entry :
  let insert s t := btree_insert s 1 t 8192 in
  let s8 := foldl (fun s n => snd (insert s (sample_entry (Z.to_nat 1000) n))) EphemeralStorage_new [1; 2; 3; 4; 5; 6; 7; 8] in
  let '(r, s9) := insert s8 (sample_entry (Z.to_nat 1000) 9) in
  r = Ok 1 /\
  found_count 1 s9 1 (replicate (Z.to_nat 1000) 8) = Some (Ok 1%nat) /\
  found_count 1 s9 1 (replicate (Z.to_nat 1000) 9) = Some (Ok 0%nat).
Proof. by vm_compute. Qed.

(** A store whose page 1 is a leaf of 256 bytes with keys 1 to 4. *)
Definition four_keys : list IndexTuple := List.map (sample_entry 1) [1; 2; 3; 4].
Definition four_store : EphemeralStorage :=
  snd (btree_write_page EphemeralStorage_new 1 (with_keys (BTreePage_new Leaf 1) four_keys) 256).

Lemma four_leaf : leaf_at four_store 1 four_keys.
Proof. eexists. split; [vm_compute; reflexivity|]. vm_compute. by split_and!. Qed.

Lemma five_fit : page_fits (Z.of_nat 256) (sample_entry 1 5 :: four_keys).
Proof.
  split; [by vm_compute|by vm_compute|].
  repeat (apply Forall_cons; split); try apply Forall_nil_2; (split; [split; by vm_compute|discriminate]).
Qed.

Lemma four_strict : keys_strict four_keys.
Proof. repeat (constructor; [|repeat (apply Forall_cons; split); try apply Forall_nil_2; reflexivity]). constructor. Qed.

Lemma btree_insert_search_witness :
  exists s' keys', btree_insert four_store 1 (sample_entry 1 5) (Z.of_nat 256) = (Ok 1, s') /\ True /\
    leaf_at s' 1 keys' /\ keys_sorted keys' /\ keys' ≡ₚ forget_oid <$> sample_entry 1 5 :: four_keys /\
    (forall k fuel, (0 < fuel)%nat -> exists found, btree_search fuel s' 1 k = Some (Ok found) /\
       found ≡ₚ (if decide (it_key (sample_entry 1 5) = k) then [forget_oid (sample_entry 1 5)] else []) ++
                (forget_oid <$> matching k four_keys)) /\
    (forall q, is_u32 q -> q <> 1 -> btree_read_page s' q = btree_read_page four_store q).
Proof.
  apply (btree_insert_search 256 (fun _ => True) four_store 1 four_keys (sample_entry 1 5) I).
  - vm_compute. split; [discriminate|reflexivity].
  - vm_compute. discriminate.
  - exact four_leaf.
  - apply strict_sorted, four_strict.
  - exact five_fit.
Defined.

Lemma root_split_search_witness :
  exists s', btree_insert_multipage (P := debug_profile) count_up 1 1 (sample_entry 1 5) (Z.of_nat 256) (four_store, 10) =
      Some (Ok 11, (s', 12)) /\
    (forall k n, (2 <= n)%nat -> exists found, btree_search n s' 11 k = Some (Ok found) /\
       found ≡ₚ forget_oid <$> matching k (sample_entry 1 5 :: four_keys)) /\
    (forall q, is_u32 q -> q <> 1 -> q <> 10 -> q <> 11 -> btree_read_page s' q = btree_read_page four_store q).
Proof.
  apply (root_split_search (P := debug_profile) 256 (fun _ => True) count_up four_store 10 1 four_keys (sample_entry 1 5)
    0 10 11 11 12 I).
  - vm_compute. discriminate.
  - exact four_leaf.
  - exact four_strict.
  - vm_compute. discriminate.
  - discriminate.
  - exact five_fit.
  - intros u Hu. assert (Hs : entry_size u = 11); [|rewrite Hs; vm_compute; discriminate].
    repeat (apply elem_of_cons in Hu as [-> | Hu]; [reflexivity|]). by apply elem_of_nil in Hu.
  - reflexivity.
  - reflexivity.
  - vm_compute. split; [discriminate|reflexivity].
  - vm_compute. split; [discriminate|reflexivity].
  - vm_compute. split; [discriminate|reflexivity].
  - discriminate.
  - discriminate.
  - discriminate.
  - intros page Hp. vm_compute in Hp. injection Hp as <-. vm_compute. reflexivity.
Defined.

Lemma btree_page_roundtrip_witness :
  let p := {| bp_type := Internal; bp_id := 4; bp_level := 1; bp_keys := four_keys; left_sibling := None;
              right_sibling := Some 9 |} in
  exists data, serialize_page 256 p = Ok data /\ zlen data = 256 /\
    deserialize_page 4 data =
      Ok {| bp_type := Internal; bp_id := 4; bp_level := 1; bp_keys := forget_oid <$> four_keys;
            left_sibling := None; right_sibling := Some 9 |}.
Proof.
  apply (btree_page_roundtrip 256 {| bp_type := Internal; bp_id := 4; bp_level := 1; bp_keys := four_keys;
    left_sibling := None; right_sibling := Some 9 |}); try (vm_compute; intuition discriminate).
  destruct five_fit as [_ _ H]. split; [by vm_compute|by vm_compute|by inversion H].
Defined.
