(* ===== verification/BTreeTrees.v ===== *)
(** B-trees of any height ([src/src/btree/insert.rs], [search.rs]): what a tree in a
    store is, that a search finds every entry of its key and no other, that
    inserting keeps the tree as long as the leaves have room, and that the split
    of a full root leaf makes a tree. *)

From S2P Require Import Prelude Types Storage BTreePage BTree.

(* ------------------------------------------------------------------ *)
(** ** The child a key belongs to *)

(** Where [descend] stops: behind the last separator that is not above the key. *)
Lemma descend_split child keys k :
  exists pre post, keys = pre ++ post /\ Forall (fun t => key_le (it_key t) k) pre
    /\ match post with t :: _ => key_lt k (it_key t) | [] => True end
    /\ descend child keys k = match last pre with Some t => (heap_pointer t).1 | None => child end.
Proof.
  revert child. induction keys as [|t keys IH]; intros child; [by exists [], []|]. cbn [descend]. destruct (key_leb (it_key t) k) eqn:E.
  - destruct (IH (heap_pointer t).1) as (pre & post & -> & Hpre & Hpost & Ed). exists (t :: pre), post. split_and!; [done|by constructor; [exact E|]|done|].
    rewrite Ed, last_cons. by destruct (last pre).
  - exists [], (t :: keys). split_and!; [done|constructor|by apply key_nle_lt|done].
Qed.

(** In terms of positions: the child's separator and those between it and the first
    are not above the key, those behind are. *)
Lemma descend_child k0 keys k :
  keys_sorted (k0 :: keys) ->
  exists i sep, (k0 :: keys) !! i = Some sep /\ descend (heap_pointer k0).1 (k0 :: keys) k = (heap_pointer sep).1
    /\ ((0 < i)%nat -> key_le (it_key sep) k)
    /\ forall j t, (i < j)%nat -> (k0 :: keys) !! j = Some t -> key_lt k (it_key t).
Proof.
  intros Hs. destruct (descend_split (heap_pointer k0).1 (k0 :: keys) k) as (pre & post & E & Hpre & Hpost & Ed).
  assert (Hbehind : forall j t, (length pre <= j)%nat -> (k0 :: keys) !! j = Some t -> key_lt k (it_key t)).
  { intros j t Hj Ht. destruct post as [|u post]; [apply lookup_lt_Some in Ht; rewrite E, app_nil_r in Ht; lia|].
    apply (key_lt_le_trans _ (it_key u)); [done|]. apply (sorted_lookup (k0 :: keys) (length pre) j); [done|lia| |done].
    rewrite E. by apply list_lookup_middle. }
  destruct (last pre) as [sep|] eqn:El.
  - rewrite last_lookup in El. pose proof (lookup_lt_Some _ _ _ El) as Hlt. exists (pred (length pre)), sep. split_and!.
    + rewrite E. by apply lookup_app_l_Some.
    + done.
    + intros _. rewrite Forall_lookup in Hpre. by apply (Hpre (pred (length pre))).
    + intros j t Hj. apply Hbehind. lia.
  - apply last_None in El as ->. exists 0%nat, k0. split_and!; [done|done|lia|]. intros j t Hj. apply Hbehind. cbn. lia.
Qed.

(* ------------------------------------------------------------------ *)
(** ** Trees *)

(** The entries of each child are below the separators behind it, and, but for those
    of the first child, not below its own. *)
Definition divided (seps : list IndexTuple) (children : list (list IndexTuple)) : Prop :=
  forall i c t, children !! i = Some c -> t ∈ c ->
    (forall j sep, (i < j)%nat -> seps !! j = Some sep -> key_lt (it_key t) (it_key sep))
    /\ (forall sep, (0 < i)%nat -> seps !! i = Some sep -> key_le (it_key sep) (it_key t)).

Section trees.
Context {St : Type} `{Storage St}.
Implicit Types s : St.
Implicit Types R : list IndexTuple -> Prop.

(** The page at [id] is the root of a tree of height [h] with these entries, on these
    pages; each leaf's entries have the property [R]. *)
Fixpoint tree_at R s (h : nat) (id : PageId) (entries : list IndexTuple) (pages : list PageId) : Prop :=
  match h with
  | O => leaf_at s id entries /\ keys_sorted entries /\ R entries /\ pages = [id]
  | S h => exists page (children : list (list IndexTuple * list PageId)),
      btree_read_page s id = Ok page /\ (bp_type page = Root \/ bp_type page = Internal)
      /\ bp_keys page <> [] /\ keys_sorted (bp_keys page)
      /\ Forall2 (fun sep c => tree_at R s h (heap_pointer sep).1 c.1 c.2) (bp_keys page) children
      /\ divided (bp_keys page) children.*1
      /\ entries = concat children.*1 /\ pages = id :: concat children.*2
  end.

Lemma tree_root R s h id entries pages : tree_at R s h id entries pages -> id ∈ pages.
Proof. destruct h; cbn; [intros (_ & _ & _ & ->); by left|intros (? & ? & _ & _ & _ & _ & _ & _ & _ & ->); by left]. Qed.

Lemma in_children (cs : list (list IndexTuple * list PageId)) c q : c ∈ cs -> q ∈ c.2 -> q ∈ concat cs.*2.
Proof. intros Hc Hq. apply list_elem_of_In, in_concat. exists c.2. split; [|by apply list_elem_of_In]. apply list_elem_of_In, list_elem_of_fmap. by exists c. Qed.

(** A tree stays when its pages do. *)
Lemma tree_same R R' s s' h id entries pages :
  (forall keys, R keys -> R' keys) -> tree_at R s h id entries pages ->
  (forall q, q ∈ pages -> btree_read_page s' q = btree_read_page s q) -> tree_at R' s' h id entries pages.
Proof.
  intros HR. revert id entries pages. induction h as [|h IH]; intros id entries pages; cbn [tree_at].
  - intros (Hl & Hs & HRe & ->) Hq. split_and!; [|done|by apply HR|done]. destruct Hl as (page & Hr & Hl). exists page. rewrite Hq by (by left). by split.
  - intros (page & cs & Hr & Hty & Hne & Hs & Hcs & Hd & -> & ->) Hq. exists page, cs. rewrite Hq by (by left). split_and!; try done.
    apply Forall2_same_length_lookup. pose proof Hcs as Hl%Forall2_length. split; [done|]. intros i sep c Hi Hc.
    apply IH; [exact (Forall2_lookup_lr _ _ _ _ _ _ Hcs Hi Hc)|]. intros q Hqc. apply Hq. right.
    apply (in_children _ c); [by eapply list_elem_of_lookup_2|done].
Qed.

(** The child that is visited for a key, and where the key stands among the children. *)
Lemma visited R s h id entries pages k :
  tree_at R s (S h) id entries pages ->
  exists page cs i sep c, btree_read_page s id = Ok page /\ (bp_type page = Root \/ bp_type page = Internal) /\ bp_keys page <> []
    /\ keys_sorted (bp_keys page)
    /\ Forall2 (fun sep c => tree_at R s h (heap_pointer sep).1 c.1 c.2) (bp_keys page) cs /\ divided (bp_keys page) cs.*1
    /\ entries = concat cs.*1 /\ pages = id :: concat cs.*2
    /\ bp_keys page !! i = Some sep /\ cs !! i = Some c /\ tree_at R s h (heap_pointer sep).1 c.1 c.2
    /\ find_descend_child page k = (heap_pointer sep).1
    /\ ((0 < i)%nat -> key_le (it_key sep) k) /\ (forall j t, (i < j)%nat -> bp_keys page !! j = Some t -> key_lt k (it_key t)).
Proof.
  intros (page & cs & Hr & Hty & Hne & Hs & Hcs & Hd & -> & ->).
  destruct (bp_keys page) as [|k0 keys] eqn:Ek; [done|]. destruct (descend_child k0 keys k Hs) as (i & sep & Hi & Ed & Hle & Hlt).
  destruct (lookup_lt_is_Some_2 cs i) as [c Hc]; [rewrite <- (Forall2_length _ _ _ Hcs); by eapply lookup_lt_Some|].
  exists page, cs, i, sep, c. rewrite Ek. split_and!; try done; [exact (Forall2_lookup_lr _ _ _ _ _ _ Hcs Hi Hc)|].
  unfold find_descend_child. rewrite Ek. exact Ed.
Qed.

(** Only the visited child has entries of the key. *)
Lemma matching_concat k (cs : list (list IndexTuple)) i c :
  cs !! i = Some c -> (forall j c', j <> i -> cs !! j = Some c' -> matching k c' = []) -> matching k (concat cs) = matching k c.
Proof.
  revert i. induction cs as [|d cs IH]; intros i Hi Ho; [done|]. cbn [concat]. rewrite matching_app. destruct i as [|i].
  - injection Hi as ->. enough (matching k (concat cs) = []) as -> by apply app_nil_r. clear IH.
    assert (Hn : forall c', c' ∈ cs -> matching k c' = []) by (intros c' [j Hj]%list_elem_of_lookup; by apply (Ho (S j) c')).
    clear Ho. induction cs as [|e cs IH]; [done|]. cbn [concat]. rewrite matching_app, Hn by (by left). apply IH. intros c' Hc'. apply Hn. by right.
  - rewrite (Ho 0%nat d) by done. apply (IH i Hi). intros j c' Hj Hc'. apply (Ho (S j) c'); [lia|done].
Qed.

Lemma not_in_others seps cs i sep k j c' :
  divided seps cs -> seps !! i = Some sep -> ((0 < i)%nat -> key_le (it_key sep) k) ->
  (forall j t, (i < j)%nat -> seps !! j = Some t -> key_lt k (it_key t)) -> length cs = length seps ->
  j <> i -> cs !! j = Some c' -> matching k c' = [].
Proof.
  intros Hd Hi Hle Hlt Hlen Hj Hc'. apply matching_none. intros t Ht <-. destruct (Hd j c' t Hc' Ht) as [Hbefore Hown].
  destruct (decide (j < i)%nat) as [Hji|Hji].
  - apply (key_lt_irrefl (it_key t)), (key_lt_le_trans _ (it_key sep)); [by apply (Hbefore i)|apply Hle; lia].
  - destruct (lookup_lt_is_Some_2 seps j) as [u Hu]; [rewrite <- Hlen; by eapply lookup_lt_Some|].
    apply (key_lt_irrefl (it_key t)), (key_lt_le_trans _ (it_key u)); [apply (Hlt j); [lia|done]|apply Hown; [lia|done]].
Qed.

(** A search in a tree finds exactly the entries of its key, in their order, with
    more fuel than the tree is high. *)
Lemma tree_search R s h id entries pages k fuel :
  tree_at R s h id entries pages -> (h < fuel)%nat -> btree_search fuel s id k = Some (Ok (matching k entries)).
Proof.
  revert id entries pages fuel. induction h as [|h IH]; intros id entries pages fuel Ht Hf.
  - destruct Ht as (Hl & _). apply leaf_search; [done|lia].
  - destruct (visited R s h id entries pages k Ht) as (page & cs & i & sep & c & Hr & Hty & _ & _ & Hcs & Hd & -> & _ & Hi & Hc & Hchild & Ef & Hle & Hlt).
    destruct fuel as [|fuel]; [lia|]. unfold btree_search. cbn [search_page]. rewrite Hr, Ef.
    fold (btree_search (St := St)). rewrite (IH _ _ _ fuel Hchild) by lia.
    rewrite (matching_concat k cs.*1 i c.1).
    + by destruct Hty as [-> | ->].
    + by rewrite list_lookup_fmap, Hc.
    + intros j c'. eapply not_in_others; [done|done|done|done|]. rewrite length_fmap. by rewrite (Forall2_length _ _ _ Hcs).
Qed.
End trees.

(* ------------------------------------------------------------------ *)
(** ** Inserting *)

(** The format keeps no relation id. *)
Lemma read_entries_forget n pos data keys : read_entries n pos data = Ok keys -> forget_oid <$> keys = keys.
Proof.
  revert pos keys. induction n as [|n IH]; intros pos keys; cbn [read_entries]; [by intros [= <-]|]. case_match; [by intros [= <-]|].
  intros (len & _ & Hr)%bind_ok. case_match; [by injection Hr as <-|].
  apply bind_ok in Hr as (? & _ & Hr). apply bind_ok in Hr as (? & _ & Hr). apply bind_ok in Hr as (? & _ & Hr).
  apply bind_ok in Hr as (rest & Hrest & Hr). injection Hr as <-. cbn. by rewrite (IH _ _ Hrest).
Qed.

Lemma leaf_forgets {St} `{Storage St} s id keys : leaf_at s id keys -> forget_oid <$> keys = keys.
Proof.
  intros (page & Hr & _ & _ & <- & _). unfold btree_read_page in Hr. apply bind_ok in Hr as (data & _ & Hr).
  case_match; [by injection Hr as <-|]. unfold deserialize_page in Hr. case_match; [by injection Hr as <-|].
  do 5 (apply bind_ok in Hr as (? & _ & Hr)). apply bind_ok in Hr as (ks & Hks & Hr). injection Hr as <-. by apply read_entries_forget in Hks.
Qed.

Lemma forget_sorted keys : keys_sorted keys -> keys_sorted (forget_oid <$> keys).
Proof.
  unfold keys_sorted. induction 1 as [|t l _ IH Hall]; cbn; constructor; [done|]. apply Forall_fmap. eapply Forall_impl; [apply Hall|]. done.
Qed.

(** A list of lists with one of them changed. *)
Lemma concat_insert {X} (ls : list (list X)) i a a' :
  ls !! i = Some a -> exists pre post, concat ls = pre ++ a ++ post /\ concat (<[i := a']> ls) = pre ++ a' ++ post.
Proof.
  intros Hi. exists (concat (take i ls)), (concat (drop (S i) ls)). split.
  - rewrite <- (take_drop_middle ls i a Hi) at 1. by rewrite concat_app.
  - rewrite insert_take_drop by (by eapply lookup_lt_Some). by rewrite concat_app.
Qed.

Lemma concat_disjoint {X} (ls : list (list X)) i j a b x :
  NoDup (concat ls) -> ls !! i = Some a -> ls !! j = Some b -> i <> j -> x ∈ a -> x ∉ b.
Proof.
  intros Hn Hi Hj Hij Ha Hb. destruct (concat_insert ls i a [] Hi) as (pre & post & E & E').
  assert (Hin : x ∈ pre ++ post).
  { change (pre ++ post) with (pre ++ [] ++ post). rewrite <- E'. apply list_elem_of_In, in_concat. exists b.
    split; [|by apply list_elem_of_In]. apply list_elem_of_In, list_elem_of_lookup. exists j. by rewrite list_lookup_insert_ne. }
  rewrite E in Hn. apply NoDup_app in Hn as (_ & Hpre & Hn). apply NoDup_app in Hn as (_ & Hpost & _).
  apply elem_of_app in Hin as [Hin|Hin]; [by apply (Hpre x Hin), elem_of_app; left|by apply (Hpost x Ha)].
Qed.

(** The entry that was added stands where its child does. *)
Lemma divided_insert seps (cs : list (list IndexTuple)) i c c' sep t :
  divided seps cs -> cs !! i = Some c -> c' ≡ₚ forget_oid t :: c -> seps !! i = Some sep ->
  ((0 < i)%nat -> key_le (it_key sep) (it_key t)) ->
  (forall j u, (i < j)%nat -> seps !! j = Some u -> key_lt (it_key t) (it_key u)) -> divided seps (<[i := c']> cs).
Proof.
  intros Hd Hi Hperm Hsep Hle Hlt j d u Hj Hu. destruct (decide (j = i)) as [->|Hne].
  - rewrite list_lookup_insert_eq in Hj by (by eapply lookup_lt_Some). injection Hj as <-. rewrite Hperm in Hu.
    apply elem_of_cons in Hu as [-> |Hu]; [|by apply (Hd i c)]. split; [intros k v Hk Hv; by apply (Hlt k)|].
    intros v Hpos Hv. rewrite Hv in Hsep. injection Hsep as <-. by apply Hle.
  - rewrite list_lookup_insert_ne in Hj by done. by apply (Hd j d).
Qed.

Section insert.
Context {P : Profile} {St A : Type} (psize : nat) (valid : St -> Prop) `{StorageLaws St psize valid}.
Variable next : A -> PageId * A.
Implicit Types s : St.
Implicit Types R : list IndexTuple -> Prop.

Lemma keys_kept page : bp_type page = Leaf -> (if bool_decide (bp_keys page = []) then with_type page Leaf else page) = page.
Proof. intros Ht. case_match; [|done]. destruct page. cbn in *. by subst. Qed.

(** A leaf with room takes the tuple. *)
Lemma leaf_insert R R' s a id entries tuple fuel is_root :
  valid s -> 64 <= Z.of_nat psize -> is_u32 id -> leaf_at s id entries -> keys_sorted entries ->
  zlen entries < Z.of_nat psize / 64 -> page_fits (Z.of_nat psize) (tuple :: entries) ->
  exists s' entries', insert_recursive next (S fuel) id tuple (Z.of_nat psize) is_root (s, a) = Some (Ok None, (s', a)) /\ valid s'
    /\ leaf_at s' id entries' /\ keys_sorted entries' /\ entries' ≡ₚ forget_oid tuple :: entries
    /\ forall q, is_u32 q -> q <> id -> btree_read_page s' q = btree_read_page s q.
Proof.
  intros Hv Hps Hid Hleaf Hs Hroom Hfit. pose proof (leaf_forgets _ _ _ Hleaf) as Hforget.
  destruct Hleaf as (page & Hr & Hty & _ & Hk & Hlv & Hl & Hrt). subst entries.
  destruct (insert_sorted_ok tuple page Hs) as (Hs' & Hperm & Hrest).
  destruct (write_leaf psize valid s id (insert_sorted tuple page)) as (s' & Hw & Hv' & Hleaf' & Ho); try done.
  { by eapply page_fits_perm. }
  exists s', (forget_oid <$> bp_keys (insert_sorted tuple page)). split_and!; [|done|done|by apply forget_sorted| |done].
  - cbn [insert_recursive]. erewrite bind_run by (by apply m_read_run). rewrite bool_decide_true by done. cbn [orb].
    rewrite keys_kept by done. unfold is_full. rewrite (proj2 (Z.leb_gt _ _)) by lia. by erewrite bind_run by (by apply m_write_run).
  - rewrite Hperm. cbn. by rewrite Hforget.
Qed.

(** A tree whose leaves have room takes the tuple: no page is split, the tree is on
    the same pages, and holds the tuple besides what it held. *)
Lemma tree_insert R R' h s a id entries pages tuple fuel is_root :
  (forall keys, R keys -> zlen keys < Z.of_nat psize / 64 /\ page_fits (Z.of_nat psize) (tuple :: keys)) ->
  (forall keys, R keys -> R' keys) -> (forall keys keys', R keys -> keys' ≡ₚ forget_oid tuple :: keys -> R' keys') ->
  valid s -> 64 <= Z.of_nat psize -> tree_at R s h id entries pages -> Forall is_u32 pages -> NoDup pages -> (h < fuel)%nat ->
  exists s' entries', insert_recursive next fuel id tuple (Z.of_nat psize) is_root (s, a) = Some (Ok None, (s', a)) /\ valid s'
    /\ tree_at R' s' h id entries' pages /\ entries' ≡ₚ forget_oid tuple :: entries
    /\ forall q, is_u32 q -> q ∉ pages -> btree_read_page s' q = btree_read_page s q.
Proof.
  intros Hroom HR HR' Hv Hps. revert id entries pages fuel is_root.
  induction h as [|h IH]; intros id entries pages fuel is_root Ht Hu Hn Hf; (destruct fuel as [|fuel]; [lia|]).
  - destruct Ht as (Hl & Hs & HRe & ->). destruct (Hroom _ HRe) as [Hr1 Hr2]. rewrite Forall_singleton in Hu.
    destruct (leaf_insert R R' s a id entries tuple fuel is_root Hv Hps Hu Hl Hs Hr1 Hr2) as (s' & es & Hrun & Hv' & Hl' & Hs' & Hp & Ho).
    exists s', es. split_and!; [done|done| |done|]; [split_and!; try done; by eapply HR'|]. intros q Hq Hqn. apply Ho; [done|set_solver].
  - destruct (visited R s h id entries pages (it_key tuple) Ht)
      as (page & cs & i & sep & c & Hr & Hty & Hne & Hs & Hcs & Hd & -> & -> & Hi & Hc & Hchild & Ef & Hle & Hlt).
    apply Forall_cons in Hu as [Hid Hu]. apply NoDup_cons in Hn as [Hnid Hn].
    assert (Hsub : forall q, q ∈ c.2 -> q ∈ concat cs.*2) by (intros q; by eapply in_children, list_elem_of_lookup_2).
    destruct (IH (heap_pointer sep).1 c.1 c.2 fuel false Hchild) as (s' & es & Hrun & Hv' & Ht' & Hp & Ho); [| |lia|].
    { rewrite Forall_forall in Hu |- *. auto. }
    { destruct (concat_insert cs.*2 i c.2 []) as (pre & post & E & _); [by rewrite list_lookup_fmap, Hc|].
      rewrite E in Hn. apply NoDup_app in Hn as (_ & _ & Hn). by apply NoDup_app in Hn as (Hn & _ & _). }
    assert (Hall : forall q, q ∈ id :: concat cs.*2 -> q ∉ c.2 -> btree_read_page s' q = btree_read_page s q).
    { intros q Hq Hqn. apply Ho; [|done]. apply elem_of_cons in Hq as [-> |Hq]; [done|]. rewrite Forall_forall in Hu. auto. }
    destruct (concat_insert cs.*1 i c.1 es) as (pre & post & E1 & E2); [by rewrite list_lookup_fmap, Hc|].
    exists s', (concat (<[i := es]> cs.*1)). split_and!; [|done| | |].
    + cbn [insert_recursive]. erewrite bind_run by (by apply m_read_run).
      rewrite bool_decide_false by (by destruct Hty as [-> | ->]). rewrite bool_decide_false by done. cbn [orb].
      change (find_child_page_id page (it_key tuple)) with (find_descend_child page (it_key tuple)). rewrite Ef.
      by erewrite bind_run by exact Hrun.
    + cbn [tree_at]. exists page, (<[i := (es, c.2)]> cs). rewrite Hall; [|by left|by intros Hin; apply Hnid, Hsub].
      rewrite !list_fmap_insert. cbn [fst snd]. rewrite (list_insert_id cs.*2 i c.2) by (by rewrite list_lookup_fmap, Hc).
      split_and!; try done.
      * pose proof Hcs as Hlen%Forall2_length. apply Forall2_same_length_lookup. split; [by rewrite length_insert|].
        intros j u d Hj Hdj. destruct (decide (j = i)) as [->|Hji].
        -- rewrite list_lookup_insert_eq in Hdj by (by eapply lookup_lt_Some). injection Hdj as <-. rewrite Hi in Hj. by injection Hj as <-.
        -- rewrite list_lookup_insert_ne in Hdj by done. apply (tree_same R R' s s'); [done|exact (Forall2_lookup_lr _ _ _ _ _ _ Hcs Hj Hdj)|].
           intros q Hq. apply Hall; [right; by eapply in_children; [eapply list_elem_of_lookup_2|]|].
           apply (concat_disjoint cs.*2 j i d.2 c.2 q); try done; by rewrite list_lookup_fmap, ?Hdj, ?Hc.
      * eapply (divided_insert _ _ _ c.1); try done. by rewrite list_lookup_fmap, Hc.
    + rewrite E1, E2, Hp. symmetry. apply (Permutation_middle pre (c.1 ++ post)).
    + intros q Hq Hqn. apply Ho; [done|]. intros Hin. apply Hqn. right. by apply Hsub.
Qed.
End insert.

(* ------------------------------------------------------------------ *)
(** ** Histories *)

(** Insert the entries one after the other, each at the root the last returned. *)
Fixpoint btree_inserts {P : Profile} {St A} `{Storage St} (next : A -> PageId * A) (fuel : nat) (root : PageId)
    (ts : list IndexTuple) (page_size : Z) : tree_m St A PageId :=
  match ts with
  | [] => mret root
  | t :: rest => root ← btree_insert_multipage next fuel root t page_size; btree_inserts next fuel root rest page_size
  end.

(** An entry of at most [m] bytes that survives being written. *)
Definition small (m : Z) (t : IndexTuple) : Prop := tuple_ok t /\ it_key t <> [] /\ entry_size t <= m.

(** A leaf on which the entries [ts] still have room. *)
Definition roomy (psize : nat) (m : Z) (ts keys : list IndexTuple) : Prop :=
  zlen keys + zlen ts <= Z.of_nat psize / 64 /\ Forall (small m) (ts ++ keys).

Lemma small_forget m t : small m t -> small m (forget_oid t).
Proof. intros ([? ? ?] & ? & ?). by split_and!; [split|..]. Qed.

Lemma small_size m keys : Forall (small m) keys -> 0 <= m -> entries_size keys <= zlen keys * m.
Proof.
  intros Hs Hm. induction Hs as [|t keys (_ & _ & Ht) _ IH]; [cbn; lia|]. rewrite entries_size_cons. cbn [length]. lia.
Qed.

(** Pages of up to [psize / 64] entries of at most [m] bytes never run out of bytes. *)
Class EntriesFit (psize : nat) (m : Z) : Prop := {
  ef_room : 64 + Z.of_nat psize / 64 * m <= Z.of_nat psize;
  ef_small : Z.of_nat psize < 2 ^ 19;
  ef_two : 2 <= Z.of_nat psize / 64;
}.

Lemma page_long psize m `{EntriesFit psize m} : 64 <= Z.of_nat psize.
Proof. pose proof (ef_two (psize := psize) (m := m)). pose proof (Z.mul_div_le (Z.of_nat psize) 64). lia. Qed.

Lemma small_fits psize m `{EntriesFit psize m} keys :
  Forall (small m) keys -> zlen keys <= Z.of_nat psize / 64 -> page_fits (Z.of_nat psize) keys.
Proof.
  intros Hs Hl. pose proof (ef_room (psize := psize) (m := m)). pose proof (ef_small (psize := psize) (m := m)).
  split; [|done|]; [|eapply Forall_impl; [exact Hs|]; by intros t (? & ? & _)].
  destruct keys as [|t keys]; [cbn; pose proof (page_long psize m); lia|].
  assert (0 <= m) by (apply Forall_cons in Hs as [(_ & _ & Ht) _]; pose proof (entry_size_pos t); lia).
  pose proof (small_size m _ Hs ltac:(done)). nia.
Qed.

Lemma roomy_fits psize m `{EntriesFit psize m} t ts keys :
  roomy psize m (t :: ts) keys -> zlen keys < Z.of_nat psize / 64 /\ page_fits (Z.of_nat psize) (t :: keys).
Proof.
  intros [Hl Hs]. cbn [length] in Hl. split; [lia|]. apply (small_fits psize m); [|cbn [length]; lia].
  apply Forall_cons in Hs as [Ht [_ Hk]%Forall_app]. by constructor.
Qed.

Lemma roomy_less psize m t ts keys : roomy psize m (t :: ts) keys -> roomy psize m ts keys.
Proof. intros [Hl Hs]. cbn [length] in Hl. split; [lia|]. by apply Forall_cons in Hs as [_ Hs]. Qed.

Lemma roomy_added psize m t ts keys keys' :
  roomy psize m (t :: ts) keys -> keys' ≡ₚ forget_oid t :: keys -> roomy psize m ts keys'.
Proof.
  intros [Hl Hs] Hp. apply Permutation_length in Hp as Hlen. cbn [length] in *. split; [lia|].
  apply Forall_cons in Hs as [Ht [Hts Hk]%Forall_app]. apply Forall_app. split; [done|]. rewrite Hp. constructor; [by apply small_forget|done].
Qed.

(** Each half of a split leaf has at least half the entries. *)
Lemma split_lengths page tuple first :
  (length (bp_keys page) / 2 <= length (bp_keys (split_left page tuple first)))%nat
  /\ (length (bp_keys page) - length (bp_keys page) / 2 <= length (bp_keys (split_right page tuple first)))%nat.
Proof.
  assert (Hins : forall p, length (bp_keys (insert_sorted tuple p)) = S (length (bp_keys p))).
  { intros p. unfold insert_sorted. cbn [bp_keys with_keys]. by rewrite insert_at_perm. }
  pose proof (Nat.Div0.div_le_mono (length (bp_keys page)) (2 * length (bp_keys page)) 2 ltac:(lia)) as Hd.
  rewrite (Nat.mul_comm 2), Nat.div_mul in Hd by lia.
  unfold split_left, split_right. case_match; rewrite ?Hins; cbn [bp_keys with_keys]; rewrite length_take, length_drop; lia.
Qed.

Section histories.
Context {P : Profile} {St A : Type} (psize : nat) (m : Z) (valid : St -> Prop) `{StorageLaws St psize valid} `{EntriesFit psize m}.
Variable next : A -> PageId * A.
Implicit Types s : St.

(** As many insertions as the leaves have room for. *)
Lemma tree_inserts h s a root entries pages ts fuel :
  valid s -> tree_at (roomy psize m ts) s h root entries pages -> Forall is_u32 pages -> NoDup pages -> (h < fuel)%nat ->
  exists s' entries', btree_inserts next fuel root ts (Z.of_nat psize) (s, a) = Some (Ok root, (s', a)) /\ valid s'
    /\ tree_at (roomy psize m []) s' h root entries' pages /\ entries' ≡ₚ (forget_oid <$> ts) ++ entries
    /\ forall q, is_u32 q -> q ∉ pages -> btree_read_page s' q = btree_read_page s q.
Proof.
  intros Hv Ht Hu Hn Hf. revert s entries Hv Ht. induction ts as [|t ts IH]; intros s entries Hv Ht; [by exists s, entries|].
  destruct (tree_insert psize valid next (roomy psize m (t :: ts)) (roomy psize m ts) h s a root entries pages t fuel true)
    as (s1 & es1 & Hrun & Hv1 & Ht1 & Hp1 & Ho1); try done.
  { intros keys. by apply roomy_fits. } { intros keys. apply roomy_less. } { intros keys keys'. apply roomy_added. } { exact (page_long psize m). }
  destruct (IH s1 es1 Hv1 Ht1) as (s2 & es2 & Hrun2 & Hv2 & Ht2 & Hp2 & Ho2).
  exists s2, es2. split_and!; [|done|done| |].
  - cbn [btree_inserts]. rewrite (bind_run _ _ _ root (s1, a)); [exact Hrun2|]. unfold btree_insert_multipage. by rewrite (bind_run _ _ _ None (s1, a)).
  - rewrite Hp2, Hp1. cbn. symmetry. apply Permutation_middle.
  - intros q Hq Hqn. by rewrite Ho2, Ho1.
Qed.

(** Two leaves under a root. *)
Lemma two_leaf_tree R s nid left right sep page lk rk :
  btree_read_page s nid = Ok page -> bp_type page = Root ->
  bp_keys page = [forget_oid (with_pointer sep left); forget_oid (with_pointer sep right)] ->
  leaf_at s left lk -> leaf_at s right rk -> keys_sorted lk -> keys_sorted rk -> R lk -> R rk ->
  (forall u, u ∈ lk -> key_lt (it_key u) (it_key sep)) -> (forall u, u ∈ rk -> key_le (it_key sep) (it_key u)) ->
  tree_at R s 1 nid (lk ++ rk) [nid; left; right].
Proof.
  intros Hr Hty Hk Hl Hrt Hls Hrs HRl HRr Hlt Hge. exists page, [(lk, [left]); (rk, [right])]. rewrite Hk. cbn. rewrite app_nil_r.
  split_and!; [done|by left|done| | | |done|done].
  - constructor; [repeat constructor|]. apply Forall_cons. by split; [reflexivity|].
  - constructor; [by split_and!|]. constructor; [by split_and!|constructor].
  - intros [|[|i]] c t Hc Ht; cbn in Hc; simplify_eq; (split; [intros [|[|j]] u Hj Hu|intros u Hpos' Hu]); cbn in Hu; simplify_eq; try lia;
      cbn; auto.
Qed.

(** The split of a full root leaf makes a tree of height 1. *)
Lemma split_tree R s a root keys tuple fuel rid nid a1 a2 :
  valid s -> leaf_at s root keys -> keys_strict keys -> Forall (small m) (tuple :: keys) -> zlen keys = Z.of_nat psize / 64 ->
  (forall half, (exists other, half ++ other ≡ₚ forget_oid <$> tuple :: keys) ->
     (length half + length keys / 2 <= S (length keys))%nat -> R half) ->
  next a = (rid, a1) -> next a1 = (nid, a2) ->
  is_u32 root -> is_u32 rid -> is_u32 nid -> root <> rid -> root <> nid -> rid <> nid ->
  (forall page, btree_read_page s root = Ok page -> bp_level page < 2 ^ 16 - 1) ->
  exists s' entries, btree_insert_multipage next (S fuel) root tuple (Z.of_nat psize) (s, a) = Some (Ok nid, (s', a2)) /\ valid s'
    /\ tree_at R s' 1 nid entries [nid; root; rid] /\ entries ≡ₚ forget_oid <$> tuple :: keys
    /\ forall q, is_u32 q -> q ∉ [nid; root; rid] -> btree_read_page s' q = btree_read_page s q.
Proof.
  intros Hv Hleaf Hs Hsm Hfull HR Hn1 Hn2 Hu1 Hu2 Hu3 Hd1 Hd2 Hd3 Hlvl. pose proof (page_long psize m) as Hps.
  pose proof (ef_two (psize := psize) (m := m)) as Htwo. pose proof (ef_room (psize := psize) (m := m)) as Hroom.
  pose proof Hleaf as (page & Hr & Hty & Hpid & Hk & Hlv & Hl & Hrt). specialize (Hlvl page Hr). subst keys root.
  assert (Hne : bp_keys page <> []) by (intros E; rewrite E in Hfull; cbn in Hfull; lia).
  destruct (split_halves page tuple Hs Hne)
    as (first & rest & sep & rest' & Ed & Hrk & Hperm & Hlt & Hge & Hlp & Hrty & Hrrt & Hls & Hrs).
  set (lp := split_left page tuple first) in *. set (rp := split_right page tuple first) in *.
  destruct (split_lengths page tuple first) as [Hll Hrl]. fold lp in Hll. fold rp in Hrl. pose proof (Permutation_length Hperm) as Hlen.
  rewrite length_app in Hlen. cbn [length] in Hlen.
  assert (Hhalf : (length (bp_keys page) / 2 + length (bp_keys page) / 2 <= length (bp_keys page))%nat)
    by (pose proof (Nat.Div0.mul_div_le (length (bp_keys page)) 2); lia).
  assert (Hall : Forall (small m) (bp_keys lp ++ bp_keys rp)) by (by rewrite Hperm). apply Forall_app in Hall as [Hlsm Hrsm].
  assert (Hone : (1 <= length (bp_keys page) / 2)%nat) by (apply Nat.div_le_lower_bound; lia).
  assert (Hsep : small m sep) by (rewrite Hrk in Hrsm; by apply Forall_cons in Hrsm as [? _]).
  pose proof (entry_size_pos sep) as Hpos. pose proof Hsep as (_ & _ & Hsm').
  destruct (split_root_run psize valid next s a page tuple first rest sep rest' rid nid a1 a2)
    as (s' & rootp & Hsplit & Hv' & Hl' & Hr' & Hroot & Hrty' & Hrkeys & Ho); try done.
  { apply (small_fits psize m); [done|]. fold lp. lia. } { apply (small_fits psize m); [done|]. fold rp. lia. } { nia. }
  fold lp rp in Hl', Hr'.
  exists s', ((forget_oid <$> bp_keys lp) ++ (forget_oid <$> bp_keys rp)). split_and!; [|done| | |].
  - unfold btree_insert_multipage. rewrite (bind_run _ _ _ (Some nid) (s', a2)); [reflexivity|]. cbn [insert_recursive].
    erewrite bind_run by (by apply m_read_run). rewrite Hty. rewrite bool_decide_eq_true_2 by done.
    rewrite bool_decide_eq_false_2 by done. unfold is_full. rewrite (proj2 (Z.leb_le _ _)) by lia. exact Hsplit.
  - apply (two_leaf_tree R s' nid (bp_id page) rid sep rootp); try done; [by apply forget_sorted..| | | |].
    + apply HR; rewrite ?length_fmap; [|lia]. eexists. by rewrite <- fmap_app, Hperm.
    + apply HR; rewrite ?length_fmap; [|lia]. exists (forget_oid <$> bp_keys lp).
      rewrite <- fmap_app. by rewrite (Permutation_app_comm (bp_keys rp)), Hperm.
    + apply (lt_forget _ (fun k => key_lt k (it_key sep)) Hlt).
    + apply (lt_forget _ (fun k => key_le (it_key sep) k) Hge).
  - by rewrite <- fmap_app, Hperm.
  - intros q Hq Hnq. apply Ho; set_solver.
Qed.

Lemma three_distinct {X} (a b c : X) : b <> c -> b <> a -> c <> a -> NoDup [a; b; c].
Proof. intros. repeat (constructor; [rewrite ?elem_of_cons, elem_of_nil; naive_solver|]). constructor. Qed.

(** A full root leaf of distinct keys splits for one more entry, and the index then
    takes as many as half a page has room for: every key, old and new, is found. *)
Theorem split_history s a root keys tuple ts fuel rid nid a1 a2 :
  valid s -> leaf_at s root keys -> keys_strict keys -> Forall (small m) (ts ++ tuple :: keys) ->
  zlen keys = Z.of_nat psize / 64 -> (S (length ts) <= length keys / 2)%nat ->
  next a = (rid, a1) -> next a1 = (nid, a2) ->
  is_u32 root -> is_u32 rid -> is_u32 nid -> root <> rid -> root <> nid -> rid <> nid ->
  (forall page, btree_read_page s root = Ok page -> bp_level page < 2 ^ 16 - 1) ->
  exists s', btree_inserts next (S (S fuel)) root (tuple :: ts) (Z.of_nat psize) (s, a) = Some (Ok nid, (s', a2)) /\
    (forall k n, (1 < n)%nat -> exists found, btree_search n s' nid k = Some (Ok found) /\
       found ≡ₚ forget_oid <$> matching k (ts ++ tuple :: keys)) /\
    (forall q, is_u32 q -> q ∉ [nid; root; rid] -> btree_read_page s' q = btree_read_page s q).
Proof.
  intros Hv Hleaf Hs Hsm Hfull Hts Hn1 Hn2 Hu1 Hu2 Hu3 Hd1 Hd2 Hd3 Hlvl. apply Forall_app in Hsm as [Htsm Hsm].
  destruct (split_tree (roomy psize m ts) s a root keys tuple (S fuel) rid nid a1 a2)
    as (s1 & es1 & Hrun1 & Hv1 & Ht1 & Hp1 & Ho1); try done.
  { intros half [other Hp] Hlen. split; [lia|]. apply Forall_app. split; [done|].
    assert (Hall : Forall (small m) (half ++ other)); [|by apply Forall_app in Hall as [? _]]. rewrite Hp. apply Forall_fmap.
    eapply Forall_impl; [exact Hsm|]. intros u. apply small_forget. }
  destruct (tree_inserts 1 s1 a2 nid es1 [nid; root; rid] ts (S (S fuel)) Hv1 Ht1)
    as (s2 & es2 & Hrun2 & Hv2 & Ht2 & Hp2 & Ho2); [|by apply three_distinct|lia|].
  { do 3 (constructor; [done|]). constructor. }
  exists s2. split_and!.
  - cbn [btree_inserts]. by rewrite (bind_run _ _ _ nid (s1, a2)).
  - intros k n Hn. eexists. split; [by apply (tree_search _ _ _ _ _ _ _ _ Ht2)|].
    by rewrite <- matching_fmap_forget, Hp2, Hp1, <- fmap_app.
  - intros q Hq Hnq. by rewrite Ho2, Ho1.
Qed.

(** C28. Inserting into an index of any height, as often as its leaves have room: every
    call succeeds and keeps the root, and a search for any key then finds what it
    found before and the new entries of the key, and nothing else (the format keeps
    no relation id); pages outside the tree do not change. *)
Theorem tree_history h s a root entries pages ts fuel :
  valid s -> tree_at (roomy psize m ts) s h root entries pages -> Forall is_u32 pages -> NoDup pages -> (h < fuel)%nat ->
  exists s', btree_inserts next fuel root ts (Z.of_nat psize) (s, a) = Some (Ok root, (s', a)) /\
    (forall k n, (h < n)%nat ->
       btree_search n s root k = Some (Ok (matching k entries)) /\
       exists found, btree_search n s' root k = Some (Ok found) /\ found ≡ₚ (forget_oid <$> matching k ts) ++ matching k entries) /\
    (forall q, is_u32 q -> q ∉ pages -> btree_read_page s' q = btree_read_page s q).
Proof.
  intros Hv Ht Hu Hn Hf. destruct (tree_inserts h s a root entries pages ts fuel Hv Ht Hu Hn Hf) as (s' & es & Hrun & _ & Ht' & Hp & Ho).
  exists s'. split_and!; [done| |done]. intros k n Hlt. split; [by eapply tree_search|]. eexists. split; [by eapply tree_search|].
  by rewrite <- matching_fmap_forget, Hp, <- matching_app.
Qed.
End histories.

(* ------------------------------------------------------------------ *)
(** ** A tree of height 1 *)

(** In pages of 512 bytes a leaf is full with eight entries: the ninth splits it. *)
#[local] Instance fit_512 : EntriesFit 512 40.
Proof. by split; vm_compute. Qed.

Definition keys_to (n : nat) : list IndexTuple := List.map (fun i => sample_entry 1 (Z.of_nat i)) (seq 1 n).

Definition split_store : EphemeralStorage :=
  match btree_inserts (P := debug_profile) count_up 3 1 (keys_to 9) 512 (EphemeralStorage_new, 10) with
  | Some (Ok 11, (s, _)) => s
  | _ => EphemeralStorage_new
  end.

Lemma small_samples ns : Forall (fun n => is_u32 n) ns -> Forall (small 40) (List.map (sample_entry 1) ns).
Proof. induction 1; cbn; constructor; [|done]. split_and!; [by split|done|by vm_compute]. Qed.

Lemma split_store_tree : tree_at (roomy 512 40 [sample_entry 1 20; sample_entry 1 2]) split_store 1 11 (keys_to 9) [11; 1; 10].
Proof.
  apply (two_leaf_tree _ split_store 11 1 10 (sample_entry 1 5) (two_child_root 11 1 (sample_entry 1 5) 1 10) (keys_to 4) (List.map (sample_entry 1) [5; 6; 7; 8; 9])).
  - vm_compute. reflexivity.
  - reflexivity.
  - reflexivity.
  - eexists. split; [vm_compute; reflexivity|]. vm_compute. by split_and!.
  - eexists. split; [vm_compute; reflexivity|]. vm_compute. by split_and!.
  - apply strict_sorted. repeat (constructor; [|repeat (apply Forall_cons; split); try apply Forall_nil_2; reflexivity]). constructor.
  - apply strict_sorted. repeat (constructor; [|repeat (apply Forall_cons; split); try apply Forall_nil_2; reflexivity]). constructor.
  - split; [by vm_compute|]. apply (small_samples [20; 2; 1; 2; 3; 4]). repeat (apply Forall_cons; split); try apply Forall_nil_2; by vm_compute.
  - split; [by vm_compute|]. apply (small_samples [20; 2; 5; 6; 7; 8; 9]). repeat (apply Forall_cons; split); try apply Forall_nil_2; by vm_compute.
  - intros u Hu. repeat (apply elem_of_cons in Hu as [-> | Hu]; [reflexivity|]). by apply elem_of_nil in Hu.
  - intros u Hu. repeat (apply elem_of_cons in Hu as [-> | Hu]; [reflexivity|]). by apply elem_of_nil in Hu.
Qed.

Lemma tree_history_witness :
  exists s', btree_inserts (P := debug_profile) count_up 2 11 [sample_entry 1 20; sample_entry 1 2] (Z.of_nat 512) (split_store, 12)
      = Some (Ok 11, (s', 12)) /\
    (forall k n, (1 < n)%nat ->
       btree_search n split_store 11 k = Some (Ok (matching k (keys_to 9))) /\
       exists found, btree_search n s' 11 k = Some (Ok found) /\
         found ≡ₚ (forget_oid <$> matching k [sample_entry 1 20; sample_entry 1 2]) ++ matching k (keys_to 9)) /\
    (forall q, is_u32 q -> q ∉ [11; 1; 10] -> btree_read_page s' q = btree_read_page split_store q).
Proof.
  apply (tree_history (P := debug_profile) 512 40 (fun _ => True) count_up 1 split_store 12 11 (keys_to 9) [11; 1; 10]
    [sample_entry 1 20; sample_entry 1 2] 2 I split_store_tree).
  - repeat (apply Forall_cons; split); try apply Forall_nil_2; by vm_compute.
  - by apply three_distinct.
  - repeat constructor.
Defined.
