(* ===== verification/IndexKeys.v ===== *)
(** Index descriptors and composite keys ([src/src/btree/mod.rs] and the same
    code in [executor/btree.rs]), scans that read the index alone
    ([executor/btree.rs]), and duplicate elimination over ordered entries
    ([btree/scan.rs]). *)

From S2P Require Import Prelude Types Utf8 Storage BTreePage BTree.

(** The four letters of NULL. *)
Definition NULL : bytes := [78; 85; 76; 76].

(* ------------------------------------------------------------------ *)
(** ** Index descriptors *)

Inductive IndexType := IxBTree | IxHash | IxGiST | IxGIN | IxBRIN.
Inductive SortDirection := Asc | Desc.

#[export] Instance SortDirection_eq_dec : EqDecision SortDirection.
Proof. solve_decision. Defined.

Record IndexColumn := { ic_name : string; ic_direction : SortDirection; ic_nulls_first : bool }.

Record BTreeIndex := {
  index_oid : Z;
  ix_rel_oid : Z;
  root_page : PageId;
  page_size : Z;
  unique : bool;
  columns : list IndexColumn;
  index_type : IndexType;
}.

Definition BTreeIndex_new (index_oid rel_oid : Z) (root_page : PageId) (page_size : Z) : BTreeIndex :=
  {| index_oid := index_oid; ix_rel_oid := rel_oid; root_page := root_page; page_size := page_size;
     unique := false; columns := []; index_type := IxBTree |}.

Definition with_unique (ix : BTreeIndex) (u : bool) : BTreeIndex :=
  {| index_oid := index_oid ix; ix_rel_oid := ix_rel_oid ix; root_page := root_page ix; page_size := page_size ix;
     unique := u; columns := columns ix; index_type := index_type ix |}.

Definition with_columns (ix : BTreeIndex) (cols : list IndexColumn) : BTreeIndex :=
  {| index_oid := index_oid ix; ix_rel_oid := ix_rel_oid ix; root_page := root_page ix; page_size := page_size ix;
     unique := unique ix; columns := cols; index_type := index_type ix |}.

Definition with_index_type (ix : BTreeIndex) (ty : IndexType) : BTreeIndex :=
  {| index_oid := index_oid ix; ix_rel_oid := ix_rel_oid ix; root_page := root_page ix; page_size := page_size ix;
     unique := unique ix; columns := columns ix; index_type := ty |}.

Definition column_count (ix : BTreeIndex) : nat := length (columns ix).

(* ------------------------------------------------------------------ *)
(** ** Composite keys *)

Definition is_null_value (val : bytes) : bool := bool_decide (val = []) || bool_decide (val = NULL).

(** The second byte of a value, and of a null. *)
Definition direction_byte (cols : list IndexColumn) (i : nat) : Z :=
  let direction := match cols !! i with Some c => ic_direction c | None => Asc end in
  if decide (direction = Desc) then 1 else 0.

Definition nulls_byte (cols : list IndexColumn) (i : nat) : Z :=
  let nulls_first := match cols !! i with Some c => ic_nulls_first c | None => false end in
  if nulls_first then 1 else 0.

(** One turn of the loop: the bytes pushed for the [i]-th value. *)
Definition encode_value (cols : list IndexColumn) (i : nat) (val : bytes) : bytes :=
  (if is_null_value val then [0; nulls_byte cols i]
   else [1; direction_byte cols i] ++ to_le 4 ((zlen val) as_u32) ++ val)
  ++ [255].

Fixpoint encode_from (cols : list IndexColumn) (i : nat) (values : list bytes) : bytes :=
  match values with
  | [] => []
  | val :: rest => encode_value cols i val ++ encode_from cols (S i) rest
  end.

Definition encode_composite_key (ix : BTreeIndex) (values : list bytes) : bytes := encode_from (columns ix) 0 values.

(** [executor::btree::encode_index_key], the same loop over given columns. *)
Definition encode_index_key (values : list bytes) (cols : list IndexColumn) : bytes := encode_from cols 0 values.

(** The [while pos < key.len()] loop; [None] stands for fuel running out, and
    an out-of-range [key[pos]] panics. *)
Fixpoint decode_from (fuel : nat) (pos : Z) (key : bytes) : option (outcome (list bytes)) :=
  match fuel with
  | O => None
  | S fuel =>
      if zlen key <=? pos then Some (Ok []) else
      let continue (val : list bytes) (pos : Z) :=
        let pos := if (pos <? zlen key) && bool_decide (get pos key = Some 255) then pos + 1 else pos in
        match decode_from fuel pos key with
        | Some r => Some (rest ← r; Ok (val ++ rest))
        | None => None
        end in
      match index pos key with
      | Ok null_indicator =>
          let pos := pos + 1 in
          if null_indicator =? 0 then continue [NULL] (pos + 1)
          else
            match index pos key with
            | Ok _ =>
                let pos := pos + 1 in
                if zlen key <? pos + 4 then Some (Ok []) else
                match read_le 4 pos key with
                | Ok len =>
                    let pos := pos + 4 in
                    if zlen key <? pos + len then Some (Ok []) else
                    match slice pos (pos + len) key with
                    | Ok val => continue [from_utf8_lossy val] (pos + len)
                    | Err e => Some (Err e)
                    | Panic => Some Panic
                    end
                | Err e => Some (Err e)
                | Panic => Some Panic
                end
            | Err e => Some (Err e)
            | Panic => Some Panic
            end
      | Err e => Some (Err e)
      | Panic => Some Panic
      end
  end.

Definition decode_composite_key (ix : BTreeIndex) (key : bytes) : option (outcome (list bytes)) :=
  decode_from (S (length key)) 0 key.

(** [executor::btree::decode_index_key], the same loop. *)
Definition decode_index_key (key : bytes) (cols : list IndexColumn) : option (outcome (list bytes)) :=
  decode_from (S (length key)) 0 key.

(* ------------------------------------------------------------------ *)
(** ** Duplicate elimination *)

Inductive ScanDirection := Forward | Backward.

Record BTreeScan := {
  scan_index_oid : Z;
  scan_key : option bytes;
  scan_direction : ScanDirection;
  skip_duplicates : bool;
  distinct_mode : bool;
}.

Definition BTreeScan_new (index_oid : Z) (key : option bytes) (dir : ScanDirection) : BTreeScan :=
  {| scan_index_oid := index_oid; scan_key := key; scan_direction := dir; skip_duplicates := false;
     distinct_mode := false |}.

Definition should_skip (s : BTreeScan) (current_key next_key : bytes) : bool :=
  if negb (skip_duplicates s) && negb (distinct_mode s) then false else key_eqb current_key next_key.

Abbreviation entry := (bytes * Z * Z)%type.
Definition entry_key (e : entry) : bytes := e.1.1.

(** The inner loops over equal keys: from position [i], the last position whose
    successors up to it all have [key]. *)
Fixpoint advance (fuel : nat) (entries : list entry) (key : bytes) (i : nat) : nat :=
  match fuel with
  | O => i
  | S fuel =>
      match entries !! S i with
      | Some e => if key_eqb (entry_key e) key then advance fuel entries key (S i) else i
      | None => i
      end
  end.

Record SkipScanIterator := { ss_entries : list entry; ss_position : nat; ss_skip_duplicates : bool }.

Definition SkipScanIterator_new (entries : list entry) (skip : bool) : SkipScanIterator :=
  {| ss_entries := entries; ss_position := 0; ss_skip_duplicates := skip |}.

Definition next_distinct (it : SkipScanIterator) : option entry * SkipScanIterator :=
  match ss_entries it !! ss_position it with
  | None => (None, it)
  | Some e =>
      let position :=
        if ss_skip_duplicates it then advance (length (ss_entries it)) (ss_entries it) (entry_key e) (ss_position it)
        else ss_position it in
      (ss_entries it !! position,
       {| ss_entries := ss_entries it; ss_position := S position; ss_skip_duplicates := ss_skip_duplicates it |})
  end.

Definition ss_reset (it : SkipScanIterator) : SkipScanIterator :=
  {| ss_entries := ss_entries it; ss_position := 0; ss_skip_duplicates := ss_skip_duplicates it |}.

(** [count_remaining]: the position never passes the end. *)
Definition count_remaining (it : SkipScanIterator) : nat := length (ss_entries it) - ss_position it.

Record DeduplicateResult := { dd_entries : list entry; duplicates_removed : nat }.

(** The outer loop; [None] stands for fuel running out. *)
Fixpoint dedup_loop (fuel : nat) (entries : list entry) (i removed : nat) : option (list entry * nat) :=
  match fuel with
  | O => None
  | S fuel =>
      match entries !! i with
      | None => Some ([], removed)
      | Some e =>
          let j := advance (length entries) entries (entry_key e) i in
          match dedup_loop fuel entries (S j) (removed + (j - i)) with
          | Some (rest, removed) => Some (e :: rest, removed)
          | None => None
          end
      end
  end.

Definition deduplicate_entries (entries : list entry) : option DeduplicateResult :=
  if decide (entries = []) then Some {| dd_entries := []; duplicates_removed := 0 |} else
  match dedup_loop (S (length entries)) entries 0 0 with
  | Some (r, n) => Some {| dd_entries := r; duplicates_removed := n |}
  | None => None
  end.

(** [skip_to_next_key]: one past the run of equal keys. *)
Definition skip_to_next_key (entries : list entry) (current_pos : nat) : nat :=
  match entries !! current_pos with
  | None => length entries
  | Some e => S (advance (length entries) entries (entry_key e) current_pos)
  end.

(* ------------------------------------------------------------------ *)
(** ** Keys decode to the values they encode *)

(** What a value is decoded as: empty strings are nulls. *)
Definition decoded_value (val : bytes) : bytes := if is_null_value val then NULL else val.

Lemma get_app_here (pre : bytes) x post i : i = zlen pre -> get i (pre ++ x :: post) = Some x.
Proof. intros ->. rewrite get_nat. by apply list_lookup_middle. Qed.

(** One step of the decoder over an encoded null, and over an encoded value. *)
Lemma decode_null_entry nf tail pre fuel :
  decode_from (S fuel) (zlen pre) (pre ++ [0; nf; 255] ++ tail) =
  match decode_from fuel (zlen (pre ++ [0; nf; 255])) (pre ++ [0; nf; 255] ++ tail) with
  | Some r => Some (rest ← r; Ok (NULL :: rest))
  | None => None
  end.
Proof.
  cbn [decode_from]. set (buf := pre ++ _ ++ tail).
  assert (Hb2 : buf = (pre ++ [0; nf]) ++ 255 :: tail) by (unfold buf; by rewrite <- !app_assoc).
  assert (Hlen : zlen buf = zlen pre + 3 + zlen tail) by (unfold buf; rewrite !length_app; cbn; lia).
  rewrite (proj2 (Z.leb_gt _ _)) by lia. unfold index at 1.
  replace (get (zlen pre) buf) with (Some 0) by (symmetry; unfold buf; cbn [app]; by apply get_app_here).
  cbn [Z.eqb]. rewrite (proj2 (Z.ltb_lt _ _)) by lia.
  rewrite bool_decide_eq_true_2 by (rewrite Hb2; apply get_app_here; rewrite length_app; cbn; lia). cbn [andb].
  by replace (zlen pre + 1 + 1 + 1) with (zlen (pre ++ [0; nf; 255])) by (rewrite length_app; cbn; lia).
Qed.

Lemma decode_value_entry dir v tail pre fuel :
  zlen v < 2 ^ 32 ->
  let entry := [1; dir] ++ to_le 4 (zlen v) ++ v ++ [255] in
  decode_from (S fuel) (zlen pre) (pre ++ entry ++ tail) =
  match decode_from fuel (zlen (pre ++ entry)) (pre ++ entry ++ tail) with
  | Some r => Some (rest ← r; Ok (from_utf8_lossy v :: rest))
  | None => None
  end.
Proof.
  intros Hl entry. cbn [decode_from]. set (buf := pre ++ entry ++ tail).
  set (h1 := pre ++ [1; dir]). set (h2 := h1 ++ to_le 4 (zlen v)). set (h3 := h2 ++ v).
  assert (Hb0 : buf = (pre ++ [1]) ++ dir :: (to_le 4 (zlen v) ++ v ++ [255] ++ tail))
    by (unfold buf, entry; by rewrite <- !app_assoc).
  assert (Hb1 : buf = h1 ++ to_le 4 (zlen v) ++ (v ++ [255] ++ tail)) by (rewrite Hb0; unfold h1; by rewrite <- !app_assoc).
  assert (Hb2 : buf = h2 ++ v ++ ([255] ++ tail)) by (rewrite Hb1; unfold h2; by rewrite <- !app_assoc).
  assert (Hb3 : buf = h3 ++ 255 :: tail) by (rewrite Hb2; unfold h3; by rewrite <- !app_assoc).
  assert (Hl1 : zlen h1 = zlen pre + 1 + 1) by (unfold h1; rewrite length_app; cbn; lia).
  assert (Hl2 : zlen h2 = zlen pre + 1 + 1 + 4) by (unfold h2; rewrite length_app, length_to_le; lia).
  assert (Hl3 : zlen h3 = zlen pre + 1 + 1 + 4 + zlen v) by (unfold h3; rewrite length_app; lia).
  assert (Hlen : zlen buf = zlen h3 + 1 + zlen tail) by (rewrite Hb3, length_app; cbn; lia).
  assert (Hend : zlen (pre ++ entry) = zlen h3 + 1)
    by (rewrite Hl3; unfold entry; rewrite !length_app, length_to_le; cbn; lia).
  rewrite (proj2 (Z.leb_gt _ _)) by lia. unfold index at 1.
  replace (get (zlen pre) buf) with (Some 1) by (symmetry; unfold buf; cbn [entry app]; by apply get_app_here).
  cbn [Z.eqb]. unfold index. rewrite Hb0 at 1. rewrite get_app_here by (rewrite length_app; cbn; lia).
  rewrite (proj2 (Z.ltb_ge _ _)) by lia. rewrite Hb1 at 1. rewrite read_le_app by lia.
  rewrite (proj2 (Z.ltb_ge _ _)) by lia. rewrite Hb2 at 1. rewrite slice_app_exact by lia.
  rewrite (proj2 (Z.ltb_lt _ _)) by lia. rewrite bool_decide_eq_true_2 by (rewrite Hb3; apply get_app_here; lia).
  cbn [andb]. by replace (zlen pre + 1 + 1 + 4 + zlen v + 1) with (zlen (pre ++ entry)) by lia.
Qed.

Lemma decode_from_ok cols i values pre fuel :
  Forall (fun v => valid_utf8 v /\ zlen v < 2 ^ 32) values -> (length values < fuel)%nat ->
  decode_from fuel (zlen pre) (pre ++ encode_from cols i values) = Some (Ok (decoded_value <$> values)).
Proof.
  intros Hok. revert i pre fuel. induction Hok as [|v values [Hv Hl] _ IH]; intros i pre [|fuel] Hf; cbn [length] in Hf; try lia.
  { cbn [decode_from encode_from]. rewrite app_nil_r, (proj2 (Z.leb_le _ _)) by lia. done. }
  cbn [encode_from fmap list_fmap]. unfold encode_value, decoded_value at 1. rewrite wrap_small by (unfold in_width; lia).
  destruct (is_null_value v).
  - rewrite <- app_assoc. change ([0; ?n] ++ [255] ++ ?t) with ([0; n; 255] ++ t).
    rewrite decode_null_entry, app_assoc, IH by lia. done.
  - set (dir := direction_byte cols i). set (entry := [1; dir] ++ to_le 4 (zlen v) ++ v ++ [255]).
    replace (([1; dir] ++ to_le 4 (zlen v) ++ v) ++ [255]) with entry by (unfold entry; by rewrite <- !app_assoc).
    unfold entry. rewrite decode_value_entry by done. fold entry. rewrite app_assoc, IH by lia. cbn. by rewrite lossy_valid.
Qed.

Lemma encode_from_length cols i values : (length values <= length (encode_from cols i values))%nat.
Proof.
  revert i. induction values as [|v values IH]; intros i; cbn; [lia|]. rewrite length_app. specialize (IH (S i)).
  assert (1 <= length (encode_value cols i v))%nat by (unfold encode_value; rewrite length_app; cbn; lia). lia.
Qed.

(** Decoding an encoded composite key gives the values back, an empty string as
    NULL, whatever the columns' directions: so two keys are equal only when their
    values are. *)
Theorem composite_key_roundtrip ix values :
  Forall (fun v => valid_utf8 v /\ zlen v < 2 ^ 32) values ->
  decode_composite_key ix (encode_composite_key ix values) = Some (Ok (decoded_value <$> values)) /\
  forall values', Forall (fun v => valid_utf8 v /\ zlen v < 2 ^ 32) values' ->
    encode_composite_key ix values = encode_composite_key ix values' ->
    decoded_value <$> values = decoded_value <$> values'.
Proof.
  assert (Hdec : forall vs, Forall (fun v => valid_utf8 v /\ zlen v < 2 ^ 32) vs ->
    decode_composite_key ix (encode_composite_key ix vs) = Some (Ok (decoded_value <$> vs))).
  { intros vs Hvs. unfold decode_composite_key, encode_composite_key.
    apply (decode_from_ok (columns ix) 0 vs [] _ Hvs). pose proof (encode_from_length (columns ix) 0 vs). lia. }
  intros Hok. split; [by apply Hdec|]. intros values' Hok' He. apply Hdec in Hok, Hok'. rewrite He, Hok' in Hok.
  by injection Hok.
Qed.

Lemma composite_key_roundtrip_witness :
  decode_composite_key (BTreeIndex_new 1 2 3 8192)
    (encode_composite_key (BTreeIndex_new 1 2 3 8192) [[97; 98]; []; [99]]) = Some (Ok [[97; 98]; NULL; [99]]).
Proof.
  refine (proj1 (composite_key_roundtrip (BTreeIndex_new 1 2 3 8192) [[97; 98]; []; [99]] _)).
  repeat (apply Forall_cons; split); try apply Forall_nil_2; (split; [by vm_compute|reflexivity]).
Defined.

(* ------------------------------------------------------------------ *)
(** ** Scans that read the index alone *)

(** All the columns asked for are in the index. *)
Definition can_satisfy_from_index (ix : BTreeIndex) (select_columns : list string) : bool :=
  let index_columns := ic_name <$> columns ix in
  forallb (fun col => bool_decide (col ∈ index_columns)) select_columns.

Section index_only.
Context {St : Type} `{Storage St}.

(** The rows of the entries found; they are whole keys, not the columns asked for. *)
Fixpoint decode_keys (ix : BTreeIndex) (results : list IndexTuple) : option (outcome (list (list bytes))) :=
  match results with
  | [] => Some (Ok [])
  | tuple :: results =>
      values ← decode_composite_key ix (it_key tuple);
      rows ← decode_keys ix results;
      Some (values ← values; rows ← rows; Ok (values :: rows))
  end.

Definition index_only_scan (fuel : nat) (s : St) (op : BTreeScanOp) (root : PageId) (ix : BTreeIndex)
    (select_columns : list string) : option (outcome (list (list bytes))) :=
  if negb (can_satisfy_from_index ix select_columns) then Some (Err (Anyhow "Cannot satisfy query from index only" []))
  else
    results ← btree_search fuel s root (bs_scan_from op);
    match results with Ok results => decode_keys ix results | Err e => Some (Err e) | Panic => Some Panic end.

(** In an index of one leaf, a scan for a row answers that row (with NULL for an
    empty value) as often as the leaf has entries of it, when the columns asked for are
    in the index, and fails otherwise. *)
Theorem index_only_scan_spec psize (valid : St -> Prop) `{!StorageLaws St psize valid} fuel s root keys ix values select_columns oid :
  (0 < fuel)%nat -> leaf_at s root keys -> Forall (fun v => valid_utf8 v /\ zlen v < 2 ^ 32) values ->
  let key := encode_composite_key ix values in
  index_only_scan fuel s {| bs_index_oid := oid; bs_scan_from := key |} root ix select_columns
  = Some (if can_satisfy_from_index ix select_columns then Ok (replicate (length (matching key keys)) (decoded_value <$> values))
          else Err (Anyhow "Cannot satisfy query from index only" [])).
Proof.
  intros Hf Hleaf Hv key. unfold index_only_scan. destruct (can_satisfy_from_index ix select_columns); [|done]. cbn [negb bs_scan_from].
  rewrite (leaf_search _ _ _ _ key Hleaf Hf). cbn [mbind option_bind].
  assert (Hkeys : Forall (fun t => it_key t = key) (matching key keys)).
  { apply Forall_forall. intros t Ht. unfold matching in Ht. by apply list_elem_of_In, filter_In in Ht as [_ ->%key_eqb_eq]. }
  induction Hkeys as [|t ts Ht _ IH]; [done|]. cbn [decode_keys length replicate]. rewrite Ht.
  unfold key at 1. rewrite (proj1 (composite_key_roundtrip ix values Hv)). cbn [mbind option_bind]. by rewrite IH.
Qed.
End index_only.

(* ------------------------------------------------------------------ *)
(** ** Duplicate elimination on ordered entries *)

Lemma advance_ok fuel entries key i e :
  entries !! i = Some e -> entry_key e = key ->
  let j := advance fuel entries key i in
  (i <= j < length entries)%nat /\
  (forall m, (i <= m <= j)%nat -> exists x, entries !! m = Some x /\ entry_key x = key) /\
  ((length entries - i <= fuel)%nat -> forall x, entries !! S j = Some x -> entry_key x <> key).
Proof.
  revert i e. induction fuel as [|fuel IH]; intros i e Hi Hk; cbn [advance]; assert (Hlt := lookup_lt_Some _ _ _ Hi).
  - split_and!; [lia|lia| |lia]. intros m Hm. replace m with i by lia. eauto.
  - assert (Hhere : (i <= i < length entries)%nat /\
      (forall m, (i <= m <= i)%nat -> exists x, entries !! m = Some x /\ entry_key x = key)).
    { split; [lia|]. intros m Hm. replace m with i by lia. eauto. }
    destruct (entries !! S i) as [x|] eqn:Ex.
    2:{ cbn zeta. rewrite Ex. naive_solver. }
    destruct (key_eqb (entry_key x) key) eqn:Eq.
    + apply key_eqb_eq in Eq. destruct (IH (S i) x Ex Eq) as (H1 & H2 & H3). cbn zeta. split_and!; [lia|lia| |].
      * intros m Hm. destruct (decide (m = i)) as [->|]; [eauto|]. apply H2. lia.
      * intros Hf. apply H3. lia.
    + cbn zeta. split_and!; [lia|lia|naive_solver|]. rewrite Ex. intros _ y [= <-] Hy. apply key_eqb_eq in Hy. congruence.
Qed.

Definition entries_sorted (l : list entry) : Prop := StronglySorted (fun a b => key_le (entry_key a) (entry_key b)) l.

Lemma entries_sorted_lookup l i j a b :
  entries_sorted l -> (i <= j)%nat -> l !! i = Some a -> l !! j = Some b -> key_le (entry_key a) (entry_key b).
Proof.
  intros Hs. revert i j. induction Hs as [|c l _ IH Hall]; intros [|i] [|j] Hij Hi Hj; cbn in *; try done; try lia; simplify_eq.
  - reflexivity.
  - rewrite Forall_forall in Hall. apply Hall. by eapply list_elem_of_lookup_2.
  - apply (IH i j); auto. lia.
Qed.

Lemma dedup_loop_ok fuel entries i removed :
  entries_sorted entries -> (length entries - i < fuel)%nat -> (i <= length entries)%nat ->
  exists r n, dedup_loop fuel entries i removed = Some (r, n) /\
    (n + length r = removed + (length entries - i))%nat /\
    (forall e, e ∈ r -> exists m, (i <= m)%nat /\ entries !! m = Some e) /\
    (forall m e, (i <= m)%nat -> entries !! m = Some e -> exists e', e' ∈ r /\ entry_key e' = entry_key e) /\
    StronglySorted (fun a b => key_lt (entry_key a) (entry_key b)) r.
Proof.
  intros Hs. revert i removed. induction fuel as [|fuel IH]; intros i removed Hf Hi; [lia|]. cbn [dedup_loop].
  destruct (entries !! i) as [e|] eqn:Ee.
  2:{ apply lookup_ge_None in Ee. exists [], removed. split_and!; [done|cbn; lia|set_solver| |constructor].
      intros m x Hm Hx%lookup_lt_Some. lia. }
  destruct (advance_ok (length entries) entries (entry_key e) i e Ee eq_refl) as (Hj & Hrun & Hnext).
  set (j := advance _ _ _ i) in *. specialize (Hnext ltac:(lia)).
  destruct (IH (S j) (removed + (j - i))%nat) as (r & n & -> & Hn & Hin & Hcov & Hsr); [lia|lia|].
  exists (e :: r), n. split_and!; [done|cbn; lia| | |].
  - intros x [-> |Hx]%elem_of_cons; [eauto|]. destruct (Hin _ Hx) as (m & Hm & Hx'). exists m. split; [lia|done].
  - intros m x Hm Hx. destruct (decide (m <= j)%nat) as [Hle|].
    + destruct (Hrun m ltac:(lia)) as (y & Hy & Hky). rewrite Hx in Hy. injection Hy as <-. exists e. split; [left|done].
    + destruct (Hcov m x ltac:(lia) Hx) as (e' & He' & Hk). exists e'. split; [by right|done].
  - constructor; [done|]. apply Forall_forall. intros x Hx. destruct (Hin _ Hx) as (m & Hm & Hxm).
    assert (Hlt := lookup_lt_Some _ _ _ Hxm). destruct (lookup_lt_is_Some_2 entries (S j)) as [y Hy]; [lia|].
    apply (key_lt_le_trans _ (entry_key y)); [|by apply (entries_sorted_lookup entries (S j) m)].
    pose proof (entries_sorted_lookup entries i (S j) e y Hs ltac:(lia) Ee Hy) as Hle.
    apply key_le_lteq in Hle as [?|He]; [done|]. exfalso. by apply (Hnext y Hy).
Qed.

(** On entries in key order, [deduplicate_entries] answers and keeps exactly one
    entry per key, in strict order, each of them an entry of the input, and
    counts the ones it dropped; [skip_to_next_key] from any position moves to the
    next entry with another key, or to the end. *)
Theorem deduplicate_spec entries :
  entries_sorted entries ->
  exists r, deduplicate_entries entries = Some r /\
    StronglySorted (fun a b => key_lt (entry_key a) (entry_key b)) (dd_entries r) /\
    (forall e, e ∈ dd_entries r -> e ∈ entries) /\
    (forall e, e ∈ entries -> exists e', e' ∈ dd_entries r /\ entry_key e' = entry_key e) /\
    (duplicates_removed r + length (dd_entries r) = length entries)%nat /\
    forall i e, entries !! i = Some e ->
      let j := skip_to_next_key entries i in
      (i < j <= length entries)%nat /\ (forall m x, (i <= m < j)%nat -> entries !! m = Some x -> entry_key x = entry_key e) /\
      (forall x, entries !! j = Some x -> key_lt (entry_key e) (entry_key x)).
Proof.
  intros Hs. destruct (dedup_loop_ok (S (length entries)) entries 0 0 Hs) as (r & n & Hd & Hn & Hin & Hcov & Hsr); [lia|lia|].
  exists {| dd_entries := r; duplicates_removed := n |}. split_and!; cbn [dd_entries duplicates_removed].
  - unfold deduplicate_entries. case_decide as He; [|by rewrite Hd]. subst. cbn in Hd. by injection Hd as <- <-.
  - done.
  - intros e (m & _ & Hm)%Hin. by eapply list_elem_of_lookup_2.
  - intros e [m Hm]%list_elem_of_lookup. apply (Hcov m); [lia|done].
  - lia.
  - intros i e He. unfold skip_to_next_key. rewrite He.
    destruct (advance_ok (length entries) entries (entry_key e) i e He eq_refl) as (Hj & Hrun & Hnext).
    set (j := advance _ _ _ i) in *. specialize (Hnext ltac:(lia)). cbn zeta. split_and!; [lia|lia| |].
    + intros m x Hm Hx. destruct (Hrun m ltac:(lia)) as (y & Hy & Hk). congruence.
    + intros x Hx. pose proof (entries_sorted_lookup entries i (S j) e x Hs ltac:(lia) He Hx) as Hle.
      apply key_le_lteq in Hle as [?|Heq]; [done|]. exfalso. by apply (Hnext x Hx).
Qed.

Lemma deduplicate_spec_witness :
  exists r, deduplicate_entries [([1], 1, 1); ([1], 2, 1); ([2], 3, 1)] = Some r /\
    StronglySorted (fun a b => key_lt (entry_key a) (entry_key b)) (dd_entries r).
Proof.
  destruct (deduplicate_spec [([1], 1, 1); ([1], 2, 1); ([2], 3, 1)]) as (r & H1 & H2 & _).
  - repeat (constructor; [|repeat (apply Forall_cons; split); try apply Forall_nil_2; reflexivity]). constructor.
  - exists r. split; [exact H1|exact H2].
Defined.
