(* ===== verification/Catalog.v ===== *)
(** The system catalog ([src/src/catalog/mod.rs]): relations by oid, indexes, oid
    allocation and bootstrap, and the relation table of the buffer cache that the
    catalog keeps in step. *)

From S2P Require Import Prelude Types Storage BufferPool.

Record IndexInfo := {
  ii_index_oid : Oid;
  ii_rel_oid : Oid;
  ii_column_name : string;
  ii_root_page : PageId;
}.

(** The [storage] field is never read. The cache is shared with other components;
    the catalog changes only its relation table. *)
Record Catalog (S : Type) := {
  relations : gmap Oid Relation;
  indexes : list IndexInfo;
  next_oid : Z;
  cache : option (SharedBufferCache S);
}.
Arguments Build_Catalog {S} _ _ _ _.
Arguments relations {S} _.
Arguments indexes {S} _.
Arguments next_oid {S} _.
Arguments cache {S} _.

(** [HashMap::values], in an order that is not specified. *)
Definition values_order : Type := gmap Oid Relation -> list Relation.

Definition order_ok (order : values_order) : Prop := forall m, order m ≡ₚ (map_to_list m).*2.

Lemma order_elem (order : values_order) m r :
  order_ok order -> r ∈ order m <-> exists oid, m !! oid = Some r.
Proof.
  intros Hord. rewrite (Hord m), list_elem_of_fmap. split.
  - intros ([o r'] & -> & Hr%elem_of_map_to_list). eauto.
  - intros [o Ho]. exists (o, r). split; [done|]. by apply elem_of_map_to_list.
Qed.

Section catalog.
Context {S : Type} `{Storage S}.
Implicit Types c : Catalog S.

Definition Catalog_new : Catalog S := {| relations := ∅; indexes := []; next_oid := 10000; cache := None |}.

Definition with_cache (c : Catalog S) (k : option (SharedBufferCache S)) : Catalog S :=
  {| relations := relations c; indexes := indexes c; next_oid := next_oid c; cache := k |}.
Definition with_relations (c : Catalog S) (r : gmap Oid Relation) : Catalog S :=
  {| relations := r; indexes := indexes c; next_oid := next_oid c; cache := cache c |}.

Definition list_relations (order : values_order) (c : Catalog S) : list Relation := order (relations c).

Definition register_cache (order : values_order) (k : SharedBufferCache S) (c : Catalog S) : Catalog S :=
  with_cache c (Some (sync_from_catalog (list_relations order c) k)).

(** [fetch_add]: atomics wrap. *)
Definition allocate_oid (c : Catalog S) : Oid * Catalog S :=
  (next_oid c, {| relations := relations c; indexes := indexes c; next_oid := (next_oid c + 1) as_u32; cache := cache c |}).

Definition with_oid (rel : Relation) (oid : Oid) : Relation :=
  {| rel_oid := oid; rel_name := rel_name rel; rel_tuple_desc := rel_tuple_desc rel; rel_pages := rel_pages rel;
     rel_relpages := rel_relpages rel; rel_reltuples_bits := rel_reltuples_bits rel;
     rel_relfrozenxid := rel_relfrozenxid rel |}.

Definition create_relation (rel : Relation) (c : Catalog S) : Oid * Catalog S :=
  let '(rel, c) :=
    if rel_oid rel =? 0 then let '(oid, c) := allocate_oid c in (with_oid rel oid, c) else (rel, c) in
  let c := with_relations c (<[rel_oid rel := rel]> (relations c)) in
  (rel_oid rel, with_cache c (register_relation rel <$> cache c)).

Definition get_relation (oid : Oid) (c : Catalog S) : option Relation := relations c !! oid.

Definition delete_relation (oid : Oid) (c : Catalog S) : Catalog S :=
  let c := with_relations c (delete oid (relations c)) in
  with_cache c (unregister_relation oid <$> cache c).

Definition get_relation_by_name (order : values_order) (name : string) (c : Catalog S) : option Relation :=
  List.find (fun r => bool_decide (rel_name r = name)) (order (relations c)).

Definition register_index (info : IndexInfo) (c : Catalog S) : Catalog S :=
  {| relations := relations c; indexes := indexes c ++ [info]; next_oid := next_oid c; cache := cache c |}.

Definition create_index (name : string) (oid : Oid) (column_name : string) (c : Catalog S) : Catalog S :=
  let '(index_oid, c) := allocate_oid c in
  register_index {| ii_index_oid := index_oid; ii_rel_oid := oid; ii_column_name := column_name; ii_root_page := 0 |} c.

Definition find_index (oid : Oid) (column_name : string) (c : Catalog S) : option IndexInfo :=
  List.find (fun i => (ii_rel_oid i =? oid) && bool_decide (ii_column_name i = column_name)) (indexes c).

Definition system_relation (oid : Oid) (name : string) (cols : list string) : Relation :=
  with_oid (Relation_empty name (List.map (fun n => (n, 0)) cols)) oid.

Definition bootstrap_relations : list Relation :=
  [ system_relation 1259 "pg_class" ["oid"; "relname"; "relpages"];
    system_relation 1249 "pg_attribute" ["attrelid"; "attname"; "atttypid"; "attnum"; "attlen"];
    system_relation 1247 "pg_type" ["oid"; "typname"; "typtype"];
    system_relation 1250 "pg_index" ["indexrelid"; "indrelid"; "indnatts"] ]%string.

Definition bootstrap (c : Catalog S) : Catalog S :=
  foldl (fun c rel => snd (create_relation rel c)) c bootstrap_relations.

(* ---------------------------------------------------------------- *)
(** ** Invariant *)

(** Each relation is stored under its own oid, never under 0, and every
    relation of the catalog is in the cache's table once a cache is registered. *)
Record catalog_ok c : Prop := {
  cat_key : forall oid rel, relations c !! oid = Some rel -> rel_oid rel = oid /\ oid <> 0;
  cat_next : 1 <= next_oid c;
  cat_cache : forall k oid, cache c = Some k -> is_Some (relations c !! oid) <-> is_Some (cache_rels k !! oid);
}.

Lemma register_relation_rels rel (k : SharedBufferCache S) oid :
  is_Some (cache_rels (register_relation rel k) !! oid) <-> rel_oid rel = oid \/ is_Some (cache_rels k !! oid).
Proof.
  unfold register_relation. destruct (cache_rels k !! rel_oid rel) eqn:E.
  - split; [by right|]. intros [<-|]; [by rewrite E|done].
  - cbn. rewrite lookup_insert. case_decide; [subst|]; [split; [by left|eauto]|naive_solver].
Qed.

Lemma sync_rels rels (k : SharedBufferCache S) oid :
  is_Some (cache_rels (sync_from_catalog rels k) !! oid) <->
  (exists rel, rel ∈ rels /\ rel_oid rel = oid) \/ is_Some (cache_rels k !! oid).
Proof.
  unfold sync_from_catalog. revert k. induction rels as [|rel rels IH]; intros k; cbn; [set_solver|].
  rewrite IH, register_relation_rels. set_solver.
Qed.

(** The operations that change the catalog. *)
Inductive catalog_op :=
| CreateRelation (rel : Relation)
| DeleteRelation (oid : Oid)
| CreateIndex (name : string) (oid : Oid) (column : string)
| AllocateOid
| RegisterCache (order : values_order) (k : SharedBufferCache S).

Definition run_catalog_op (c : Catalog S) (op : catalog_op) : Catalog S :=
  match op with
  | CreateRelation rel => snd (create_relation rel c)
  | DeleteRelation oid => delete_relation oid c
  | CreateIndex name oid column => create_index name oid column c
  | AllocateOid => snd (allocate_oid c)
  | RegisterCache order k => register_cache order k c
  end.

(** A cache is registered fresh, and hash maps list their values once each. *)
Definition op_ok (op : catalog_op) : Prop :=
  match op with RegisterCache order k => order_ok order /\ cache_rels k = ∅ | _ => True end.

Lemma allocate_next c : next_oid c < 2 ^ 32 - 1 -> 1 <= next_oid c ->
  next_oid (snd (allocate_oid c)) = next_oid c + 1.
Proof. intros. cbn. apply wrap_small. unfold in_width. lia. Qed.

Lemma create_relation_ok rel c :
  catalog_ok c -> next_oid c < 2 ^ 32 - 1 ->
  let '(oid, c') := create_relation rel c in
  catalog_ok c' /\ next_oid c' <= next_oid c + 1 /\
  oid = (if rel_oid rel =? 0 then next_oid c else rel_oid rel) /\
  relations c' = <[oid := with_oid rel oid]> (relations c) /\ indexes c' = indexes c.
Proof.
  intros [Hk Hn Hc] Hmax. unfold create_relation.
  assert (Hgo : forall r n, 1 <= n -> rel_oid r <> 0 -> catalog_ok
    (with_cache {| relations := <[rel_oid r := r]> (relations c); indexes := indexes c; next_oid := n; cache := cache c |}
       (register_relation r <$> cache c))).
  { intros r n Hn1 Hr. split; cbn; [|done|].
    - intros o x. rewrite lookup_insert. case_decide; [subst; intros [= ->]; done|apply Hk].
    - intros k o. rewrite fmap_Some. intros (k0 & Hk0 & ->). rewrite register_relation_rels, lookup_insert.
      case_decide; [subst; split; eauto|]. rewrite (Hc k0 o Hk0). naive_solver. }
  assert (Hself : forall r, with_oid r (rel_oid r) = r) by (by intros []).
  destruct (Z.eqb_spec (rel_oid rel) 0) as [E|E]; cbn.
  - pose proof (allocate_next c Hmax Hn) as Hal. cbn in Hal. rewrite Hal. split_and!; try done; try lia.
    apply (Hgo (with_oid rel (next_oid c))); cbn; lia.
  - split_and!; try done; try lia; [|by rewrite Hself]. by apply Hgo.
Qed.

Lemma catalog_op_ok op c :
  catalog_ok c -> op_ok op -> next_oid c < 2 ^ 32 - 1 ->
  catalog_ok (run_catalog_op c op) /\ next_oid (run_catalog_op c op) <= next_oid c + 1.
Proof.
  intros Hok Hop Hmax. destruct op as [rel|oid|name oid column| |order k]; cbn [run_catalog_op].
  - pose proof (create_relation_ok rel c Hok Hmax) as Hc. destruct (create_relation rel c). tauto.
  - destruct Hok as [Hk Hn Hc]. cbn. split; [|lia]. split; cbn; [|done|].
    + intros o r. rewrite lookup_delete. case_decide; [done|apply Hk].
    + intros k o. rewrite fmap_Some. intros (k0 & Hk0 & ->). cbn. rewrite !lookup_delete.
      case_decide; [by split; intros []|by apply Hc].
  - destruct Hok as [Hk Hn Hc]. pose proof (allocate_next c Hmax Hn) as Hal. cbn in *. rewrite Hal.
    split; [|lia]. split; cbn; [done|lia|done].
  - destruct Hok as [Hk Hn Hc]. pose proof (allocate_next c Hmax Hn) as Hal. cbn in *. rewrite Hal.
    split; [|lia]. split; cbn; [done|lia|done].
  - destruct Hok as [Hk Hn Hc]. destruct Hop as [Hord Hempty]. split; [|cbn; lia].
    split; cbn; [done|done|]. intros k' o [= <-]. rewrite sync_rels, Hempty, lookup_empty.
    unfold list_relations. setoid_rewrite (order_elem order (relations c)); [|done]. split.
    + intros [r Hr]. left. exists r. split; [eauto|]. by apply Hk in Hr as [? _].
    + intros [(r & [o' Hr] & Ho)|Hn0]; [|by destruct Hn0]. destruct (Hk _ _ Hr) as [Hro _]. exists r. congruence.
Qed.
End catalog.

(** Whatever is created, dropped and registered, each relation is stored under its
    own non-zero oid, and the buffer cache's table has exactly the relations of
    the catalog; a relation created without an oid gets a fresh number. *)
Theorem catalog_invariant {S} `{Storage S} (ops : list catalog_op) :
  Forall op_ok ops -> zlen ops < 2 ^ 32 - 10001 ->
  catalog_ok (foldl run_catalog_op (Catalog_new (S := S)) ops) /\
  forall rel, let c := foldl run_catalog_op (Catalog_new (S := S)) ops in
    let '(oid, c') := create_relation rel c in
    oid = (if rel_oid rel =? 0 then next_oid c else rel_oid rel) /\
    get_relation oid c' = Some (with_oid rel oid) /\
    forall oid', oid' <> oid -> get_relation oid' c' = get_relation oid' c.
Proof.
  intros Hops Hlen.
  assert (Hgen : forall (ops : list catalog_op) (c : Catalog S), Forall op_ok ops -> catalog_ok c -> next_oid c + zlen ops < 2 ^ 32 - 1 ->
    catalog_ok (foldl run_catalog_op c ops) /\ next_oid (foldl run_catalog_op c ops) <= next_oid c + zlen ops).
  { clear. induction ops as [|op ops IH]; intros c Hops Hc Hn; cbn [foldl length] in *; [split; [done|lia]|].
    inversion Hops; subst. destruct (catalog_op_ok op c Hc) as [Hc' Hn']; [done|lia|].
    destruct (IH (run_catalog_op c op)) as [? ?]; [done|done|lia|]. split; [done|lia]. }
  assert (Hnew : catalog_ok (Catalog_new (S := S))) by (split; cbn; [by intros ? ?; rewrite lookup_empty|lia|done]).
  destruct (Hgen ops Catalog_new Hops Hnew) as [Hok Hn]; [cbn; lia|]. cbn in Hn. split; [done|].
  intros rel. cbn zeta. pose proof (create_relation_ok rel _ Hok ltac:(cbn in Hn; lia)) as Hc.
  destruct (create_relation rel _) as [oid c']. destruct Hc as (_ & _ & Ho & Hr & _).
  unfold get_relation. rewrite Hr. split_and!; [done|by rewrite lookup_insert_eq|]. intros o Hne. by rewrite lookup_insert_ne.
Qed.

(** Looking a relation up by name finds a relation of that name exactly when there
    is one, in whatever order the hash map is iterated; when the name is unique it
    is that relation. *)
Theorem get_relation_by_name_spec {S} `{Storage S} (order : values_order) (c : Catalog S) name :
  order_ok order ->
  match get_relation_by_name order name c with
  | Some r => rel_name r = name /\ exists oid, relations c !! oid = Some r
  | None => forall oid r, relations c !! oid = Some r -> rel_name r <> name
  end /\
  (forall oid r, relations c !! oid = Some r -> rel_name r = name ->
    (forall oid' r', relations c !! oid' = Some r' -> rel_name r' = name -> oid' = oid) ->
    get_relation_by_name order name c = Some r).
Proof.
  intros Hord.
  pose proof (fun r => order_elem order (relations c) r Hord) as Hin.
  assert (Hfind : match get_relation_by_name order name c with
    | Some r => rel_name r = name /\ exists oid, relations c !! oid = Some r
    | None => forall oid r, relations c !! oid = Some r -> rel_name r <> name end).
  { unfold get_relation_by_name. destruct (List.find _ _) as [r|] eqn:E.
    - apply List.find_some in E as [Hr Hn%bool_decide_eq_true]. split; [done|]. apply Hin. by apply list_elem_of_In.
    - intros oid r Hr Hn. pose proof (List.find_none _ _ E r) as Hf. apply bool_decide_eq_false in Hf; [done|].
      apply list_elem_of_In, Hin. eauto. }
  split; [done|]. intros oid r Hr Hn Huniq. destruct (get_relation_by_name order name c) as [r'|].
  - destruct Hfind as (Hn' & oid' & Hr'). rewrite (Huniq _ _ Hr' Hn') in Hr'. congruence.
  - by apply Hfind in Hr.
Qed.

Definition map_values (m : gmap Oid Relation) : list Relation := (map_to_list m).*2.

Lemma get_relation_by_name_spec_witness :
  get_relation_by_name map_values "pg_type" (bootstrap (Catalog_new (S := EphemeralStorage))) =
  Some (system_relation 1247 "pg_type" ["oid"; "typname"; "typtype"]%string).
Proof.
  refine (proj2 (get_relation_by_name_spec map_values (bootstrap (Catalog_new (S := EphemeralStorage))) "pg_type" _) 1247 _ _ _ _).
  - intros m. reflexivity.
  - vm_compute. reflexivity.
  - reflexivity.
  - intros oid r Hr Hn. apply elem_of_map_to_list in Hr.
    match type of Hr with _ ∈ ?l => let v := eval vm_compute in l in change (_ ∈ l) with ((oid, r) ∈ v) in Hr end.
    repeat (apply elem_of_cons in Hr as [Hr | Hr]; [injection Hr as -> ->; first [reflexivity | discriminate Hn]|]).
    by apply elem_of_nil in Hr.
Defined.

Lemma catalog_invariant_witness :
  catalog_ok (foldl run_catalog_op (Catalog_new (S := EphemeralStorage))
    [RegisterCache map_values (SharedBufferCache_new EphemeralStorage_new); CreateRelation (system_relation 0 "t" []); DeleteRelation 10000]).
Proof.
  refine (proj1 (catalog_invariant [RegisterCache map_values (SharedBufferCache_new EphemeralStorage_new);
    CreateRelation (system_relation 0 "t" []); DeleteRelation 10000] _ _)).
  - repeat (apply Forall_cons; split); try apply Forall_nil_2; try exact I. split; [intros m|]; reflexivity.
  - vm_compute. reflexivity.
Defined.
