(* ===== verification/HashIndex.v ===== *)
(** The hash index ([src/src/btree/hash_index.rs]): row pointers in a map keyed by
    a 32-bit polynomial hash of the key. *)

From S2P Require Import Prelude Types.

Abbreviation tid := (PageId * Z)%type.

Record HashIndexEntry := { hash_of : Z; tids : list tid }.

Record HashIndex := {
  hx_index_oid : Oid;
  hx_rel_oid : Oid;
  bucket_count : Z;
  entries : gmap Z (list tid);
}.

Definition HashIndex_new (index_oid rel_oid : Oid) : HashIndex :=
  {| hx_index_oid := index_oid; hx_rel_oid := rel_oid; bucket_count := 256; entries := ∅ |}.

Definition with_bucket_count (count : Z) (ix : HashIndex) : HashIndex :=
  {| hx_index_oid := hx_index_oid ix; hx_rel_oid := hx_rel_oid ix; bucket_count := count; entries := entries ix |}.

Definition with_entries (ix : HashIndex) (e : gmap Z (list tid)) : HashIndex :=
  {| hx_index_oid := hx_index_oid ix; hx_rel_oid := hx_rel_oid ix; bucket_count := bucket_count ix; entries := e |}.

(** [hash.wrapping_mul(31).wrapping_add(byte)]. *)
Definition hash_value (key : bytes) : Z := foldl (fun hash byte => (((hash * 31) as_u32) + byte) as_u32) 0 key.

Definition hash_insert (key : bytes) (t : tid) (ix : HashIndex) : HashIndex :=
  let hash := hash_value key in
  with_entries ix (<[hash := default [] (entries ix !! hash) ++ [t]]> (entries ix)).

Definition hash_lookup (key : bytes) (ix : HashIndex) : list tid := default [] (entries ix !! hash_value key).

Definition hash_delete (key : bytes) (t : tid) (ix : HashIndex) : bool * HashIndex :=
  let hash := hash_value key in
  match entries ix !! hash with
  | Some ts =>
      match position (fun x => bool_decide (x = t)) ts with
      | Some pos =>
          let ts := remove_at pos ts in
          (true, with_entries ix (if decide (ts = []) then delete hash (entries ix) else <[hash := ts]> (entries ix)))
      | None => (false, ix)
      end
  | None => (false, ix)
  end.

(** [scan], in the order of the hash map. *)
Definition hash_scan (ix : HashIndex) : list HashIndexEntry :=
  (fun ht => {| hash_of := ht.1; tids := ht.2 |}) <$> map_to_list (entries ix).

Definition entry_count (ix : HashIndex) : nat := size (entries ix).

Definition tid_count (ix : HashIndex) : nat := map_fold (fun _ ts n => (length ts + n)%nat) 0%nat (entries ix).

(* ------------------------------------------------------------------ *)
(** ** The index as a bag of keyed row pointers *)

(** The calls that change the index. *)
Inductive hash_op := HInsert (key : bytes) (t : tid) | HDelete (key : bytes) (t : tid).

Definition run_hash_op (ix : HashIndex) (op : hash_op) : HashIndex :=
  match op with
  | HInsert key t => hash_insert key t ix
  | HDelete key t => snd (hash_delete key t ix)
  end.

(** The bag the calls describe: pointers with the hash they were filed under, in
    the order they came; a deletion takes out the first match. *)
Definition bag_step (bag : list (Z * tid)) (op : hash_op) : list (Z * tid) :=
  match op with
  | HInsert key t => bag ++ [(hash_value key, t)]
  | HDelete key t =>
      match position (fun e => bool_decide (e = (hash_value key, t))) bag with
      | Some pos => remove_at pos bag
      | None => bag
      end
  end.

Definition filed_under (h : Z) (bag : list (Z * tid)) : list tid := (filter (fun e => e.1 = h) bag).*2.

Arguments filed_under : simpl never.
#[local] Arguments remove_at : simpl never.

Definition refines_bag (ix : HashIndex) (bag : list (Z * tid)) : Prop :=
  forall h, default [] (entries ix !! h) = filed_under h bag.

Lemma filed_under_app h b1 b2 : filed_under h (b1 ++ b2) = filed_under h b1 ++ filed_under h b2.
Proof. unfold filed_under. by rewrite filter_app, fmap_app. Qed.

Lemma filed_under_cons h e bag :
  filed_under h (e :: bag) = (if decide (e.1 = h) then [e.2] else []) ++ filed_under h bag.
Proof. unfold filed_under. rewrite filter_cons. by case_decide. Qed.

(** Taking the first [(h, t)] out of the bag takes the first [t] out of what is
    filed under [h], and nothing from under other hashes. *)
Lemma filed_under_remove h t bag :
  match position (fun e => bool_decide (e = (h, t))) bag with
  | Some pos =>
      exists i, position (fun x => bool_decide (x = t)) (filed_under h bag) = Some i /\
        filed_under h (remove_at pos bag) = remove_at i (filed_under h bag) /\
        forall h', h' <> h -> filed_under h' (remove_at pos bag) = filed_under h' bag
  | None => position (fun x => bool_decide (x = t)) (filed_under h bag) = None
  end.
Proof.
  induction bag as [|[h0 t0] bag IH]; cbn [position]; [done|].
  case_bool_decide as E.
  - injection E as -> ->. exists 0%nat. rewrite !filed_under_cons. cbn. rewrite decide_True by done. cbn.
    rewrite bool_decide_eq_true_2 by done. split_and!; [done|done|]. intros h' Hne.
    change (filed_under h' bag = filed_under h' ((h, t) :: bag)). rewrite filed_under_cons. cbn [fst].
    by rewrite decide_False.
  - destruct (position _ bag) as [pos|] eqn:Ep; cbn.
    + destruct IH as (i & Hi & Hr & Ho).
      change (remove_at (S pos) ((h0, t0) :: bag)) with ((h0, t0) :: remove_at pos bag).
      rewrite !filed_under_cons. cbn. destruct (decide (h0 = h)) as [->|Hh]; cbn [app].
      * exists (S i). cbn [position]. rewrite bool_decide_eq_false_2 by congruence. rewrite Hi, Hr. split_and!; [done|done|].
        intros h' Hne. rewrite !filed_under_cons. cbn. by rewrite Ho.
      * exists i. rewrite Hr. split_and!; [done|done|]. intros h' Hne. rewrite !filed_under_cons. by rewrite Ho.
    + rewrite filed_under_cons. cbn. destruct (decide (h0 = h)) as [->|Hh]; cbn [app]; [|done].
      cbn. rewrite bool_decide_eq_false_2 by congruence. by rewrite IH.
Qed.

Lemma hash_op_refines ix bag op : refines_bag ix bag -> refines_bag (run_hash_op ix op) (bag_step bag op).
Proof.
  intros Hr. destruct op as [key t|key t]; cbn [run_hash_op bag_step].
  - intros h. cbn. rewrite filed_under_app, filed_under_cons. cbn. rewrite lookup_insert.
    destruct (decide (hash_value key = h)) as [->|]; cbn; rewrite Hr; [done|]. by rewrite app_nil_r.
  - pose proof (filed_under_remove (hash_value key) t bag) as Hrem. pose proof (Hr (hash_value key)) as Hk.
    unfold hash_delete. rewrite <- Hk in Hrem. destruct (entries ix !! hash_value key) as [ts|] eqn:E; cbn in Hk, Hrem.
    + destruct (position (fun e => bool_decide (e = (hash_value key, t))) bag) as [pos|].
      * destruct Hrem as (i & -> & Hrm & Ho). intros h. cbn.
        destruct (decide (h = hash_value key)) as [->|Hne].
        -- rewrite Hrm. case_decide as Hnil; [by rewrite lookup_delete_eq, Hnil|by rewrite lookup_insert_eq].
        -- rewrite (Ho h Hne), <- Hr. case_decide; [by rewrite lookup_delete_ne|by rewrite lookup_insert_ne].
      * rewrite Hrem. exact Hr.
    + destruct (position (fun e => bool_decide (e = (hash_value key, t))) bag) as [pos|]; [|exact Hr].
      destruct Hrem as (i & Hi & _). done.
Qed.

(** After any insertions and deletions, a lookup returns exactly the pointers
    filed, and not deleted since, under keys with the same hash, in order: every
    pointer of the key itself is found, and a pointer of another key is returned
    only on a collision of the 32-bit hash. A deletion reports whether it found
    its pointer, and removes one. *)
Theorem hash_index_refines index_oid rel_oid ops key :
  let ix := foldl run_hash_op (HashIndex_new index_oid rel_oid) ops in
  let bag := foldl bag_step [] ops in
  hash_lookup key ix = filed_under (hash_value key) bag /\
  forall t, fst (hash_delete key t ix) = bool_decide (t ∈ hash_lookup key ix).
Proof.
  cbn zeta.
  assert (Hr : refines_bag (foldl run_hash_op (HashIndex_new index_oid rel_oid) ops) (foldl bag_step [] ops)).
  { assert (Hn : refines_bag (HashIndex_new index_oid rel_oid) []) by (intros h; cbn; by rewrite lookup_empty).
    revert Hn. generalize (HashIndex_new index_oid rel_oid) (@nil (Z * tid)).
    induction ops as [|op ops IH]; intros ix bag Hn; [done|]. by apply IH, hash_op_refines. }
  split; [apply Hr|]. intros t. unfold hash_delete, hash_lookup.
  destruct (entries _ !! hash_value key) as [ts|]; cbn; [|by rewrite bool_decide_eq_false_2 by set_solver].
  destruct (position _ ts) as [pos|] eqn:Ep; cbn; symmetry.
  - destruct (position_spec _ _ _ Ep) as (x & Hx & Hxt%bool_decide_eq_true & _). subst x.
    apply bool_decide_eq_true. by eapply list_elem_of_lookup_2.
  - apply position_None in Ep. apply bool_decide_eq_false. rewrite Forall_forall in Ep. intros Hin.
    specialize (Ep _ Hin). by apply bool_decide_eq_false in Ep.
Qed.

(** Two keys that collide: a lookup of the second returns the first one's row. *)
Lemma hash_collision :
  hash_lookup [1; 0] (hash_insert [0; 31] (7, 1) (HashIndex_new 1 2)) = [(7, 1)].
Proof. by vm_compute. Qed.
