(* ===== verification/Brin.v ===== *)
(** The block-range index ([src/src/btree/brin_index.rs]): per-range minimum and
    maximum summaries that prune lookups, over the entries of each range. *)

From S2P Require Import Prelude Types BTreePage.

Abbreviation tid := (PageId * Z)%type.

(** The four letters of NULL; strings are their bytes, compared as bytes. *)
Definition NULL : bytes := [78; 85; 76; 76].

Definition is_null (value : bytes) : bool := bool_decide (value = []) || bool_decide (value = NULL).

Record BlockRangeSummary := {
  block_start : Z;
  block_end : Z;
  min_value : option bytes;
  max_value : option bytes;
  null_count : Z;
  distinct_count : Z;
}.

Record BrinIndex := {
  bx_index_oid : Oid;
  bx_rel_oid : Oid;
  pages_per_range : Z;
  ranges : list BlockRangeSummary;
  values : gmap nat (list (bytes * tid));
}.

Definition BrinIndex_new (index_oid rel_oid : Oid) : BrinIndex :=
  {| bx_index_oid := index_oid; bx_rel_oid := rel_oid; pages_per_range := 128; ranges := []; values := ∅ |}.

Definition with_pages_per_range (pages : Z) (ix : BrinIndex) : BrinIndex :=
  {| bx_index_oid := bx_index_oid ix; bx_rel_oid := bx_rel_oid ix; pages_per_range := pages;
     ranges := ranges ix; values := values ix |}.

Definition with_ranges (ix : BrinIndex) rs vs : BrinIndex :=
  {| bx_index_oid := bx_index_oid ix; bx_rel_oid := bx_rel_oid ix; pages_per_range := pages_per_range ix;
     ranges := rs; values := vs |}.

Section brin.
Context {P : Profile}.

(** The [while] loop that adds empty summaries, [n] turns. *)
Fixpoint push_ranges (n : nat) (pages : Z) (rs : list BlockRangeSummary) : outcome (list BlockRangeSummary) :=
  match n with
  | O => Ok rs
  | S n =>
      let count := (zlen rs) as_u32 in
      start ← mul_w 32 count pages;
      next ← add_w 32 count 1;
      stop ← mul_w 32 next pages;
      stop ← sub_w 32 stop 1;
      push_ranges n pages
        (rs ++ [ {| block_start := start; block_end := stop; min_value := None; max_value := None;
                    null_count := 0; distinct_count := 0 |} ])
  end.

(** The update of one summary. *)
Definition summarize (value : bytes) (r : BlockRangeSummary) : outcome BlockRangeSummary :=
  if is_null value then
    n ← add_w 32 (null_count r) 1;
    Ok {| block_start := block_start r; block_end := block_end r; min_value := min_value r;
          max_value := max_value r; null_count := n; distinct_count := distinct_count r |}
  else
    let '(mn, mx) :=
      match min_value r with
      | None => (Some value, Some value)
      | Some m => (if key_ltb value m then Some value else Some m, max_value r)
      end in
    let mx :=
      match mx with
      | None => Some value
      | Some m => if key_ltb m value then Some value else Some m
      end in
    d ← add_w 32 (distinct_count r) 1;
    Ok {| block_start := block_start r; block_end := block_end r; min_value := mn; max_value := mx;
          null_count := null_count r; distinct_count := d |}.

Definition brin_insert (block_id : Z) (value : bytes) (t : tid) (ix : BrinIndex) : outcome BrinIndex :=
  if pages_per_range ix =? 0 then Panic else
  let range_idx := Z.to_nat (block_id / pages_per_range ix) in
  rs ← push_ranges (S range_idx - length (ranges ix)) (pages_per_range ix) (ranges ix);
  match rs !! range_idx with
  | None => Panic
  | Some r =>
      r ← summarize value r;
      Ok (with_ranges ix (<[range_idx := r]> rs)
            (<[range_idx := default [] (values ix !! range_idx) ++ [(value, t)]]> (values ix)))
  end.
End brin.

(** Whether a range's summary admits the value. *)
Definition might_contain (value : bytes) (r : BlockRangeSummary) : bool :=
  match min_value r, max_value r with
  | Some mn, Some mx => key_leb mn value && key_leb value mx
  | Some mn, None => key_leb mn value
  | None, Some mx => key_leb value mx
  | None, None => (0 <? null_count r) && is_null value
  end.

(** The entries of range [i] that satisfy [p], when the summary lets them be read. *)
Definition range_hits (ix : BrinIndex) (keep : BlockRangeSummary -> bool) (p : bytes -> bool) (i : nat)
    (r : BlockRangeSummary) : list tid :=
  if keep r then (List.filter (fun e => p e.1) (default [] (values ix !! i))).*2 else [].

Definition brin_lookup (value : bytes) (ix : BrinIndex) : list tid :=
  concat (imap (range_hits ix (might_contain value) (fun v => key_eqb v value)) (ranges ix)).

Definition might_overlap (mn mx : bytes) (r : BlockRangeSummary) : bool :=
  match min_value r, max_value r with
  | Some rmin, Some rmax => key_leb rmin mx && key_leb mn rmax
  | _, _ => true
  end.

Definition brin_lookup_range (mn mx : bytes) (ix : BrinIndex) : list tid :=
  concat (imap (range_hits ix (might_overlap mn mx) (fun v => key_leb mn v && key_leb v mx)) (ranges ix)).

(** [delete]: the first range, in the hash map's order, that has the entry. *)
Fixpoint delete_in (value : bytes) (t : tid) (keys : list nat) (vs : gmap nat (list (bytes * tid))) :
    bool * gmap nat (list (bytes * tid)) :=
  match keys with
  | [] => (false, vs)
  | i :: rest =>
      match vs !! i with
      | Some es =>
          match position (fun e => bool_decide (e = (value, t))) es with
          | Some pos => (true, <[i := remove_at pos es]> vs)
          | None => delete_in value t rest vs
          end
      | None => delete_in value t rest vs
      end
  end.

Definition brin_delete (order : gmap nat (list (bytes * tid)) -> list nat) (value : bytes) (t : tid) (ix : BrinIndex) :
    bool * BrinIndex :=
  let '(b, vs) := delete_in value t (order (values ix)) (values ix) in (b, with_ranges ix (ranges ix) vs).

Definition range_count (ix : BrinIndex) : nat := length (ranges ix).

Definition brin_entry_count (ix : BrinIndex) : nat := map_fold (fun _ es n => (length es + n)%nat) 0%nat (values ix).

Definition get_summary (i : nat) (ix : BrinIndex) : option BlockRangeSummary := ranges ix !! i.

(* ------------------------------------------------------------------ *)
(** ** Summaries cover their entries *)

(** Every entry belongs to a range that exists, and a non-null one lies between
    the range's minimum and maximum, which are both there. *)
Definition covered (ix : BrinIndex) : Prop :=
  forall i es, values ix !! i = Some es ->
    exists r, ranges ix !! i = Some r /\
      Forall (fun e => is_null e.1 = false ->
        exists mn mx, min_value r = Some mn /\ max_value r = Some mx /\ key_le mn e.1 /\ key_le e.1 mx) es.

(** A range has both bounds or neither. *)
Definition bounds_paired (r : BlockRangeSummary) : Prop := is_Some (min_value r) <-> is_Some (max_value r).

Record brin_ok (ix : BrinIndex) : Prop := {
  brin_covered : covered ix;
  brin_paired : Forall bounds_paired (ranges ix);
}.

(** All entries, with the range they are in. *)
Definition all_hits (ix : BrinIndex) (p : bytes -> bool) : list tid :=
  concat (imap (range_hits ix (fun _ => true) p) (ranges ix)).

Lemma push_ranges_prefix {P : Profile} n pages rs rs' :
  push_ranges n pages rs = Ok rs' ->
  exists added, rs' = rs ++ added /\ length added = n /\ Forall (fun r => min_value r = None /\ max_value r = None) added.
Proof.
  revert rs. induction n as [|n IH]; intros rs H; cbn [push_ranges] in H.
  - injection H as <-. exists []. by rewrite app_nil_r.
  - inv_bind H. destruct (IH _ H) as (added & -> & Hl & Hf). rewrite <- app_assoc. eexists. split; [done|].
    split; [cbn; lia|]. by constructor.
Qed.

(** After [summarize], the value is covered, and so is what was before. *)
Lemma summarize_ok {P : Profile} value r r' :
  summarize value r = Ok r' -> bounds_paired r ->
  bounds_paired r' /\
  (is_null value = false -> exists mn mx, min_value r' = Some mn /\ max_value r' = Some mx /\ key_le mn value /\ key_le value mx) /\
  (forall mn mx, min_value r = Some mn -> max_value r = Some mx ->
     exists mn' mx', min_value r' = Some mn' /\ max_value r' = Some mx' /\ key_le mn' mn /\ key_le mx mx').
Proof.
  unfold summarize, bounds_paired. intros H Hp. destruct (is_null value) eqn:En.
  - inv_bind H. injection H as <-. cbn. split_and!; [done|done|]. intros mn mx -> ->. exists mn, mx.
    split_and!; reflexivity.
  - destruct (min_value r) as [m|] eqn:Em, (max_value r) as [x|] eqn:Ex.
    + inv_bind H. injection H as <-. cbn.
      assert (Hmn : exists mn', (if key_ltb value m then Some value else Some m) = Some mn' /\ key_le mn' m /\ key_le mn' value).
      { destruct (key_ltb value m) eqn:E.
        - exists value. split_and!; [done| |reflexivity]. apply key_le_lteq. by left.
        - exists m. split_and!; [done|reflexivity|]. by apply key_nlt_le. }
      assert (Hmx : exists mx', (if key_ltb x value then Some value else Some x) = Some mx' /\ key_le x mx' /\ key_le value mx').
      { destruct (key_ltb x value) eqn:E.
        - exists value. split_and!; [done| |reflexivity]. apply key_le_lteq. by left.
        - exists x. split_and!; [done|reflexivity|]. by apply key_nlt_le. }
      destruct Hmn as (mn' & -> & ? & ?), Hmx as (mx' & -> & ? & ?). split_and!; [done|eauto 6|].
      intros ? ? [= <-] [= <-]. eauto 6.
    + exfalso. destruct Hp as [Hp _]. destruct Hp as [? ?]; done || eauto.
    + exfalso. destruct Hp as [_ Hp]. destruct Hp as [? ?]; done || eauto.
    + assert (Hirr : key_ltb value value = false) by (apply not_true_is_false; apply key_lt_irrefl).
      rewrite Hirr in H. inv_bind H. injection H as <-. cbn. split_and!; [done| |done].
      intros _. exists value, value. split_and!; reflexivity.
Qed.

Lemma brin_insert_ok {P : Profile} block value t ix ix' :
  brin_ok ix -> brin_insert block value t ix = Ok ix' ->
  brin_ok ix' /\
  exists i, values ix' = <[i := default [] (values ix !! i) ++ [(value, t)]]> (values ix) /\
    i = Z.to_nat (block / pages_per_range ix) /\ (i < length (ranges ix'))%nat /\ pages_per_range ix' = pages_per_range ix.
Proof.
  intros [Hc Hp] H. unfold brin_insert in H. destruct (pages_per_range ix =? 0); [done|].
  set (i := Z.to_nat (block / pages_per_range ix)) in *. inv_bind H.
  destruct (push_ranges_prefix _ _ _ _ Hstep) as (added & -> & Hl & Hadd).
  destruct ((ranges ix ++ added) !! i) as [r|] eqn:Er; [|done]. inv_bind H. injection H as <-.
  assert (Hpall : Forall bounds_paired (ranges ix ++ added)).
  { apply Forall_app. split; [done|]. eapply Forall_impl; [apply Hadd|]. intros x [Hx1 Hx2]. unfold bounds_paired. by rewrite Hx1, Hx2. }
  assert (Hpr : bounds_paired r) by (by apply (Forall_lookup_1 _ _ _ _ Hpall Er)).
  destruct (summarize_ok value r v Hstep0 Hpr) as (Hpv & Hnew & Hold).
  assert (Hlt := lookup_lt_Some _ _ _ Er). split; [split|].
  - intros j es. cbn. rewrite lookup_insert. case_decide as Hj.
    + subst j. intros [= <-]. exists v. rewrite list_lookup_insert_eq by done. split; [done|].
      apply Forall_app. split; [|by repeat constructor].
      destruct (values ix !! i) as [es|] eqn:Ev; cbn; [|constructor].
      destruct (Hc i es Ev) as (r0 & Hr0 & Hes). rewrite lookup_app_l in Er by (by eapply lookup_lt_Some).
      rewrite Hr0 in Er. injection Er as ->. eapply Forall_impl; [apply Hes|]. cbn. intros e He Hn.
      destruct (He Hn) as (mn & mx & H1 & H2 & H3 & H4). destruct (Hold mn mx H1 H2) as (mn' & mx' & ? & ? & ? & ?).
      exists mn', mx'. split_and!; try done; [by transitivity mn|by transitivity mx].
    + intros Hes. destruct (Hc j es Hes) as (r0 & Hr0 & Hall). exists r0.
      rewrite list_lookup_insert_ne by done. split; [|done]. by apply lookup_app_l_Some.
  - cbn. by apply Forall_insert.
  - exists i. cbn. split_and!; try done. by rewrite length_insert.
Qed.

(** A sequence of insertions: block, value and row pointer. *)
Fixpoint insert_all {P : Profile} (es : list (Z * bytes * tid)) (ix : BrinIndex) : outcome BrinIndex :=
  match es with
  | [] => Ok ix
  | (block, value, t) :: rest => ix ← brin_insert block value t ix; insert_all rest ix
  end.

Lemma concat_imap_ext {A B} (f g : nat -> A -> list B) (l : list A) :
  (forall i a, l !! i = Some a -> f i a = g i a) -> concat (imap f l) = concat (imap g l).
Proof. intros H. f_equal. by apply imap_ext. Qed.

(** A range that a summary prunes has no hits. *)
Lemma lookup_not_pruned ix value :
  brin_ok ix -> is_null value = false -> brin_lookup value ix = all_hits ix (fun v => key_eqb v value).
Proof.
  intros [Hc Hp] Hn. unfold brin_lookup, all_hits. apply concat_imap_ext. intros i r Hr. unfold range_hits.
  destruct (might_contain value r) eqn:Em; [done|]. destruct (values ix !! i) as [es|] eqn:Ev; [|done]. cbn.
  destruct (Hc i es Ev) as (r0 & Hr0 & Hes). rewrite Hr in Hr0. injection Hr0 as <-. symmetry.
  assert (Hnil : List.filter (fun e : bytes * tid => key_eqb e.1 value) es = []); [|by rewrite Hnil].
  clear Ev. induction Hes as [|e es He _ IH]; [done|]. cbn. destruct (key_eqb e.1 value) eqn:Ek; [|done].
  exfalso. apply key_eqb_eq in Ek. rewrite Ek in He. destruct (He Hn) as (mn & mx & H1 & H2 & H3 & H4).
  unfold might_contain in Em. rewrite H1, H2, H3, H4 in Em. done.
Qed.

Lemma lookup_range_not_pruned ix mn mx :
  brin_ok ix -> (forall v, is_null v = true -> key_leb mn v && key_leb v mx = false) ->
  brin_lookup_range mn mx ix = all_hits ix (fun v => key_leb mn v && key_leb v mx).
Proof.
  intros [Hc Hp] Hn. unfold brin_lookup_range, all_hits. apply concat_imap_ext. intros i r Hr. unfold range_hits.
  destruct (might_overlap mn mx r) eqn:Em; [done|]. destruct (values ix !! i) as [es|] eqn:Ev; [|done]. cbn.
  destruct (Hc i es Ev) as (r0 & Hr0 & Hes). rewrite Hr in Hr0. injection Hr0 as <-. symmetry.
  assert (Hnil : List.filter (fun e : bytes * tid => key_leb mn e.1 && key_leb e.1 mx) es = []); [|by rewrite Hnil].
  clear Ev. induction Hes as [|e es He _ IH]; [done|]. cbn.
  destruct (key_leb mn e.1 && key_leb e.1 mx) eqn:Ek; [|done]. exfalso.
  destruct (is_null e.1) eqn:Ee; [by rewrite Hn in Ek|]. destruct (He eq_refl) as (rmn & rmx & H1 & H2 & H3 & H4).
  apply andb_true_iff in Ek as [Ek1 Ek2].
  unfold might_overlap in Em. rewrite H1, H2 in Em. apply andb_false_iff in Em as [Em|Em].
  - apply (not_true_iff_false) in Em. apply Em. change (key_le rmn mx). transitivity e.1; done.
  - apply (not_true_iff_false) in Em. apply Em. change (key_le mn rmx). transitivity e.1; done.
Qed.

Lemma in_all_hits ix p t :
  t ∈ all_hits ix p <-> exists i r es v, ranges ix !! i = Some r /\ values ix !! i = Some es /\ (v, t) ∈ es /\ p v = true.
Proof.
  unfold all_hits. rewrite list_elem_of_In, in_concat. split.
  - intros (l & Hl & Ht). apply list_elem_of_In, list_elem_of_lookup in Hl as [i Hi]. rewrite list_lookup_imap in Hi.
    destruct (ranges ix !! i) as [r|] eqn:Er; [|done]. injection Hi as <-. unfold range_hits in Ht.
    destruct (values ix !! i) as [es|] eqn:Ev; [|done]. apply list_elem_of_In, list_elem_of_fmap in Ht as ([v t'] & -> & Hin).
    apply list_elem_of_In, filter_In in Hin as [Hin Hpv]. exists i, r, es, v. split_and!; try done. by apply list_elem_of_In.
  - intros (i & r & es & v & Hr & Hes & Hin & Hp). eexists. split.
    + apply list_elem_of_In, list_elem_of_lookup. exists i. by rewrite list_lookup_imap, Hr.
    + unfold range_hits. rewrite Hes. apply list_elem_of_In, list_elem_of_fmap. exists (v, t). split; [done|].
      apply list_elem_of_In, filter_In. split; [by apply list_elem_of_In|done].
Qed.

Lemma insert_all_ok {P : Profile} es ix ix' :
  brin_ok ix -> insert_all es ix = Ok ix' ->
  brin_ok ix' /\ forall v t, (exists i l, values ix' !! i = Some l /\ (v, t) ∈ l) <->
    (exists i l, values ix !! i = Some l /\ (v, t) ∈ l) \/ exists b, (b, v, t) ∈ es.
Proof.
  revert ix. induction es as [|[[b v] t] es IH]; intros ix Hok H; cbn [insert_all] in H.
  - injection H as <-. split; [done|]. set_solver.
  - inv_bind H. destruct (brin_insert_ok b v t ix v0 Hok Hstep) as (Hok' & i & Hv & _).
    destruct (IH v0 Hok' H) as [Hok2 Hiff]. split; [done|]. intros v' t'. rewrite Hiff, Hv. clear -Hv.
    assert (Hone : (exists j l, <[i := default [] (values ix !! i) ++ [(v, t)]]> (values ix) !! j = Some l /\ (v', t') ∈ l) <->
      (exists j l, values ix !! j = Some l /\ (v', t') ∈ l) \/ (v', t') = (v, t)).
    { split.
      - intros (j & l & Hj & Hin). rewrite lookup_insert in Hj. case_decide; [|left; eauto]. subst. injection Hj as <-.
        apply elem_of_app in Hin as [Hin|Hin%list_elem_of_singleton]; [|by right].
        left. destruct (values ix !! j) as [l|] eqn:E; [eauto|]. by apply elem_of_nil in Hin.
      - intros [(j & l & Hj & Hin)|[= -> ->]].
        + destruct (decide (j = i)) as [->|].
          * exists i, (l ++ [(v, t)]). rewrite lookup_insert_eq, Hj. split; [done|]. apply elem_of_app. by left.
          * exists j, l. by rewrite lookup_insert_ne.
        + exists i. eexists. rewrite lookup_insert_eq. split; [done|]. apply elem_of_app. right. by apply list_elem_of_singleton. }
    rewrite Hone. setoid_rewrite elem_of_cons. naive_solver.
Qed.

(** Pruning by summaries never loses a row: after any insertions, a lookup of a
    value that is not null returns exactly the row pointers inserted with it, and
    a range lookup that no null string falls into returns exactly the pointers of
    the values between its bounds. *)
Theorem brin_lookup_complete {P : Profile} index_oid rel_oid pages es ix value mn mx :
  insert_all es (with_pages_per_range pages (BrinIndex_new index_oid rel_oid)) = Ok ix ->
  is_null value = false -> (forall v, is_null v = true -> key_leb mn v && key_leb v mx = false) ->
  (forall t, t ∈ brin_lookup value ix <-> exists b, (b, value, t) ∈ es) /\
  (forall t, t ∈ brin_lookup_range mn mx ix <-> exists b v, (b, v, t) ∈ es /\ key_le mn v /\ key_le v mx).
Proof.
  intros H Hn Hr.
  assert (Hok0 : brin_ok (with_pages_per_range pages (BrinIndex_new index_oid rel_oid))).
  { split; cbn; [intros i l; cbn; by rewrite lookup_empty|constructor]. }
  destruct (insert_all_ok es _ ix Hok0 H) as [Hok Hiff].
  assert (Hall : forall p t, t ∈ all_hits ix p <-> exists b v, (b, v, t) ∈ es /\ p v = true).
  { intros p t. rewrite in_all_hits. split.
    - intros (i & r & l & v & _ & Hl & Hin & Hp). destruct (proj1 (Hiff v t)) as [(j & l' & Hj & _)|[b Hb]]; [eauto| |eauto].
      cbn in Hj. by rewrite lookup_empty in Hj.
    - intros (b & v & Hb & Hp). destruct (proj2 (Hiff v t)) as (i & l & Hl & Hin); [eauto|].
      destruct (brin_covered _ Hok i l Hl) as (r & Hr' & _). exists i, r, l, v. done. }
  split; intros t.
  - rewrite lookup_not_pruned, Hall by done. split.
    + intros (b & v & Hb & ->%key_eqb_eq). eauto.
    + intros [b Hb]. exists b, value. split; [done|apply key_eqb_refl].
  - rewrite lookup_range_not_pruned, Hall by done. unfold key_le. setoid_rewrite andb_true_iff. done.
Qed.

Lemma brin_lookup_complete_witness :
  match insert_all (P := debug_profile) [(0, [97], (0, 1)); (130, [99], (130, 1)); (1, [98], (1, 2))]
          (with_pages_per_range 128 (BrinIndex_new 1 2)) with
  | Ok ix => (forall t, t ∈ brin_lookup [98] ix <-> exists b, (b, [98], t) ∈ [(0, [97], (0, 1)); (130, [99], (130, 1)); (1, [98], (1, 2))]) /\
      (forall t, t ∈ brin_lookup_range [97] [98] ix <-> exists b v,
         (b, v, t) ∈ [(0, [97], (0, 1)); (130, [99], (130, 1)); (1, [98], (1, 2))] /\ key_le [97] v /\ key_le v [98])
  | _ => False
  end.
Proof.
  destruct (insert_all (P := debug_profile) [(0, [97], (0, 1)); (130, [99], (130, 1)); (1, [98], (1, 2))]
    (with_pages_per_range 128 (BrinIndex_new 1 2))) as [ix|e|] eqn:E; [|vm_compute in E; discriminate E..].
  apply (brin_lookup_complete (P := debug_profile) 1 2 128 _ ix [98] [97] [98] E).
  - reflexivity.
  - intros v Hv. unfold is_null in Hv. apply orb_true_iff in Hv as [Hv|Hv]; apply bool_decide_eq_true in Hv; subst v; reflexivity.
Defined.

(** Nulls are pruned when a range also holds values: the row inserted with NULL is
    in the index, and a lookup of NULL does not return it. *)
Theorem brin_null_lookup_missed :
  (ix ← insert_all (P := debug_profile) [(0, NULL, (0, 1)); (0, [97], (0, 2))] (BrinIndex_new 1 2);
   Ok (brin_lookup NULL ix, all_hits ix is_null)) = Ok ([], [(0, 1)]).
Proof. by vm_compute. Qed.
