(* ===== verification/Rbac.v ===== *)
(** Role based access control ([src/src/security/rbac.rs]): roles by name, access
    control lists granted on relations, and the privilege check. *)

From S2P Require Import Prelude Types.

Record Role := {
  rolname : string;
  rolsuper : bool;
  rolinherit : bool;
  rolcreaterole : bool;
  rolcreatedb : bool;
  rolcanlogin : bool;
  rolconnlimit : Z;
  rolpassword : option string;
}.

Definition Role_new (name : string) : Role :=
  {| rolname := name; rolsuper := false; rolinherit := true; rolcreaterole := false; rolcreatedb := false;
     rolcanlogin := true; rolconnlimit := -1; rolpassword := None |}.

Definition superuser (name : string) : Role :=
  let role := Role_new name in
  {| rolname := rolname role; rolsuper := true; rolinherit := rolinherit role; rolcreaterole := true;
     rolcreatedb := true; rolcanlogin := rolcanlogin role; rolconnlimit := rolconnlimit role;
     rolpassword := rolpassword role |}.

Definition without_login (r : Role) : Role :=
  {| rolname := rolname r; rolsuper := rolsuper r; rolinherit := rolinherit r; rolcreaterole := rolcreaterole r;
     rolcreatedb := rolcreatedb r; rolcanlogin := false; rolconnlimit := rolconnlimit r;
     rolpassword := rolpassword r |}.

Definition ROLE_POSTGRES : string := "postgres".
Definition ROLE_PUBLIC : string := "public".

Record PrivilegeSet := {
  p_select : bool;
  p_insert : bool;
  p_update : bool;
  p_delete : bool;
  p_truncate : bool;
  p_references : bool;
  p_trigger : bool;
}.

Definition priv_all : PrivilegeSet := Build_PrivilegeSet true true true true true true true.
Definition priv_none : PrivilegeSet := Build_PrivilegeSet false false false false false false false.
Definition priv_read : PrivilegeSet := Build_PrivilegeSet true false false false false false false.
Definition priv_write : PrivilegeSet := Build_PrivilegeSet true true true true false false false.

Definition priv_check (self required : PrivilegeSet) : bool :=
  if p_select required && negb (p_select self) then false
  else if p_insert required && negb (p_insert self) then false
  else if p_update required && negb (p_update self) then false
  else if p_delete required && negb (p_delete self) then false
  else if p_truncate required && negb (p_truncate self) then false
  else if p_references required && negb (p_references self) then false
  else if p_trigger required && negb (p_trigger self) then false
  else true.

Record AccessControlList := {
  grantee : Oid;
  grantor : Oid;
  acl_rel_oid : Oid;
  privileges : PrivilegeSet;
}.

Definition acl_check (acl : AccessControlList) (required : PrivilegeSet) : bool :=
  priv_check (privileges acl) required.

Record RbacManager := { roles : gmap string Role; acls : list AccessControlList }.

Definition RbacManager_new : RbacManager :=
  {| roles := <[ROLE_PUBLIC := without_login (Role_new ROLE_PUBLIC)]>
                (<[ROLE_POSTGRES := superuser ROLE_POSTGRES]> ∅);
     acls := [] |}.

(** A name in double quotes. *)
Definition quoted (s : string) : string := String (Ascii.ascii_of_nat 34) s +:+ String (Ascii.ascii_of_nat 34) EmptyString.

Definition create_role (role : Role) (m : RbacManager) : outcome RbacManager :=
  match roles m !! rolname role with
  | Some _ => Err (Anyhow ("role " +:+ quoted (rolname role) +:+ " already exists") [])
  | None => Ok {| roles := <[rolname role := role]> (roles m); acls := acls m |}
  end.

Definition drop_role (name : string) (m : RbacManager) : outcome RbacManager :=
  if decide (name = ROLE_POSTGRES) then Err (Anyhow "cannot drop role postgres" [])
  else match roles m !! name with
  | None => Err (Anyhow ("role " +:+ quoted name +:+ " does not exist") [])
  | Some _ => Ok {| roles := delete name (roles m); acls := acls m |}
  end.

Definition get_role (name : string) (m : RbacManager) : option Role := roles m !! name.

(** [HashMap::values], in an order that is not specified. *)
Definition role_order : Type := gmap string Role -> list Role.

Definition role_order_ok (order : role_order) : Prop := forall m, order m ≡ₚ (map_to_list m).*2.

Definition list_roles (order : role_order) (m : RbacManager) : list Role := order (roles m).

Definition grant (g rel : Oid) (p : PrivilegeSet) (m : RbacManager) : RbacManager :=
  {| roles := roles m;
     acls := acls m ++ [{| grantee := g; grantor := 0; acl_rel_oid := rel; privileges := p |}] |}.

(** The privileges passed in are not used. *)
Definition revoke (g rel : Oid) (p : PrivilegeSet) (m : RbacManager) : RbacManager :=
  {| roles := roles m; acls := filter (fun acl => grantee acl <> g \/ acl_rel_oid acl <> rel) (acls m) |}.

(** The [find] does not look at the role: it yields the first role in the order of
    the hash map when [role_oid] is 0, and nothing otherwise. *)
Definition check_privilege (order : role_order) (role_oid rel : Oid) (required : PrivilegeSet) (m : RbacManager)
    : bool :=
  let by_acl :=
    existsb (fun acl => acl_check acl required)
      (filter (fun acl => grantee acl = role_oid /\ acl_rel_oid acl = rel) (acls m)) in
  match snd <$> list_find (fun _ => 0 = role_oid) (order (roles m)) with
  | Some role => if rolsuper role then true else by_acl
  | None => by_acl
  end.

(* ------------------------------------------------------------------ *)
(** ** Privilege sets *)

(** Every privilege of [required] is in [p]. *)
Definition covers (p required : PrivilegeSet) : Prop :=
  forall f, f ∈ [p_select; p_insert; p_update; p_delete; p_truncate; p_references; p_trigger] ->
    f required = true -> f p = true.

Lemma check_step (required held rest : bool) :
  (if required && negb held then false else rest) = true <-> (required = true -> held = true) /\ rest = true.
Proof. destruct required, held; cbn; naive_solver. Qed.

Lemma priv_check_covers p r : priv_check p r = true <-> covers p r.
Proof.
  unfold covers, priv_check. rewrite <- Forall_forall, !Forall_cons, Forall_nil, !check_step. tauto.
Qed.

#[export] Instance covers_preorder : PreOrder covers.
Proof. split; [intros p f _; done|]. intros p q r Hpq Hqr f Hf Hr. by apply Hpq, Hqr. Qed.

(* ------------------------------------------------------------------ *)
(** ** Histories *)

(** The calls that change the manager; a call that fails leaves it as it was. *)
Inductive rbac_op :=
| RCreate (role : Role)
| RDrop (name : string)
| RGrant (g rel : Oid) (p : PrivilegeSet)
| RRevoke (g rel : Oid) (p : PrivilegeSet).

Definition run_rbac (m : RbacManager) (op : rbac_op) : RbacManager :=
  match op with
  | RCreate role => match create_role role m with Ok m' => m' | _ => m end
  | RDrop name => match drop_role name m with Ok m' => m' | _ => m end
  | RGrant g rel p => grant g rel p m
  | RRevoke g rel p => revoke g rel p m
  end.

Definition rbac_history (ops : list rbac_op) : RbacManager := foldl run_rbac RbacManager_new ops.

Lemma rbac_history_snoc ops op : rbac_history (ops ++ [op]) = run_rbac (rbac_history ops) op.
Proof. apply foldl_snoc. Qed.

(** [op] is a revocation for this pair of role and relation. *)
Definition revokes (g rel : Oid) (op : rbac_op) : Prop := exists p, op = RRevoke g rel p.

(** A grant of [p] to [g] on [rel] with no later revocation for the pair. *)
Definition granted (ops : list rbac_op) (g rel : Oid) (p : PrivilegeSet) : Prop :=
  exists before after, ops = before ++ RGrant g rel p :: after /\ Forall (fun op => ~ revokes g rel op) after.

Lemma granted_snoc ops op g rel p :
  granted (ops ++ [op]) g rel p <-> op = RGrant g rel p \/ (granted ops g rel p /\ ~ revokes g rel op).
Proof.
  split.
  - intros (b & a & E & Ha). destruct a as [|a0 a _] using rev_ind.
    + left. by apply app_inj_tail in E as [_ ->].
    + right. rewrite app_comm_cons, app_assoc in E. apply app_inj_tail in E as [-> ->].
      apply Forall_app in Ha as [Ha Hn]. rewrite Forall_singleton in Hn. split; [|exact Hn]. by exists b, a.
  - intros [->|[(b & a & -> & Ha) Hn]]; [exists ops, []; by split; [|constructor]|]. exists b, (a ++ [op]).
    split; [by rewrite <- app_assoc|]. apply Forall_app; split; [done|by rewrite Forall_singleton].
Qed.

Lemma run_rbac_acls m op :
  acls (run_rbac m op) =
  match op with
  | RGrant g rel p => acls m ++ [{| grantee := g; grantor := 0; acl_rel_oid := rel; privileges := p |}]
  | RRevoke g rel _ => filter (fun acl => grantee acl <> g \/ acl_rel_oid acl <> rel) (acls m)
  | _ => acls m
  end.
Proof.
  destruct op; cbn; try done.
  - unfold create_role. by destruct (roles m !! _).
  - unfold drop_role. case_decide; [done|]. by destruct (roles m !! name).
Qed.

Lemma acls_granted ops acl :
  acl ∈ acls (rbac_history ops) <->
  grantor acl = 0 /\ granted ops (grantee acl) (acl_rel_oid acl) (privileges acl).
Proof.
  induction ops as [|op ops IH] using rev_ind.
  { cbn. split; [by intros ?%not_elem_of_nil|]. intros [_ (b & a & E & _)]. by destruct b. }
  rewrite rbac_history_snoc, run_rbac_acls, granted_snoc. unfold revokes in *.
  destruct op as [r|n|g rel p|g rel p]; [rewrite IH; naive_solver..| |].
  - rewrite elem_of_app, IH, list_elem_of_singleton. destruct acl; cbn in *. naive_solver.
  - rewrite list_elem_of_filter, IH. destruct acl as [g' o' rel' p']; cbn in *.
    split; [naive_solver|]. intros (-> & [E|[Hg Hn]]); [done|].
    split; [|done]. destruct (decide (g' = g)) as [->|]; [|by left]. destruct (decide (rel' = rel)) as [->|]; [|by right].
    exfalso. apply Hn. by exists p.
Qed.

Lemma find_oid_zero order role_oid (m : gmap string Role) :
  role_oid <> 0 -> snd <$> list_find (fun _ : Role => 0 = role_oid) (order m) = None.
Proof.
  intros H. destruct (list_find _ _) as [[i r]|] eqn:E; [|done]. exfalso.
  apply list_find_Some in E as (_ & E & _). lia.
Qed.

(** C33. The privilege check after any history of calls, for any role but oid 0: it
    answers yes exactly when one grant to that role on that relation, not followed
    by a revocation for the same pair, covers everything that is required. Grants
    of different calls do not add up, roles and their superuser flag play no part,
    and a revocation cancels every earlier grant of the pair, whatever privileges
    it names. *)
Theorem check_privilege_history order ops role_oid rel required :
  role_oid <> 0 ->
  check_privilege order role_oid rel required (rbac_history ops) = true <->
  exists p, granted ops role_oid rel p /\ covers p required.
Proof.
  intros Hoid. unfold check_privilege. rewrite find_oid_zero by done. rewrite existsb_exists. split.
  - intros (acl & Hin & Hc). apply list_elem_of_In, list_elem_of_filter in Hin as [[<- <-] [_ Hg]%acls_granted].
    exists (privileges acl). split; [done|]. by apply priv_check_covers.
  - intros (p & Hg & Hc). exists {| grantee := role_oid; grantor := 0; acl_rel_oid := rel; privileges := p |}.
    split; [|by apply priv_check_covers]. by apply list_elem_of_In, list_elem_of_filter; split; [|apply acls_granted].
Qed.

Lemma check_privilege_history_witness :
  let ops := [RGrant 5 9 priv_write; RGrant 5 8 priv_all; RRevoke 5 8 priv_read] in
  check_privilege (fun m => (map_to_list m).*2) 5 9 priv_read (rbac_history ops) = true /\
  exists p, granted ops 5 9 p /\ covers p priv_read.
Proof.
  cbn zeta.
  assert (H : check_privilege (fun m => (map_to_list m).*2) 5 9 priv_read
    (rbac_history [RGrant 5 9 priv_write; RGrant 5 8 priv_all; RRevoke 5 8 priv_read]) = true) by by vm_compute.
  split; [exact H|].
  exact (proj1 (check_privilege_history (fun m => (map_to_list m).*2)
    [RGrant 5 9 priv_write; RGrant 5 8 priv_all; RRevoke 5 8 priv_read] 5 9 priv_read ltac:(lia)) H).
Defined.

(** The role table after any history: the keys are the roles' own names, and the
    bootstrap superuser [postgres] is there unchanged. *)
Definition roles_ok (m : RbacManager) : Prop :=
  map_Forall (fun name r => rolname r = name) (roles m) /\
  roles m !! ROLE_POSTGRES = Some (superuser ROLE_POSTGRES).

Lemma run_rbac_roles m op : roles_ok m -> roles_ok (run_rbac m op).
Proof.
  intros [Hk Hp]. destruct op as [r|n|g rel p|g rel p]; cbn; [| |by split..].
  - unfold create_role. destruct (roles m !! rolname r) eqn:E; [by split|].
    split; cbn; [by apply map_Forall_insert_2|]. rewrite lookup_insert_ne; [done|congruence].
  - unfold drop_role. case_decide; [by split|]. destruct (roles m !! n) eqn:E; [|by split].
    split; cbn; [by apply map_Forall_delete|]. by rewrite lookup_delete_ne.
Qed.

(** After any history the bootstrap role [postgres] is the unchanged superuser,
    every role is stored under its name, a role can be created exactly when its
    name is free and is then found, and every other name but [postgres] can be
    dropped exactly when it exists. *)
Theorem role_table_spec ops :
  let m := rbac_history ops in
  get_role ROLE_POSTGRES m = Some (superuser ROLE_POSTGRES) /\
  (forall name r, get_role name m = Some r -> rolname r = name) /\
  (forall role, match create_role role m with
    | Ok m' => get_role (rolname role) m = None /\ get_role (rolname role) m' = Some role /\
        forall n, n <> rolname role -> get_role n m' = get_role n m
    | Err _ => is_Some (get_role (rolname role) m)
    | Panic => False end) /\
  (forall name, match drop_role name m with
    | Ok m' => name <> ROLE_POSTGRES /\ is_Some (get_role name m) /\ get_role name m' = None /\
        forall n, n <> name -> get_role n m' = get_role n m
    | Err _ => name = ROLE_POSTGRES \/ get_role name m = None
    | Panic => False end).
Proof.
  cbn zeta.
  assert (Hok : roles_ok (rbac_history ops)).
  { induction ops as [|op ops IH] using rev_ind; [split; [|by vm_compute]; by repeat (apply map_Forall_insert_2; [done|])|].
    rewrite rbac_history_snoc. by apply run_rbac_roles. }
  revert Hok. generalize (rbac_history ops). intros m [Hk Hp]. unfold get_role.
  split_and!; [done|apply Hk| |].
  - intros role. unfold create_role. destruct (roles m !! rolname role) eqn:E; [done|]. cbn.
    split_and!; [done|by rewrite lookup_insert_eq|]. intros n Hn. by rewrite lookup_insert_ne.
  - intros name. unfold drop_role. case_decide; [by left|].
    destruct (roles m !! name) eqn:E; [|by right]. cbn.
    split_and!; [done|done|by rewrite lookup_delete_eq|]. intros n Hn. by rewrite lookup_delete_ne.
Qed.

(** The role with oid 0 passes or fails the check by the order in which the hash
    map yields its roles, with no grant at all. *)
Theorem oid_zero_depends_on_order :
  exists order1 order2, role_order_ok order1 /\ role_order_ok order2 /\
    check_privilege order1 0 9 priv_all RbacManager_new = true /\
    check_privilege order2 0 9 priv_all RbacManager_new = false.
Proof.
  set (o := fun m : gmap string Role => (map_to_list m).*2).
  set (ro := fun m : gmap string Role => reverse (map_to_list m).*2).
  assert (Ho : role_order_ok o) by (intros m; done).
  assert (Hr : role_order_ok ro) by (intros m; unfold ro; by rewrite reverse_Permutation).
  first [ by exists o, ro; split_and!; [done|done|vm_compute..] | by exists ro, o; split_and!; [done|done|vm_compute..] ].
Qed.
