(* ===== verification/HeapAccess.v ===== *)
(** The heap access methods ([src/src/executor/heap.rs]) over the heap page, the
    shared cache, the store under it and the log: inserting, scanning, updating,
    deleting and vacuuming the rows of a relation, and the index scan. Here are the
    operations, what a relation's pages hold, and the theorems on scans and on
    insertion; the statements over many rows are in HeapStatements.v. *)

From S2P Require Import Prelude Types Storage HeapPage Transaction BufferPool Wal Utf8 BTreePage TupleCodec.

Record TupleInsert := { ins_rel_oid : Oid; ins_values : list bytes }.

Record TupleInsertBulk := { bulk_rel_oid : Oid; bulk_tuples : list (list bytes) }.

Record Filter := { flt_column : nat; flt_value : bytes }.

Record SlowScan := { scan_rel_oid : Oid; scan_filter : option Filter }.

(* ------------------------------------------------------------------ *)
(** ** The effects of the executor *)

(** The shared cache, with the store under it, and the log. *)
Record heap_state (S : Type) := { hs_cache : SharedBufferCache S; hs_wal : WAL }.
Arguments Build_heap_state {S} _ _.
Arguments hs_cache {S} _.
Arguments hs_wal {S} _.

(** A computation that can fail and whose effects stay when it does. *)
Definition heap_m (S X : Type) : Type := heap_state S -> outcome X * heap_state S.

#[export] Instance heap_ret {S} : MRet (heap_m S) := fun X x w => (Ok x, w).

#[export] Instance heap_bind {S} : MBind (heap_m S) := fun X Y f m w =>
  match m w with
  | (Ok x, w) => f x w
  | (Err e, w) => (Err e, w)
  | (Panic, w) => (Panic, w)
  end.

(** Run one computation over a list, collecting the results. *)
Fixpoint for_each {S X Y} (f : X -> heap_m S Y) (l : list X) : heap_m S (list Y) :=
  match l with
  | [] => mret []
  | x :: rest => y ← f x; ys ← for_each f rest; mret (y :: ys)
  end.

(* ------------------------------------------------------------------ *)
(** ** Rows as tuple data *)

(** The values of an inserted row, with a zero byte between them. *)
Fixpoint join_values (values : list bytes) : bytes :=
  match values with
  | [] => []
  | [v] => v
  | v :: rest => v ++ 0 :: join_values rest
  end.

(** The bytes before the next zero, and what is left from it on. *)
Fixpoint until_zero (data : bytes) : bytes * bytes :=
  match data with
  | [] => ([], [])
  | b :: rest => if b =? 0 then ([], data) else let '(v, rest') := until_zero rest in (b :: v, rest')
  end.

(** The loop of [decode_tuple_values] from field [i] on; [data] is what is left
    of [tup.data] from [pos], [slots] the number of slots. *)
Fixpoint decode_fields (slots total i : nat) (fields : list Attribute) (data : bytes) : list bytes :=
  match fields with
  | [] => []
  | _ :: fields' =>
      if (i <? slots)%nat && negb (bool_decide (data = [])) then
        let '(v, rest) := until_zero data in
        let val := default [] (from_utf8 v) in
        match rest with
        | [] => if (i <? total - 1)%nat then val :: replicate (total - S i) []
                else val :: decode_fields slots total (S i) fields' []
        | _ :: rest' => val :: decode_fields slots total (S i) fields' rest'
        end
      else [] :: decode_fields slots total (S i) fields' data
  end.

Definition decode_tuple_values (tup : Tuple) (desc : TupleDesc) : list bytes :=
  if bool_decide (tup_data tup = []) then replicate (length (td_fields desc)) []
  else decode_fields (length (tup_slots tup)) (length (td_fields desc)) 0 (td_fields desc) (tup_data tup).

(** [slice::split] at the zero bytes. *)
Fixpoint split_zero (data : bytes) : list bytes :=
  match data with
  | [] => [[]]
  | b :: rest =>
      if b =? 0 then [] :: split_zero rest
      else match split_zero rest with v :: vs => (b :: v) :: vs | [] => [[b]] end
  end.

Definition build_updated_data (old_data : bytes) (column_idx : nat) (new_value : bytes) : option bytes :=
  let parts := split_zero old_data in
  if decide (column_idx < length parts)%nat then Some (join_values (<[column_idx := new_value]> parts)) else None.

(** [str::contains]. *)
Fixpoint contains (hay needle : bytes) : bool :=
  bool_decide (needle `prefix_of` hay) || match hay with [] => false | _ :: rest => contains rest needle end.

(** The filter of [slow_scan]: the column contains the value; a column the row
    does not have lets it through. *)
Definition scan_admits (filter : option Filter) (row : list bytes) : bool :=
  match filter with
  | None => true
  | Some f =>
      match row !! flt_column f with
      | Some v =>
          let expected := from_utf8_lossy (flt_value f) in
          contains v expected || bool_decide (v = expected)
      | None => true
      end
  end.

(** The filter of [tuple_update] and [tuple_delete]: the column is there and
    equals the value. *)
Definition dml_admits (filter : option Filter) (row : list bytes) : bool :=
  match filter with
  | None => true
  | Some f =>
      match row !! flt_column f with
      | Some v => bool_decide (v = from_utf8_lossy (flt_value f))
      | None => false
      end
  end.

(** The snapshot of a scan that is given none. *)
Definition latest_snapshot : Snapshot := {| snap_xid := 2 ^ 32 - 1; active_xids := [] |}.

Abbreviation rows := (list (ItemPointerData * list bytes)).

(** What [bincode::deserialize] makes of a tuple's bytes; it returns an error and
    does not panic on bytes that are no tuple. *)
Definition tuple_of `{Bincode Tuple} (data : bytes) : option Tuple := outcome_ok (bincode_deserialize data).

(** The new version of a tuple. *)
Definition with_version (t : Tuple) (xmin : Z) (data : bytes) : Tuple :=
  {| tup_slots := tup_slots t; tup_data := data; tup_xmin := xmin; tup_xmax := 0;
     tup_cmin := tup_cmin t; tup_cmax := tup_cmax t; tup_xvac := tup_xvac t |}.

Definition with_tuples (p : HeapPage) (ts : list bytes) : HeapPage :=
  {| header := header p; line_pointers := line_pointers p; tuples := ts |}.

(** The tuple an insert builds. *)
Definition inserted_tuple (values : list bytes) (xid : Z) : Tuple :=
  {| tup_slots := (fun i => (Z.of_nat i) as_u16) <$> seq 0 (length values); tup_data := join_values values;
     tup_xmin := xid; tup_xmax := 0; tup_cmin := 0; tup_cmax := 0; tup_xvac := 0 |}.

Section ops.
Context {P : Profile} {S : Type} `{Storage S} `{Bincode Tuple} `{Bincode WALRecord}.
Abbreviation M := (heap_m S).

(* ------------------------------------------------------------------ *)
(** ** Steps *)

Definition h_lift {X} (o : outcome X) : M X := fun w => (o, w).

Definition with_hcache (w : heap_state S) (c : SharedBufferCache S) : heap_state S :=
  {| hs_cache := c; hs_wal := hs_wal w |}.

(** [cache.storage.read_page] and [cache.storage.write_page]: past the pool. *)
Definition h_read (pid : PageId) : M bytes := fun w => (read_page (cache_storage (hs_cache w)) pid, w).

Definition h_write (pid : PageId) (data : bytes) : M unit := fun w =>
  let '(r, s) := write_page (cache_storage (hs_cache w)) pid data in
  (r, with_hcache w (with_cache (hs_cache w) s (cache_pool (hs_cache w)))).

Definition h_write_page (pid : PageId) (p : HeapPage) : M unit :=
  data ← h_lift (HeapPage_serialize p); h_write pid data.

Definition h_read_page (pid : PageId) : M HeapPage :=
  data ← h_read pid; h_lift (HeapPage_deserialize data).

Definition h_fetch_batch (pids : list PageId) : M (list (PageId * bytes)) := fun w =>
  let '(r, c) := fetch_pages_batch pids (hs_cache w) in (r, with_hcache w c).

Definition h_invalidate (pid : PageId) : M unit := fun w =>
  let '(r, c) := cache_invalidate_page pid (hs_cache w) in (r, with_hcache w c).

Definition h_xid : M Z := fun w =>
  let '(xid, wal) := allocate_xid (hs_wal w) in (Ok xid, {| hs_cache := hs_cache w; hs_wal := wal |}).

Definition h_append (r : WALRecord) : M Z := fun w =>
  let '(o, wal) := append r (hs_wal w) in (o, {| hs_cache := hs_cache w; hs_wal := wal |}).

(** [get_relation_state], and the relation locked in it. *)
Definition h_relation (oid : Oid) : M Relation := fun w =>
  (match get_relation_state oid (hs_cache w) with
   | Some st => Ok (mrs_relation st)
   | None => Err (Anyhow "Relation not found" [])
   end, w).

Definition h_change (oid : Oid) (f : MutableRelationState -> MutableRelationState) : M unit := fun w =>
  (Ok tt, with_hcache w (with_rels (hs_cache w) (alter f oid (cache_rels (hs_cache w))))).

(** [dirty_buffers.push], and with it the assignment of the relation. *)
Definition h_dirty (oid : Oid) (pid : PageId) : M unit :=
  h_change oid (fun st => {| mrs_relation := mrs_relation st; mrs_dirty_buffers := mrs_dirty_buffers st ++ [pid] |}).

Definition h_dirty_with (oid : Oid) (pid : PageId) (rel : Relation) : M unit :=
  h_change oid (fun st => {| mrs_relation := rel; mrs_dirty_buffers := mrs_dirty_buffers st ++ [pid] |}).

(* ------------------------------------------------------------------ *)
(** ** Inserting *)

(** The page an insert goes to: the relation's last, or page 1, written empty. *)
Definition insert_target (rel : Relation) : M (PageId * list PageId) :=
  match last (rel_pages rel) with
  | Some pid => mret (pid, rel_pages rel)
  | None => _ ← h_write_page 1 HeapPage_new; mret (1, rel_pages rel ++ [1])
  end.

(** The encoded tuple goes to the target page or, when that is full, to a new
    page with the next number; the full page is written again. *)
Definition place_tuple (oid : Oid) (rel : Relation) (pages : list PageId) (page_id : PageId) (heap_page : HeapPage)
    (encoded : bytes) : M PageId :=
  added ← h_lift (add_tuple heap_page encoded);
  let '(slot, heap_page) := (added : option Z * HeapPage) in
  match slot with
  | None =>
      new_page_id ← h_lift (add_w 32 page_id 1);
      added ← h_lift (add_tuple HeapPage_new encoded);
      _ ← h_write_page new_page_id added.2;
      _ ← h_write_page page_id heap_page;
      _ ← h_dirty_with oid new_page_id (with_pages rel (pages ++ [new_page_id]));
      mret new_page_id
  | Some _ =>
      _ ← h_write_page page_id heap_page;
      _ ← h_dirty_with oid page_id (with_pages rel pages);
      mret page_id
  end.

Definition tuple_insert (op : TupleInsert) : M unit :=
  let oid := ins_rel_oid op in
  rel ← h_relation oid;
  target ← insert_target rel;
  let '(page_id, pages) := (target : PageId * list PageId) in
  heap_page ← h_read_page page_id;
  xid ← h_xid;
  let tup := inserted_tuple (ins_values op) xid in
  encoded ← h_lift (bincode_serialize tup);
  page_id ← place_tuple oid rel pages page_id heap_page encoded;
  _ ← h_append (WalInsert oid page_id tup);
  mret tt.

Definition tuple_insert_bulk (op : TupleInsertBulk) : M unit :=
  _ ← for_each (fun values => tuple_insert {| ins_rel_oid := bulk_rel_oid op; ins_values := values |}) (bulk_tuples op);
  mret tt.

(* ------------------------------------------------------------------ *)
(** ** Scanning *)

(** The rows of one page: every slot whose bytes are a visible tuple. *)
Definition scan_tuples (admits : list bytes -> bool) (snap : Snapshot) (desc : TupleDesc) (pid : PageId)
    (ts : list bytes) : rows :=
  concat (imap (fun i t =>
    match tuple_of t with
    | Some tup =>
        if negb (is_visible tup snap) then [] else
        let row := decode_tuple_values tup desc in
        if admits row then [({| ip_page_id := pid; ip_offset := (Z.of_nat i) as_u16 |}, row)] else []
    | None => []
    end) ts).

(** The scans of the pool's copies of the pages. *)
Definition heap_scan_with_snapshot (oid : Oid) (snap : Snapshot) : M rows :=
  rel ← h_relation oid;
  pages ← h_fetch_batch (rel_pages rel);
  found ← for_each (fun pd => p ← h_lift (HeapPage_deserialize pd.2);
    mret (scan_tuples (fun _ => true) snap (rel_tuple_desc rel) pd.1 (tuples p))) pages;
  mret (concat found).

Definition heap_scan_with_optional_snapshot (oid : Oid) (snap : option Snapshot) : M rows :=
  heap_scan_with_snapshot oid (default latest_snapshot snap).

Definition heap_scan (oid : Oid) : M rows := heap_scan_with_optional_snapshot oid None.

(** The filtered scan, of the store's pages. *)
Definition slow_scan (op : SlowScan) : M rows :=
  rel ← h_relation (scan_rel_oid op);
  found ← for_each (fun pid => p ← h_read_page pid;
    mret (scan_tuples (scan_admits (scan_filter op)) latest_snapshot (rel_tuple_desc rel) pid (tuples p)))
    (rel_pages rel);
  mret (concat found).

(* ------------------------------------------------------------------ *)
(** ** Deleting *)

(** The slots of a page whose bytes are a tuple the filter admits. *)
Definition matching_tuples (filter : option Filter) (desc : TupleDesc) (ts : list bytes) : list (nat * Tuple) :=
  concat (imap (fun i t =>
    match tuple_of t with
    | Some tup => if dml_admits filter (decode_tuple_values tup desc) then [(i, tup)] else []
    | None => []
    end) ts).

(** [heap_page.tuples[slot] = encoded]. *)
Definition put_tuple (p : HeapPage) (slot : nat) (encoded : bytes) : outcome HeapPage :=
  ts ← set_at (Z.of_nat slot) encoded (tuples p); Ok (with_tuples p ts).

Fixpoint delete_tuples (oid : Oid) (pid : PageId) (p : HeapPage) (victims : list (nat * Tuple)) : M Z :=
  match victims with
  | [] => mret 0
  | (slot, tup) :: rest =>
      xid ← h_xid;
      let tup := with_xmax tup xid in
      encoded ← h_lift (bincode_serialize tup);
      p ← h_lift (put_tuple p slot encoded);
      _ ← h_write_page pid p;
      _ ← h_dirty oid pid;
      _ ← h_append (WalDelete oid pid tup);
      n ← delete_tuples oid pid p rest;
      mret (1 + n)
  end.

Definition tuple_delete (oid : Oid) (filter : option Filter) : M Z :=
  rel ← h_relation oid;
  counts ← for_each (fun pid =>
    p ← h_read_page pid;
    delete_tuples oid pid p (matching_tuples filter (rel_tuple_desc rel) (tuples p))) (rel_pages rel);
  mret (foldr Z.add 0 counts).

(* ------------------------------------------------------------------ *)
(** ** Updating *)

(** The tuples to update on a page, with their new data; a tuple without the
    column is left out. *)
Definition updates_of (filter : option Filter) (desc : TupleDesc) (column_idx : nat) (new_value : bytes)
    (ts : list bytes) : list (nat * Tuple * bytes) :=
  omap (fun '(i, tup) => (fun d => (i, tup, d)) <$> build_updated_data (tup_data tup) column_idx new_value)
    (matching_tuples filter desc ts).

Fixpoint update_tuples (oid : Oid) (pid : PageId) (p : HeapPage) (todo : list (nat * Tuple * bytes)) : M Z :=
  match todo with
  | [] => mret 0
  | (slot, tup, new_data) :: rest =>
      xid ← h_xid;
      let new_tup := with_version tup xid new_data in
      encoded ← h_lift (bincode_serialize new_tup);
      hot ← h_lift (hot_update p ((Z.of_nat slot) as_u16) encoded);
      let '(new_slot, p) := (hot : option Z * HeapPage) in
      let tup := with_xmax tup xid in
      old_encoded ← h_lift (bincode_serialize tup);
      p ← h_lift (put_tuple p slot old_encoded);
      p ←
        match new_slot with
        | Some ns =>
            _ ← h_write_page pid p;
            _ ← h_dirty oid pid;
            back ← h_lift (index ns (tuples p));
            new_tup ← h_lift (bincode_deserialize back);
            _ ← h_append (WalUpdate oid pid tup new_tup);
            mret p
        | None =>
            new_encoded ← h_lift (bincode_serialize new_tup);
            added ← h_lift (add_tuple p new_encoded);
            let p := added.2 in
            _ ← h_write_page pid p;
            _ ← h_dirty oid pid;
            _ ← h_append (WalUpdate oid pid tup new_tup);
            mret p
        end;
      n ← update_tuples oid pid p rest;
      mret (1 + n)
  end.

Definition tuple_update (oid : Oid) (column_idx : nat) (new_value : bytes) (filter : option Filter) : M Z :=
  rel ← h_relation oid;
  counts ← for_each (fun pid =>
    p ← h_read_page pid;
    update_tuples oid pid p (updates_of filter (rel_tuple_desc rel) column_idx new_value (tuples p))) (rel_pages rel);
  mret (foldr Z.add 0 counts).

(* ------------------------------------------------------------------ *)
(** ** Vacuuming *)

(** Whether vacuum reclaims the tuple of a normal slot. *)
Definition reclaimable (oldest_xmin : Z) (lp : LinePointer) (t : option bytes) : bool :=
  is_normal lp &&
  match t with
  | Some data =>
      match tuple_of data with
      | Some tup => negb (tup_xmax tup =? 0) && (tup_xmax tup <? oldest_xmin)
      | None => false
      end
  | None => false
  end.

(** The loop over the slots: the line pointers marked, and how many. *)
Fixpoint reclaim (oldest_xmin : Z) (lps : list LinePointer) (ts : list bytes) : list LinePointer * Z :=
  match lps with
  | [] => ([], 0)
  | lp :: lps' =>
      let '(rest, n) := reclaim oldest_xmin lps' (tail ts) in
      if reclaimable oldest_xmin lp (head ts) then (set_flags lp LP_DEAD :: rest, 1 + n) else (lp :: rest, n)
  end.

Definition vacuum_page (oid : Oid) (oldest_xmin : Z) (pid : PageId) : M Z :=
  p ← h_read_page pid;
  let '(lps, n) := reclaim oldest_xmin (line_pointers p) (tuples p) in
  if 0 <? n then
    p ← h_lift (compact {| header := header p; line_pointers := lps; tuples := tuples p |});
    _ ← h_write_page pid p;
    _ ← h_invalidate pid;
    _ ← h_dirty oid pid;
    mret n
  else mret n.

Definition vacuum_relation (oid : Oid) (oldest_xmin : Z) : M Z :=
  rel ← h_relation oid;
  counts ← for_each (vacuum_page oid oldest_xmin) (rel_pages rel);
  mret (foldr Z.add 0 counts).

(* ------------------------------------------------------------------ *)
(** ** The index scan *)

(** The entries of a B-tree page from [pos] on: until one does not fit or its
    key is empty. An entry takes ten bytes at least, so the length of the page
    is fuel enough. *)
Fixpoint page_entries (fuel : nat) (pos : Z) (data : bytes) : outcome (list (bytes * Z * Z)) :=
  match fuel with
  | O => Ok []
  | Datatypes.S fuel =>
      if zlen data <? pos + 4 + 6 then Ok [] else
      key_len ← read_le 4 pos data;
      if (key_len =? 0) || (zlen data <? pos + 4 + key_len + 6) then Ok [] else
      let key_start := pos + 4 in
      key ← slice key_start (key_start + key_len) data;
      let ptr := key_start + key_len in
      heap_page ← read_le 4 ptr data;
      heap_offset ← read_le 2 (ptr + 4) data;
      rest ← page_entries fuel (ptr + 6) data;
      Ok ((key, heap_page, heap_offset) :: rest)
  end.

(** The child the walk goes on to: the first entry whose key is not below the
    searched one, else the last. *)
Definition walk_child (search_key : bytes) (entries : list (bytes * Z * Z)) : option PageId :=
  match List.find (fun e => bool_decide (search_key = []) || BTreePage.key_leb search_key e.1.1) entries with
  | Some e => Some e.1.2
  | None => (fun e => e.1.2) <$> last entries
  end.

(** [walk_btree]; [None] stands for fuel running out, where the code recurses
    without end. Errors of the store end the walk and are not reported. *)
Fixpoint walk_btree (fuel : nat) (s : S) (pid : PageId) (search_key : bytes) : option (outcome (list (Z * Z))) :=
  match fuel with
  | O => None
  | Datatypes.S fuel =>
      match read_page s pid with
      | Panic => Some Panic
      | Err _ => Some (Ok [])
      | Ok data =>
          if zlen data <? 64 then Some (Ok []) else
          match index 0 data, page_entries (length data) 64 data with
          | Ok ty, Ok entries =>
              if ty =? 3 then
                Some (Ok ((fun e => (e.1.2, e.2)) <$>
                  List.filter (fun e => bool_decide (search_key = []) || BTreePage.key_eqb e.1.1 search_key) entries))
              else if (ty =? 1) || (ty =? 2) then
                match walk_child search_key entries with
                | Some child => walk_btree fuel s child search_key
                | None => Some (Ok [])
                end
              else Some (Ok [])
          | _, _ => Some Panic
          end
      end
  end.

(** The first page from [pid] on that begins with the byte of a root. *)
Fixpoint find_root (n : nat) (pid : PageId) (s : S) : outcome (option PageId) :=
  match n with
  | O => Ok None
  | Datatypes.S n =>
      match read_page s pid with
      | Panic => Panic
      | Err _ => find_root n (pid + 1) s
      | Ok data =>
          match data with
          | b :: _ => if b =? 1 then Ok (Some pid) else find_root n (pid + 1) s
          | [] => find_root n (pid + 1) s
          end
      end
  end.

Definition index_scan (fuel : nat) (scan_key : bytes) (s : S) : option (outcome (list (Z * Z))) :=
  match find_root 4096 1 s with
  | Ok (Some root) => walk_btree fuel s root scan_key
  | Ok None => Some (Ok [])
  | Err e => Some (Err e)
  | Panic => Some Panic
  end.
End ops.

(* ------------------------------------------------------------------ *)
(** ** Versions and their encoding *)

Lemma tuple_of_encoded `{TupleLaws} t d : bincode_serialize t = Ok d -> tuple_of d = Some t.
Proof. intros Hd. unfold tuple_of. rewrite <- (app_nil_r d). by rewrite (tl_decode t d []). Qed.

Lemma tuple_of_nil `{TupleLaws} : tuple_of [] = None.
Proof. unfold tuple_of. by destruct tl_empty as [e ->]. Qed.

(* ------------------------------------------------------------------ *)
(** ** Rows and their encoding *)

(** A value a row can hold: text without a zero byte. *)
Definition plain_value (v : bytes) : Prop := valid_utf8 v /\ Forall (fun b => b <> 0) v.

Lemma until_zero_plain v rest : Forall (fun b => b <> 0) v -> until_zero (v ++ 0 :: rest) = (v, 0 :: rest).
Proof. induction 1 as [|b v Hb _ IH]; [done|]. cbn. rewrite (proj2 (Z.eqb_neq _ _)) by done. by rewrite IH. Qed.

Lemma until_zero_end v : Forall (fun b => b <> 0) v -> until_zero v = (v, []).
Proof. induction 1 as [|b v Hb _ IH]; [done|]. cbn. rewrite (proj2 (Z.eqb_neq _ _)) by done. by rewrite IH. Qed.

Lemma join_values_cons v u vs : join_values (v :: u :: vs) = v ++ 0 :: join_values (u :: vs).
Proof. done. Qed.

Lemma decode_fields_nil slots total i fields : decode_fields slots total i fields [] = replicate (length fields) [].
Proof. revert i. induction fields as [|f fields IH]; intros i; cbn; [done|]. rewrite andb_false_r. by rewrite IH. Qed.

Lemma decode_fields_join slots total i fields values :
  Forall plain_value values -> length fields = length values -> (i + length values = total)%nat ->
  (total <= slots)%nat ->
  decode_fields slots total i fields (join_values values) = values.
Proof.
  intros Hv. revert i fields. induction Hv as [|v vs [Hu Hz] Hvs IH]; intros i [|f fields] Hl Hi Hs; cbn in Hl, Hi; try done.
  injection Hl as Hl. cbn [decode_fields]. rewrite (proj2 (Nat.ltb_lt _ _)) by lia. cbn [andb].
  assert (Hdec : default [] (from_utf8 v) = v) by (unfold from_utf8; unfold valid_utf8 in Hu; by rewrite Hu).
  destruct vs as [|u vs].
  - destruct fields; [|done]. cbn [join_values]. case_bool_decide as E; cbn [negb]; [by rewrite E|].
    rewrite until_zero_end by done. rewrite (proj2 (Nat.ltb_ge _ _)) by (cbn in Hi; lia). by rewrite Hdec.
  - rewrite join_values_cons. rewrite bool_decide_eq_false_2 by (by destruct v). cbn [negb].
    rewrite until_zero_plain by done. rewrite IH by (done || lia). by rewrite Hdec.
Qed.

Lemma join_values_bytes values : Forall bytes_ok values -> bytes_ok (join_values values).
Proof.
  induction 1 as [|v vs Hv Hvs IH]; [constructor|]. destruct vs as [|u vs]; [done|]. rewrite join_values_cons.
  apply Forall_app; split; [done|]. constructor; [by vm_compute|done].
Qed.

(** A row of plain values, one for each field, reads back as it was inserted. *)
Theorem row_roundtrip values xid desc :
  Forall plain_value values -> length values = length (td_fields desc) ->
  decode_tuple_values (inserted_tuple values xid) desc = values.
Proof.
  intros Hv Hl. unfold decode_tuple_values. cbn [inserted_tuple tup_data tup_slots].
  case_bool_decide as E.
  - rewrite <- Hl. destruct values as [|v [|u vs]]; [done|by cbn in E; subst|]. by destruct v.
  - apply decode_fields_join; try done. by rewrite length_fmap, length_seq, Hl.
Qed.

(* ------------------------------------------------------------------ *)
(** ** Pages in the store, and the tuple versions they hold *)

Definition versions_of `{Bincode Tuple} (p : HeapPage) : list Tuple := omap tuple_of (tuples p).

(** The versions the pages of a relation hold, in the order a scan meets them. *)
Definition stored_versions {S} `{Storage S} `{Bincode Tuple} {P : Profile} (s : S) (pids : list PageId) : list Tuple :=
  concat ((fun pid => match data ← read_page s pid; HeapPage_deserialize data with Ok p => versions_of p | _ => [] end) <$> pids).

(** The page [p] is what is read at [pid]. *)
Record stored_page {S} `{Storage S} {P : Profile} (s : S) (pid : PageId) (p : HeapPage) : Prop := {
  sp_read : exists data, read_page s pid = Ok data /\ HeapPage_deserialize data = Ok p;
  sp_wf : page_wf p;
  sp_nonempty : nonempty_tuples (line_pointers p) (tuples p);
  sp_kept : kept_tuples (line_pointers p) (tuples p) = tuples p;
}.

(** Every page of a relation is there, and is listed once. *)
Definition heap_ok {S} `{Storage S} {P : Profile} (s : S) (pids : list PageId) : Prop :=
  NoDup pids /\ Forall (fun pid => is_u32 pid /\ exists p, stored_page s pid p) pids.

Lemma omap_app {A B} (f : A -> option B) l l' : omap f (l ++ l') = omap f l ++ omap f l'.
Proof. induction l as [|a l IH]; cbn; [done|]. destruct (f a); cbn; by rewrite IH. Qed.

Lemma versions_kept `{TupleLaws} lps ts :
  length ts = length lps -> omap tuple_of (kept_tuples lps ts) = omap tuple_of (live_tuples lps ts).
Proof.
  revert ts. induction lps as [|lp lps IH]; intros [|t ts] Hl; try done. injection Hl as Hl.
  cbn [kept_tuples live_tuples]. rewrite omap_app, <- IH by done. destruct (is_normal lp); cbn; [by destruct (tuple_of t)|].
  by rewrite tuple_of_nil.
Qed.

Lemma versions_stored `{TupleLaws} {S} `{Storage S} {P : Profile} (s : S) pid p :
  stored_page s pid p -> versions_of p = omap tuple_of (live_tuples (line_pointers p) (tuples p)).
Proof. intros [_ Hwf _ Hk]. unfold versions_of. rewrite <- Hk at 1. apply versions_kept, Hwf. Qed.

Lemma nonempty_laid lps ts off :
  nonempty_tuples lps ts -> nonempty_tuples (laid_pointers lps ts off) (kept_tuples lps ts).
Proof.
  revert ts off. induction lps as [|lp lps IH]; intros [|t ts] off; [done..|]. cbn [nonempty_tuples laid_pointers kept_tuples].
  intros [H Hr]. destruct (is_normal lp) eqn:E; cbn; (split; [|by apply IH]).
  - intros _. by apply H.
  - unfold is_normal in *. cbn. congruence.
Qed.

Lemma kept_laid lps ts off :
  kept_tuples (laid_pointers lps ts off) (kept_tuples lps ts) = kept_tuples lps ts.
Proof.
  revert ts off. induction lps as [|lp lps IH]; intros [|t ts] off; [done..|]. cbn [laid_pointers kept_tuples].
  destruct (is_normal lp) eqn:E; cbn; unfold is_normal in *; cbn; rewrite ?E; by rewrite IH.
Qed.

Section store.
Context {P : Profile} {S : Type} (valid : S -> Prop) `{StorageLaws S (Z.to_nat 8192) valid} `{TupleLaws} `{Bincode WALRecord}.
Implicit Types w : heap_state S.

Definition store w : S := cache_storage (hs_cache w).

Lemma h_bind_run {X Y} (m : heap_m S X) (f : X -> heap_m S Y) w x w' :
  m w = (Ok x, w') -> (m ≫= f) w = f x w'.
Proof. intros E. unfold mbind, heap_bind. by rewrite E. Qed.

(** Writing a page: it is then the one stored there, all others are as before. *)
Lemma write_page_run w pid p :
  valid (store w) -> is_u32 pid -> page_wf p -> nonempty_tuples (line_pointers p) (tuples p) ->
  exists w', h_write_page pid p w = (Ok tt, w') /\ valid (store w') /\
    stored_page (store w') pid (decoded_page p) /\
    (forall q, is_u32 q -> q <> pid -> read_page (store w') q = read_page (store w) q) /\
    hs_wal w' = hs_wal w /\ cache_rels (hs_cache w') = cache_rels (hs_cache w).
Proof.
  intros Hv Hu Hwf Hne. destruct (page_roundtrip_value p Hwf Hne) as (data & Hs & Hl & Hd).
  destruct (write_full (store w) pid data Hv Hu) as (s' & Hw & Hv' & Hr & Ho); [page_unfold; lia|].
  exists (with_hcache w (with_cache (hs_cache w) s' (cache_pool (hs_cache w)))). split_and!; try done.
  - unfold h_write_page. rewrite (h_bind_run _ _ w data w) by (unfold h_lift; by rewrite Hs).
    unfold h_write. fold (store w). by rewrite Hw.
  - split; [by exists data|by apply decoded_wf|by apply nonempty_laid|apply kept_laid].
Qed.

Lemma decoded_versions p : page_wf p -> versions_of (decoded_page p) = omap tuple_of (live_tuples (line_pointers p) (tuples p)).
Proof. intros Hwf. unfold versions_of. cbn. apply versions_kept, Hwf. Qed.

Lemma read_page_run w pid p : stored_page (store w) pid p -> h_read_page pid w = (Ok p, w).
Proof.
  intros [(data & Hr & Hd) _ _ _]. unfold h_read_page.
  rewrite (h_bind_run _ _ w data w) by (unfold h_read; by rewrite <- Hr). unfold h_lift. by rewrite Hd.
Qed.

Lemma stored_page_same (s s' : S) pid p : read_page s' pid = read_page s pid -> stored_page s pid p -> stored_page s' pid p.
Proof. intros Hr [(data & Hd & Hp) ? ? ?]. split; try done. exists data. by rewrite Hr. Qed.

Lemma stored_page_versions (s : S) pid p :
  stored_page s pid p ->
  match data ← read_page s pid; HeapPage_deserialize data with Ok p => versions_of p | _ => [] end = versions_of p.
Proof. intros [(data & Hr & Hd) _ _ _]. rewrite Hr, ok_bind. by rewrite Hd. Qed.

Lemma stored_versions_app (s : S) l l' : stored_versions s (l ++ l') = stored_versions s l ++ stored_versions s l'.
Proof. unfold stored_versions. by rewrite fmap_app, concat_app. Qed.

Lemma stored_versions_single (s : S) pid p : stored_page s pid p -> stored_versions s [pid] = versions_of p.
Proof. intros Hp. unfold stored_versions. cbn [fmap list_fmap concat]. rewrite (stored_page_versions s pid p Hp). apply app_nil_r. Qed.

Lemma stored_versions_same (s s' : S) pids :
  (forall q, q ∈ pids -> read_page s' q = read_page s q) -> stored_versions s' pids = stored_versions s pids.
Proof.
  intros Hsame. unfold stored_versions. f_equal. apply list_fmap_ext. intros i q Hq. rewrite Hsame; [done|].
  by eapply list_elem_of_lookup_2.
Qed.

Lemma heap_ok_same (s s' : S) pids :
  (forall q, is_u32 q -> q ∈ pids -> read_page s' q = read_page s q) -> heap_ok s pids -> heap_ok s' pids.
Proof.
  intros Hsame [Hnd Hall]. split; [done|]. rewrite Forall_forall in *. intros q Hq. destruct (Hall q Hq) as [Hu [p Hp]].
  split; [done|]. exists p. apply (stored_page_same s); auto.
Qed.

(* ---------------------------------------------------------------- *)
(** ** Scans *)

Lemma for_each_pure {X Y} (f : X -> heap_m S Y) (g : X -> Y) l w :
  (forall x, x ∈ l -> f x w = (Ok (g x), w)) -> for_each f l w = (Ok (g <$> l), w).
Proof.
  induction l as [|x l IH]; intros Hf; cbn [for_each fmap list_fmap]; [done|].
  rewrite (h_bind_run _ _ w (g x) w) by (apply Hf; left).
  rewrite (h_bind_run _ _ w (g <$> l) w) by (apply IH; intros y Hy; apply Hf; by right). done.
Qed.

Lemma imap_concat_snd {X Y Z} (f : nat -> X -> list (Y * Z)) (h : X -> list Z) l :
  (forall i x, (f i x).*2 = h x) -> (concat (imap f l)).*2 = concat (h <$> l).
Proof.
  intros Hf. revert f Hf. induction l as [|x l IH]; intros f Hf; [done|].
  cbn [imap concat fmap list_fmap]. rewrite fmap_app, Hf. f_equal. apply IH. intros i y. apply Hf.
Qed.

(** The rows a scan shows of these versions. *)
Definition visible_rows (admits : list bytes -> bool) (snap : Snapshot) (desc : TupleDesc) (vs : list Tuple) : list (list bytes) :=
  List.filter admits ((fun t => decode_tuple_values t desc) <$> List.filter (fun t => is_visible t snap) vs).

Lemma visible_rows_app admits snap desc vs vs' :
  visible_rows admits snap desc (vs ++ vs') = visible_rows admits snap desc vs ++ visible_rows admits snap desc vs'.
Proof. unfold visible_rows. by rewrite List.filter_app, fmap_app, List.filter_app. Qed.

Lemma scan_tuples_rows admits snap desc pid ts :
  (scan_tuples admits snap desc pid ts).*2 = visible_rows admits snap desc (omap tuple_of ts).
Proof.
  unfold scan_tuples. rewrite (imap_concat_snd _ (fun t => match tuple_of t with
    | Some tup => visible_rows admits snap desc [tup] | None => [] end)).
  - induction ts as [|t ts IH]; [done|]. cbn [omap list_omap fmap list_fmap concat].
    destruct (tuple_of t) as [tup|]; rewrite IH; [|done]. by rewrite <- visible_rows_app.
  - intros i t. destruct (tuple_of t) as [tup|]; [|done]. unfold visible_rows. cbn.
    destruct (is_visible tup snap); cbn; [|done]. by destruct (admits _).
Qed.

(** A filtered scan. *)
Lemma slow_scan_run w op st :
  get_relation_state (scan_rel_oid op) (hs_cache w) = Some st ->
  heap_ok (store w) (rel_pages (mrs_relation st)) ->
  exists found, slow_scan op w = (Ok found, w) /\
    found.*2 = visible_rows (scan_admits (scan_filter op)) latest_snapshot (rel_tuple_desc (mrs_relation st))
                 (stored_versions (store w) (rel_pages (mrs_relation st))).
Proof.
  intros Hst [_ Hok]. unfold slow_scan.
  rewrite (h_bind_run _ _ w (mrs_relation st) w) by (unfold h_relation; by rewrite Hst).
  set (desc := rel_tuple_desc _). set (admits := scan_admits _). rewrite Forall_forall in Hok.
  set (g := fun pid => match data ← read_page (store w) pid; HeapPage_deserialize data with
    | Ok p => scan_tuples admits latest_snapshot desc pid (tuples p) | _ => [] end).
  rewrite (h_bind_run _ _ w (g <$> rel_pages (mrs_relation st)) w).
  2:{ apply for_each_pure. intros pid Hp. destruct (Hok pid Hp) as [_ [p Hsp]].
      rewrite (h_bind_run _ _ w p w) by (by apply read_page_run). unfold g.
      destruct Hsp as [(data & Hr & Hd) _ _ _]. rewrite Hr, ok_bind. by rewrite Hd. }
  eexists. split; [reflexivity|]. clear Hok. unfold stored_versions.
  induction (rel_pages (mrs_relation st)) as [|pid pids IH]; [done|]. cbn [fmap list_fmap concat].
  rewrite fmap_app, visible_rows_app, IH. f_equal. unfold g.
  destruct (data ← read_page (store w) pid; HeapPage_deserialize data) as [p|e|]; [|done..]. apply scan_tuples_rows.
Qed.

(** C2. A filtered scan of a relation whose pages are there and well formed succeeds,
    changes nothing, and returns exactly the visible rows of the relation's versions that the filter admits, in their order. *)
Theorem slow_scan_spec w op st :
  get_relation_state (scan_rel_oid op) (hs_cache w) = Some st ->
  heap_ok (store w) (rel_pages (mrs_relation st)) ->
  exists found, slow_scan op w = (Ok found, w) /\
    found.*2 = visible_rows (scan_admits (scan_filter op)) latest_snapshot (rel_tuple_desc (mrs_relation st))
                 (stored_versions (store w) (rel_pages (mrs_relation st))).
Proof. apply slow_scan_run. Qed.

(* ---------------------------------------------------------------- *)
(** ** Inserting *)

Lemma live_app lps ts lps' ts' :
  length ts = length lps -> live_tuples (lps ++ lps') (ts ++ ts') = live_tuples lps ts ++ live_tuples lps' ts'.
Proof.
  revert ts. induction lps as [|lp lps IH]; intros [|t ts] Hl; try done. injection Hl as Hl.
  cbn [app live_tuples]. by rewrite IH, app_assoc.
Qed.

Lemma live_insert lps ts i old lp d :
  length ts = length lps -> lps !! i = Some old -> is_normal old = false -> is_normal lp = true ->
  live_tuples (<[i:=lp]> lps) (<[i:=d]> ts) ≡ₚ live_tuples lps ts ++ [d].
Proof.
  revert ts i. induction lps as [|lp0 lps IH]; intros [|t ts] [|i] Hl Hi Ho Hn; try done; injection Hl as Hl; cbn in Hi.
  - simplify_eq. cbn. rewrite Ho, Hn. cbn. by rewrite Permutation_app_comm.
  - cbn. rewrite (IH ts i) by done. by rewrite app_assoc.
Qed.

Lemma nonempty_app lps ts lps' ts' :
  length ts = length lps -> nonempty_tuples lps ts -> nonempty_tuples lps' ts' -> nonempty_tuples (lps ++ lps') (ts ++ ts').
Proof.
  revert ts. induction lps as [|lp lps IH]; intros [|t ts] Hl; try done. injection Hl as Hl. cbn.
  intros [Hc Hr] Hc'. split; [done|]. by apply IH.
Qed.

Lemma nonempty_insert lps ts i lp d :
  nonempty_tuples lps ts -> d <> [] -> nonempty_tuples (<[i:=lp]> lps) (<[i:=d]> ts).
Proof.
  revert ts i. induction lps as [|lp0 lps IH]; intros [|t ts] [|i]; try done; cbn.
  - by intros [_ Hr] Hd.
  - intros [Hc Hr] Hd. split; [done|]. by apply IH.
Qed.

(** Adding a tuple no longer than [pd_upper]: it joins the live ones, or the page
    is full and stays as it is. *)
Lemma add_tuple_cases p d :
  page_wf p -> nonempty_tuples (line_pointers p) (tuples p) -> bytes_ok d -> d <> [] -> zlen d <= pd_upper (header p) ->
  (exists slot p', add_tuple p d = Ok (Some slot, p') /\ page_wf p' /\
     nonempty_tuples (line_pointers p') (tuples p') /\
     live_tuples (line_pointers p') (tuples p') ≡ₚ live_tuples (line_pointers p) (tuples p) ++ [d]) \/
  (add_tuple p d = Ok (None, p) /\ pd_upper (header p) - pd_lower (header p) < zlen d + LINE_POINTER_SIZE).
Proof.
  intros Hwf Hne Hd Hd0 Hlen. pose proof Hwf as [Hl Hlo Hfr Hsp Hu Hh Hlp Hb].
  destruct (decide (pd_upper (header p) - pd_lower (header p) -
    (if position is_dead (line_pointers p) is Some _ then 0 else LINE_POINTER_SIZE) < zlen d)) as [Hf|Hroom].
  { right. split; [by apply add_tuple_full|]. destruct position; page_unfold; lia. }
  left. destruct (position is_dead (line_pointers p)) as [i|] eqn:Hpos.
  - pose proof (position_spec _ _ _ Hpos) as (old & Hold & Hdead%is_dead_not_normal & _).
    pose proof (lookup_lt_Some _ _ _ Hold) as Hi.
    destruct (lookup_lt_is_Some_2 (tuples p) i) as [t Ht]; [lia|].
    rewrite (add_tuple_reuse p d i old) by (done || lia). eexists _, _. split; [reflexivity|]. split_and!.
    + eapply replaced_wf; eauto; [apply new_pointer_ok; page_unfold; lia|lia|]. rewrite Hdead. cbn. lia.
    + by apply nonempty_insert.
    + by eapply live_insert.
  - rewrite add_tuple_append by (done || lia). eexists _, _. split; [reflexivity|]. split_and!.
    + apply appended_wf; (done || lia).
    + by apply nonempty_app.
    + cbn. by rewrite live_app.
Qed.

(** The page an insert goes to, once it is there. *)
Lemma insert_target_run w rel :
  valid (store w) -> heap_ok (store w) (rel_pages rel) ->
  exists w1 pid pids p, insert_target rel w = (Ok (pid, pids), w1) /\ valid (store w1) /\ heap_ok (store w1) pids /\
    last pids = Some pid /\ stored_page (store w1) pid p /\
    stored_versions (store w1) pids = stored_versions (store w) (rel_pages rel) /\
    hs_wal w1 = hs_wal w /\ cache_rels (hs_cache w1) = cache_rels (hs_cache w) /\
    (forall q, is_u32 q -> q ∉ pids -> read_page (store w1) q = read_page (store w) q) /\
    match rel_pages rel with
    | [] => pids = [1] /\ p = decoded_page HeapPage_new
    | _ => w1 = w /\ pids = rel_pages rel
    end.
Proof.
  intros Hv Hok. unfold insert_target. destruct (rel_pages rel) as [|pid0 pids0] eqn:Ep.
  - destruct (write_page_run w 1 HeapPage_new Hv ltac:(by vm_compute) HeapPage_new_wf I) as (w1 & Hw & Hv1 & Hsp & Ho & Hwal & Hrel).
    cbn [last]. rewrite (h_bind_run _ _ w tt w1) by done. eexists w1, 1, [1], (decoded_page HeapPage_new).
    split; [reflexivity|]. split; [exact Hv1|]. split_and!; [|reflexivity|exact Hsp| |exact Hwal|exact Hrel| |reflexivity|reflexivity].
    + split; [apply NoDup_singleton|]. apply Forall_singleton. split; [by vm_compute|]. by eexists.
    + by rewrite (stored_versions_single _ _ _ Hsp).
    + intros q Hq Hn. apply Ho; [exact Hq|]. intros ->. apply Hn. by left.
  - destruct (last_is_Some (pid0 :: pids0)) as [_ Hl]. destruct Hl as [pid Hl]; [done|]. rewrite Hl.
    pose proof Hok as [_ Hall]. rewrite Forall_forall in Hall.
    destruct (Hall pid) as [_ [p Hp]]; [by apply last_Some_elem_of|].
    by exists w, pid, (pid0 :: pids0), p.
Qed.

(** One page of a relation changed: the others hold what they held. *)
Lemma heap_ok_update (s s' : S) pids pid p' :
  heap_ok s pids -> stored_page s' pid p' ->
  (forall q, is_u32 q -> q <> pid -> read_page s' q = read_page s q) -> heap_ok s' pids.
Proof.
  intros [Hnd Hall] Hp Ho. split; [done|]. rewrite Forall_forall in *. intros q Hq. destruct (Hall q Hq) as [Hu [p Hsp]].
  split; [done|]. destruct (decide (q = pid)) as [->|Hne]; [by exists p'|]. exists p. apply (stored_page_same s); auto.
Qed.

Lemma versions_update (s s' : S) l1 pid l2 p' :
  heap_ok s (l1 ++ pid :: l2) -> stored_page s' pid p' ->
  (forall q, is_u32 q -> q <> pid -> read_page s' q = read_page s q) ->
  stored_versions s' (l1 ++ pid :: l2) = stored_versions s l1 ++ versions_of p' ++ stored_versions s l2.
Proof.
  intros [Hnd Hall] Hp Ho. rewrite (cons_middle pid), !stored_versions_app, (stored_versions_single _ _ _ Hp).
  apply NoDup_app in Hnd as (_ & Hn1 & [Hn2 _]%NoDup_cons).
  rewrite Forall_app, Forall_cons, !Forall_forall in Hall. destruct Hall as (Ha1 & _ & Ha2).
  f_equal; [|f_equal]; apply stored_versions_same; intros q Hq; apply Ho.
  - by apply Ha1.
  - intros ->. by apply (Hn1 pid Hq); left.
  - by apply Ha2.
  - by intros ->.
Qed.

Lemma versions_split (s : S) l1 pid l2 p :
  stored_page s pid p ->
  stored_versions s (l1 ++ pid :: l2) = stored_versions s l1 ++ versions_of p ++ stored_versions s l2.
Proof. intros Hp. by rewrite (cons_middle pid), !stored_versions_app, (stored_versions_single _ _ _ Hp). Qed.

(** Writing a changed page of a relation back. *)
Lemma rewrite_page_run w l1 pid l2 p p' :
  valid (store w) -> heap_ok (store w) (l1 ++ pid :: l2) -> stored_page (store w) pid p ->
  page_wf p' -> nonempty_tuples (line_pointers p') (tuples p') ->
  exists w', h_write_page pid p' w = (Ok tt, w') /\ valid (store w') /\ heap_ok (store w') (l1 ++ pid :: l2) /\
    stored_page (store w') pid (decoded_page p') /\
    stored_versions (store w') (l1 ++ pid :: l2) =
      stored_versions (store w) l1 ++ omap tuple_of (live_tuples (line_pointers p') (tuples p')) ++ stored_versions (store w) l2 /\
    (forall q, is_u32 q -> q <> pid -> read_page (store w') q = read_page (store w) q) /\
    hs_wal w' = hs_wal w /\ cache_rels (hs_cache w') = cache_rels (hs_cache w).
Proof.
  intros Hv Hok Hp Hwf Hne. pose proof Hok as [_ Hall]. apply Forall_app in Hall as [_ [[Hu _] _]%Forall_cons].
  destruct (write_page_run w pid p' Hv Hu Hwf Hne) as (w' & Hw & Hv' & Hp' & Ho & Hwal & Hrel).
  exists w'. split_and!; try done.
  - by eapply heap_ok_update.
  - by rewrite (versions_update _ _ l1 pid l2 _ Hok Hp' Ho), decoded_versions.
Qed.

Lemma fresh_page_takes d :
  bytes_ok d -> d <> [] -> zlen d <= 8162 ->
  exists slot p', add_tuple HeapPage_new d = Ok (Some slot, p') /\ page_wf p' /\
    nonempty_tuples (line_pointers p') (tuples p') /\ live_tuples (line_pointers p') (tuples p') ≡ₚ [d].
Proof.
  intros Hd Hd0 Hlen. destruct (add_tuple_cases HeapPage_new d HeapPage_new_wf I Hd Hd0) as [Hc|[_ Hc]].
  - change (pd_upper (header HeapPage_new)) with 8192. lia.
  - exact Hc.
  - exfalso. change (pd_upper (header HeapPage_new)) with 8192 in Hc. change (pd_lower (header HeapPage_new)) with 26 in Hc.
    unfold LINE_POINTER_SIZE in Hc. lia.
Qed.

(** The relation's entry of the cache after an insert. *)
Definition grown_state (st : MutableRelationState) (pids : list PageId) (pid : PageId) : MutableRelationState :=
  {| mrs_relation := with_pages (mrs_relation st) pids; mrs_dirty_buffers := mrs_dirty_buffers st ++ [pid] |}.

Lemma dirty_with_run w oid st pid pids :
  get_relation_state oid (hs_cache w) = Some st ->
  exists w', h_dirty_with oid pid (with_pages (mrs_relation st) pids) w = (Ok tt, w') /\ store w' = store w /\
    hs_wal w' = hs_wal w /\ get_relation_state oid (hs_cache w') = Some (grown_state st pids pid).
Proof.
  intros Hst. eexists. split; [reflexivity|]. split_and!; [done|done|]. cbn. unfold get_relation_state in *. cbn.
  by rewrite lookup_alter_eq, Hst.
Qed.

(** What the second half of an insert does: the encoded tuple goes to the target
    page, or to a new one when the target is full. *)
Lemma place_tuple_run w st oid l1 pid p d t :
  let pids := l1 ++ [pid] in
  valid (store w) -> heap_ok (store w) pids -> stored_page (store w) pid p ->
  get_relation_state oid (hs_cache w) = Some st ->
  bincode_serialize t = Ok d -> bytes_ok d -> d <> [] -> zlen d <= 8162 -> zlen d <= pd_upper (header p) ->
  is_u32 (pid + 1) -> pid + 1 ∉ pids ->
  exists w' pid' pids',
    place_tuple oid (mrs_relation st) pids pid p d w = (Ok pid', w') /\
    valid (store w') /\ heap_ok (store w') pids' /\ (pids' = pids \/ pids' = pids ++ [pid + 1]) /\
    stored_versions (store w') pids' ≡ₚ stored_versions (store w) pids ++ [t] /\
    get_relation_state oid (hs_cache w') = Some (grown_state st pids' pid') /\ hs_wal w' = hs_wal w /\
    (forall q, is_u32 q -> q ∉ pids' -> read_page (store w') q = read_page (store w) q).
Proof.
  intros pids Hv Hok Hp Hst Hd Hdb Hd0 Hd1 Hd2 Hnew Hfresh. pose proof Hp as [_ Hwf Hne _].
  assert (Hstq : forall w1, cache_rels (hs_cache w1) = cache_rels (hs_cache w) -> get_relation_state oid (hs_cache w1) = Some st)
    by (intros w1 Hr; unfold get_relation_state; by rewrite Hr).
  assert (Hsv : stored_versions (store w) pids =
    stored_versions (store w) l1 ++ omap tuple_of (live_tuples (line_pointers p) (tuples p)) ++ [])
    by (unfold pids; by rewrite (versions_split (store w) l1 pid [] p Hp), (versions_stored _ _ _ Hp)).
  rewrite Hsv. destruct (add_tuple_cases p d Hwf Hne Hdb Hd0 Hd2) as [(slot & p' & Ha & Hwf' & Hne' & Hlive)|[Ha Hfull]].
  - destruct (rewrite_page_run w l1 pid [] p p' Hv Hok Hp Hwf' Hne') as (w1 & Hw1 & Hv1 & Hok1 & Hp1 & Hver & Ho & Hwal & Hrel).
    destruct (dirty_with_run w1 oid st pid pids (Hstq w1 Hrel)) as (w2 & Hw2 & Hs2 & Hwal2 & Hst2).
    exists w2, pid, pids. rewrite !Hs2, Hwal2. split_and!; try done; [|by left| |].
    + unfold place_tuple. rewrite (h_bind_run _ _ w (Some slot, p') w) by (unfold h_lift; by rewrite Ha). cbv beta iota.
      rewrite (h_bind_run _ _ w tt w1) by done. by rewrite (h_bind_run _ _ w1 tt w2).
    + unfold pids. rewrite Hver, Hlive, omap_app. cbn. rewrite (tuple_of_encoded t d Hd). by rewrite !app_nil_r, app_assoc.
    + intros q Hq Hnin. apply Ho; [done|]. intros ->. apply Hnin. unfold pids. set_solver.
  - destruct (fresh_page_takes d Hdb Hd0 Hd1) as (slot & pn & Han & Hwfn & Hnen & Hliven).
    destruct (write_page_run w (pid + 1) pn Hv Hnew Hwfn Hnen) as (w1 & Hw1 & Hv1 & Hp1 & Ho1 & Hwal1 & Hrel1).
    assert (Hne1 : pid <> pid + 1) by lia.
    assert (Hok1 : heap_ok (store w1) pids).
    { apply (heap_ok_same (store w)); [|done]. intros q Hq Hin. apply Ho1; [done|]. by intros ->. }
    assert (Hpu : is_u32 pid) by (destruct Hok as [_ Hall]; apply Forall_app in Hall as [_ [[? _] _]%Forall_cons]; done).
    assert (Hp1' : stored_page (store w1) pid p) by (apply (stored_page_same (store w)); auto).
    destruct (rewrite_page_run w1 l1 pid [] p p Hv1 Hok1 Hp1' Hwf Hne) as (w2 & Hw2 & Hv2 & Hok2 & Hp2 & Hver & Ho2 & Hwal2 & Hrel2).
    destruct (dirty_with_run w2 oid st (pid + 1) (pids ++ [pid + 1]) (Hstq w2 ltac:(congruence))) as (w3 & Hw3 & Hs3 & Hwal3 & Hst3).
    assert (Hp3 : stored_page (store w2) (pid + 1) (decoded_page pn)) by (apply (stored_page_same (store w1)); [apply Ho2; [done|lia]|done]).
    exists w3, (pid + 1), (pids ++ [pid + 1]). rewrite !Hs3, Hwal3, Hwal2, Hwal1. split_and!; try done; [| |by right| |].
    + unfold place_tuple. rewrite (h_bind_run _ _ w (None, p) w) by (unfold h_lift; by rewrite Ha). cbv beta iota.
      rewrite (h_bind_run _ _ w (pid + 1) w) by (unfold h_lift; by rewrite add_w_ok).
      rewrite (h_bind_run _ _ w (Some slot, pn) w) by (unfold h_lift; by rewrite Han). cbn [snd].
      rewrite (h_bind_run _ _ w tt w1), (h_bind_run _ _ w1 tt w2), (h_bind_run _ _ w2 tt w3) by done. done.
    + destruct Hok2 as [Hnd Hall]. split.
      * apply NoDup_app. split_and!; [done|intros q Hq ->%list_elem_of_singleton; done|apply NoDup_singleton].
      * apply Forall_app. split; [done|]. apply Forall_singleton. split; [done|]. by eexists.
    + rewrite stored_versions_app, (stored_versions_single _ _ _ Hp3). unfold pids. rewrite Hver, decoded_versions by done.
      rewrite Hliven. cbn. rewrite (tuple_of_encoded t d Hd). f_equiv. f_equiv.
      apply reflexive_eq, stored_versions_same. intros q Hq. apply Ho1.
      * destruct Hok as [_ Hall]. apply Forall_app in Hall as [Hall _]. rewrite Forall_forall in Hall. by apply Hall.
      * intros ->. apply Hfresh. unfold pids. set_solver.
    + intros q Hq Hnin. rewrite Ho2, Ho1; [done|done| |done|]; intros ->; apply Hnin; unfold pids; set_solver.
Qed.

(** The next transaction id. *)
Definition after_xid (w : heap_state S) : heap_state S :=
  {| hs_cache := hs_cache w; hs_wal := snd (allocate_xid (hs_wal w)) |}.

Lemma xid_run w : h_xid w = (Ok (current_xid (hs_wal w)), after_xid w).
Proof. done. Qed.

Lemma inserted_wf values xid :
  Forall bytes_ok values -> zlen values < 2 ^ 32 -> zlen (join_values values) < 2 ^ 32 -> is_u64 xid ->
  tuple_wf (inserted_tuple values xid).
Proof.
  intros Hb Hn Hj Hx. split; cbn; try done; [| |by apply join_values_bytes].
  - apply Forall_fmap, Forall_forall. intros i _. by apply wrap_in_width.
  - by rewrite length_fmap, length_seq.
Qed.

(** An insert, and what it leaves of the log. *)
Lemma tuple_insert_run w op st :
  let pids := rel_pages (mrs_relation st) in
  let t := inserted_tuple (ins_values op) (current_xid (hs_wal w)) in
  valid (store w) -> get_relation_state (ins_rel_oid op) (hs_cache w) = Some st -> heap_ok (store w) pids ->
  tuple_wf t ->
  (forall d, bincode_serialize t = Ok d -> zlen d <= 8162 /\
     forall pid p, last pids = Some pid -> stored_page (store w) pid p -> zlen d <= pd_upper (header p)) ->
  (forall pid, last pids = Some pid -> is_u32 (pid + 1) /\ pid + 1 ∉ pids) ->
  (forall pid, exists lsn wal, append (WalInsert (ins_rel_oid op) pid t) (snd (allocate_xid (hs_wal w))) = (Ok lsn, wal)) ->
  exists w' st', tuple_insert op w = (Ok tt, w') /\ valid (store w') /\
    get_relation_state (ins_rel_oid op) (hs_cache w') = Some st' /\
    rel_tuple_desc (mrs_relation st') = rel_tuple_desc (mrs_relation st) /\
    heap_ok (store w') (rel_pages (mrs_relation st')) /\
    stored_versions (store w') (rel_pages (mrs_relation st')) ≡ₚ stored_versions (store w) pids ++ [t] /\
    (forall q, is_u32 q -> q ∉ rel_pages (mrs_relation st') -> read_page (store w') q = read_page (store w) q) /\
    exists pid, hs_wal w' = (append (WalInsert (ins_rel_oid op) pid t) (snd (allocate_xid (hs_wal w)))).2.
Proof.
  intros pids t Hv Hst Hok Htw Hsize Hnext Hlog. destruct (tl_encode t Htw) as (d & Hd & Hdb & Hd0).
  destruct (Hsize d Hd) as [Hd1 Hd2].
  destruct (insert_target_run w (mrs_relation st) Hv Hok)
    as (w1 & pid & pids1 & p & Ht & Hv1 & Hok1 & Hlast & Hp & Hver & Hwal & Hrel & Ho & Hcase).
  destruct (last_Some pids1 pid) as [[l1 Hl1] _]; [done|]. subst pids1.
  assert (Hup : zlen d <= pd_upper (header p) /\ is_u32 (pid + 1) /\ pid + 1 ∉ l1 ++ [pid]).
  { unfold pids in *. destruct (rel_pages (mrs_relation st)) as [|pid0 pids0].
    - destruct Hcase as [E ->]. rewrite E in *. injection Hlast as <-. change (pd_upper _) with 8192.
      split_and!; [lia|by vm_compute|set_solver].
    - destruct Hcase as [-> E]. rewrite E in *. split; [by eapply Hd2|by apply Hnext]. }
  destruct Hup as (Hup & Hnew & Hfresh).
  assert (Hst1 : get_relation_state (ins_rel_oid op) (hs_cache (after_xid w1)) = Some st)
    by (unfold get_relation_state in *; cbn; by rewrite Hrel).
  destruct (place_tuple_run (after_xid w1) st (ins_rel_oid op) l1 pid p d t Hv1 Hok1 Hp Hst1 Hd Hdb Hd0 Hd1 Hup Hnew Hfresh)
    as (w2 & pid2 & pids2 & Hpl & Hv2 & Hok2 & Hpids2 & Hver2 & Hst2 & Hwal2 & Ho2).
  destruct (Hlog pid2) as (lsn & wal & Hap).
  exists {| hs_cache := hs_cache w2; hs_wal := wal |}, (grown_state st pids2 pid2). split_and!; try done.
  - unfold tuple_insert. rewrite (h_bind_run _ _ w (mrs_relation st) w) by (unfold h_relation; by rewrite Hst).
    rewrite (h_bind_run _ _ w _ w1) by exact Ht. cbv beta iota.
    rewrite (h_bind_run _ _ w1 p w1) by (by apply read_page_run).
    rewrite (h_bind_run _ _ w1 _ _ (xid_run w1)). rewrite Hwal. fold t.
    rewrite (h_bind_run _ _ _ d (after_xid w1)) by (unfold h_lift; by rewrite Hd).
    rewrite (h_bind_run _ _ _ pid2 w2) by exact Hpl.
    rewrite (h_bind_run _ _ w2 lsn {| hs_cache := hs_cache w2; hs_wal := wal |}); [done|].
    unfold h_append. rewrite Hwal2. cbn [after_xid hs_wal]. rewrite Hwal. by rewrite Hap.
  - cbn. change (store {| hs_cache := hs_cache w2; hs_wal := wal |}) with (store w2). rewrite Hver2.
    change (store (after_xid w1)) with (store w1). by rewrite Hver.
  - intros q Hq Hnin. change (store {| hs_cache := hs_cache w2; hs_wal := wal |}) with (store w2). cbn in Hnin.
    rewrite Ho2 by done. apply Ho; [done|]. intros Hin. apply Hnin. destruct Hpids2 as [->| ->]; set_solver.
  - exists pid2. by rewrite Hap.
Qed.

(** C3. Inserting a row whose encoding is no longer than an empty page takes, and no
    longer than the offset the target page's free space ends at: the call
    succeeds, the relation's pages hold the versions they held and the new one,
    and no page outside the relation changes. The log has to take the record. *)
Theorem tuple_insert_spec w op st :
  let pids := rel_pages (mrs_relation st) in
  let t := inserted_tuple (ins_values op) (current_xid (hs_wal w)) in
  valid (store w) -> get_relation_state (ins_rel_oid op) (hs_cache w) = Some st -> heap_ok (store w) pids ->
  tuple_wf t ->
  (forall d, bincode_serialize t = Ok d -> zlen d <= 8162 /\
     forall pid p, last pids = Some pid -> stored_page (store w) pid p -> zlen d <= pd_upper (header p)) ->
  (forall pid, last pids = Some pid -> is_u32 (pid + 1) /\ pid + 1 ∉ pids) ->
  (forall pid, exists lsn wal, append (WalInsert (ins_rel_oid op) pid t) (snd (allocate_xid (hs_wal w))) = (Ok lsn, wal)) ->
  exists w' st', tuple_insert op w = (Ok tt, w') /\ valid (store w') /\
    get_relation_state (ins_rel_oid op) (hs_cache w') = Some st' /\
    rel_tuple_desc (mrs_relation st') = rel_tuple_desc (mrs_relation st) /\
    heap_ok (store w') (rel_pages (mrs_relation st')) /\
    stored_versions (store w') (rel_pages (mrs_relation st')) ≡ₚ stored_versions (store w) pids ++ [t] /\
    (forall q, is_u32 q -> q ∉ rel_pages (mrs_relation st') -> read_page (store w') q = read_page (store w) q).
Proof.
  intros pids t Hv Hst Hok Htw Hsize Hnext Hlog.
  destruct (tuple_insert_run w op st Hv Hst Hok Htw Hsize Hnext Hlog) as (w' & st' & Hrun & Hv' & Hst' & Hd & Hok' & Hver & Ho & _).
  by exists w', st'.
Qed.
End store.
