(* ===== verification/HeapStatements.v ===== *)
(** The heap's statements over many rows: deleting and vacuuming as
    changes to the versions a relation holds ([src/src/executor/heap.rs]). Runs on
    concrete relations are in HeapRuns.v. *)

From S2P Require Import Prelude Types Storage HeapPage Transaction BufferPool Wal Utf8 BTreePage BTree TupleCodec HeapAccess.

Section statements.
Context {P : Profile} {S : Type} (valid : S -> Prop) `{StorageLaws S (Z.to_nat 8192) valid} `{TupleLaws} `{Bincode WALRecord}.
Implicit Types w : heap_state S.

(* ---------------------------------------------------------------- *)
(** ** The log under a statement of many rows *)

(** A record of an insertion, a deletion or an update whose tuples fit a page. *)
Definition small_record (r : WALRecord) : Prop :=
  (exists oid pid t d, (r = WalDelete oid pid t \/ r = WalInsert oid pid t) /\ bincode_serialize t = Ok d /\ zlen d <= 8192) \/
  (exists oid pid t d t' d', r = WalUpdate oid pid t t' /\ bincode_serialize t = Ok d /\ zlen d <= 8192 /\
     bincode_serialize t' = Ok d' /\ zlen d' <= 8192).

(** The log takes [n] more such records. *)
Definition log_room (n : Z) (wal : WAL) : Prop :=
  exists h, wal_log h wal /\ zlen h + n + 2 < 2 ^ 32 /\
    forall r, small_record r -> exists d, bincode_serialize r = Ok d /\ zlen d <= segment_size wal.

Lemma write_record_xid wal cur data : current_xid (snd (write_record wal cur data)) = current_xid wal.
Proof. unfold write_record. repeat first [done | case_match]; simplify_eq; done. Qed.

Lemma append_xid r wal : current_xid (snd (append r wal)) = current_xid wal.
Proof.
  unfold append. destruct (bincode_serialize r) as [data|e|]; [|done..].
  destruct (place_record wal (zlen data)) as [[cur nxt]|e|]; [|done..].
  pose proof (write_record_xid (with_current_lsn wal nxt) cur data) as Hx.
  destruct (write_record (with_current_lsn wal nxt) cur data) as [o wal']. exact Hx.
Qed.

Lemma log_append n r wal :
  log_room n wal -> 0 < n -> small_record r ->
  exists lsn wal', append r wal = (Ok lsn, wal') /\ log_room (n - 1) wal' /\ current_xid wal' = current_xid wal.
Proof.
  intros (h & Hw & Hn & Hr) Hpos Hs. destruct (Hr r Hs) as (d & Hd & Hlen).
  destruct (append_log h wal r d Hw Hd Hlen ltac:(lia)) as (lsn & wal' & Ha & Hw' & Hseg & _).
  exists lsn, wal'. split_and!; [done| |by rewrite <- (append_xid r wal), Ha].
  exists (h ++ [(lsn, d)]). split_and!; [done|rewrite length_app; cbn; lia|by rewrite Hseg].
Qed.

Lemma log_after_xid n wal : log_room n wal -> log_room n (snd (allocate_xid wal)).
Proof. intros (h & [? ? ? ?] & Hn & Hr). exists h. by split. Qed.

(* ---------------------------------------------------------------- *)
(** ** Deleting *)

(** The versions after a delete: each one the filter admits, dead or not, gets the
    next transaction id as its deleter. *)
Fixpoint mark_deleted (admits : Tuple -> bool) (xid : Z) (vs : list Tuple) : list Tuple :=
  match vs with
  | [] => []
  | t :: rest =>
      if admits t then with_xmax t (xid as_u64) :: mark_deleted admits (xid + 1) rest
      else t :: mark_deleted admits xid rest
  end.

Definition admitted (admits : Tuple -> bool) (vs : list Tuple) : Z := zlen (List.filter admits vs).

Lemma mark_deleted_app admits xid vs vs' :
  mark_deleted admits xid (vs ++ vs') = mark_deleted admits xid vs ++ mark_deleted admits (xid + admitted admits vs) vs'.
Proof.
  revert xid. induction vs as [|t vs IH]; intros xid; unfold admitted; cbn; [by rewrite Z.add_0_r|].
  destruct (admits t); cbn; rewrite IH; [|done]. do 3 f_equal. unfold admitted. lia.
Qed.

Lemma admitted_app admits vs vs' : admitted admits (vs ++ vs') = admitted admits vs + admitted admits vs'.
Proof. unfold admitted. rewrite List.filter_app, length_app. lia. Qed.

(** A page as the statements change it in memory. *)
Record live_page (p : HeapPage) : Prop := {
  lv_wf : page_wf p;
  lv_nonempty : nonempty_tuples (line_pointers p) (tuples p);
  lv_kept : kept_tuples (line_pointers p) (tuples p) = tuples p;
}.

Lemma kept_lookup lps ts i t :
  kept_tuples lps ts = ts -> ts !! i = Some t -> t <> [] -> exists lp, lps !! i = Some lp /\ is_normal lp = true.
Proof.
  revert ts i. induction lps as [|lp lps IH]; intros [|t0 ts] [|i] Hk Hi Ht; try done; cbn in Hk, Hi.
  - simplify_eq. exists lp. split; [done|]. destruct (is_normal lp); [done|]. congruence.
  - injection Hk as _ Hk. by apply (IH ts i).
Qed.

Lemma kept_insert lps ts i lp d :
  kept_tuples lps ts = ts -> lps !! i = Some lp -> is_normal lp = true -> kept_tuples lps (<[i:=d]> ts) = <[i:=d]> ts.
Proof.
  revert ts i. induction lps as [|lp0 lps IH]; intros [|t0 ts] [|i] Hk Hi Hn; try done; cbn in Hk, Hi; injection Hk as Hk0 Hk.
  - simplify_eq. cbn. by rewrite Hn, Hk.
  - cbn. f_equal; [done|by apply IH].
Qed.

Lemma normal_tuple_len lps ts i lp t :
  lps !! i = Some lp -> ts !! i = Some t -> is_normal lp = true -> zlen t <= normal_len lps ts.
Proof.
  revert ts i. induction lps as [|lp0 lps IH]; intros [|t0 ts] [|i] Hi Ht Hn; try done; cbn in Hi, Ht; cbn [normal_len].
  - simplify_eq. rewrite Hn. pose proof (normal_len_nonneg lps ts). lia.
  - pose proof (IH ts i Hi Ht Hn). destruct (is_normal lp0); lia.
Qed.

(** Overwriting a slot's tuple by one that is no longer. *)
Lemma put_tuple_ok p i t d :
  live_page p -> tuples p !! i = Some t -> t <> [] -> bytes_ok d -> d <> [] -> zlen d <= zlen t ->
  zlen t <= 8192 /\ put_tuple p i d = Ok (with_tuples p (<[i := d]> (tuples p))) /\
  live_page (with_tuples p (<[i := d]> (tuples p))).
Proof.
  intros [Hwf Hne Hk] Hi Ht Hd Hd0 Hlen. destruct (kept_lookup _ _ _ _ Hk Hi Ht) as (lp & Hlp & Hn).
  pose proof Hwf as [Hl Hlo Hfr Hsp Hu Hh Hlps Hb]. pose proof (lookup_lt_Some _ _ _ Hi).
  pose proof (normal_tuple_len _ _ _ _ _ Hlp Hi Hn).
  assert (Hz : 0 <= pd_lower (header p)) by (rewrite Hlo; page_unfold; lia).
  split_and!; [page_unfold; lia| |].
  - unfold put_tuple. rewrite set_at_ok by lia. rewrite ok_bind. by rewrite Nat2Z.id.
  - split; cbn.
    + assert (E : with_tuples p (<[i:=d]> (tuples p)) = replaced p i lp d (pd_upper (header p))).
      { unfold with_tuples, replaced. rewrite (list_insert_id (line_pointers p)) by done. by destruct (header p) eqn:E. }
      rewrite E. eapply replaced_wf; eauto; [by eapply Forall_lookup_1|lia|rewrite Hn; lia].
    + rewrite <- (list_insert_id (line_pointers p) i lp Hlp). by apply nonempty_insert.
    + by eapply kept_insert.
Qed.

(** The slots from [k] on that match. *)
Definition matching_from (filter : option Filter) (desc : TupleDesc) (k : nat) (ts : list bytes) : list (nat * Tuple) :=
  concat (imap (fun i t =>
    match tuple_of t with
    | Some tup => if dml_admits filter (decode_tuple_values tup desc) then [((k + i)%nat, tup)] else []
    | None => []
    end) ts).

Lemma matching_from_cons filter desc k t ts :
  matching_from filter desc k (t :: ts) =
  match tuple_of t with
  | Some tup => if dml_admits filter (decode_tuple_values tup desc) then [(k, tup)] else []
  | None => []
  end ++ matching_from filter desc (Datatypes.S k) ts.
Proof.
  unfold matching_from. cbn [imap concat]. rewrite Nat.add_0_r. f_equal. f_equal. apply imap_ext. intros i x _. cbn.
  by rewrite Nat.add_succ_r.
Qed.

(** The relations of the cache are the same, whatever pages were marked dirty. *)
Definition same_relations w w' : Prop :=
  forall oid, mrs_relation <$> get_relation_state oid (hs_cache w') = mrs_relation <$> get_relation_state oid (hs_cache w).

Lemma dirty_run w oid pid :
  exists w', h_dirty oid pid w = (Ok tt, w') /\ store w' = store w /\ hs_wal w' = hs_wal w /\ same_relations w w'.
Proof.
  eexists. split; [reflexivity|]. split_and!; [done|done|]. intros oid'. unfold get_relation_state. cbn.
  destruct (decide (oid' = oid)) as [->|Hne]; [rewrite lookup_alter_eq|by rewrite lookup_alter_ne].
  by destruct (cache_rels (hs_cache w) !! oid).
Qed.

Lemma same_relations_trans w1 w2 w3 : same_relations w1 w2 -> same_relations w2 w3 -> same_relations w1 w3.
Proof. intros H12 H23 oid. by rewrite H23, H12. Qed.

Lemma same_rels_of w w' : cache_rels (hs_cache w') = cache_rels (hs_cache w) -> same_relations w w'.
Proof. intros Hr oid. unfold get_relation_state. by rewrite Hr. Qed.

Lemma next_xid_wrap xid wal : current_xid wal = xid as_u64 -> current_xid (snd (allocate_xid wal)) = (xid + 1) as_u64.
Proof. intros Hx. cbn. rewrite Hx. unfold wrap. by rewrite Z.add_mod_idemp_l. Qed.

(** A tuple read from a page, with its deleter set: encoded, and no longer. *)
Lemma encode_deleted t tup xid :
  bytes_ok t -> tuple_of t = Some tup ->
  exists d, bincode_serialize (with_xmax tup (xid as_u64)) = Ok d /\ bytes_ok d /\ d <> [] /\ zlen d <= zlen t /\ t <> [].
Proof.
  intros Hb Ht. assert (Hdec : bincode_deserialize t = Ok tup) by (unfold tuple_of in Ht; destruct (bincode_deserialize t); naive_solver).
  destruct (tl_prefix t tup Hb Hdec) as (Hwf & d0 & rest & Hd0 & Et).
  assert (Hwf' : tuple_wf (with_xmax tup (xid as_u64))) by (destruct Hwf; split; cbn; try done; by apply wrap_in_width).
  destruct (tl_encode _ Hwf') as (d & Hd & Hdb & Hdn). exists d. pose proof (tl_length tup (with_xmax tup (xid as_u64)) _ _ eq_refl eq_refl Hd0 Hd) as Hlen.
  split_and!; try done.
  - rewrite Et, length_app. lia.
  - intros ->. by rewrite tuple_of_nil in Ht.
Qed.

(** One deletion: the slot's tuple is marked on the page in memory, the page
    written and the record logged. *)
Lemma delete_step_run w oid pid p i t tup xid n :
  valid (store w) -> is_u32 pid -> live_page p -> tuples p !! i = Some t -> tuple_of t = Some tup ->
  current_xid (hs_wal w) = xid as_u64 -> log_room n (hs_wal w) -> 0 < n ->
  exists d w', tuple_of d = Some (with_xmax tup (xid as_u64)) /\
    (forall rest, delete_tuples oid pid p ((i, tup) :: rest) w =
       (m ← delete_tuples oid pid (with_tuples p (<[i := d]> (tuples p))) rest; mret (1 + m)) w') /\
    live_page (with_tuples p (<[i := d]> (tuples p))) /\ valid (store w') /\
    stored_page (store w') pid (decoded_page (with_tuples p (<[i := d]> (tuples p)))) /\
    current_xid (hs_wal w') = (xid + 1) as_u64 /\ log_room (n - 1) (hs_wal w') /\ same_relations w w' /\
    (forall q, is_u32 q -> q <> pid -> read_page (store w') q = read_page (store w) q).
Proof.
  intros Hv Hu Hlive Ht Htup Hxid Hlog Hn.
  assert (Hb : bytes_ok t) by (eapply Forall_lookup_1; [apply Hlive|done]).
  destruct (encode_deleted t tup xid Hb Htup) as (d & Hd & Hdb & Hdn & Hlen & Htn).
  destruct (put_tuple_ok p i t d Hlive Ht Htn Hdb Hdn Hlen) as (Hsize & Hput & Hlive'). set (p' := with_tuples p _) in *.
  pose proof Hlive' as [Hwf' Hne' _].
  destruct (write_page_run valid (after_xid w) pid p' Hv Hu Hwf' Hne') as (w1 & Hw1 & Hv1 & Hp1 & Ho1 & Hwal1 & Hrel1).
  destruct (dirty_run w1 oid pid) as (w2 & Hw2 & Hs2 & Hwal2 & Hrel2).
  assert (Hsmall : small_record (WalDelete oid pid (with_xmax tup (xid as_u64)))) by (left; exists oid, pid, (with_xmax tup (xid as_u64)), d; split_and!; [by left|done|lia]).
  assert (Hwal : hs_wal w2 = snd (allocate_xid (hs_wal w))) by (by rewrite Hwal2, Hwal1).
  destruct (log_append n (WalDelete oid pid (with_xmax tup (xid as_u64))) (hs_wal w2)) as (lsn & wal & Hap & Hroom & Hcur); try done.
  { rewrite Hwal. by apply log_after_xid. }
  exists d, {| hs_cache := hs_cache w2; hs_wal := wal |}. split_and!; try done.
  - by apply tuple_of_encoded.
  - intros rest. cbn [delete_tuples]. rewrite (h_bind_run _ _ w _ _ (xid_run w)), Hxid.
    rewrite (h_bind_run _ _ (after_xid w) d (after_xid w)) by (unfold h_lift; by rewrite Hd).
    rewrite (h_bind_run _ _ (after_xid w) p' (after_xid w)) by (unfold h_lift; by rewrite Hput).
    rewrite (h_bind_run _ _ _ tt w1), (h_bind_run _ _ w1 tt w2) by done.
    by rewrite (h_bind_run _ _ w2 lsn {| hs_cache := hs_cache w2; hs_wal := wal |}) by (unfold h_append; by rewrite Hap).
  - change (store {| hs_cache := hs_cache w2; hs_wal := wal |}) with (store w2). by rewrite Hs2.
  - change (store {| hs_cache := hs_cache w2; hs_wal := wal |}) with (store w2). by rewrite Hs2.
  - cbn. rewrite Hcur, Hwal. by apply next_xid_wrap.
  - intros q. etransitivity; [exact (Hrel2 q)|exact (same_rels_of (after_xid w) w1 Hrel1 q)].
  - intros q Hq Hne. change (store {| hs_cache := hs_cache w2; hs_wal := wal |}) with (store w2). rewrite Hs2. by apply Ho1.
Qed.

Definition deletes (filter : option Filter) (desc : TupleDesc) (t : Tuple) : bool :=
  dml_admits filter (decode_tuple_values t desc).

(** Deleting on one page, from a slot on. *)
Lemma delete_tuples_run filter desc oid pid todo pre p ps w xid k :
  valid (store w) -> is_u32 pid -> live_page p -> tuples p = pre ++ todo ->
  stored_page (store w) pid ps -> versions_of ps = omap tuple_of (tuples p) ->
  current_xid (hs_wal w) = xid as_u64 ->
  log_room (admitted (deletes filter desc) (omap tuple_of todo) + k) (hs_wal w) -> 0 <= k ->
  exists ps' w', delete_tuples oid pid p (matching_from filter desc (length pre) todo) w =
      (Ok (admitted (deletes filter desc) (omap tuple_of todo)), w') /\
    valid (store w') /\ stored_page (store w') pid ps' /\
    versions_of ps' = omap tuple_of pre ++ mark_deleted (deletes filter desc) xid (omap tuple_of todo) /\
    current_xid (hs_wal w') = (xid + admitted (deletes filter desc) (omap tuple_of todo)) as_u64 /\
    log_room k (hs_wal w') /\ same_relations w w' /\
    (forall q, is_u32 q -> q <> pid -> read_page (store w') q = read_page (store w) q).
Proof.
  revert pre p ps w xid. induction todo as [|t todo IH]; intros pre p ps w xid Hv Hu Hlive Hts Hps Hver Hxid Hlog Hk.
  { exists ps, w. unfold admitted. cbn. rewrite Hver, Hts, !app_nil_r, Z.add_0_r. by split_and!. }
  rewrite matching_from_cons. cbn [omap list_omap] in *.
  assert (Hsnoc : tuples p = (pre ++ [t]) ++ todo) by (by rewrite Hts, <- app_assoc).
  destruct (tuple_of t) as [tup|] eqn:Etup; [fold (deletes filter desc tup); destruct (deletes filter desc tup) eqn:Eadm|].
  - assert (Hi : tuples p !! length pre = Some t) by (rewrite Hts; by apply list_lookup_middle).
    assert (Hadm : forall l, admitted (deletes filter desc) (tup :: l) = 1 + admitted (deletes filter desc) l)
      by (intros l; unfold admitted; cbn [List.filter]; rewrite Eadm; cbn [length]; lia).
    rewrite Hadm in *. assert (Hpos : 0 <= admitted (deletes filter desc) (omap tuple_of todo)) by (unfold admitted; lia).
    destruct (delete_step_run w oid pid p (length pre) t tup xid _ Hv Hu Hlive Hi Etup Hxid Hlog ltac:(lia))
      as (d & w1 & Hd & Hrun & Hlive1 & Hv1 & Hps1 & Hxid1 & Hlog1 & Hrel1 & Ho1). set (p1 := with_tuples p _) in *.
    assert (Hts1 : tuples p1 = (pre ++ [d]) ++ todo).
    { unfold p1. cbn. rewrite Hts, insert_app_r_alt by lia. by rewrite Nat.sub_diag, <- app_assoc. }
    destruct (IH (pre ++ [d]) p1 _ w1 (xid + 1) Hv1 Hu Hlive1 Hts1 Hps1) as (ps' & w' & Hrun' & Hv' & Hp' & Hver' & Hxid' & Hlog' & Hrel' & Ho'); try done.
    { rewrite decoded_versions by apply Hlive1. rewrite <- versions_kept by apply Hlive1. by rewrite (lv_kept _ Hlive1). }
    { by replace (1 + admitted (deletes filter desc) (omap tuple_of todo) + k - 1) with (admitted (deletes filter desc) (omap tuple_of todo) + k) in Hlog1 by lia. }
    exists ps', w'. rewrite length_app, Nat.add_1_r in Hrun'. split_and!; try done.
    + cbn [app]. rewrite Hrun. by rewrite (h_bind_run _ _ _ _ _ Hrun').
    + rewrite Hver', omap_app. cbn [omap list_omap mark_deleted]. by rewrite Hd, Eadm, <- app_assoc.
    + rewrite Hxid'. f_equal. lia.
    + by eapply same_relations_trans.
    + intros q Hq Hne. rewrite Ho' by done. by apply Ho1.
  - destruct (IH (pre ++ [t]) p ps w xid Hv Hu Hlive Hsnoc Hps Hver Hxid) as (ps' & w' & Hrun' & Hrest).
    { unfold admitted in *. cbn [List.filter] in Hlog. by rewrite Eadm in Hlog. } { done. }
    exists ps', w'. rewrite length_app, Nat.add_1_r in Hrun'. cbn [app mark_deleted]. unfold admitted in *. cbn [List.filter].
    rewrite Eadm. rewrite omap_app in Hrest. cbn [omap list_omap] in Hrest. rewrite Etup, <- app_assoc in Hrest. by split.
  - destruct (IH (pre ++ [t]) p ps w xid Hv Hu Hlive Hsnoc Hps Hver Hxid Hlog Hk) as (ps' & w' & Hrun' & Hrest).
    exists ps', w'. rewrite length_app, Nat.add_1_r in Hrun'. cbn [app].
    rewrite omap_app in Hrest. cbn [omap list_omap] in Hrest. rewrite Etup, app_nil_r in Hrest. by split.
Qed.

Lemma matching_tuples_from filter desc ts : matching_tuples filter desc ts = matching_from filter desc 0 ts.
Proof. done. Qed.

Lemma stored_live (s : S) pid p : stored_page s pid p -> live_page p.
Proof. by intros [_ ? ? ?]. Qed.

Lemma stored_versions_cons (s : S) pid pids p :
  stored_page s pid p -> stored_versions s (pid :: pids) = versions_of p ++ stored_versions s pids.
Proof. exact (versions_split s [] pid pids p). Qed.

(** A change to the first page of a relation leaves the rest alone, and back. *)
Lemma heap_ok_tail (s : S) pid pids : heap_ok s (pid :: pids) -> is_u32 pid /\ (pid ∉ pids) /\ heap_ok s pids.
Proof. intros [[Hn Hnd]%NoDup_cons [[Hu _] Hall]%Forall_cons]. by split_and!. Qed.

Lemma heap_ok_cons (s : S) pid pids p : is_u32 pid -> pid ∉ pids -> stored_page s pid p -> heap_ok s pids -> heap_ok s (pid :: pids).
Proof. intros Hu Hn Hp [Hnd Hall]. split; [by constructor|]. constructor; [|done]. by split; [|exists p]. Qed.

(** Deleting page by page. *)
Lemma delete_pages_run filter desc oid pids w xid k :
  valid (store w) -> heap_ok (store w) pids -> current_xid (hs_wal w) = xid as_u64 ->
  log_room (admitted (deletes filter desc) (stored_versions (store w) pids) + k) (hs_wal w) -> 0 <= k ->
  exists counts w',
    for_each (fun pid => p ← h_read_page pid; delete_tuples oid pid p (matching_tuples filter desc (tuples p))) pids w =
      (Ok counts, w') /\
    foldr Z.add 0 counts = admitted (deletes filter desc) (stored_versions (store w) pids) /\
    valid (store w') /\ heap_ok (store w') pids /\
    stored_versions (store w') pids = mark_deleted (deletes filter desc) xid (stored_versions (store w) pids) /\
    current_xid (hs_wal w') = (xid + admitted (deletes filter desc) (stored_versions (store w) pids)) as_u64 /\ log_room k (hs_wal w') /\
    same_relations w w' /\
    (forall q, is_u32 q -> q ∉ pids -> read_page (store w') q = read_page (store w) q).
Proof.
  revert w xid. induction pids as [|pid pids IH]; intros w xid Hv Hok Hxid Hlog Hk.
  { exists [], w. change (admitted (deletes filter desc) (stored_versions (store w) [])) with 0 in *. rewrite Z.add_0_r. by split_and!. }
  destruct (heap_ok_tail _ _ _ Hok) as (Hu & Hnin & Hok'). pose proof Hok as [_ [[_ [p Hp]] _]%Forall_cons].
  rewrite (stored_versions_cons _ _ _ p Hp), admitted_app, <- Z.add_assoc in Hlog. rewrite (stored_versions_cons _ _ _ p Hp), admitted_app.
  destruct (delete_tuples_run filter desc oid pid (tuples p) [] p p w xid
    (admitted (deletes filter desc) (stored_versions (store w) pids) + k) Hv Hu (stored_live _ _ _ Hp) eq_refl Hp eq_refl Hxid Hlog)
    as (ps & w1 & Hrun & Hv1 & Hp1 & Hver1 & Hxid1 & Hlog1 & Hrel1 & Ho1); [unfold admitted; lia|].
  assert (Hpu : forall q, q ∈ pids -> is_u32 q) by (destruct Hok' as [_ Ha]; rewrite Forall_forall in Ha; intros q Hq; by apply Ha).
  assert (Hsame : forall q, q ∈ pids -> read_page (store w1) q = read_page (store w) q)
    by (intros q Hq; apply Ho1; [by apply Hpu|by intros ->]).
  assert (Hver : stored_versions (store w1) pids = stored_versions (store w) pids) by (by apply stored_versions_same).
  destruct (IH w1 _ Hv1 (heap_ok_same _ _ _ (fun q _ => Hsame q) Hok') Hxid1) as (counts & w' & Hrun' & Hsum & Hv' & Hok2 & Hver' & Hxid' & Hlog' & Hrel' & Ho').
  { by rewrite Hver. } { done. }
  assert (Hp' : stored_page (store w') pid ps) by (apply (stored_page_same (store w1)); [by apply Ho'|done]).
  exists (admitted (deletes filter desc) (versions_of p) :: counts), w'. split_and!; try done.
  - cbn [for_each]. rewrite (h_bind_run _ _ w (admitted (deletes filter desc) (versions_of p)) w1).
    2:{ rewrite (h_bind_run _ _ w p w) by (by apply read_page_run). rewrite matching_tuples_from. exact Hrun. }
    by rewrite (h_bind_run _ _ w1 counts w').
  - cbn. by rewrite Hsum, Hver.
  - by eapply heap_ok_cons.
  - rewrite (stored_versions_cons _ _ _ ps Hp'), Hver1, Hver', Hver. cbn [omap list_omap app]. by rewrite mark_deleted_app.
  - rewrite Hxid', Hver. f_equal. unfold versions_of. lia.
  - by eapply same_relations_trans.
  - intros q Hq Hn. rewrite not_elem_of_cons in Hn. destruct Hn as [Hn1 Hn2]. rewrite Ho' by done. by apply Ho1.
Qed.

(** C4. Deleting succeeds and gives every version the filter admits, and no other,
    its own transaction id as deleter; it returns how many, versions that were
    deleted before included. No page outside the relation changes. *)
Theorem tuple_delete_spec w oid filter st :
  let pids := rel_pages (mrs_relation st) in
  let admits := deletes filter (rel_tuple_desc (mrs_relation st)) in
  valid (store w) -> get_relation_state oid (hs_cache w) = Some st -> heap_ok (store w) pids ->
  is_u64 (current_xid (hs_wal w)) -> log_room (admitted admits (stored_versions (store w) pids)) (hs_wal w) ->
  exists w', tuple_delete oid filter w = (Ok (admitted admits (stored_versions (store w) pids)), w') /\
    valid (store w') /\ heap_ok (store w') pids /\ same_relations w w' /\
    stored_versions (store w') pids = mark_deleted admits (current_xid (hs_wal w)) (stored_versions (store w) pids) /\
    (forall q, is_u32 q -> q ∉ pids -> read_page (store w') q = read_page (store w) q).
Proof.
  intros pids admits Hv Hst Hok Hx Hlog.
  destruct (delete_pages_run filter (rel_tuple_desc (mrs_relation st)) oid pids w (current_xid (hs_wal w)) 0 Hv Hok ltac:(by rewrite wrap_small))
    as (counts & w' & Hrun & Hsum & Hv' & Hok' & Hver & _ & _ & Hrel & Ho); [by rewrite Z.add_0_r|done|].
  exists w'. split_and!; try done. unfold tuple_delete.
  rewrite (h_bind_run _ _ w (mrs_relation st) w) by (unfold h_relation; by rewrite Hst).
  rewrite (h_bind_run _ _ w counts w') by exact Hrun. by rewrite Hsum.
Qed.

(* ---------------------------------------------------------------- *)
(** ** Vacuuming *)

(** A version vacuum reclaims. *)
Definition reclaimed (oldest_xmin : Z) (t : Tuple) : bool := negb (tup_xmax t =? 0) && (tup_xmax t <? oldest_xmin).

(** The versions vacuum leaves. *)
Definition survivors (oldest_xmin : Z) (vs : list Tuple) : list Tuple :=
  List.filter (fun t => negb (reclaimed oldest_xmin t)) vs.

Lemma reclaim_ok oldest lps ts :
  length ts = length lps -> Forall lp_ok lps ->
  let '(lps', n) := reclaim oldest lps ts in
  length lps' = length lps /\ Forall lp_ok lps' /\ normal_len lps' ts <= normal_len lps ts /\
  (nonempty_tuples lps ts -> nonempty_tuples lps' ts) /\
  omap tuple_of (live_tuples lps' ts) = survivors oldest (omap tuple_of (live_tuples lps ts)) /\
  n = admitted (reclaimed oldest) (omap tuple_of (live_tuples lps ts)) /\ (n = 0 -> lps' = lps).
Proof.
  revert ts. induction lps as [|lp lps IH]; intros [|t ts] Hl Hlp; try done. injection Hl as Hl.
  apply Forall_cons in Hlp as [Hlp0 Hlp]. specialize (IH ts Hl Hlp). cbn [reclaim tail head].
  destruct (reclaim oldest lps ts) as [rest n]. destruct IH as (IHl & IHo & IHn & IHe & IHv & IHc & IH0).
  unfold admitted in *. assert (Hn0 : 0 <= n) by lia.
  unfold reclaimable. cbn [live_tuples]. rewrite omap_app. unfold survivors in *. rewrite List.filter_app, List.filter_app, length_app.
  destruct (is_normal lp) eqn:En; cbn [andb].
  - destruct (tuple_of t) as [tup|] eqn:Et; [fold (reclaimed oldest tup); destruct (reclaimed oldest tup) eqn:Er|].
    + assert (Hd : is_normal (set_flags lp LP_DEAD) = false) by done.
      cbn [length live_tuples normal_len nonempty_tuples omap list_omap List.filter app]. rewrite En, Hd, Et.
      cbn [app List.filter]. rewrite Er. cbn [negb length app].
      split_and!; try (done || lia).
      * constructor; [|done]. destruct Hlp0. split; cbn; [done|by vm_compute].
      * intros [_ Hr]. by split; [|apply IHe].
    + cbn [length live_tuples normal_len nonempty_tuples omap list_omap List.filter app]. rewrite En, Et.
      cbn [app List.filter]. rewrite Er. cbn [negb length app].
      split_and!; try (done || lia);
        first [by constructor | by intros [? ?]; split; [|apply IHe] | by cbn; rewrite Et, IHv | by intros ->; rewrite IH0 | by intros Hz; rewrite IH0].
    + cbn [length live_tuples normal_len nonempty_tuples omap list_omap List.filter app]. rewrite En, Et.
      cbn [app List.filter length].
      split_and!; try (done || lia);
        first [by constructor | by intros [? ?]; split; [|apply IHe] | by cbn; rewrite Et, IHv | by intros ->; rewrite IH0 | by intros Hz; rewrite IH0].
  - cbn [length live_tuples normal_len nonempty_tuples omap list_omap List.filter app]. rewrite En.
    cbn [app List.filter length].
    split_and!; try (done || lia);
        first [by constructor | by intros [? ?]; split; [|apply IHe] | by cbn; rewrite Et, IHv | by intros ->; rewrite IH0 | by intros Hz; rewrite IH0].
Qed.

Lemma nonempty_keep_live lps ts :
  length ts = length lps -> nonempty_tuples lps ts -> nonempty_tuples (keep_live lps ts).*1 (keep_live lps ts).*2.
Proof.
  revert ts. induction lps as [|lp lps IH]; intros [|t ts] Hl; try done. injection Hl as Hl. intros [Hc Hr]. cbn.
  destruct (negb (is_dead lp)); cbn; [split; [done|]|]; auto.
Qed.

(** Every page the pool maps has a buffer. *)
Definition pool_mapped w : Prop :=
  forall pid idx, page_map (cache_pool (hs_cache w)) !! pid = Some idx -> is_Some (buffers (cache_pool (hs_cache w)) !! idx).

Lemma invalidate_run w pid :
  pool_mapped w ->
  exists w', h_invalidate pid w = (Ok tt, w') /\ pool_mapped w' /\ store w' = store w /\ hs_wal w' = hs_wal w /\
    cache_rels (hs_cache w') = cache_rels (hs_cache w).
Proof.
  intros Hm. unfold h_invalidate, cache_invalidate_page, invalidate_page.
  destruct (page_map (cache_pool (hs_cache w)) !! pid) as [idx|] eqn:E.
  - destruct (Hm pid idx E) as [b Hb]. cbn [buffers with_page_map]. rewrite Hb. eexists. split; [reflexivity|].
    split_and!; try done. intros q i. cbn. intros [_ Hq]%lookup_delete_Some. destruct (Hm q i Hq) as [b' Hb'].
    destruct (decide (i = idx)) as [->|Hne]; [|rewrite list_lookup_insert_ne by done; eauto].
    rewrite list_lookup_insert_eq; [eauto|by eapply lookup_lt_Some].
  - eexists. split; [reflexivity|]. by split_and!.
Qed.

(** Vacuuming one page: it holds the survivors afterwards. *)
Lemma vacuum_page_run w oid oldest pid p :
  valid (store w) -> is_u32 pid -> stored_page (store w) pid p -> pool_mapped w ->
  exists ps w', vacuum_page oid oldest pid w = (Ok (admitted (reclaimed oldest) (versions_of p)), w') /\
    valid (store w') /\ pool_mapped w' /\ stored_page (store w') pid ps /\ versions_of ps = survivors oldest (versions_of p) /\
    hs_wal w' = hs_wal w /\ same_relations w w' /\ (forall q, is_u32 q -> q <> pid -> read_page (store w') q = read_page (store w) q).
Proof.
  intros Hv Hu Hp Hm. pose proof Hp as [_ Hwf Hne _]. pose proof Hwf as [Hl Hlo Hfr Hsp Hup Hh Hlps Hb].
  pose proof (reclaim_ok oldest (line_pointers p) (tuples p) Hl Hlps) as Hr. unfold vacuum_page.
  rewrite (versions_stored _ _ _ Hp). rewrite (h_bind_run _ _ w p w) by (by apply read_page_run).
  destruct (reclaim oldest (line_pointers p) (tuples p)) as [lps n].
  destruct Hr as (Hrl & Hro & Hrn & Hre & Hrv & -> & Hr0).
  set (n := admitted (reclaimed oldest) _) in *. destruct (Z.ltb_spec 0 n) as [Hpos|Hzero].
  - set (p1 := {| header := header p; line_pointers := lps; tuples := tuples p |}).
    assert (Hwf1 : page_wf p1) by (split; cbn; rewrite ?Hrl; try done; lia).
    destruct (compact_value p1 Hwf1) as [Hc _]. destruct (compact_spec p1 Hwf1) as (p2 & Hcp & Hwf2 & _ & Hlive & _).
    pose proof Hcp as Hc2. rewrite Hc in Hc2. injection Hc2 as Hc2.
    assert (Hne2 : nonempty_tuples (line_pointers p2) (tuples p2))
      by (rewrite <- Hc2; apply nonempty_keep_live; [by rewrite Hrl|by apply Hre]).
    destruct (write_page_run valid w pid p2 Hv Hu Hwf2 Hne2) as (w1 & Hw1 & Hv1 & Hp1 & Ho1 & Hwal1 & Hrel1).
    assert (Hm1 : pool_mapped w1).
    { unfold h_write_page in Hw1. intros q i. revert Hw1. unfold mbind, heap_bind, h_lift. destruct (HeapPage_serialize p2); [|done..].
      unfold h_write. destruct (write_page _ pid a) as [r s']. intros [= _ <-]. apply Hm. }
    destruct (invalidate_run w1 pid Hm1) as (w2 & Hw2 & Hm2 & Hs2 & Hwal2 & Hrel2).
    destruct (dirty_run w2 oid pid) as (w3 & Hw3 & Hs3 & Hwal3 & Hrel3).
    exists (decoded_page p2), w3. rewrite Hs3, Hs2. split_and!; try done.
    + rewrite (h_bind_run _ _ w p2 w) by (unfold h_lift; by rewrite Hcp).
      by rewrite (h_bind_run _ _ w tt w1), (h_bind_run _ _ w1 tt w2), (h_bind_run _ _ w2 tt w3).
    + intros q i. unfold h_dirty, h_change in Hw3. injection Hw3 as <-. apply Hm2.
    + rewrite decoded_versions by done. by rewrite Hlive.
    + congruence.
    + eapply same_relations_trans; [by apply (same_rels_of w w1)|]. by eapply same_relations_trans; [apply (same_rels_of w1 w2)|].
  - assert (Hn0 : n = 0) by (unfold n, admitted in *; lia). exists p, w. split_and!; try done.
    rewrite (versions_stored _ _ _ Hp), <- Hrv. by rewrite (Hr0 Hn0).
Qed.

Lemma survivors_app oldest vs vs' : survivors oldest (vs ++ vs') = survivors oldest vs ++ survivors oldest vs'.
Proof. apply List.filter_app. Qed.

(** A reclaimed version shows in no scan of the latest state. *)
Lemma survivors_rows admits desc oldest vs :
  is_u32 oldest -> Forall (fun t => is_u64 (tup_xmax t)) vs ->
  visible_rows admits latest_snapshot desc (survivors oldest vs) = visible_rows admits latest_snapshot desc vs.
Proof.
  intros Hold Hvs. unfold visible_rows, survivors. do 2 f_equal.
  induction Hvs as [|t vs Ht _ IH]; [done|]. cbn [List.filter]. destruct (reclaimed oldest t) eqn:E; cbn [negb]; [|cbn [List.filter]; by rewrite IH].
  rewrite IH. apply andb_true_iff in E as [E1%negb_true_iff E2%Z.ltb_lt]. apply Z.eqb_neq in E1.
  assert (Hdead : is_visible t latest_snapshot = false); [|by rewrite Hdead].
  unfold is_visible. case_match; [done|]. case_match; [done|]. rewrite (proj2 (Z.eqb_neq _ _)) by done.
  unfold in_width in *. rewrite (wrap_small 32 (tup_xmax t)) by (unfold in_width; lia). cbn.
  rewrite (proj2 (Z.ltb_lt _ _)) by lia. done.
Qed.

Lemma vacuum_pages_run oid oldest pids w :
  valid (store w) -> heap_ok (store w) pids -> pool_mapped w ->
  exists counts w', for_each (vacuum_page oid oldest) pids w = (Ok counts, w') /\
    foldr Z.add 0 counts = admitted (reclaimed oldest) (stored_versions (store w) pids) /\
    valid (store w') /\ heap_ok (store w') pids /\
    stored_versions (store w') pids = survivors oldest (stored_versions (store w) pids) /\
    pool_mapped w' /\ hs_wal w' = hs_wal w /\ same_relations w w' /\ (forall q, is_u32 q -> q ∉ pids -> read_page (store w') q = read_page (store w) q).
Proof.
  revert w. induction pids as [|pid pids IH]; intros w Hv Hok Hm.
  { exists [], w. by split_and!. }
  destruct (heap_ok_tail _ _ _ Hok) as (Hu & Hnin & Hok'). pose proof Hok as [_ [[_ [p Hp]] _]%Forall_cons].
  rewrite (stored_versions_cons _ _ _ p Hp), admitted_app, survivors_app.
  destruct (vacuum_page_run w oid oldest pid p Hv Hu Hp Hm) as (ps & w1 & Hrun & Hv1 & Hm1 & Hp1 & Hver1 & Hwal1 & Hrel1 & Ho1).
  assert (Hpu : forall q, q ∈ pids -> is_u32 q) by (destruct Hok' as [_ Ha]; rewrite Forall_forall in Ha; intros q Hq; by apply Ha).
  assert (Hsame : forall q, q ∈ pids -> read_page (store w1) q = read_page (store w) q)
    by (intros q Hq; apply Ho1; [by apply Hpu|by intros ->]).
  assert (Hver : stored_versions (store w1) pids = stored_versions (store w) pids) by (by apply stored_versions_same).
  destruct (IH w1 Hv1 (heap_ok_same _ _ _ (fun q _ => Hsame q) Hok') Hm1)
    as (counts & w' & Hrun' & Hsum & Hv' & Hok2 & Hver' & Hm' & Hwal' & Hrel' & Ho').
  assert (Hp' : stored_page (store w') pid ps) by (apply (stored_page_same (store w1)); [by apply Ho'|done]).
  exists (admitted (reclaimed oldest) (versions_of p) :: counts), w'. split_and!; try done.
  - cbn [for_each]. rewrite (h_bind_run _ _ w _ w1) by exact Hrun. by rewrite (h_bind_run _ _ w1 counts w').
  - cbn. by rewrite Hsum, Hver.
  - by eapply heap_ok_cons.
  - by rewrite (stored_versions_cons _ _ _ ps Hp'), Hver1, Hver', Hver.
  - congruence.
  - by eapply same_relations_trans.
  - intros q Hq Hn. rewrite not_elem_of_cons in Hn. destruct Hn as [Hn1 Hn2]. rewrite Ho' by done. by apply Ho1.
Qed.

(** C6. Vacuuming succeeds, drops exactly the versions deleted before the given
    transaction, keeps the others in order, returns how many it dropped, and
    touches no other page; a scan of the latest state shows the same rows. *)
Theorem vacuum_relation_spec w oid oldest st admits desc :
  let pids := rel_pages (mrs_relation st) in
  valid (store w) -> get_relation_state oid (hs_cache w) = Some st -> heap_ok (store w) pids -> pool_mapped w ->
  exists w', vacuum_relation oid oldest w = (Ok (admitted (reclaimed oldest) (stored_versions (store w) pids)), w') /\
    valid (store w') /\ heap_ok (store w') pids /\ same_relations w w' /\
    stored_versions (store w') pids = survivors oldest (stored_versions (store w) pids) /\
    (forall q, is_u32 q -> q ∉ pids -> read_page (store w') q = read_page (store w) q) /\
    (is_u32 oldest -> Forall (fun t => is_u64 (tup_xmax t)) (stored_versions (store w) pids) ->
     visible_rows admits latest_snapshot desc (stored_versions (store w') pids) =
     visible_rows admits latest_snapshot desc (stored_versions (store w) pids)).
Proof.
  intros pids Hv Hst Hok Hm. destruct (vacuum_pages_run oid oldest pids w Hv Hok Hm)
    as (counts & w' & Hrun & Hsum & Hv' & Hok' & Hver & _ & _ & Hrel & Ho).
  exists w'. split_and!; try done.
  - unfold vacuum_relation. rewrite (h_bind_run _ _ w (mrs_relation st) w) by (unfold h_relation; by rewrite Hst).
    rewrite (h_bind_run _ _ w counts w') by exact Hrun. by rewrite Hsum.
  - intros Hold Hx. rewrite Hver. by apply survivors_rows.
Qed.
End statements.
