(* ===== verification/HeapUpdates.v ===== *)
(** Updating ([tuple_update] of [src/src/executor/heap.rs]) where the new versions find
    room on the pages of the old: each old version is replaced by one with the new
    value. Updates without room are runs in HeapRuns.v. *)

From S2P Require Import Prelude Types Storage HeapPage Transaction BufferPool Wal Utf8 TupleCodec HeapAccess HeapStatements.

(* ------------------------------------------------------------------ *)
(** ** The versions after an update *)

(** The new data of a version that the statement updates. *)
Definition updated_data (filter : option Filter) (desc : TupleDesc) (column_idx : nat) (new_value : bytes) (t : Tuple) : option bytes :=
  if deletes filter desc t then build_updated_data (tup_data t) column_idx new_value else None.

Section versions.
Context (u : Tuple -> option bytes).

Definition untouched (vs : list Tuple) : list Tuple := List.filter (fun t => negb (bool_decide (is_Some (u t)))) vs.

(** The new versions, each with an id of its own, from [xid] on. *)
Fixpoint new_versions (xid : Z) (vs : list Tuple) : list Tuple :=
  match vs with
  | [] => []
  | t :: vs =>
      match u t with
      | Some data => with_version t (xid as_u64) data :: new_versions (xid + 1) vs
      | None => new_versions xid vs
      end
  end.

Definition touched (vs : list Tuple) : Z := zlen (omap u vs).

Lemma untouched_app vs vs' : untouched (vs ++ vs') = untouched vs ++ untouched vs'.
Proof. apply List.filter_app. Qed.

Lemma touched_app vs vs' : touched (vs ++ vs') = touched vs + touched vs'.
Proof. unfold touched. rewrite omap_app, length_app. lia. Qed.

Lemma touched_cons t vs : touched (t :: vs) = (if u t then 1 else 0) + touched vs.
Proof. unfold touched. cbn. destruct (u t); cbn [length]; lia. Qed.

Lemma touched_bounds vs : 0 <= touched vs <= zlen vs.
Proof. unfold touched. split; [lia|]. induction vs as [|t vs IH]; [done|]. cbn. destruct (u t); cbn [length]; lia. Qed.

Lemma touched_count xid vs : length (untouched vs ++ new_versions xid vs) = length vs.
Proof.
  revert xid. induction vs as [|t vs IH]; intros xid; [done|]. rewrite length_app in *. cbn [new_versions untouched List.filter]. fold (untouched vs).
  destruct (u t) as [d|].
  - rewrite bool_decide_true by eauto. cbn. specialize (IH (xid + 1)). rewrite length_app in IH. lia.
  - rewrite bool_decide_false by (by intros [? ?]). cbn. specialize (IH xid). rewrite length_app in IH. lia.
Qed.

Lemma new_versions_app xid vs vs' : new_versions xid (vs ++ vs') = new_versions xid vs ++ new_versions (xid + touched vs) vs'.
Proof.
  revert xid. induction vs as [|t vs IH]; intros xid; [cbn; by rewrite Z.add_0_r|]. rewrite touched_cons. cbn. destruct (u t).
  - by rewrite IH, Z.add_assoc.
  - by rewrite IH, Z.add_0_l.
Qed.
End versions.

(** The slots from [k] on that are updated. *)
Definition updates_from `{Bincode Tuple} (u : Tuple -> option bytes) (k : nat) (ts : list bytes) : list (nat * Tuple * bytes) :=
  concat (imap (fun i t => match tuple_of t with
    | Some tup => match u tup with Some d => [((k + i)%nat, tup, d)] | None => [] end
    | None => [] end) ts).

(* ------------------------------------------------------------------ *)
(** ** One update *)

(** The page after an update of slot [i]: the old version is behind a redirect, the
    new one in the next slot. *)
Definition updated_page (p : HeapPage) (i : nat) (old_bytes new_bytes : bytes) : HeapPage :=
  let off := pd_upper (header p) - zlen new_bytes in
  replaced (appended p off new_bytes) i (redirect_to (zlen (line_pointers p))) old_bytes off.

Section updates.
Context {P : Profile} {S : Type} (valid : S -> Prop) `{StorageLaws S (Z.to_nat 8192) valid} `{TupleLaws} `{Bincode WALRecord}.
Implicit Types w : heap_state S.

Lemma updated_page_ok p i lp t old new :
  page_wf p -> nonempty_tuples (line_pointers p) (tuples p) -> line_pointers p !! i = Some lp -> is_normal lp = true ->
  tuples p !! i = Some t -> bytes_ok old -> old <> [] -> bytes_ok new -> new <> [] ->
  zlen new + 4 <= pd_upper (header p) - pd_lower (header p) ->
  hot_update p ((Z.of_nat i) as_u16) new = Ok (Some (zlen (line_pointers p)), updated_page p i t new)
  /\ put_tuple (updated_page p i t new) i old = Ok (updated_page p i old new)
  /\ page_wf (updated_page p i old new)
  /\ nonempty_tuples (line_pointers (updated_page p i old new)) (tuples (updated_page p i old new)).
Proof.
  intros Hwf Hne Hlp Hn Ht Hob Ho Hnb Hn0 Hroom. pose proof Hwf as [Hl Hlo Hfr Hsp Hu Hh Hlps Hb].
  pose proof (page_slots p Hwf) as Hmax. pose proof (lookup_lt_Some _ _ _ Hlp) as Hlt.
  rewrite (wrap_small 16) by (unfold in_width; lia).
  assert (Hget : get_tuple p (Z.of_nat i) = Some t) by (rewrite get_tuple_slot, Nat2Z.id by lia; unfold slot_tuple; by rewrite Hlp; cbn; rewrite Hn).
  assert (Hwa : page_wf (appended p (pd_upper (header p) - zlen new) new)) by (apply appended_wf; (done || page_unfold; lia)).
  split_and!.
  - rewrite (hot_update_append p (Z.of_nat i) t new) by (done || page_unfold; lia). by rewrite Nat2Z.id.
  - unfold put_tuple. rewrite set_at_ok by (cbn; rewrite length_insert, length_app; cbn; lia). rewrite ok_bind, Nat2Z.id.
    unfold updated_page, replaced, with_tuples. cbn. by rewrite list_insert_insert_eq.
  - eapply replaced_wf; [done|by apply lookup_app_l_Some|by apply lookup_app_l_Some| |done| |].
    + split; cbn; page_unfold; lia.
    + cbn. page_unfold. lia.
    + cbn. destruct (is_normal lp); page_unfold; lia.
  - cbn. apply nonempty_insert; [|done]. apply nonempty_app; [done..|]. by split.
Qed.

Lemma encode_updated t tup xid data :
  bytes_ok t -> tuple_of t = Some tup -> bytes_ok data -> zlen data < 2 ^ 32 ->
  exists e, bincode_serialize (with_version tup (xid as_u64) data) = Ok e /\ bytes_ok e /\ e <> [].
Proof.
  intros Hb Ht Hd Hl. assert (Hdec : bincode_deserialize t = Ok tup) by (unfold tuple_of in Ht; destruct (bincode_deserialize t); naive_solver).
  destruct (tl_prefix t tup Hb Hdec) as (Hwf & _). apply tl_encode. destruct Hwf. split; cbn; try done. by apply wrap_in_width.
Qed.

(** One turn of the loop: the page in memory is changed and written, the record
    logged. *)
Lemma update_step_run w oid pid p i lp t tup xid n data e :
  valid (store w) -> is_u32 pid -> page_wf p -> nonempty_tuples (line_pointers p) (tuples p) ->
  line_pointers p !! i = Some lp -> is_normal lp = true -> tuples p !! i = Some t -> tuple_of t = Some tup ->
  bytes_ok data -> zlen data < 2 ^ 32 -> bincode_serialize (with_version tup (xid as_u64) data) = Ok e ->
  zlen e + 4 <= pd_upper (header p) - pd_lower (header p) ->
  current_xid (hs_wal w) = xid as_u64 -> log_room n (hs_wal w) -> 0 < n ->
  exists old w', bytes_ok old /\ old <> [] /\
    (forall rest, update_tuples oid pid p ((i, tup, data) :: rest) w = (m ← update_tuples oid pid (updated_page p i old e) rest; mret (1 + m)) w') /\
    page_wf (updated_page p i old e) /\
    nonempty_tuples (line_pointers (updated_page p i old e)) (tuples (updated_page p i old e)) /\
    valid (store w') /\ stored_page (store w') pid (decoded_page (updated_page p i old e)) /\
    current_xid (hs_wal w') = (xid + 1) as_u64 /\ log_room (n - 1) (hs_wal w') /\ same_relations w w' /\
    (forall q, is_u32 q -> q <> pid -> read_page (store w') q = read_page (store w) q).
Proof.
  intros Hv Hu Hwf Hne Hlp Hn Ht Htup Hdb Hdl He Hroom Hxid Hlog Hpos.
  pose proof Hwf as [Hl Hlo Hfr Hsp Hup _ _ Hb]. pose proof (page_slots p Hwf) as Hmax.
  assert (Htb : bytes_ok t) by (by eapply Forall_lookup_1).
  destruct (encode_deleted t tup xid Htb Htup) as (old & Hold & Hob & Ho0 & Hlen & _).
  destruct (encode_updated t tup xid data Htb Htup Hdb Hdl) as (e' & He' & Heb & He0). rewrite He in He'. injection He' as <-.
  destruct (updated_page_ok p i lp t old e Hwf Hne Hlp Hn Ht Hob Ho0 Heb He0 Hroom) as (Hhot & Hput & Hwf' & Hne'). set (p' := updated_page p i old e) in *.
  pose proof (normal_tuple_len _ _ _ _ _ Hlp Ht Hn) as Htl.
  destruct (write_page_run valid (after_xid w) pid p' Hv Hu Hwf' Hne') as (w1 & Hw1 & Hv1 & Hp1 & Ho1 & Hwal1 & Hrel1).
  destruct (dirty_run w1 oid pid) as (w2 & Hw2 & Hs2 & Hwal2 & Hrel2). set (new := with_version tup (xid as_u64) data) in *.
  assert (Hsmall : small_record (WalUpdate oid pid (with_xmax tup (xid as_u64)) new))
    by (right; exists oid, pid, (with_xmax tup (xid as_u64)), old, new, e; split_and!; try done; page_unfold; lia).
  assert (Hwal : hs_wal w2 = snd (allocate_xid (hs_wal w))) by (by rewrite Hwal2, Hwal1).
  destruct (log_append n (WalUpdate oid pid (with_xmax tup (xid as_u64)) new) (hs_wal w2)) as (lsn & wal & Hap & Hroom' & Hcur); try done.
  { rewrite Hwal. by apply log_after_xid. }
  assert (Hback : index (zlen (line_pointers p)) (tuples p') = Ok e).
  { apply index_ok. unfold get. rewrite decide_True by lia. cbn. rewrite Nat2Z.id, list_lookup_insert_ne by (apply lookup_lt_Some in Hlp; lia).
    rewrite <- Hl. by rewrite list_lookup_middle. }
  assert (Hdec : bincode_deserialize e = Ok new) by (rewrite <- (app_nil_r e); by apply tl_decode).
  exists old, {| hs_cache := hs_cache w2; hs_wal := wal |}.
  change (store {| hs_cache := hs_cache w2; hs_wal := wal |}) with (store w2). rewrite Hs2. split_and!; try done.
  - intros rest. cbn [update_tuples]. rewrite (h_bind_run _ _ w _ _ (xid_run w)), Hxid. fold new.
    rewrite (h_bind_run _ _ (after_xid w) e (after_xid w)) by (unfold h_lift; by rewrite He).
    rewrite (h_bind_run _ _ (after_xid w) _ (after_xid w)) by (unfold h_lift; by rewrite Hhot). cbn beta iota zeta.
    rewrite (h_bind_run _ _ (after_xid w) old (after_xid w)) by (unfold h_lift; by rewrite Hold).
    rewrite (h_bind_run _ _ (after_xid w) p' (after_xid w)) by (unfold h_lift; by rewrite Hput).
    rewrite (h_bind_run _ _ (after_xid w) p' {| hs_cache := hs_cache w2; hs_wal := wal |}); [done|].
    rewrite (h_bind_run _ _ _ tt w1), (h_bind_run _ _ w1 tt w2) by done.
    rewrite (h_bind_run _ _ w2 e w2) by (unfold h_lift; by rewrite Hback). rewrite (h_bind_run _ _ w2 new w2) by (unfold h_lift; by rewrite Hdec).
    by rewrite (h_bind_run _ _ w2 lsn {| hs_cache := hs_cache w2; hs_wal := wal |}) by (unfold h_append; by rewrite Hap).
  - cbn. rewrite Hcur, Hwal. by apply next_xid_wrap.
  - intros q. etransitivity; [exact (Hrel2 q)|exact (same_rels_of (after_xid w) w1 Hrel1 q)].
Qed.

(* ------------------------------------------------------------------ *)
(** ** The updates of a page *)

(** The new version of [t], if it gets one, can be encoded, in at most [m] bytes. *)
Definition update_ok (u : Tuple -> option bytes) (m : Z) (t : Tuple) : Prop :=
  forall data, u t = Some data ->
    bytes_ok data /\ zlen data < 2 ^ 32 /\ forall x e, bincode_serialize (with_version t x data) = Ok e -> zlen e <= m.

Definition free_bytes (p : HeapPage) : Z := pd_upper (header p) - pd_lower (header p).

Lemma updates_from_cons u k t ts :
  updates_from u k (t :: ts) =
  match tuple_of t with
  | Some tup => match u tup with Some d => [(k, tup, d)] | None => [] end
  | None => []
  end ++ updates_from u (Datatypes.S k) ts.
Proof.
  unfold updates_from. cbn [imap concat]. rewrite Nat.add_0_r. f_equal. f_equal. apply imap_ext. intros i x _. cbn. by rewrite Nat.add_succ_r.
Qed.

Lemma omap_live_snoc dl dt lp t :
  length dt = length dl -> (if is_normal lp then t else []) = t ->
  omap tuple_of (live_tuples (dl ++ [lp]) (dt ++ [t])) = omap tuple_of (live_tuples dl dt) ++ omap tuple_of [t].
Proof.
  intros Hl Hk. rewrite live_app, omap_app by done. f_equal. cbn [live_tuples]. destruct (is_normal lp); [done|]. subst t. cbn. by rewrite tuple_of_nil.
Qed.

(** The slots of the page are those done, those to do, and the new versions'. *)
Record in_progress (p : HeapPage) (dl tl nl : list LinePointer) (dt tt nt : list bytes) : Prop := {
  ip_wf : page_wf p;
  ip_nonempty : nonempty_tuples (line_pointers p) (tuples p);
  ip_pointers : line_pointers p = dl ++ tl ++ nl;
  ip_tuples : tuples p = dt ++ tt ++ nt;
  ip_done : length dt = length dl;
  ip_todo : length tt = length tl;
  ip_kept : kept_tuples tl tt = tt;
}.

Lemma in_progress_skip p dl lp tl nl dt t tt nt :
  in_progress p dl (lp :: tl) nl dt (t :: tt) nt -> in_progress p (dl ++ [lp]) tl nl (dt ++ [t]) tt nt.
Proof.
  intros [Hwf Hne Hp Ht Hd Htt Hk]. cbn in Htt, Hk. injection Hk as _ Hk. split; try done.
  - by rewrite Hp, <- app_assoc.
  - by rewrite Ht, <- app_assoc.
  - rewrite !length_app. cbn. lia.
  - lia.
Qed.

Lemma in_progress_update p dl lp tl nl dt t tt nt old e :
  in_progress p dl (lp :: tl) nl dt (t :: tt) nt ->
  page_wf (updated_page p (length dt) old e) ->
  nonempty_tuples (line_pointers (updated_page p (length dt) old e)) (tuples (updated_page p (length dt) old e)) ->
  in_progress (updated_page p (length dt) old e) (dl ++ [redirect_to (zlen (line_pointers p))]) tl
    (nl ++ [LinePointer_new (pd_upper (header p) - zlen e)]) (dt ++ [old]) tt (nt ++ [e]).
Proof.
  intros [_ _ Hp Ht Hd Htt Hk] Hwf Hne. cbn in Htt, Hk. injection Hk as _ Hk. split; try done; cbn.
  - generalize (redirect_to (zlen (line_pointers p))) as r. intros r. rewrite Hp, Hd, <- app_assoc, insert_app_r_alt, Nat.sub_diag by lia.
    cbn. by rewrite <- !app_assoc.
  - rewrite Ht, <- app_assoc, insert_app_r_alt, Nat.sub_diag by lia. cbn. by rewrite <- !app_assoc.
  - rewrite !length_app. cbn. lia.
  - lia.
Qed.

Lemma update_tuples_run u m oid pid tt dl dt tl nl nt p ps w xid k :
  valid (store w) -> is_u32 pid -> in_progress p dl tl nl dt tt nt ->
  Forall (update_ok u m) (omap tuple_of tt) -> touched u (omap tuple_of tt) * (m + 4) <= free_bytes p ->
  stored_page (store w) pid ps -> versions_of ps = omap tuple_of (live_tuples (line_pointers p) (tuples p)) ->
  current_xid (hs_wal w) = xid as_u64 -> log_room (touched u (omap tuple_of tt) + k) (hs_wal w) -> 0 <= k ->
  exists ps' w', update_tuples oid pid p (updates_from u (length dt) tt) w = (Ok (touched u (omap tuple_of tt)), w') /\
    valid (store w') /\ stored_page (store w') pid ps' /\
    versions_of ps' = omap tuple_of (live_tuples dl dt) ++ untouched u (omap tuple_of tt) ++ omap tuple_of (live_tuples nl nt)
      ++ new_versions u xid (omap tuple_of tt) /\
    current_xid (hs_wal w') = (xid + touched u (omap tuple_of tt)) as_u64 /\ log_room k (hs_wal w') /\ same_relations w w' /\
    (forall q, is_u32 q -> q <> pid -> read_page (store w') q = read_page (store w) q).
Proof.
  revert dl dt tl nl nt p ps w xid. induction tt as [|t tt IH]; intros dl dt tl nl nt p ps w xid Hv Hu Hip Hok Hroom Hps Hver Hxid Hlog Hk.
  { exists ps, w. unfold touched. cbn. rewrite Z.add_0_r, app_nil_r. split_and!; try done.
    destruct Hip as [_ _ Hp Ht Hd Htt _]. destruct tl; [|done]. by rewrite Hver, Hp, Ht, live_app, omap_app by done. }
  pose proof Hip as [Hwf Hne Hp Ht Hd Htt Hkept]. destruct tl as [|lp tl]; [done|]. cbn in Hkept. injection Hkept as Hlp _.
  rewrite updates_from_cons. cbn [omap list_omap] in *.
  destruct (tuple_of t) as [tup|] eqn:Et; [destruct (u tup) as [data|] eqn:Eu|].
  - assert (Ht1 : touched u (tup :: omap tuple_of tt) = 1 + touched u (omap tuple_of tt)) by (rewrite touched_cons, Eu; lia).
    assert (Hpos : 0 <= touched u (omap tuple_of tt)) by (unfold touched; lia).
    rewrite Ht1 in *. apply Forall_cons in Hok as [Hok1 Hok]. destruct (Hok1 data Eu) as (Hdb & Hdl & Hm).
    assert (Hi : tuples p !! length dt = Some t) by (rewrite Ht; by apply list_lookup_middle).
    assert (Hli : line_pointers p !! length dt = Some lp) by (rewrite Hp; by apply list_lookup_middle).
    assert (Hn : is_normal lp = true) by (apply not_false_is_true; intros E; rewrite E in Hlp; subst t; by rewrite tuple_of_nil in Et).
    assert (Htb : bytes_ok t) by (eapply Forall_lookup_1; [apply Hwf|done]).
    destruct (encode_updated t tup xid data Htb Et Hdb Hdl) as (e & He & _). pose proof (Hm _ _ He) as Hme.
    assert (Hm0 : 0 <= m) by lia. assert (Hmul : 0 <= touched u (omap tuple_of tt) * (m + 4)) by (apply Z.mul_nonneg_nonneg; lia).
    destruct (update_step_run w oid pid p (length dt) lp t tup xid (1 + touched u (omap tuple_of tt) + k) data e)
      as (old & w1 & _ & _ & Hrun & Hwf1 & Hne1 & Hv1 & Hps1 & Hxid1 & Hlog1 & Hrel1 & Ho1); try done; [unfold free_bytes in Hroom; lia|lia|].
    pose proof (in_progress_update p dl lp tl nl dt t tt nt old e Hip Hwf1 Hne1) as Hip1. set (p1 := updated_page p (length dt) old e) in *.
    destruct (IH _ _ _ _ _ p1 (decoded_page p1) w1 (xid + 1) Hv1 Hu Hip1 Hok) as (ps' & w' & Hrun' & Hv' & Hps' & Hver' & Hxid' & Hlog' & Hrel' & Ho'); try done.
    { assert (Hfree : free_bytes p1 = free_bytes p - zlen e - 4) by (unfold free_bytes; cbn; unfold LINE_POINTER_SIZE; lia). lia. }
    { by rewrite decoded_versions. }
    { by replace (1 + touched u (omap tuple_of tt) + k - 1) with (touched u (omap tuple_of tt) + k) in Hlog1 by lia. }
    exists ps', w'. rewrite length_app, Nat.add_1_r in Hrun'. split_and!; try done.
    + cbn [app]. rewrite Hrun. by rewrite (h_bind_run _ _ _ _ _ Hrun').
    + assert (Hnl : length nt = length nl).
      { pose proof (wf_len _ Hwf) as Hl. rewrite Hp, Ht, !length_app in Hl. destruct Hip as [_ _ _ _ Hd' Htd _]. lia. }
      rewrite Hver', !live_app, !omap_app by done. cbn [live_tuples]. cbn [is_normal redirect_to LinePointer_new lp_flags Z.eqb LP_REDIRECT LP_NORMAL Pos.eqb].
      cbn [omap list_omap app untouched List.filter new_versions]. rewrite Eu, (tuple_of_encoded _ _ He). cbn. by rewrite app_nil_r, <- !app_assoc.
    + rewrite Hxid'. f_equal. lia.
    + by eapply same_relations_trans.
    + intros q Hq Hne'. rewrite Ho' by done. by apply Ho1.
  - assert (Ht1 : touched u (tup :: omap tuple_of tt) = touched u (omap tuple_of tt)) by (rewrite touched_cons, Eu; lia).
    rewrite Ht1 in *. apply Forall_cons in Hok as [_ Hok].
    destruct (IH (dl ++ [lp]) (dt ++ [t]) tl nl nt p ps w xid Hv Hu (in_progress_skip _ _ _ _ _ _ _ _ _ Hip) Hok Hroom Hps Hver Hxid Hlog Hk)
      as (ps' & w' & Hrun & Hv' & Hps' & Hver' & Hxid' & Hlog' & Hrel' & Ho').
    exists ps', w'. rewrite length_app, Nat.add_1_r in Hrun. split_and!; try done.
    rewrite Hver', omap_live_snoc by done. cbn [new_versions untouched List.filter omap list_omap]. rewrite Et, Eu. cbn. by rewrite <- app_assoc.
  - destruct (IH (dl ++ [lp]) (dt ++ [t]) tl nl nt p ps w xid Hv Hu (in_progress_skip _ _ _ _ _ _ _ _ _ Hip) Hok Hroom Hps Hver Hxid Hlog Hk)
      as (ps' & w' & Hrun & Hv' & Hps' & Hver' & Hxid' & Hlog' & Hrel' & Ho').
    exists ps', w'. rewrite length_app, Nat.add_1_r in Hrun. split_and!; try done.
    rewrite Hver', omap_live_snoc by done. cbn [omap list_omap]. by rewrite Et, app_nil_r.
Qed.

(* ------------------------------------------------------------------ *)
(** ** The updates of a relation *)

Lemma updates_of_from filter desc column_idx new_value ts :
  updates_of filter desc column_idx new_value ts = updates_from (updated_data filter desc column_idx new_value) 0 ts.
Proof.
  unfold updates_of. rewrite matching_tuples_from. generalize 0%nat as k. induction ts as [|t ts IH]; intros k; [done|].
  rewrite matching_from_cons, updates_from_cons, omap_app, IH. f_equal. destruct (tuple_of t) as [tup|]; [|done].
  unfold updated_data, deletes. destruct (dml_admits _ _); [|done]. cbn. by destruct (build_updated_data _ _ _).
Qed.

(** Every page has room for the new versions of its versions. *)
Definition room_for (u : Tuple -> option bytes) (m : Z) (s : S) (pids : list PageId) : Prop :=
  Forall (fun pid => forall p, stored_page s pid p -> touched u (versions_of p) * (m + 4) <= free_bytes p) pids.

Lemma room_for_same u m s s' pids :
  (forall q, q ∈ pids -> read_page s' q = read_page s q) -> room_for u m s pids -> room_for u m s' pids.
Proof.
  unfold room_for. rewrite !Forall_forall. intros Hsame Hr q Hq p Hp. apply (Hr q Hq). apply (stored_page_same s'); [by rewrite Hsame|done].
Qed.

Lemma update_pages_run filter desc column_idx new_value m oid pids w xid k :
  let u := updated_data filter desc column_idx new_value in
  valid (store w) -> heap_ok (store w) pids -> current_xid (hs_wal w) = xid as_u64 ->
  Forall (update_ok u m) (stored_versions (store w) pids) -> room_for u m (store w) pids ->
  log_room (touched u (stored_versions (store w) pids) + k) (hs_wal w) -> 0 <= k ->
  exists counts w',
    for_each (fun pid => p ← h_read_page pid; update_tuples oid pid p (updates_of filter desc column_idx new_value (tuples p))) pids w = (Ok counts, w') /\
    foldr Z.add 0 counts = touched u (stored_versions (store w) pids) /\
    valid (store w') /\ heap_ok (store w') pids /\
    stored_versions (store w') pids ≡ₚ untouched u (stored_versions (store w) pids) ++ new_versions u xid (stored_versions (store w) pids) /\
    current_xid (hs_wal w') = (xid + touched u (stored_versions (store w) pids)) as_u64 /\ log_room k (hs_wal w') /\
    same_relations w w' /\ (forall q, is_u32 q -> q ∉ pids -> read_page (store w') q = read_page (store w) q).
Proof.
  intros u. revert w xid. induction pids as [|pid pids IH]; intros w xid Hv Hok Hxid Huok Hroom Hlog Hk.
  { exists [], w. change (stored_versions (store w) []) with (@nil Tuple) in *. unfold touched in *. cbn in *. rewrite Z.add_0_r. by split_and!. }
  destruct (heap_ok_tail _ _ _ Hok) as (Hu & Hnin & Hok'). pose proof Hok as [_ [[_ [p Hp]] _]%Forall_cons].
  apply Forall_cons in Hroom as [Hroom1 Hroom]. specialize (Hroom1 p Hp).
  rewrite (stored_versions_cons _ _ _ p Hp), touched_app, <- ?Z.add_assoc in *. apply Forall_app in Huok as [Huok1 Huok].
  pose proof (stored_live _ _ _ Hp) as [Hwf Hne Hkept].
  destruct (update_tuples_run u m oid pid (tuples p) [] [] (line_pointers p) [] [] p p w xid (touched u (stored_versions (store w) pids) + k))
    as (ps & w1 & Hrun & Hv1 & Hp1 & Hver1 & Hxid1 & Hlog1 & Hrel1 & Ho1); try done.
  { split; rewrite ?app_nil_r; try done. apply Hwf. }
  { rewrite <- versions_kept by apply Hwf. by rewrite Hkept. }
  { unfold touched. lia. }
  assert (Hpu : forall q, q ∈ pids -> is_u32 q) by (destruct Hok' as [_ Ha]; rewrite Forall_forall in Ha; intros q Hq; by apply Ha).
  assert (Hsame : forall q, q ∈ pids -> read_page (store w1) q = read_page (store w) q) by (intros q Hq; apply Ho1; [by apply Hpu|by intros ->]).
  assert (Hver : stored_versions (store w1) pids = stored_versions (store w) pids) by (by apply stored_versions_same).
  destruct (IH w1 _ Hv1 (heap_ok_same _ _ _ (fun q _ => Hsame q) Hok') Hxid1) as (counts & w' & Hrun' & Hsum & Hv' & Hok2 & Hver' & Hxid' & Hlog' & Hrel' & Ho');
    [by rewrite Hver|by apply (room_for_same _ _ (store w))|by rewrite Hver|done|].
  assert (Hp' : stored_page (store w') pid ps) by (apply (stored_page_same (store w1)); [by apply Ho'|done]).
  fold (versions_of p) in *. exists (touched u (versions_of p) :: counts), w'. split_and!; try done.
  - cbn [for_each]. rewrite (h_bind_run _ _ w (touched u (versions_of p)) w1).
    2:{ rewrite (h_bind_run _ _ w p w) by (by apply read_page_run). rewrite updates_of_from. exact Hrun. }
    by rewrite (h_bind_run _ _ w1 counts w').
  - cbn. by rewrite Hsum, Hver.
  - by eapply heap_ok_cons.
  - rewrite (stored_versions_cons _ _ _ ps Hp'), Hver1, Hver', Hver, untouched_app, new_versions_app. cbn [omap list_omap app live_tuples]. solve_Permutation.
  - rewrite Hxid', Hver. f_equal. lia.
  - by eapply same_relations_trans.
  - intros q Hq Hn. rewrite not_elem_of_cons in Hn. destruct Hn as [Hn1 Hn2]. rewrite Ho' by done. by apply Ho1.
Qed.

Lemma tuple_update_run w oid column_idx new_value filter st m k :
  let pids := rel_pages (mrs_relation st) in
  let u := updated_data filter (rel_tuple_desc (mrs_relation st)) column_idx new_value in
  valid (store w) -> get_relation_state oid (hs_cache w) = Some st -> heap_ok (store w) pids -> is_u64 (current_xid (hs_wal w)) ->
  Forall (update_ok u m) (stored_versions (store w) pids) -> room_for u m (store w) pids ->
  log_room (touched u (stored_versions (store w) pids) + k) (hs_wal w) -> 0 <= k ->
  exists w', tuple_update oid column_idx new_value filter w = (Ok (touched u (stored_versions (store w) pids)), w') /\
    valid (store w') /\ heap_ok (store w') pids /\ same_relations w w' /\
    stored_versions (store w') pids ≡ₚ
      untouched u (stored_versions (store w) pids) ++ new_versions u (current_xid (hs_wal w)) (stored_versions (store w) pids) /\
    current_xid (hs_wal w') = (current_xid (hs_wal w) + touched u (stored_versions (store w) pids)) as_u64 /\ log_room k (hs_wal w') /\
    (forall q, is_u32 q -> q ∉ pids -> read_page (store w') q = read_page (store w) q).
Proof.
  intros pids u Hv Hst Hok Hx Huok Hroom Hlog Hk.
  destruct (update_pages_run filter (rel_tuple_desc (mrs_relation st)) column_idx new_value m oid pids w (current_xid (hs_wal w)) k Hv Hok ltac:(by rewrite wrap_small) Huok Hroom Hlog Hk)
    as (counts & w' & Hrun & Hsum & Hv' & Hok' & Hver & Hxid & Hlog' & Hrel & Ho).
  exists w'. split_and!; try done. unfold tuple_update.
  rewrite (h_bind_run _ _ w (mrs_relation st) w) by (unfold h_relation; by rewrite Hst).
  rewrite (h_bind_run _ _ w counts w') by exact Hrun. by rewrite Hsum.
Qed.

(** C5. Updating succeeds where the pages have room, and counts the versions the filter
    admits, deleted ones included: each is gone, and a new version with the new value
    and a transaction id of its own is there. The other versions stay, and no page
    outside the relation changes. *)
Theorem tuple_update_spec w oid column_idx new_value filter st m :
  let pids := rel_pages (mrs_relation st) in
  let u := updated_data filter (rel_tuple_desc (mrs_relation st)) column_idx new_value in
  valid (store w) -> get_relation_state oid (hs_cache w) = Some st -> heap_ok (store w) pids -> is_u64 (current_xid (hs_wal w)) ->
  Forall (update_ok u m) (stored_versions (store w) pids) -> room_for u m (store w) pids ->
  log_room (touched u (stored_versions (store w) pids)) (hs_wal w) ->
  exists w', tuple_update oid column_idx new_value filter w = (Ok (touched u (stored_versions (store w) pids)), w') /\
    valid (store w') /\ heap_ok (store w') pids /\ same_relations w w' /\
    stored_versions (store w') pids ≡ₚ
      untouched u (stored_versions (store w) pids) ++ new_versions u (current_xid (hs_wal w)) (stored_versions (store w) pids) /\
    (forall q, is_u32 q -> q ∉ pids -> read_page (store w') q = read_page (store w) q).
Proof.
  intros pids u Hv Hst Hok Hx Huok Hroom Hlog.
  destruct (tuple_update_run w oid column_idx new_value filter st m 0 Hv Hst Hok Hx Huok Hroom) as (w' & Hrun & Hv' & Hok' & Hrel & Hver & _ & _ & Ho);
    [by rewrite Z.add_0_r|done|]. by exists w'.
Qed.
End updates.

(* ------------------------------------------------------------------ *)
(** ** Updated rows *)

(** A version of a row of plain values, one for each field. *)
Definition row_version (desc : TupleDesc) (t : Tuple) (values : list bytes) : Prop :=
  tup_data t = join_values values /\ length (tup_slots t) = length values /\ length values = length (td_fields desc) /\ Forall plain_value values.

Lemma decode_row desc t values : row_version desc t values -> decode_tuple_values t desc = values.
Proof.
  intros (Hd & Hs & Hl & Hp). transitivity (decode_tuple_values (inserted_tuple values 0) desc); [|by apply row_roundtrip].
  unfold decode_tuple_values. cbn [inserted_tuple tup_data tup_slots]. by rewrite Hd, Hs, length_fmap, length_seq.
Qed.

Lemma split_zero_plain v rest :
  Forall (fun b => b <> 0) v -> split_zero (v ++ 0 :: rest) = v :: split_zero rest.
Proof. induction 1 as [|b v Hb _ IH]; [done|]. cbn. rewrite (proj2 (Z.eqb_neq _ _)) by done. by rewrite IH. Qed.

Lemma split_zero_end v : Forall (fun b => b <> 0) v -> split_zero v = [v].
Proof. induction 1 as [|b v Hb _ IH]; [done|]. cbn. rewrite (proj2 (Z.eqb_neq _ _)) by done. by rewrite IH. Qed.

Lemma split_zero_join values : values <> [] -> Forall plain_value values -> split_zero (join_values values) = values.
Proof.
  intros Hne Hp. induction Hp as [|v values [_ Hv] Hp IH]; [done|]. destruct values as [|v' values].
  - by apply split_zero_end.
  - rewrite join_values_cons, split_zero_plain by done. by rewrite IH.
Qed.

(** An update of a column the row has changes that value; of another, nothing. *)
Lemma updated_row desc t values column_idx new_value :
  row_version desc t values -> plain_value new_value -> values <> [] ->
  if (column_idx <? length values)%nat then
    exists data, build_updated_data (tup_data t) column_idx new_value = Some data
      /\ forall xid, row_version desc (with_version t xid data) (<[column_idx := new_value]> values)
  else build_updated_data (tup_data t) column_idx new_value = None.
Proof.
  intros (Hd & Hs & Hl & Hp) Hn Hne. unfold build_updated_data. rewrite Hd, split_zero_join by done. destruct (Nat.ltb_spec column_idx (length values)).
  - rewrite decide_True by done. eexists. split; [done|]. intros xid. split_and!; cbn; rewrite ?length_insert; try done. by apply Forall_insert.
  - by rewrite decide_False by lia.
Qed.
