(* ===== verification/HeapHistories.v ===== *)
(** A relation as a table of rows ([src/src/executor/heap.rs]): what insertions,
    deletions, updates, vacuuming and scans do to it together, whatever their order. *)

From S2P Require Import Prelude Types Storage HeapPage Transaction BufferPool Wal TupleCodec HeapAccess HeapStatements HeapUpdates.

(* ------------------------------------------------------------------ *)
(** ** Calls *)

Abbreviation row := (list bytes).

Inductive heap_call :=
| CallInsert (values : row)
| CallDelete (filter : option Filter)
| CallUpdate (column_idx : nat) (new_value : bytes) (filter : option Filter)
| CallVacuum (oldest_xmin : Z)
| CallScan (filter : option Filter).

(** *** What they promise *)

(** A table is its rows, and the rows deleted and not yet vacuumed, in no order. *)
Record contents := Contents { live : list row; dead : list row }.

(** The rows an update changes. *)
Definition updates_row (filter : option Filter) (column_idx : nat) (r : row) : bool :=
  dml_admits filter r && (column_idx <? length r)%nat.

(** What a call answers and leaves. An update takes deleted rows for live ones; how many
    of the deleted rows vacuuming drops depends on transaction ids that the table does
    not show. *)
Inductive call_spec : heap_call -> contents -> list row -> contents -> Prop :=
| SpecInsert values l d :
    call_spec (CallInsert values) (Contents l d) [] (Contents (l ++ [values]) d)
| SpecDelete filter l d :
    call_spec (CallDelete filter) (Contents l d) []
      (Contents (List.filter (fun r => negb (dml_admits filter r)) l) (List.filter (dml_admits filter) l ++ d))
| SpecUpdate column_idx new_value filter l d :
    call_spec (CallUpdate column_idx new_value filter) (Contents l d) []
      (Contents (List.filter (fun r => negb (updates_row filter column_idx r)) l
                 ++ (<[column_idx := new_value]> <$> List.filter (updates_row filter column_idx) (l ++ d)))
                (List.filter (fun r => negb (updates_row filter column_idx r)) d))
| SpecVacuum oldest_xmin l d d' :
    d' ⊆+ d -> call_spec (CallVacuum oldest_xmin) (Contents l d) [] (Contents l d')
| SpecScan filter l d :
    call_spec (CallScan filter) (Contents l d) (List.filter (scan_admits filter) l) (Contents l d).

Inductive calls_spec : list heap_call -> contents -> list (list row) -> contents -> Prop :=
| SpecNone t : calls_spec [] t [] t
| SpecCall c calls t answer t' answers t'' :
    call_spec c t answer t' -> calls_spec calls t' answers t'' -> calls_spec (c :: calls) t (answer :: answers) t''.

(** How many log records, and transaction ids, the calls need at most on a relation
    of [n] versions: deletions and updates mark the versions that were deleted before
    as well. *)
Fixpoint cost (calls : list heap_call) (n : Z) : Z :=
  match calls with
  | [] => 0
  | CallInsert _ :: calls => 1 + cost calls (n + 1)
  | CallDelete _ :: calls | CallUpdate _ _ _ :: calls => n + cost calls n
  | _ :: calls => cost calls n
  end.

(** A row of the relation, a value for one of its columns; vacuum is given a 32-bit id. *)
Definition call_ok (desc : TupleDesc) (c : heap_call) : Prop :=
  match c with
  | CallInsert values =>
      Forall plain_value values /\ Forall bytes_ok values /\ length values = length (td_fields desc)
      /\ zlen values < 2 ^ 32 /\ zlen (join_values values) < 2 ^ 32
  | CallUpdate _ new_value _ => plain_value new_value /\ td_fields desc <> []
  | CallVacuum oldest => is_u32 oldest
  | _ => True
  end.

Lemma cost_pos calls n : 0 <= n -> 0 <= cost calls n.
Proof. revert n. induction calls as [|c calls IH]; intros n Hn; [done|]. pose proof (IH n Hn). pose proof (IH (n + 1) ltac:(lia)). destruct c; cbn; lia. Qed.

(* ------------------------------------------------------------------ *)
(** ** The rows of a relation's versions *)

Definition live_of (desc : TupleDesc) (vs : list Tuple) : list row :=
  (fun t => decode_tuple_values t desc) <$> List.filter (fun t => tup_xmax t =? 0) vs.

Definition dead_of (desc : TupleDesc) (vs : list Tuple) : list row :=
  (fun t => decode_tuple_values t desc) <$> List.filter (fun t => negb (tup_xmax t =? 0)) vs.

(** The ids of a version are below [n]. *)
Definition recent (n : Z) (t : Tuple) : Prop := 0 < tup_xmin t < n /\ 0 <= tup_xmax t < n.

Lemma recent_more n n' vs : n <= n' -> Forall (recent n) vs -> Forall (recent n') vs.
Proof. intros Hle Hvs. eapply Forall_impl; [exact Hvs|]. intros t [? ?]. split; lia. Qed.

(** A version shows when it was not deleted. *)
Lemma recent_visible n t : recent n t -> n <= 2 ^ 32 - 1 -> is_visible t latest_snapshot = (tup_xmax t =? 0).
Proof.
  intros [Hmin Hmax] Hn. unfold is_visible. rewrite (proj2 (Z.eqb_neq _ _)) by lia.
  rewrite !wrap_small by (unfold in_width; lia). cbn. rewrite (proj2 (Z.ltb_lt _ _)) by lia. cbn.
  destruct (tup_xmax t =? 0); [done|]. by rewrite (proj2 (Z.ltb_lt _ _)) by lia.
Qed.

(** So a scan of the latest state shows the live rows. *)
Lemma visible_live n admits desc vs :
  Forall (recent n) vs -> n <= 2 ^ 32 - 1 -> visible_rows admits latest_snapshot desc vs = List.filter admits (live_of desc vs).
Proof.
  intros Hvs Hn. unfold visible_rows, live_of. do 2 f_equal. induction Hvs as [|t vs Ht _ IH]; [done|]. cbn.
  by rewrite (recent_visible n t Ht Hn), IH.
Qed.

#[local] Instance filter_proper {X} (f : X -> bool) : Proper ((≡ₚ) ==> (≡ₚ)) (List.filter f).
Proof. intros l l' Hp. induction Hp; cbn; repeat case_match; auto; try by constructor. by etransitivity. Qed.

#[local] Instance live_of_proper desc : Proper ((≡ₚ) ==> (≡ₚ)) (live_of desc).
Proof. intros vs vs' Hp. unfold live_of. by rewrite Hp. Qed.

#[local] Instance dead_of_proper desc : Proper ((≡ₚ) ==> (≡ₚ)) (dead_of desc).
Proof. intros vs vs' Hp. unfold dead_of. by rewrite Hp. Qed.

Lemma live_of_app desc vs vs' : live_of desc (vs ++ vs') = live_of desc vs ++ live_of desc vs'.
Proof. unfold live_of. by rewrite List.filter_app, fmap_app. Qed.

Lemma dead_of_app desc vs vs' : dead_of desc (vs ++ vs') = dead_of desc vs ++ dead_of desc vs'.
Proof. unfold dead_of. by rewrite List.filter_app, fmap_app. Qed.

Lemma live_of_cons desc t vs :
  live_of desc (t :: vs) = if tup_xmax t =? 0 then decode_tuple_values t desc :: live_of desc vs else live_of desc vs.
Proof. unfold live_of. cbn. by destruct (_ =? _). Qed.

Lemma dead_of_cons desc t vs :
  dead_of desc (t :: vs) = if tup_xmax t =? 0 then dead_of desc vs else decode_tuple_values t desc :: dead_of desc vs.
Proof. unfold dead_of. cbn. by destruct (_ =? _). Qed.

Lemma all_rows desc vs : (fun t => decode_tuple_values t desc) <$> vs ≡ₚ live_of desc vs ++ dead_of desc vs.
Proof.
  induction vs as [|t vs IH]; [done|]. rewrite fmap_cons, live_of_cons, dead_of_cons, IH. destruct (_ =? _); [done|]. by rewrite Permutation_middle.
Qed.

Definition row_ok (desc : TupleDesc) (t : Tuple) : Prop := exists values, row_version desc t values.

Lemma inserted_row desc values xid :
  Forall plain_value values -> length values = length (td_fields desc) -> row_version desc (inserted_tuple values xid) values.
Proof. intros Hp Hl. split_and!; try done. cbn. by rewrite length_fmap, length_seq. Qed.

Lemma rows_of_deleted filter desc vs xid :
  0 < xid -> xid + admitted (deletes filter desc) vs <= 2 ^ 32 ->
  let vs' := mark_deleted (deletes filter desc) xid vs in
  live_of desc vs' = List.filter (fun r => negb (dml_admits filter r)) (live_of desc vs)
  /\ dead_of desc vs' ≡ₚ List.filter (dml_admits filter) (live_of desc vs) ++ dead_of desc vs.
Proof.
  revert xid. induction vs as [|t vs IH]; intros xid Hx Hb; [done|]. cbn zeta. cbn [mark_deleted].
  pose proof (Zle_0_nat (length (List.filter (deletes filter desc) vs))) as Hpos. unfold admitted in *. cbn [List.filter] in Hb.
  rewrite (live_of_cons desc t vs), (dead_of_cons desc t vs). destruct (deletes filter desc t) eqn:Ed; cbn [length] in Hb.
  - destruct (IH (xid + 1) ltac:(lia) ltac:(lia)) as [IHl IHd]. rewrite (wrap_small 64 xid) by (unfold in_width; lia).
    rewrite live_of_cons, dead_of_cons. cbn [with_xmax tup_xmax]. rewrite (proj2 (Z.eqb_neq _ _)) by lia. rewrite IHl, IHd.
    change (decode_tuple_values (with_xmax t xid) desc) with (decode_tuple_values t desc). unfold deletes in Ed.
    destruct (tup_xmax t =? 0); cbn [List.filter]; rewrite ?Ed; cbn [negb]; [done|]. split; [done|]. apply Permutation_middle.
  - destruct (IH xid ltac:(lia) ltac:(lia)) as [IHl IHd]. rewrite live_of_cons, dead_of_cons. unfold deletes in Ed.
    destruct (tup_xmax t =? 0); cbn [List.filter]; rewrite ?Ed; cbn [negb app]; rewrite IHl, IHd; [done|]. split; [done|]. apply Permutation_middle.
Qed.

Lemma recent_deleted filter desc n vs xid :
  Forall (recent n) vs -> 0 < n <= xid -> xid + admitted (deletes filter desc) vs <= 2 ^ 32 ->
  Forall (recent (xid + admitted (deletes filter desc) vs)) (mark_deleted (deletes filter desc) xid vs).
Proof.
  intros Hvs. revert xid. induction Hvs as [|t vs Ht _ IH]; intros xid Hn Hx; [constructor|]. cbn [mark_deleted].
  pose proof (Zle_0_nat (length (List.filter (deletes filter desc) vs))) as Hpos. unfold admitted in *. cbn [List.filter] in *. destruct Ht as [Htmin Htmax].
  destruct (deletes filter desc t); cbn [length] in *.
  - specialize (IH (xid + 1) ltac:(lia) ltac:(lia)). rewrite (wrap_small 64 xid) by (unfold in_width; lia).
    constructor; [split; cbn; lia|]. eapply recent_more; [|exact IH]. lia.
  - constructor; [split; lia|]. apply IH; lia.
Qed.

Lemma deleted_row_ok filter desc xid vs : Forall (row_ok desc) vs -> Forall (row_ok desc) (mark_deleted (deletes filter desc) xid vs).
Proof.
  intros Hvs. revert xid. induction Hvs as [|t vs [values Ht] _ IH]; intros xid; [constructor|]. cbn. case_match; constructor; auto; by exists values.
Qed.

(** *** Updates *)

Section updates.
Context (desc : TupleDesc) (filter : option Filter) (column_idx : nat) (new_value : bytes).
Context (Hnew : plain_value new_value) (Hfields : td_fields desc <> []).
Let u := updated_data filter desc column_idx new_value.
Let hit := updates_row filter column_idx.

Lemma updated_data_row t :
  row_ok desc t ->
  if hit (decode_tuple_values t desc) then
    exists data, u t = Some data /\ forall xid, row_version desc (with_version t xid data) (<[column_idx := new_value]> (decode_tuple_values t desc))
  else u t = None.
Proof.
  intros [values Ht]. pose proof (decode_row _ _ _ Ht) as Hv. rewrite Hv. unfold u, updated_data, hit, updates_row, deletes. rewrite Hv.
  destruct (dml_admits filter values); [|done]. cbn [andb]. apply updated_row; [done..|]. intros ->. destruct Ht as (_ & _ & Hl & _). by destruct (td_fields desc).
Qed.

Lemma rows_of_untouched vs :
  Forall (row_ok desc) vs ->
  live_of desc (untouched u vs) = List.filter (fun r => negb (hit r)) (live_of desc vs)
  /\ dead_of desc (untouched u vs) = List.filter (fun r => negb (hit r)) (dead_of desc vs).
Proof.
  induction 1 as [|t vs Ht _ [IHl IHd]]; [done|]. pose proof (updated_data_row t Ht) as Hu. rewrite (live_of_cons desc t vs), (dead_of_cons desc t vs).
  cbn [untouched List.filter]. fold (untouched u vs). destruct (hit (decode_tuple_values t desc)) eqn:Eh.
  - destruct Hu as (data & Hu & _). rewrite bool_decide_true by (rewrite Hu; eauto). cbn [negb]. rewrite IHl, IHd.
    destruct (tup_xmax t =? 0); cbn [List.filter]; by rewrite Eh.
  - rewrite bool_decide_false by (rewrite Hu; by intros [? ?]). cbn [negb]. rewrite live_of_cons, dead_of_cons, IHl, IHd.
    destruct (tup_xmax t =? 0); cbn [List.filter]; by rewrite Eh.
Qed.

Lemma rows_of_new xid vs :
  Forall (row_ok desc) vs ->
  live_of desc (new_versions u xid vs) = insert column_idx new_value <$> List.filter hit ((fun t => decode_tuple_values t desc) <$> vs)
  /\ dead_of desc (new_versions u xid vs) = [] /\ Forall (row_ok desc) (new_versions u xid vs).
Proof.
  intros Hvs. revert xid. induction Hvs as [|t vs Ht _ IH]; intros xid; [done|]. pose proof (updated_data_row t Ht) as Hu. cbn [new_versions fmap list_fmap List.filter].
  destruct (hit (decode_tuple_values t desc)) eqn:Eh.
  - destruct Hu as (data & Hu & Hrow). rewrite Hu. destruct (IH (xid + 1)) as (IHl & IHd & IHr).
    rewrite live_of_cons, dead_of_cons. cbn [with_version tup_xmax Z.eqb]. rewrite IHl, (decode_row _ _ _ (Hrow _)). split_and!; [done..|].
    constructor; [|done]. eexists. apply Hrow.
  - rewrite Hu. apply IH.
Qed.

Lemma recent_new n xid vs :
  0 < n <= xid -> xid + touched u vs <= 2 ^ 32 -> Forall (recent (xid + touched u vs)) (new_versions u xid vs).
Proof.
  revert xid. induction vs as [|t vs IH]; intros xid Hn Hx; [constructor|]. assert (0 <= touched u vs) by (unfold touched; lia).
  rewrite touched_cons in *. cbn [new_versions]. destruct (u t) as [data|].
  - constructor; [split; cbn; rewrite ?(wrap_small 64 xid) by (unfold in_width; lia); lia|]. rewrite Z.add_assoc. apply IH; lia.
  - apply IH; lia.
Qed.
End updates.

(* ------------------------------------------------------------------ *)
(** ** What leaves the pool alone *)

Section pool.
Context {P : Profile} {S : Type} `{Storage S} `{Bincode Tuple} `{Bincode WALRecord}.

Definition keeps_pool {X} (m : heap_m S X) : Prop := forall w, cache_pool (hs_cache (m w).2) = cache_pool (hs_cache w).

Lemma keeps_bind {X Y} (m : heap_m S X) (f : X -> heap_m S Y) : keeps_pool m -> (forall x, keeps_pool (f x)) -> keeps_pool (m ≫= f).
Proof.
  intros Hm Hf w. specialize (Hm w). unfold mbind, heap_bind. destruct (m w) as [[x|e|] w1]; [|exact Hm..]. by rewrite (Hf x w1).
Qed.

Lemma keeps_pure {X} (f : heap_state S -> outcome X) : keeps_pool (fun w => (f w, w)).
Proof. by intros w. Qed.

Lemma keeps_write_page pid p : keeps_pool (h_write_page pid p).
Proof. apply keeps_bind; [apply (keeps_pure (fun _ => _))|]. intros d w. unfold h_write. by destruct (write_page _ _ _). Qed.

Lemma keeps_read_page pid : keeps_pool (h_read_page pid).
Proof. apply keeps_bind; [apply (keeps_pure (fun w => _))|]. intros d. apply (keeps_pure (fun _ => _)). Qed.

Lemma keeps_append r : keeps_pool (h_append r).
Proof. intros w. unfold h_append. by destruct (append r _). Qed.

Lemma keeps_lift {X} (o : outcome X) : keeps_pool (h_lift o).
Proof. apply (keeps_pure (fun _ => o)). Qed.

Lemma keeps_for_each {X Y} (f : X -> heap_m S Y) l : (forall x, keeps_pool (f x)) -> keeps_pool (for_each f l).
Proof.
  intros Hf. induction l as [|x l IH]; [by intros w|]. cbn [for_each]. apply keeps_bind; [done|]. intros y.
  apply keeps_bind; [done|]. intros ys. by intros w.
Qed.

Hint Resolve keeps_write_page keeps_read_page keeps_append keeps_lift : keeps.

Lemma keeps_insert op : keeps_pool (tuple_insert op).
Proof.
  unfold tuple_insert. apply keeps_bind; [apply (keeps_pure (fun w => _))|]. intros rel. apply keeps_bind.
  { unfold insert_target. case_match; [by intros w|]. apply keeps_bind; [auto with keeps|]. by intros _ w. }
  intros [pid pids]. apply keeps_bind; [auto with keeps|]. intros p. apply keeps_bind; [by intros w|]. intros xid.
  apply keeps_bind; [auto with keeps|]. intros d. apply keeps_bind; [|intros pid'; apply keeps_bind; [auto with keeps|by intros _ w]].
  unfold place_tuple. apply keeps_bind; [auto with keeps|]. intros [[slot|] p'].
  - apply keeps_bind; [auto with keeps|]. intros _. apply keeps_bind; by intros w.
  - apply keeps_bind; [auto with keeps|]. intros new. apply keeps_bind; [auto with keeps|]. intros added.
    apply keeps_bind; [auto with keeps|]. intros _. apply keeps_bind; [auto with keeps|]. intros _. apply keeps_bind; by intros w.
Qed.

Lemma keeps_delete oid filter : keeps_pool (tuple_delete oid filter).
Proof.
  unfold tuple_delete. apply keeps_bind; [apply (keeps_pure (fun w => _))|]. intros rel. apply keeps_bind; [|by intros counts w].
  apply keeps_for_each. intros pid. apply keeps_bind; [auto with keeps|]. intros p.
  generalize (matching_tuples filter (rel_tuple_desc rel) (tuples p)) as victims. intros victims. revert p.
  induction victims as [|[slot tup] victims IH]; intros p; [by intros w|]. cbn [delete_tuples].
  repeat first [apply keeps_bind; [auto with keeps|intros ?] | apply keeps_bind; [by intros w|intros ?] | apply keeps_bind; [apply IH|intros ?] | by intros w].
Qed.

Lemma keeps_update oid column_idx new_value filter : keeps_pool (tuple_update oid column_idx new_value filter).
Proof.
  unfold tuple_update. apply keeps_bind; [apply (keeps_pure (fun w => _))|]. intros rel. apply keeps_bind; [|by intros counts w].
  apply keeps_for_each. intros pid. apply keeps_bind; [auto with keeps|]. intros p.
  generalize (updates_of filter (rel_tuple_desc rel) column_idx new_value (tuples p)) as todo. intros todo. revert p.
  induction todo as [|[[slot tup] data] todo IH]; intros p; [by intros w|]. cbn [update_tuples].
  repeat first [ apply keeps_bind; [auto with keeps|intros ?] | apply keeps_bind; [by intros w|intros ?] | apply keeps_bind; [apply IH|intros ?]
    | by intros w | progress case_match | apply keeps_bind; [|intros ?] ].
Qed.
End pool.

(* ------------------------------------------------------------------ *)
(** ** Histories *)

Section histories.
Context {P : Profile} {S : Type} (valid : S -> Prop) `{StorageLaws S (Z.to_nat 8192) valid} `{TupleLaws} `{Bincode WALRecord}.
Implicit Types w : heap_state S.

Definition call_run (oid : Oid) (c : heap_call) : heap_m S (list (list bytes)) :=
  match c with
  | CallInsert values => _ ← tuple_insert {| ins_rel_oid := oid; ins_values := values |}; mret []
  | CallDelete filter => _ ← tuple_delete oid filter; mret []
  | CallUpdate column_idx new_value filter => _ ← tuple_update oid column_idx new_value filter; mret []
  | CallVacuum oldest => _ ← vacuum_relation oid oldest; mret []
  | CallScan filter => found ← slow_scan {| scan_rel_oid := oid; scan_filter := filter |}; mret found.*2
  end.

(** An encoded row fits an empty page, and the end of the free space of the page it
    goes to is not before its length; the next page number is free. *)
Definition insert_fits (oid : Oid) (values : list bytes) w : Prop :=
  forall st d, get_relation_state oid (hs_cache w) = Some st ->
  bincode_serialize (inserted_tuple values (current_xid (hs_wal w))) = Ok d ->
  let pids := rel_pages (mrs_relation st) in
  zlen d <= 8162 /\
  forall pid, last pids = Some pid ->
    is_u32 (pid + 1) /\ pid + 1 ∉ pids /\ forall p, stored_page (store w) pid p -> zlen d <= pd_upper (header p).

(** The new versions of an update take at most [m] bytes each, and their pages have
    the room. *)
Definition update_fits (oid : Oid) (column_idx : nat) (new_value : bytes) (filter : option Filter) w : Prop :=
  forall st, get_relation_state oid (hs_cache w) = Some st ->
  let pids := rel_pages (mrs_relation st) in
  let u := updated_data filter (rel_tuple_desc (mrs_relation st)) column_idx new_value in
  exists m, Forall (update_ok u m) (stored_versions (store w) pids) /\ room_for u m (store w) pids.

Fixpoint fits (oid : Oid) (calls : list heap_call) w : Prop :=
  match calls with
  | [] => True
  | c :: calls =>
      match c with
      | CallInsert values => insert_fits oid values w
      | CallUpdate column_idx new_value filter => update_fits oid column_idx new_value filter w
      | _ => True
      end /\ fits oid calls (call_run oid c w).2
  end.

(** The relation holds these rows: its pages are sound, its versions no more than
    [n] and older than the next id, and the log takes [k] more records. *)
Record holds (oid : Oid) (desc : TupleDesc) (t : contents) (n k : Z) w (st : MutableRelationState) : Prop := {
  ho_state : get_relation_state oid (hs_cache w) = Some st;
  ho_desc : rel_tuple_desc (mrs_relation st) = desc;
  ho_valid : valid (store w);
  ho_pages : heap_ok (store w) (rel_pages (mrs_relation st));
  ho_pool : pool_mapped w;
  ho_xid : 0 < current_xid (hs_wal w) /\ current_xid (hs_wal w) + k <= 2 ^ 32 - 2;
  ho_log : log_room k (hs_wal w);
  ho_count : zlen (stored_versions (store w) (rel_pages (mrs_relation st))) <= n;
  ho_recent : Forall (recent (current_xid (hs_wal w))) (stored_versions (store w) (rel_pages (mrs_relation st)));
  ho_rows : Forall (row_ok desc) (stored_versions (store w) (rel_pages (mrs_relation st)));
  ho_live : live_of desc (stored_versions (store w) (rel_pages (mrs_relation st))) ≡ₚ live t;
  ho_dead : dead_of desc (stored_versions (store w) (rel_pages (mrs_relation st))) ≡ₚ dead t;
}.

Lemma log_less n k wal : log_room n wal -> k <= n -> log_room k wal.
Proof. intros (h & Hw & Hn & Hr) Hk. exists h. split_and!; [done|lia|done]. Qed.

Lemma insert_step oid desc t n k values w st :
  holds oid desc t n (1 + k) w st -> 0 <= k -> call_ok desc (CallInsert values) -> insert_fits oid values w ->
  exists w' st', call_run oid (CallInsert values) w = (Ok [], w') /\ holds oid desc (Contents (live t ++ [values]) (dead t)) (n + 1) k w' st'.
Proof.
  intros [Hst <- Hv Hok Hm Hx Hlog Hn Hrec Hrows Hl0 Hd0] Hk (Hp & Hb & Hl & Hz & Hj) Hfit.
  set (op := {| ins_rel_oid := oid; ins_values := values |}). set (xid := current_xid (hs_wal w)) in *.
  assert (Htw : tuple_wf (inserted_tuple values xid)) by (apply inserted_wf; try done; unfold in_width; lia).
  destruct (tl_encode _ Htw) as (d & Hd & _). destruct (Hfit st d Hst Hd) as [Hd1 Hd2].
  assert (Happ : forall pid, exists lsn wal, append (WalInsert oid pid (inserted_tuple values xid)) (snd (allocate_xid (hs_wal w))) = (Ok lsn, wal)
      /\ log_room k wal /\ current_xid wal = xid + 1).
  { intros pid. destruct (log_append (1 + k) (WalInsert oid pid (inserted_tuple values xid)) (snd (allocate_xid (hs_wal w))))
      as (lsn & wal & Ha & Hr & Hc); [by apply log_after_xid|lia|left; exists oid, pid, (inserted_tuple values xid), d; split_and!; [by right|done|lia]|].
    exists lsn, wal. split_and!; [done|by apply (log_less _ _ _ Hr); lia|]. rewrite Hc. cbn. fold xid. apply wrap_small. unfold in_width. lia. }
  destruct (tuple_insert_run valid w op st Hv Hst Hok Htw) as (w' & st' & Hrun & Hv' & Hst' & Hdesc & Hok' & Hver & _ & pid & Hwal).
  { intros d' Hd'. change (bincode_serialize (inserted_tuple values xid) = Ok d') in Hd'. rewrite Hd in Hd'. injection Hd' as <-. split; [done|]. intros pid p Hlast Hpg. by apply (Hd2 pid). }
  { intros pid Hlast. split; by apply Hd2. }
  { intros pid. destruct (Happ pid) as (lsn & wal & Ha & _). by exists lsn, wal. }
  destruct (Happ pid) as (lsn & wal & Ha & Hlog' & Hcur). cbn [ins_rel_oid ins_values op] in Hwal. fold xid in Hwal. rewrite Ha in Hwal. cbn in Hwal. subst wal.
  exists w', st'. split; [by cbn [call_run]; rewrite (h_bind_run _ _ w tt w')|]. cbn [ins_rel_oid ins_values op] in Hver. fold xid in Hver.
  pose proof (inserted_row (rel_tuple_desc (mrs_relation st)) values xid Hp Hl) as Hrow.
  assert (Hrec' : Forall (recent (xid + 1)) (stored_versions (store w) (rel_pages (mrs_relation st)) ++ [inserted_tuple values xid])).
  { apply Forall_app. split; [eapply Forall_impl; [exact Hrec|]; intros ? [? ?]; split; lia|]. apply Forall_singleton. split; cbn; lia. }
  split; try done.
  - intros q i. pose proof (keeps_insert op w) as Hpool. rewrite Hrun in Hpool. cbn in Hpool. rewrite Hpool. apply Hm.
  - rewrite Hcur. lia.
  - rewrite (Permutation_length Hver), length_app. cbn [length]. lia.
  - by rewrite Hcur, Hver.
  - rewrite Hver. apply Forall_app. split; [done|]. apply Forall_singleton. by exists values.
  - rewrite Hver, live_of_app, live_of_cons. cbn [inserted_tuple tup_xmax Z.eqb]. rewrite (decode_row _ _ _ Hrow). cbn. by rewrite Hl0.
  - rewrite Hver, dead_of_app, dead_of_cons. cbn [inserted_tuple tup_xmax Z.eqb]. change (dead_of _ []) with (@nil row). by rewrite app_nil_r.
Qed.

Lemma admitted_bounds admits vs : 0 <= admitted admits vs <= zlen vs.
Proof. unfold admitted. split; [lia|]. induction vs as [|v vs IH]; [done|]. cbn. destruct (admits v); cbn [length]; lia. Qed.

Lemma mark_deleted_length admits xid vs : length (mark_deleted admits xid vs) = length vs.
Proof. revert xid. induction vs as [|v vs IH]; intros xid; [done|]. cbn. case_match; cbn; by rewrite IH. Qed.

(** A relation whose entry keeps its pages and its columns. *)
Lemma same_state oid w w' st :
  same_relations w w' -> get_relation_state oid (hs_cache w) = Some st ->
  exists st', get_relation_state oid (hs_cache w') = Some st' /\ mrs_relation st' = mrs_relation st.
Proof.
  intros Hrel Hst. specialize (Hrel oid). rewrite Hst in Hrel. destruct (get_relation_state oid (hs_cache w')) as [st'|]; [|done].
  exists st'. split; [done|]. by injection Hrel.
Qed.

Lemma delete_step oid desc t n k filter w st :
  holds oid desc t n (n + k) w st -> 0 <= k ->
  exists w' st', call_run oid (CallDelete filter) w = (Ok [], w') /\
    holds oid desc (Contents (List.filter (fun r => negb (dml_admits filter r)) (live t)) (List.filter (dml_admits filter) (live t) ++ dead t)) n k w' st'.
Proof.
  intros [Hst <- Hv Hok Hm Hx Hlog Hn Hrec Hrows Hl0 Hd0] Hk. set (desc := rel_tuple_desc (mrs_relation st)) in *. set (xid := current_xid (hs_wal w)) in *.
  set (vs := stored_versions (store w) (rel_pages (mrs_relation st))) in *. pose proof (admitted_bounds (deletes filter desc) vs) as Hadm.
  destruct (delete_pages_run valid filter desc oid (rel_pages (mrs_relation st)) w xid k Hv Hok)
    as (counts & w' & Hrun & _ & Hv' & Hok' & Hver & Hcur & Hlog' & Hrel & _); [|by apply (log_less _ _ _ Hlog); fold vs; lia|done|].
  { fold xid. symmetry. apply wrap_small. unfold in_width. lia. }
  destruct (same_state oid w w' st Hrel Hst) as (st' & Hst' & Er). fold vs in Hver, Hcur. rewrite wrap_small in Hcur by (unfold in_width; lia).
  destruct (rows_of_deleted filter desc vs xid ltac:(lia) ltac:(lia)) as [Hlive Hdead].
  pose proof (recent_deleted filter desc xid vs xid Hrec ltac:(lia) ltac:(lia)) as Hrec'.
  assert (Hd : tuple_delete oid filter w = (Ok (foldr Z.add 0 counts), w')).
  { unfold tuple_delete. rewrite (h_bind_run _ _ w (mrs_relation st) w) by (unfold h_relation; by rewrite Hst). by rewrite (h_bind_run _ _ w counts w') by exact Hrun. }
  exists w', st'. split; [cbn [call_run]; by rewrite (h_bind_run _ _ w (foldr Z.add 0 counts) w')|]. split; rewrite ?Er; try done.
  - intros q i. pose proof (keeps_delete oid filter w) as Hpool. rewrite Hd in Hpool. cbn in Hpool. rewrite Hpool. apply Hm.
  - rewrite Hcur. lia.
  - rewrite Hver, mark_deleted_length. exact Hn.
  - by rewrite Hcur, Hver.
  - rewrite Hver. by apply deleted_row_ok.
  - rewrite Hver, Hlive. cbn. by rewrite Hl0.
  - rewrite Hver, Hdead. cbn. by rewrite Hl0, Hd0.
Qed.

Lemma update_step oid desc t n k column_idx new_value filter w st :
  holds oid desc t n (n + k) w st -> 0 <= k -> call_ok desc (CallUpdate column_idx new_value filter) -> update_fits oid column_idx new_value filter w ->
  exists w' st' t', call_run oid (CallUpdate column_idx new_value filter) w = (Ok [], w') /\
    call_spec (CallUpdate column_idx new_value filter) t [] t' /\ holds oid desc t' n k w' st'.
Proof.
  destruct t as [l d]. intros [Hst <- Hv Hok Hm Hx Hlog Hn Hrec Hrows Hl0 Hd0] Hk [Hnew Hfields] Hfit. cbn [live dead] in Hl0, Hd0. destruct (Hfit st Hst) as (m & Huok & Hroom).
  set (desc := rel_tuple_desc (mrs_relation st)) in *. set (u := updated_data filter desc column_idx new_value) in *.
  set (xid := current_xid (hs_wal w)) in *. set (vs := stored_versions (store w) (rel_pages (mrs_relation st))) in *.
  pose proof (touched_bounds u vs) as Ht.
  destruct (tuple_update_run valid w oid column_idx new_value filter st m k Hv Hst Hok) as (w' & Hrun & Hv' & Hok' & Hrel & Hver & Hcur & Hlog' & _); try done.
  { unfold in_width. fold xid. lia. } { apply (log_less _ _ _ Hlog). fold desc u vs. lia. }
  fold desc u vs xid in Hrun, Hver, Hcur. rewrite wrap_small in Hcur by (unfold in_width; lia).
  destruct (same_state oid w w' st Hrel Hst) as (st' & Hst' & Er).
  destruct (rows_of_untouched desc filter column_idx new_value Hnew Hfields vs Hrows) as [Hul Hud]. fold u in Hul, Hud.
  destruct (rows_of_new desc filter column_idx new_value Hnew Hfields xid vs Hrows) as (Hnl & Hnd & Hnr). fold u in Hnl, Hnd, Hnr.
  eexists w', st', _. split; [cbn [call_run]; by rewrite (h_bind_run _ _ w (touched u vs) w')|]. split.
  { apply SpecUpdate. }
  split; rewrite ?Er; cbn [live dead]; try done.
  - intros q i. pose proof (keeps_update oid column_idx new_value filter w) as Hpool. rewrite Hrun in Hpool. cbn in Hpool. rewrite Hpool. apply Hm.
  - rewrite Hcur. lia.
  - rewrite Hver, touched_count. exact Hn.
  - rewrite Hver, Hcur. apply Forall_app. split.
    + unfold untouched. apply Forall_forall. intros v [Hin _]%list_elem_of_In%filter_In. apply list_elem_of_In in Hin.
      rewrite Forall_forall in Hrec. destruct (Hrec v Hin). split; lia.
    + apply (recent_new desc filter column_idx new_value xid); fold u; lia.
  - rewrite Hver. apply Forall_app. split; [|done]. unfold untouched. apply Forall_forall. intros v [Hin _]%list_elem_of_In%filter_In.
    apply list_elem_of_In in Hin. rewrite Forall_forall in Hrows. by apply Hrows.
  - by rewrite Hver, live_of_app, Hul, Hnl, all_rows, Hl0, Hd0.
  - by rewrite Hver, dead_of_app, Hud, Hnd, app_nil_r, Hd0.
Qed.

Lemma survivors_live oldest desc vs :
  live_of desc (survivors oldest vs) = live_of desc vs /\ dead_of desc (survivors oldest vs) ⊆+ dead_of desc vs.
Proof.
  induction vs as [|t vs [IHl IHd]]; [done|]. rewrite (live_of_cons desc t vs), (dead_of_cons desc t vs). cbn [survivors List.filter].
  fold (survivors oldest vs). change (reclaimed oldest t) with (negb (tup_xmax t =? 0) && (tup_xmax t <? oldest)). destruct (tup_xmax t =? 0) eqn:E; cbn [negb andb].
  - rewrite live_of_cons, dead_of_cons, E. by rewrite IHl.
  - destruct (tup_xmax t <? oldest); cbn [negb]; [split; [done|by apply submseteq_cons]|].
    rewrite live_of_cons, dead_of_cons, E. split; [done|by apply submseteq_skip].
Qed.

Lemma vacuum_step oid desc t n k oldest w st :
  holds oid desc t n k w st -> 0 <= k -> is_u32 oldest ->
  exists w' st' t', call_run oid (CallVacuum oldest) w = (Ok [], w') /\ call_spec (CallVacuum oldest) t [] t' /\ holds oid desc t' n k w' st'.
Proof.
  intros [Hst <- Hv Hok Hm Hx Hlog Hn Hrec Hrows Hl0 Hd0] Hk Hold. set (desc := rel_tuple_desc (mrs_relation st)) in *.
  set (vs := stored_versions (store w) (rel_pages (mrs_relation st))) in *.
  destruct (vacuum_pages_run valid oid oldest (rel_pages (mrs_relation st)) w Hv Hok Hm)
    as (counts & w' & Hrun & _ & Hv' & Hok' & Hver & Hm' & Hwal & Hrel & _). fold vs in Hver.
  destruct (same_state oid w w' st Hrel Hst) as (st' & Hst' & Er).
  assert (Hd : vacuum_relation oid oldest w = (Ok (foldr Z.add 0 counts), w')).
  { unfold vacuum_relation. rewrite (h_bind_run _ _ w (mrs_relation st) w) by (unfold h_relation; by rewrite Hst). by rewrite (h_bind_run _ _ w counts w') by exact Hrun. }
  destruct (survivors_live oldest desc vs) as [Hsl Hsd]. rewrite Hd0 in Hsd.
  assert (Hsub : forall Q : Tuple -> Prop, Forall Q vs -> Forall Q (survivors oldest vs)).
  { intros Q HQ. apply Forall_forall. intros t' [Hin _]%list_elem_of_In%filter_In. apply list_elem_of_In in Hin. rewrite Forall_forall in HQ. by apply HQ. }
  exists w', st', (Contents (live t) (dead_of desc (survivors oldest vs))). split; [cbn [call_run]; by rewrite (h_bind_run _ _ w (foldr Z.add 0 counts) w')|].
  split; [destruct t as [l d]; by apply SpecVacuum|]. split; rewrite ?Er, ?Hwal, ?Hver; cbn [live dead]; auto.
  - unfold survivors. pose proof (admitted_bounds (fun t => negb (reclaimed oldest t)) vs). unfold admitted in *. lia.
  - by rewrite Hsl.
Qed.

Lemma scan_step oid desc t n k filter w st :
  holds oid desc t n k w st -> 0 <= k ->
  exists found, call_run oid (CallScan filter) w = (Ok found, w) /\ found ≡ₚ List.filter (scan_admits filter) (live t).
Proof.
  intros [Hst <- Hv Hok Hm Hx Hlog Hn Hrec Hrows Hl0 Hd0] Hk.
  destruct (slow_scan_run w {| scan_rel_oid := oid; scan_filter := filter |} st Hst Hok) as (found & Hrun & Hf).
  exists found.*2. split; [cbn [call_run]; by rewrite (h_bind_run _ _ w found w)|]. rewrite Hf. cbn [scan_filter].
  rewrite (visible_live _ _ _ _ Hrec) by lia. by rewrite Hl0.
Qed.

(** One call does to the stored relation what it promises to do to the table. *)
Lemma call_step oid desc c calls t n w st :
  holds oid desc t n (cost (c :: calls) n) w st -> 0 <= n -> call_ok desc c -> fits oid (c :: calls) w ->
  exists found answer t' w' st' n', call_run oid c w = (Ok found, w') /\ found ≡ₚ answer /\ call_spec c t answer t' /\
    holds oid desc t' n' (cost calls n') w' st' /\ 0 <= n'.
Proof.
  intros Hh Hn Hc [Hf _]. pose proof (cost_pos calls n Hn). destruct c as [values|filter|column_idx new_value filter|oldest|filter]; cbn [cost] in Hh.
  - pose proof (cost_pos calls (n + 1) ltac:(lia)). destruct (insert_step oid desc t n _ values w st Hh ltac:(done) Hc Hf) as (w' & st' & Hr & Hh').
    exists [], []. eexists _, w', st', (n + 1). split_and!; [done|done| |exact Hh'|lia]. destruct t. apply SpecInsert.
  - destruct (delete_step oid desc t n _ filter w st Hh ltac:(done)) as (w' & st' & Hr & Hh').
    exists [], []. eexists _, w', st', n. split_and!; [done|done| |exact Hh'|done]. destruct t. apply SpecDelete.
  - destruct (update_step oid desc t n _ column_idx new_value filter w st Hh ltac:(done) Hc Hf) as (w' & st' & t' & Hr & Hs & Hh').
    by exists [], [], t', w', st', n.
  - destruct (vacuum_step oid desc t n _ oldest w st Hh ltac:(done) Hc) as (w' & st' & t' & Hr & Hs & Hh'). by exists [], [], t', w', st', n.
  - destruct (scan_step oid desc t n _ filter w st Hh ltac:(done)) as (found & Hr & Hfound). exists found. eexists _, t, w, st, n. split_and!; [done|exact Hfound| |done..].
    destruct t. apply SpecScan.
Qed.

(** C1. A relation behaves as a table of rows, under calls in any order whose inserted
    rows fit the pages they go to, whose updated versions fit their pages, and for
    which the log and the transaction ids are enough: every call succeeds; insertions
    add their row, deletions take away the rows their filter admits, updates change a
    value of those they admit (and bring back such rows that were deleted and not
    vacuumed), vacuuming drops deleted rows alone, and a scan answers with the rows its
    filter admits. (Where a row does not fit, an insertion panics and an update loses
    it.) *)
Theorem heap_refines oid desc calls t n w st :
  holds oid desc t n (cost calls n) w st -> 0 <= n -> Forall (call_ok desc) calls -> fits oid calls w ->
  exists found answers t' w' st' n', for_each (call_run oid) calls w = (Ok found, w') /\ Forall2 (≡ₚ) found answers /\
    calls_spec calls t answers t' /\ holds oid desc t' n' 0 w' st'.
Proof.
  intros Hh Hn Hc. revert t n w st Hh Hn. induction Hc as [|c calls Hc _ IH]; intros t n w st Hh Hn Hf.
  { exists [], [], t, w, st, n. split_and!; [done..|constructor|done]. }
  destruct (call_step oid desc c calls t n w st Hh Hn Hc Hf) as (found & answer & t1 & w1 & st1 & n1 & Hr & Hfound & Hs & Hh1 & Hn1).
  destruct Hf as [_ Hf]. rewrite Hr in Hf. destruct (IH _ n1 w1 st1 Hh1 Hn1 Hf) as (founds & answers & t2 & w2 & st2 & n2 & Hr2 & Hfs & Hss & Hh2).
  exists (found :: founds), (answer :: answers), t2, w2, st2, n2. split_and!; [|by constructor|by econstructor|done].
  cbn [for_each]. rewrite (h_bind_run _ _ w found w1) by done. by rewrite (h_bind_run _ _ w1 founds w2).
Qed.
End histories.
