(* ===== verification/HeapRuns.v ===== *)
(** The heap access methods on concrete relations: the witnesses of the heap's
    theorems, and runs that show what the statements of [src/src/executor/heap.rs]
    do to each other's rows. *)

From S2P Require Import Prelude Types Storage HeapPage Transaction BufferPool Wal Utf8 BTreePage TupleCodec HeapAccess HeapStatements HeapUpdates HeapHistories.

(** A log record as bytes: a number for its kind, then what it carries. *)
Definition record_bytes (r : WALRecord) : outcome bytes :=
  match r with
  | WalInsert oid pid t => d ← tuple_serialize t; Ok (to_le 4 1 ++ to_le 4 oid ++ to_le 4 pid ++ d)
  | WalUpdate oid pid t t' =>
      d ← tuple_serialize t; d' ← tuple_serialize t'; Ok (to_le 4 2 ++ to_le 4 oid ++ to_le 4 pid ++ d ++ d')
  | WalDelete oid pid t => d ← tuple_serialize t; Ok (to_le 4 3 ++ to_le 4 oid ++ to_le 4 pid ++ d)
  | _ => Err (Anyhow "not a heap record" [])
  end.

Definition heap_records : Bincode WALRecord :=
  {| bincode_serialize := record_bytes; bincode_deserialize := fun _ => Err (Anyhow "not read" []) |}.

#[local] Existing Instance debug_profile.
#[local] Existing Instance Tuple_Bincode.
#[local] Existing Instance Tuple_laws.
#[local] Existing Instance heap_records.

Definition text_column (name : string) (num : Z) : Attribute :=
  {| att_name := name; att_type_oid := 25; att_attnum := num; att_typmod := -1 |}.

Definition two_columns : TupleDesc := {| td_fields := [text_column "id" 1; text_column "name" 2] |}.

Definition table (oid : Oid) : Relation :=
  {| rel_oid := oid; rel_name := "t"; rel_tuple_desc := two_columns; rel_pages := []; rel_relpages := 0;
     rel_reltuples_bits := 0; rel_relfrozenxid := 0 |}.

(** An empty cache that knows the relations 1 and 2, over an empty store. *)
Definition empty_heap : heap_state EphemeralStorage :=
  Build_heap_state (register_relation (table 2) (register_relation (table 1) (SharedBufferCache_new EphemeralStorage_new)))
    (WAL_new 65536).

Definition row_a : list bytes := [[49]; [97; 110; 97]].
Definition row_b : list bytes := [[50]; [98; 111; 98]].

Definition ins (oid : Oid) (values : list bytes) (w : heap_state EphemeralStorage) : heap_state EphemeralStorage :=
  (tuple_insert {| ins_rel_oid := oid; ins_values := values |} w).2.

Definition values_of (r : outcome rows * heap_state EphemeralStorage) : outcome (list (list bytes)) :=
  match r.1 with Ok l => Ok l.*2 | Err e => Err e | Panic => Panic end.

(** The rows of a relation as the store has them, and as the cache has them. *)
Definition stored_rows (oid : Oid) (w : heap_state EphemeralStorage) := values_of (slow_scan {| scan_rel_oid := oid; scan_filter := None |} w).
Definition cached_rows (oid : Oid) (w : heap_state EphemeralStorage) := values_of (heap_scan oid w).

(* ---------------------------------------------------------------- *)
(** ** Statements on concrete relations *)

Example insert_and_scan : stored_rows 1 (ins 1 row_b (ins 1 row_a empty_heap)) = Ok [row_a; row_b].
Proof. vm_compute. reflexivity. Qed.

(** The first insert of a relation writes an empty page 1, whoever has it. *)
Example relations_share_page_one :
  let w := ins 2 row_b (ins 1 row_a empty_heap) in stored_rows 1 w = Ok [row_b] /\ stored_rows 2 w = Ok [row_b].
Proof. vm_compute. by split. Qed.

(** A statement's writes go past the cache, whose copy of the page stays. *)
Example cached_scan_is_stale :
  let w := ins 1 row_b (heap_scan 1 (ins 1 row_a empty_heap)).2 in
  cached_rows 1 w = Ok [row_a] /\ stored_rows 1 w = Ok [row_a; row_b].
Proof. vm_compute. by split. Qed.

(** An update takes the deleted versions of a row for live ones. *)
Example update_revives_deleted_row :
  let w := (tuple_delete 1 None (ins 1 row_a empty_heap)).2 in
  let u := tuple_update 1 1 [120] None w in
  stored_rows 1 w = Ok [] /\ u.1 = Ok 1 /\ stored_rows 1 u.2 = Ok [[[49]; [120]]].
Proof. vm_compute. by split_and!. Qed.

(** Deleting twice counts the deleted version again. *)
Example delete_counts_dead_versions :
  let d := tuple_delete 1 None (ins 1 row_a empty_heap) in d.1 = Ok 1 /\ (tuple_delete 1 None d.2).1 = Ok 1.
Proof. vm_compute. by split. Qed.

(** A snapshot that is older than an update sees neither version: the old one is
    behind a redirect, whose bytes are not written to the page. *)
Example update_hides_row_from_older_snapshot :
  let w := ins 1 row_a empty_heap in
  let before := {| snap_xid := current_xid (hs_wal w); active_xids := [] |} in
  let u := (tuple_update 1 1 [120] None w).2 in
  values_of (heap_scan_with_snapshot 1 before w) = Ok [row_a] /\ values_of (heap_scan_with_snapshot 1 before u) = Ok [].
Proof. vm_compute. by split. Qed.

(** A row with a wide second column. *)
Definition wide_row (key : Z) (width : nat) : list bytes := [[key]; replicate width 120].

(** An update whose new version does not fit keeps the old one deleted and drops
    the new one: the row is gone, and is counted as updated. *)
Example update_on_full_page_loses_row :
  let w := ins 1 (wide_row 50 (Z.to_nat 146)) (ins 1 (wide_row 49 (Z.to_nat 7646)) empty_heap) in
  let u := tuple_update 1 1 (replicate (Z.to_nat 216) 121) (Some {| flt_column := 0; flt_value := [50] |}) w in
  stored_rows 1 w = Ok [wide_row 49 (Z.to_nat 7646); wide_row 50 (Z.to_nat 146)] /\ u.1 = Ok 1 /\ stored_rows 1 u.2 = Ok [wide_row 49 (Z.to_nat 7646)].
Proof. vm_compute. by split_and!. Qed.

(** A row that is longer than the offset of the last tuple's bytes: the insert
    panics where a new page was due. *)
Example insert_after_wide_row_panics :
  let w := ins 1 (wide_row 49 (Z.to_nat 7646)) empty_heap in
  (tuple_insert {| ins_rel_oid := 1; ins_values := wide_row 50 (Z.to_nat 600) |} w).1 = Panic.
Proof. vm_compute. done. Qed.

(* ---------------------------------------------------------------- *)
(** ** A relation of one page and one row *)

Definition tuple_a : Tuple := inserted_tuple row_a 1.

Definition page_a : HeapPage :=
  match add_tuple HeapPage_new (tuple_bytes tuple_a) with Ok (_, p) => p | _ => HeapPage_new end.

(** Relation 1 has page 1, which holds the one row. *)
Definition one_row : heap_state EphemeralStorage :=
  let s := match HeapPage_serialize page_a with Ok d => (write_page EphemeralStorage_new 1 d).2 | _ => EphemeralStorage_new end in
  Build_heap_state (register_relation (with_pages (table 1) [1]) (SharedBufferCache_new s)) (WAL_new 65536).

Definition one_row_state : MutableRelationState :=
  {| mrs_relation := with_pages (table 1) [1]; mrs_dirty_buffers := [] |}.

Lemma page_a_stored : stored_page (store one_row) 1 page_a.
Proof.
  split.
  - eexists. split; [vm_compute; reflexivity|]. vm_compute. reflexivity.
  - split; try split; [vm_compute; intuition discriminate ..| |].
    + repeat constructor; vm_compute; intuition discriminate.
    + apply Forall_singleton. apply tuple_bytes_ok.
  - vm_compute. split; [intros _; discriminate|done].
  - reflexivity.
Qed.

Lemma one_row_ok : heap_ok (store one_row) [1].
Proof.
  split; [apply NoDup_singleton|]. apply Forall_singleton. split; [by vm_compute|]. exists page_a. apply page_a_stored.
Qed.

Lemma one_row_versions : stored_versions (store one_row) [1] = [tuple_a].
Proof. vm_compute. reflexivity. Qed.

Lemma new_log n : 0 <= n < 1000 -> log_room n (WAL_new 65536).
Proof.
  intros Hn. exists []. split_and!; [by apply wal_log_new|cbn; lia|].
  intros r [(oid & pid & t & d & [-> | ->] & Hd & Hl)|(oid & pid & t & d & t' & d' & -> & Hd & Hl & Hd' & Hl')];
    cbn [bincode_serialize heap_records record_bytes Tuple_Bincode] in *; rewrite Hd, ok_bind; [| |rewrite Hd', ok_bind];
    (eexists; split; [done|]); cbn [segment_size hs_wal one_row WAL_new]; rewrite !length_app, !length_to_le; lia.
Qed.

Lemma one_row_log n : 0 <= n < 1000 -> log_room n (hs_wal one_row).
Proof. apply new_log. Qed.

Lemma one_row_append oid t d :
  tuple_serialize t = Ok d -> zlen d <= 8192 ->
  forall pid, exists lsn wal, append (WalInsert oid pid t) (snd (allocate_xid (hs_wal one_row))) = (Ok lsn, wal).
Proof.
  intros Hd Hl pid. assert (Hw : wal_log [] (allocate_xid (hs_wal one_row)).2).
  { destruct (wal_log_new 65536) as [? ? ? ?]; [done|]. by split. }
  destruct (append_log [] _ (WalInsert oid pid t) (to_le 4 1 ++ to_le 4 oid ++ to_le 4 pid ++ d) Hw) as (lsn & wal & Ha & _).
  - cbn [bincode_serialize heap_records record_bytes]. by rewrite Hd.
  - cbn [segment_size hs_wal one_row WAL_new allocate_xid snd]. rewrite !length_app, !length_to_le. lia.
  - cbn. lia.
  - by exists lsn, wal.
Qed.

Lemma one_row_pool : pool_mapped one_row.
Proof. intros pid idx H. vm_compute in H. destruct pid; discriminate. Qed.

Lemma row_roundtrip_witness : decode_tuple_values (inserted_tuple row_a 1) two_columns = row_a.
Proof.
  apply (row_roundtrip row_a 1 two_columns); [|reflexivity].
  repeat constructor; vm_compute; try discriminate; intuition discriminate.
Defined.

Lemma slow_scan_spec_witness :
  exists found, slow_scan {| scan_rel_oid := 1; scan_filter := None |} one_row = (Ok found, one_row) /\
    found.*2 = visible_rows (scan_admits None) latest_snapshot two_columns (stored_versions (store one_row) [1]).
Proof.
  apply (slow_scan_spec one_row {| scan_rel_oid := 1; scan_filter := None |} one_row_state); [reflexivity|].
  exact one_row_ok.
Defined.

Lemma tuple_insert_spec_witness :
  exists w' st', tuple_insert {| ins_rel_oid := 1; ins_values := row_b |} one_row = (Ok tt, w') /\
    get_relation_state 1 (hs_cache w') = Some st' /\
    stored_versions (store w') (rel_pages (mrs_relation st')) ≡ₚ [tuple_a] ++ [inserted_tuple row_b 1].
Proof.
  destruct (tuple_insert_spec (fun _ => True) one_row {| ins_rel_oid := 1; ins_values := row_b |} one_row_state)
    as (w' & st' & Hr & _ & Hst & _ & _ & Hv & _).
  - done.
  - reflexivity.
  - exact one_row_ok.
  - refine (bool_decide_unpack _ _). vm_compute. exact I.
  - intros d Hd. vm_compute in Hd. injection Hd as <-. split; [vm_compute; discriminate|].
    intros pid p Hlast Hp. injection Hlast as <-. destruct Hp as [(data & Hr & Hp) _ _ _].
    vm_compute in Hr. injection Hr as <-. vm_compute in Hp. injection Hp as <-. vm_compute. discriminate.
  - intros pid Hlast. injection Hlast as <-. split; [by vm_compute|]. set_solver.
  - eapply one_row_append; [vm_compute; reflexivity|]. vm_compute. discriminate.
  - exists w', st'. split_and!; [exact Hr|exact Hst|]. rewrite <- one_row_versions. exact Hv.
Defined.

Lemma tuple_delete_spec_witness :
  exists w', tuple_delete 1 None one_row = (Ok 1, w') /\ stored_versions (store w') [1] = [with_xmax tuple_a 1].
Proof.
  destruct (tuple_delete_spec (fun _ => True) one_row 1 None one_row_state) as (w' & Hr & _ & _ & _ & Hv & _).
  - done.
  - reflexivity.
  - exact one_row_ok.
  - by vm_compute.
  - apply one_row_log. cbn [one_row_state mrs_relation with_pages rel_pages]. rewrite one_row_versions. by vm_compute.
  - exists w'. cbn [one_row_state mrs_relation with_pages rel_pages] in Hr, Hv. rewrite one_row_versions in Hr, Hv.
    split; [exact Hr|exact Hv].
Defined.

Lemma update_small (u : Tuple -> option bytes) m t :
  (forall data, u t = Some data -> bytes_ok data /\ 48 + 2 * zlen (tup_slots t) + zlen data <= m /\ m < 2 ^ 32) -> update_ok u m t.
Proof.
  intros Hu data Hd. destruct (Hu data Hd) as (Hb & Hm & Hl). split_and!; [done|lia|]. intros x e. cbn [bincode_serialize Tuple_Bincode].
  unfold tuple_serialize. case_decide; [|done]. intros [= <-]. unfold tuple_bytes, put_vec. cbn [with_version tup_slots tup_data].
  rewrite !length_app, !length_to_le, !length_put_les. lia.
Qed.

(** The pages of a state that can be computed have the room. *)
Lemma room_computed u m (s : EphemeralStorage) pid p :
  (data ← read_page s pid; HeapPage_deserialize data) = Ok p -> touched u (versions_of p) * (m + 4) <= free_bytes p -> room_for u m s [pid].
Proof.
  intros Hr Hp. apply Forall_singleton. intros p' [(data & Hd & Hp') _ _ _]. rewrite Hd in Hr. cbn in Hr. rewrite Hp' in Hr. by injection Hr as <-.
Qed.

Ltac bytes_computed := repeat constructor; vm_compute; try discriminate; intuition discriminate.

Lemma tuple_update_spec_witness :
  exists w', tuple_update 1 1 [120] None one_row = (Ok 1, w') /\ stored_versions (store w') [1] ≡ₚ [with_version tuple_a 1 [49; 0; 120]].
Proof.
  destruct (tuple_update_spec (fun _ => True) one_row 1 1 [120] None one_row_state 100) as (w' & Hr & _ & _ & _ & Hv & _).
  - done.
  - reflexivity.
  - exact one_row_ok.
  - by vm_compute.
  - cbn [one_row_state mrs_relation with_pages rel_pages]. rewrite one_row_versions. apply Forall_singleton, update_small. intros data Hd.
    vm_compute in Hd. injection Hd as <-. split; [bytes_computed|by vm_compute].
  - eapply room_computed; [vm_compute; reflexivity|by vm_compute].
  - apply one_row_log. cbn [one_row_state mrs_relation with_pages rel_pages]. rewrite one_row_versions. by vm_compute.
  - exists w'. cbn [one_row_state mrs_relation with_pages rel_pages] in Hr, Hv. rewrite one_row_versions in Hr, Hv.
    split; [exact Hr|exact Hv].
Defined.

Lemma vacuum_relation_spec_witness :
  exists w', vacuum_relation 1 5 one_row = (Ok 0, w') /\ stored_versions (store w') [1] = [tuple_a].
Proof.
  destruct (vacuum_relation_spec (fun _ => True) one_row 1 5 one_row_state (fun _ => true) two_columns)
    as (w' & Hr & _ & _ & _ & Hv & _).
  - done.
  - reflexivity.
  - exact one_row_ok.
  - exact one_row_pool.
  - exists w'. cbn [one_row_state mrs_relation with_pages rel_pages] in Hr, Hv. rewrite one_row_versions in Hr, Hv.
    split; [exact Hr|exact Hv].
Defined.

(* ---------------------------------------------------------------- *)
(** ** A history of a relation *)

Definition id_is (id : Z) : option Filter := Some {| flt_column := 0; flt_value := [id] |}.

Definition some_calls : list heap_call :=
  [CallInsert row_a; CallInsert row_b; CallScan None; CallDelete (id_is 49); CallVacuum 7; CallScan None; CallInsert row_a;
   CallUpdate 1 [120] (id_is 50); CallScan (id_is 49)].

Definition empty_state : MutableRelationState := {| mrs_relation := table 1; mrs_dirty_buffers := [] |}.

Lemma empty_holds k : 0 <= k < 1000 -> holds (fun _ => True) 1 two_columns (Contents [] []) 0 k empty_heap empty_state.
Proof.
  intros Hk. split; try done.
  - split; [constructor|by apply Forall_nil_2].
  - cbn. lia.
  - by apply new_log.
Qed.

Lemma some_row_ok v : In v [row_a; row_b] -> call_ok two_columns (CallInsert v).
Proof.
  intros [<-|[<-|[]]]; (split_and!; [| |done|done|done]); repeat constructor; vm_compute; try discriminate; intuition discriminate.
Qed.

Lemma some_calls_ok : Forall (call_ok two_columns) some_calls.
Proof. repeat (apply Forall_cons; split); try apply Forall_nil_2; try done; first [apply some_row_ok; cbn; auto | split; [bytes_computed|done]]. Qed.

(** A row fits, when that can be computed. *)
Lemma insert_fits_computed values (w : heap_state EphemeralStorage) st d pid p :
  get_relation_state 1 (hs_cache w) = Some st -> bincode_serialize (inserted_tuple values (current_xid (hs_wal w))) = Ok d ->
  rel_pages (mrs_relation st) = [pid] -> zlen d <= 1000 -> is_u32 (pid + 1) ->
  (data ← read_page (store w) pid; HeapPage_deserialize data) = Ok p -> 1000 <= pd_upper (header p) -> insert_fits 1 values w.
Proof.
  intros Hst Hd Hpids Hl Hu Hp Hup st' d' Hst' Hd'. rewrite Hst in Hst'. injection Hst' as <-. rewrite Hd in Hd'. injection Hd' as <-.
  rewrite Hpids. cbn zeta. split; [lia|]. intros pid' [= <-]. split_and!; [done|intros Hin%list_elem_of_singleton; lia|].
  intros p' [(data & Hr & Hdec) _ _ _]. rewrite Hr in Hp. cbn in Hp. rewrite Hdec in Hp. injection Hp as <-. lia.
Qed.

Lemma some_calls_fit : fits 1 some_calls empty_heap.
Proof.
  split; [|split; [|split; [done|split; [done|split; [done|split; [done|split; [|split; [|split; done]]]]]]]].
  - intros st d Hst Hd. vm_compute in Hst. injection Hst as <-. vm_compute in Hd. injection Hd as <-. split; [by vm_compute|done].
  - eapply insert_fits_computed; [vm_compute; reflexivity..|by vm_compute|by vm_compute|vm_compute; reflexivity|by vm_compute].
  - eapply insert_fits_computed; [vm_compute; reflexivity..|by vm_compute|by vm_compute|vm_compute; reflexivity|by vm_compute].
  - intros st Hst. vm_compute in Hst. injection Hst as <-. cbn zeta. exists 100. split.
    + match goal with |- Forall _ ?vs => let vs' := eval vm_compute in vs in change vs with vs' end.
      repeat (apply Forall_cons; split); try apply Forall_nil_2; apply update_small; intros data Hd; vm_compute in Hd; try discriminate Hd;
        injection Hd as <-; (split; [bytes_computed|by vm_compute]).
    + eapply room_computed; [vm_compute; reflexivity|by vm_compute].
Qed.

(** The deletion and the vacuum took the first row away; it was inserted again, and the
    other one changed. *)
Lemma heap_refines_witness :
  exists found answers t' w' st' n', for_each (call_run 1) some_calls empty_heap = (Ok found, w') /\
    Forall2 (≡ₚ) found answers /\ calls_spec some_calls (Contents [] []) answers t' /\
    holds (fun _ => True) 1 two_columns t' n' 0 w' st'.
Proof.
  apply (heap_refines (fun _ => True) 1 two_columns some_calls (Contents [] []) 0 empty_heap empty_state).
  - apply empty_holds. by vm_compute.
  - discriminate.
  - exact some_calls_ok.
  - exact some_calls_fit.
Defined.

Example some_calls_rows : stored_rows 1 (for_each (call_run 1) some_calls empty_heap).2 = Ok [row_a; [[50]; [120]]].
Proof. vm_compute. done. Qed.
