(* ===== verification/SqlText.v ===== *)
(** Rust strings as the SQL layer uses them. A [String] is a Rocq [string]: one
    [ascii] for each byte of its UTF-8 encoding, so that [=], the order, [len]
    and [contains] are those of the standard library. The tables of Unicode (case
    mapping, and what [{:?}] escapes) are a parameter, of which the code relies on
    what they say about ASCII. *)

From Stdlib Require Export Ascii String.
From stdpp Require Export pretty.
From S2P Require Import Prelude.

(** Keep the list functions in front of those of [String]. *)
Export stdpp.list Prelude.
Abbreviation length := List.length.

Open Scope string_scope.
Open Scope list_scope.
Open Scope Z_scope.

(* ------------------------------------------------------------------ *)
(** ** Bytes *)

Definition byte_of (c : ascii) : Z := Z.of_N (N_of_ascii c).
Definition of_byte (b : Z) : ascii := ascii_of_N (Z.to_N b).

Fixpoint bytes_of (s : string) : bytes :=
  match s with EmptyString => [] | String c s => byte_of c :: bytes_of s end.

Fixpoint text_of (bs : bytes) : string :=
  match bs with [] => EmptyString | b :: bs => String (of_byte b) (text_of bs) end.

Lemma byte_of_range c : 0 <= byte_of c < 256.
Proof. unfold byte_of. pose proof (N_ascii_bounded c). lia. Qed.

Lemma of_byte_of c : of_byte (byte_of c) = c.
Proof. unfold of_byte, byte_of. rewrite N2Z.id. apply ascii_N_embedding. Qed.

Lemma byte_of_of b : is_u8 b -> byte_of (of_byte b) = b.
Proof. intros Hb. unfold of_byte, byte_of. rewrite N_ascii_embedding by (unfold in_width in Hb; lia). unfold in_width in Hb. lia. Qed.

Lemma text_of_bytes s : text_of (bytes_of s) = s.
Proof. induction s as [|c s IH]; cbn; [done|]. by rewrite of_byte_of, IH. Qed.

Lemma bytes_of_text bs : bytes_ok bs -> bytes_of (text_of bs) = bs.
Proof. induction 1 as [|b bs Hb _ IH]; cbn; [done|]. by rewrite byte_of_of, IH. Qed.

Lemma bytes_of_ok s : bytes_ok (bytes_of s).
Proof. induction s as [|c s IH]; constructor; [|done]. pose proof (byte_of_range c). split; cbn; lia. Qed.

(** [str::len]. *)
Definition text_len (s : string) : Z := Z.of_nat (String.length s).

(* ------------------------------------------------------------------ *)
(** ** ASCII case *)

Definition ascii_lower (c : ascii) : ascii :=
  let b := byte_of c in if (65 <=? b) && (b <=? 90) then of_byte (b + 32) else c.
Definition ascii_upper (c : ascii) : ascii :=
  let b := byte_of c in if (97 <=? b) && (b <=? 122) then of_byte (b - 32) else c.

Fixpoint map_text (f : ascii -> ascii) (s : string) : string :=
  match s with EmptyString => EmptyString | String c s => String (f c) (map_text f s) end.

Definition eq_ignore_ascii_case (a b : string) : bool := bool_decide (map_text ascii_lower a = map_text ascii_lower b).

Definition is_ascii_text (s : string) : bool := forallb (fun b => b <? 128) (bytes_of s).

(** [to_lowercase], [to_uppercase] and the [{:?}] of a string. *)
Class Unicode := {
  to_lowercase : string -> string;
  to_uppercase : string -> string;
  escape_debug : string -> string;
}.

Class UnicodeLaws `{Unicode} := {
  lowercase_ascii : forall s, is_ascii_text s = true -> to_lowercase s = map_text ascii_lower s;
  uppercase_ascii : forall s, is_ascii_text s = true -> to_uppercase s = map_text ascii_upper s;
}.

(** Tables that know ASCII alone. *)
Definition Ascii_Unicode : Unicode := {|
  to_lowercase := map_text ascii_lower;
  to_uppercase := map_text ascii_upper;
  escape_debug := fun s => String (of_byte 34) s +:+ String (of_byte 34) EmptyString;
|}.

Lemma Ascii_laws : @UnicodeLaws Ascii_Unicode.
Proof. by split. Qed.

Lemma eq_ignore_ascii_case_refl s : eq_ignore_ascii_case s s = true.
Proof. by apply bool_decide_eq_true. Qed.

Lemma eq_ignore_ascii_case_sym a b : eq_ignore_ascii_case a b = eq_ignore_ascii_case b a.
Proof. apply bool_decide_ext. by split. Qed.

(* ------------------------------------------------------------------ *)
(** ** Order and search *)

(** The order of [str]: by bytes. *)
Definition text_cmp (a b : string) : comparison := String.compare a b.
Definition text_ltb (a b : string) : bool := match text_cmp a b with Lt => true | _ => false end.
Definition text_leb (a b : string) : bool := match text_cmp a b with Gt => false | _ => true end.

Lemma text_cmp_eq a b : text_cmp a b = Eq <-> a = b.
Proof. unfold text_cmp. split; [apply String.compare_eq_iff|]. intros <-. induction a as [|c a IH]; cbn; [done|].
  unfold Ascii.compare. by rewrite N.compare_refl. Qed.

Lemma text_cmp_refl a : text_cmp a a = Eq.
Proof. by apply text_cmp_eq. Qed.

Lemma text_cmp_antisym a b : text_cmp a b = CompOpp (text_cmp b a).
Proof. apply String.compare_antisym. Qed.

Lemma ascii_cmp_trans a b c o : Ascii.compare a b = o -> Ascii.compare b c = o -> Ascii.compare a c = o.
Proof. unfold Ascii.compare. destruct o; rewrite ?N.compare_eq_iff, ?N.compare_lt_iff, ?N.compare_gt_iff; lia. Qed.

Lemma text_cmp_trans o a b c : text_cmp a b = o -> text_cmp b c = o -> text_cmp a c = o.
Proof.
  unfold text_cmp. revert b c. induction a as [|x a IH]; intros [|y b] [|z c]; cbn; try congruence.
  destruct (Ascii.compare x y) eqn:Exy, (Ascii.compare y z) eqn:Eyz.
  all: try (rewrite (ascii_cmp_trans x y z _ Exy Eyz); eauto; congruence).
  all: try congruence.
  all: try (apply Ascii.compare_eq_iff in Exy as ->; rewrite Eyz; congruence).
  all: try (apply Ascii.compare_eq_iff in Eyz as <-; rewrite Exy; congruence).
Qed.

#[export] Instance text_cmp_total : TotalOrder text_cmp.
Proof.
  split; [intros x y; apply text_cmp_antisym|]. intros x y z. unfold cmp_le. intros H H'.
  destruct (text_cmp x y) eqn:E; [by apply text_cmp_eq in E as ->| |done].
  destruct (text_cmp y z) eqn:E'; [apply text_cmp_eq in E' as <-; congruence| |done]. by rewrite (text_cmp_trans Lt x y z).
Qed.

Lemma text_leb_total a b : text_leb a b = true \/ text_leb b a = true.
Proof. unfold text_leb. rewrite (text_cmp_antisym b a). destruct (text_cmp a b); cbn; auto. Qed.

Fixpoint text_contains (hay needle : string) : bool :=
  String.prefix needle hay || match hay with EmptyString => false | String _ hay => text_contains hay needle end.

(** [replace("%", "")]. *)
Fixpoint remove_percent (s : string) : string :=
  match s with
  | EmptyString => EmptyString
  | String c s => if Ascii.eqb c "%" then remove_percent s else String c (remove_percent s)
  end.

Lemma text_contains_spec hay needle :
  text_contains hay needle = true <-> exists pre post, hay = pre +:+ needle +:+ post.
Proof.
  assert (Hp : forall n h, String.prefix n h = true <-> exists post, h = n +:+ post).
  { induction n as [|c n IH]; intros [|d h]; cbn.
    - by split; [exists ""|].
    - split; [by eexists|done].
    - split; [done|by intros []].
    - destruct (ascii_dec c d) as [->|]; [rewrite IH|]; split.
      + intros [post ->]. by exists post.
      + intros [post [= ->]]. by exists post.
      + done.
      + intros [post [= ]]. congruence. }
  induction hay as [|c hay IH]; cbn [text_contains].
  - rewrite orb_false_r, Hp. split; [intros [post ->]; by exists EmptyString, post|].
    intros ([|? ?] & post & E); [by exists post|done].
  - rewrite orb_true_iff, Hp, IH. split.
    + intros [[post E]|(pre & post & ->)]; [by exists EmptyString, post|by exists (String c pre), post].
    + intros ([|d pre] & post & E); [left; by exists post|]. injection E as -> ->. right. by exists pre, post.
Qed.

(* ------------------------------------------------------------------ *)
(** ** Characters *)

(** The bytes of the first character of UTF-8 text: its first byte and the
    continuation bytes after it. *)
Definition is_continuation (c : ascii) : bool := let b := byte_of c in (128 <=? b) && (b <? 192).

Fixpoint text_chars (s : string) : list string :=
  match s with
  | EmptyString => []
  | String c s =>
      match text_chars s with
      | (String d r) :: cs => if is_continuation d then String c (String d r) :: cs else String c EmptyString :: String d r :: cs
      | cs => String c EmptyString :: cs
      end
  end.

Fixpoint text_concat (l : list string) : string :=
  match l with [] => EmptyString | s :: l => s +:+ text_concat l end.

(** [join]. *)
Fixpoint text_join (sep : string) (l : list string) : string :=
  match l with [] => EmptyString | [s] => s | s :: l => s +:+ sep +:+ text_join sep l end.

Lemma text_chars_concat s : text_concat (text_chars s) = s.
Proof.
  induction s as [|c s IH]; cbn; [done|]. destruct (text_chars s) as [|[|d r] cs]; cbn in *; [by rewrite <- IH..|].
  destruct (is_continuation d); cbn; by rewrite <- IH.
Qed.

(** [char::is_whitespace], by the character's bytes. *)
Definition is_space (c : string) : bool :=
  match bytes_of c with
  | [b] => ((9 <=? b) && (b <=? 13)) || (b =? 32)
  | [194; b] => (b =? 133) || (b =? 160)
  | [225; 154; 128] => true
  | [226; 128; b] => ((128 <=? b) && (b <=? 138)) || (b =? 168) || (b =? 169) || (b =? 175)
  | [226; 129; 159] => true
  | [227; 128; 128] => true
  | _ => false
  end.

Fixpoint drop_spaces (cs : list string) : list string :=
  match cs with c :: cs' => if is_space c then drop_spaces cs' else cs | [] => [] end.

(** [trim]. *)
Definition trim (s : string) : string := text_concat (rev (drop_spaces (rev (drop_spaces (text_chars s))))).

(* ------------------------------------------------------------------ *)
(** ** Numbers as text *)

Definition is_digit (c : ascii) : bool := let b := byte_of c in (48 <=? b) && (b <=? 57).

(** The value of a run of digits after those already read. *)
Fixpoint digits_value (acc : Z) (s : string) : option Z :=
  match s with
  | EmptyString => Some acc
  | String c s => if is_digit c then digits_value (acc * 10 + (byte_of c - 48)) s else None
  end.

Definition parse_digits (s : string) : option Z :=
  match s with EmptyString => None | _ => digits_value 0 s end.

Definition in_range (lo hi z : Z) : option Z := if (lo <=? z) && (z <=? hi) then Some z else None.

(** [parse::<usize>] and [parse::<u32>]: [w] bits. *)
Definition parse_unsigned (w : Z) (s : string) : option Z :=
  match s with
  | String "+" s => parse_digits s ≫= in_range 0 (2 ^ w - 1)
  | _ => parse_digits s ≫= in_range 0 (2 ^ w - 1)
  end.

(** [parse::<i64>]. *)
Definition parse_i64 (s : string) : option Z :=
  match s with
  | String "+" s => parse_digits s ≫= in_range (- 2 ^ 63) (2 ^ 63 - 1)
  | String "-" s => (Z.opp <$> parse_digits s) ≫= in_range (- 2 ^ 63) (2 ^ 63 - 1)
  | _ => parse_digits s ≫= in_range (- 2 ^ 63) (2 ^ 63 - 1)
  end.

Definition parse_bool (s : string) : option bool :=
  if String.eqb s "true" then Some true else if String.eqb s "false" then Some false else None.

(** [to_string] of a boolean. *)
Definition bool_text (b : bool) : string := if b then "true" else "false".

Lemma parse_bool_text b : parse_bool (bool_text b) = Some b.
Proof. by destruct b. Qed.

Lemma bool_text_inj b c : bool_text b = bool_text c -> b = c.
Proof. by destruct b, c. Qed.

Lemma digit_char d : (d < 10)%N -> is_digit (pretty_N_char d) = true /\ byte_of (pretty_N_char d) - 48 = Z.of_N d.
Proof.
  intros Hd. assert (d = 0 \/ d = 1 \/ d = 2 \/ d = 3 \/ d = 4 \/ d = 5 \/ d = 6 \/ d = 7 \/ d = 8 \/ d = 9)%N as E by lia.
  by destruct_or! E; subst.
Qed.

Lemma digits_value_go x s : digits_value 0 (pretty_N_go x s) = digits_value (Z.of_N x) s.
Proof.
  revert s. induction (N.lt_wf_0 x) as [x _ IH]; intros s. destruct (decide (x = 0)%N) as [->|Hx]; [done|].
  rewrite pretty_N_go_step by lia. rewrite IH by (apply N.div_lt; lia). cbn [digits_value].
  destruct (digit_char (x `mod` 10)%N) as [-> ->]; [by apply N.mod_lt|]. f_equal.
  rewrite (N.div_mod x 10) at 3 by done. lia.
Qed.

Lemma pretty_go_nonempty x c s : exists d r, pretty_N_go x (String c s) = String d r.
Proof.
  revert c s. induction (N.lt_wf_0 x) as [x _ IH]; intros c s. destruct (decide (x = 0)%N) as [->|Hx]; [by eexists _, _|].
  rewrite pretty_N_go_step by lia. apply IH. apply N.div_lt; lia.
Qed.

Lemma parse_digits_pretty (n : N) : parse_digits (pretty n) = Some (Z.of_N n).
Proof.
  unfold pretty, pretty_N. case_decide as Hn; [by subst|]. pose proof (digits_value_go n EmptyString) as Hv.
  change (digits_value (Z.of_N n) EmptyString) with (Some (Z.of_N n)) in Hv.
  rewrite pretty_N_go_step in Hv |- * by lia.
  destruct (pretty_go_nonempty (n `div` 10)%N (pretty_N_char (n `mod` 10)%N) EmptyString) as (d & r & E).
  rewrite E in Hv |- *. exact Hv.
Qed.

(** A number prints as digits, which read back as the number. *)
Lemma parse_unsigned_pretty w z : 0 <= z < 2 ^ w -> parse_unsigned w (pretty z) = Some z.
Proof.
  intros Hz. assert (Hp : parse_digits (pretty z) = Some z).
  { destruct z as [|p|p]; [done| |lia]. by apply (parse_digits_pretty (Npos p)). }
  assert (Hr : Some z ≫= in_range 0 (2 ^ w - 1) = Some z).
  { cbn. unfold in_range. by rewrite !(proj2 (Z.leb_le _ _)) by lia. }
  unfold parse_unsigned. destruct (pretty z) as [|c r]; [done|].
  assert (Ed : is_digit c = true).
  { unfold parse_digits in Hp. cbn [digits_value] in Hp. by destruct (is_digit c). }
  destruct c as [[] [] [] [] [] [] [] []]; try done; rewrite Hp; exact Hr.
Qed.

Lemma text_app_cons c s t : String c s +:+ t = String c (s +:+ t).
Proof. done. Qed.

Lemma text_length_app s t : String.length (s +:+ t) = (String.length s + String.length t)%nat.
Proof. induction s as [|c s IH]; [done|]. rewrite text_app_cons. cbn. by rewrite IH. Qed.
