(* ===== verification/Float64.v ===== *)
(** The [f64] of the SQL layer: IEEE double precision on the Standard Library's
    [spec_float], with [str::parse::<f64>] (the nearest double of a decimal) and
    [Display] (the shortest decimal that reads back, never with an exponent). *)

From Stdlib Require Import SpecFloat.
From S2P Require Import Prelude SqlText.

Abbreviation f64 := spec_float.

Definition f_add : f64 -> f64 -> f64 := SFadd 53 1024.
Definition f_sub : f64 -> f64 -> f64 := SFsub 53 1024.
Definition f_mul : f64 -> f64 -> f64 := SFmul 53 1024.
Definition f_div : f64 -> f64 -> f64 := SFdiv 53 1024.
Definition f_neg : f64 -> f64 := SFopp.
Definition f_eqb : f64 -> f64 -> bool := SFeqb.
Definition f_leb : f64 -> f64 -> bool := SFleb.
Definition f_zero : f64 := S754_zero false.
Definition f_one : f64 := S754_finite false (2 ^ 52) (-52).

(** [as f64] of an integer. *)
Definition f_of_Z (z : Z) : f64 := binary_normalize 53 1024 z 0 false.

(** The double nearest to [num / den], for positive numbers, ties to even. *)
Definition f_of_ratio (negative : bool) (num den : Z) : f64 :=
  let '(m, e, loc) := SFdiv_core_binary 53 1024 num 0 den 0 in binary_round_aux 53 1024 negative m e loc.

(** [m * 10^e]. *)
Definition f_of_decimal (negative : bool) (m e : Z) : f64 :=
  if m =? 0 then S754_zero negative
  else if 0 <=? e then f_of_ratio negative (m * 10 ^ e) 1 else f_of_ratio negative m (10 ^ (- e)).

(** [%]: the remainder of the truncated quotient, exact, with the dividend's sign. *)
Definition f_rem (x y : f64) : f64 :=
  match x, y with
  | S754_nan, _ | _, S754_nan | S754_infinity _, _ | _, S754_zero _ => S754_nan
  | S754_zero _, _ | _, S754_infinity _ => x
  | S754_finite s m e, S754_finite _ m' e' =>
      let k := Z.min e e' in
      let r := Z.rem (Zpos m * 2 ^ (e - k)) (Zpos m' * 2 ^ (e' - k)) in
      binary_normalize 53 1024 (if s then - r else r) k s
  end.

(* ------------------------------------------------------------------ *)
(** ** Reading *)

(** The digits at the front: their value after those read, how many there are,
    and the rest. *)
Fixpoint read_digits (acc n : Z) (s : string) : Z * Z * string :=
  match s with
  | String c r => if is_digit c then read_digits (acc * 10 + (byte_of c - 48)) (n + 1) r else (acc, n, s)
  | EmptyString => (acc, n, s)
  end.

(** The exponent, and nothing after it. *)
Definition read_exponent (s : string) : option Z :=
  match s with
  | EmptyString => Some 0
  | String c r =>
      if Ascii.eqb (ascii_lower c) "e" then
        match r with
        | String "+" r => parse_digits r
        | String "-" r => Z.opp <$> parse_digits r
        | _ => parse_digits r
        end
      else None
  end.

Definition read_number (negative : bool) (s : string) : option f64 :=
  let '(m, n, s) := read_digits 0 0 s in
  let '(m, n', s) :=
    match s with
    | String "." r => let '(m, k, r) := read_digits m 0 r in (m, k, r)
    | _ => (m, 0, s)
    end in
  if n + n' =? 0 then None else (fun e => f_of_decimal negative m (e - n')) <$> read_exponent s.

Definition read_unsigned (negative : bool) (s : string) : option f64 :=
  let l := map_text ascii_lower s in
  if String.eqb l "inf" || String.eqb l "infinity" then Some (S754_infinity negative)
  else if String.eqb l "nan" then Some S754_nan
  else read_number negative s.

Definition parse_f64 (s : string) : option f64 :=
  match s with
  | String "-" r => read_unsigned true r
  | String "+" r => read_unsigned false r
  | _ => read_unsigned false s
  end.

(* ------------------------------------------------------------------ *)
(** ** Printing *)

Definition f64_eqb (x y : f64) : bool :=
  match x, y with
  | S754_finite s m e, S754_finite s' m' e' => Bool.eqb s s' && Pos.eqb m m' && (e =? e')
  | _, _ => false
  end.

(** The largest [k] with [10^k <= num / den], next to an estimate from the
    binary lengths that is off by one at most. *)
Definition log10_floor (num den : Z) : Z :=
  let est := (Z.log2 num - Z.log2 den) * 30103 / 100000 in
  let below k := if 0 <=? k then 10 ^ k * den <=? num else den <=? num * 10 ^ (- k) in
  default (est - 2) (List.find below [est + 2; est + 1; est; est - 1]).

(** The [n]-digit decimals around [num / den] that are read as [x], the nearer
    first. *)
Definition decimals (x : f64) (num den n : Z) : list (Z * Z) :=
  let k := log10_floor num den - n + 1 in
  let num' := if 0 <=? k then num else num * 10 ^ (- k) in
  let den' := if 0 <=? k then den * 10 ^ k else den in
  let q := num' / den' in
  let up := den' <=? 2 * (num' - q * den') in
  let reads d := f64_eqb (f_of_decimal false d k) x in
  List.filter (fun dk => reads dk.1) (if up then [(q + 1, k); (q, k)] else [(q, k); (q + 1, k)]).

(** Seventeen digits are always enough. *)
Definition shortest (x : f64) (num den : Z) : Z * Z :=
  default (0, 0) (head (concat (decimals x num den <$> seqZ 1 17))).

Fixpoint zeros (n : nat) : string := match n with O => EmptyString | S n => String "0" (zeros n) end.

(** The digits [d] with the decimal point [k] places from their end. *)
Definition place_point (d k : Z) : string :=
  let ds := pretty (Z.to_N d) in
  let n := text_len ds in
  if 0 <=? k then ds +:+ zeros (Z.to_nat k)
  else if 0 <? n + k then
    String.substring 0 (Z.to_nat (n + k)) ds +:+ String "." (String.substring (Z.to_nat (n + k)) (Z.to_nat (- k)) ds)
  else "0." +:+ zeros (Z.to_nat (- (n + k))) +:+ ds.

Definition f64_text (x : f64) : string :=
  match x with
  | S754_nan => "NaN"
  | S754_infinity s => if s then "-inf" else "inf"
  | S754_zero s => if s then "-0" else "0"
  | S754_finite s m e =>
      let num := if 0 <=? e then Zpos m * 2 ^ e else Zpos m in
      let den := if 0 <=? e then 1 else 2 ^ (- e) in
      let '(d, k) := shortest (S754_finite false m e) num den in
      (if s then "-" else EmptyString) +:+ place_point d k
  end.

Example f64_sum : (x ← parse_f64 "0.1"; y ← parse_f64 "0.2"; Some (f_add x y)) = parse_f64 "0.30000000000000004".
Proof. reflexivity. Qed.

Example f64_texts :
  (fun s => f64_text <$> parse_f64 s) <$>
    ["0.1"; "100"; "1e21"; "-2.50"; "5e-324"; "1.7976931348623157e308x"; "."; "1."; ".5"; "-0"; "9007199254740993"; "123456.789e-3"] =
  [Some "0.1"; Some "100"; Some "1000000000000000000000"; Some "-2.5"; Some ("0." +:+ zeros 323 +:+ "5"); None; None; Some "1";
   Some "0.5"; Some "-0"; Some "9007199254740992"; Some "123.456789"].
Proof. vm_compute. reflexivity. Qed.

(* ------------------------------------------------------------------ *)
(** ** What is printed is a number *)

Fixpoint all_digits (s : string) : bool :=
  match s with EmptyString => true | String c s => is_digit c && all_digits s end.

Lemma text_app_nil s : s +:+ EmptyString = s.
Proof. induction s as [|c s IH]; [done|]. by rewrite text_app_cons, IH. Qed.

Lemma all_digits_app s t : all_digits (s +:+ t) = all_digits s && all_digits t.
Proof. induction s as [|c s IH]; [done|]. rewrite text_app_cons. cbn [all_digits]. by rewrite IH, andb_assoc. Qed.

Lemma all_digits_zeros n : all_digits (zeros n) = true.
Proof. by induction n. Qed.

Lemma all_digits_go x s : all_digits s = true -> all_digits (pretty_N_go x s) = true.
Proof.
  revert s. induction (N.lt_wf_0 x) as [x _ IH]; intros s Hs. destruct (decide (x = 0)%N) as [->|Hx]; [done|].
  rewrite pretty_N_go_step by lia. apply IH; [apply N.div_lt; lia|]. cbn. rewrite Hs, andb_true_r.
  apply digit_char. by apply N.mod_lt.
Qed.

Lemma all_digits_pretty (n : N) : all_digits (pretty n) = true.
Proof. unfold pretty, pretty_N. case_decide; [done|]. by apply all_digits_go. Qed.

Lemma pretty_nonempty (n : N) : exists c s, pretty n = String c s.
Proof.
  unfold pretty, pretty_N. case_decide as Hn; [by eexists _, _|]. rewrite pretty_N_go_step by lia. apply pretty_go_nonempty.
Qed.

Lemma all_digits_substring i n s : all_digits s = true -> all_digits (String.substring i n s) = true.
Proof.
  revert i n. induction s as [|c s IH]; intros [|i] [|n]; cbn; try done.
  - intros [Hc Hs]%andb_true_iff. rewrite Hc. by apply IH.
  - intros [_ Hs]%andb_true_iff. by apply IH.
  - intros [_ Hs]%andb_true_iff. by apply IH.
Qed.

(** The text does not go on with a digit. *)
Definition no_digit (s : string) : Prop := match s with String c _ => is_digit c = false | EmptyString => True end.

Lemma read_digits_app acc n ds rest :
  all_digits ds = true -> no_digit rest ->
  exists v, read_digits acc n (ds +:+ rest) = (v, n + text_len ds, rest).
Proof.
  intros Hd Hr. revert acc n. induction ds as [|c ds IH]; intros acc n.
  - exists acc. change (EmptyString +:+ rest) with rest.
    destruct rest as [|c rest]; cbn in *; [|rewrite Hr]; by rewrite Z.add_0_r.
  - cbn in Hd. apply andb_true_iff in Hd as [Hc Hd].
    rewrite text_app_cons. cbn [read_digits]. rewrite Hc.
    destruct (IH Hd (acc * 10 + (byte_of c - 48)) (n + 1)) as [v ->]. exists v. f_equal. f_equal. unfold text_len. cbn. lia.
Qed.

(** Digits, with a point and digits after them or not. *)
Inductive decimal_text : string -> Prop :=
| decimal_whole c ds : all_digits (String c ds) = true -> decimal_text (String c ds)
| decimal_fraction c ds ds' :
    all_digits (String c ds) = true -> all_digits ds' = true -> decimal_text (String c ds +:+ String "." ds').

Lemma read_number_decimal negative s : decimal_text s -> is_Some (read_number negative s).
Proof.
  intros [c ds Hd|c ds ds' Hd Hd']; unfold read_number.
  - destruct (read_digits_app 0 0 (String c ds) EmptyString Hd I) as [v Hv].
    rewrite text_app_nil in Hv.
    rewrite Hv. rewrite (proj2 (Z.eqb_neq _ _)) by (unfold text_len; cbn; lia). cbn. eauto.
  - destruct (read_digits_app 0 0 (String c ds) (String "." ds') Hd eq_refl) as [v ->].
    destruct (read_digits_app v 0 ds' EmptyString Hd' I) as [v' Hv].
    rewrite text_app_nil in Hv.
    rewrite Hv. rewrite (proj2 (Z.eqb_neq _ _)) by (unfold text_len; cbn; lia). cbn. eauto.
Qed.

Lemma read_unsigned_decimal negative s : decimal_text s -> is_Some (read_unsigned negative s).
Proof.
  intros Hs. unfold read_unsigned. destruct (_ || _); [eauto|]. destruct (String.eqb _ _); [eauto|]. by apply read_number_decimal.
Qed.

Lemma parse_decimal s : decimal_text s -> is_Some (parse_f64 s).
Proof.
  intros Hs. assert (exists c r, s = String c r /\ is_digit c = true) as (c & r & -> & Hc).
  { destruct Hs as [c ds Hd|c ds ds' Hd]; cbn in Hd; apply andb_true_iff in Hd as [Hc _]; by eexists _, _. }
  assert (parse_f64 (String c r) = read_unsigned false (String c r)) as ->.
  { destruct c as [[] [] [] [] [] [] [] []]; first [done | vm_compute in Hc; discriminate]. }
  by apply read_unsigned_decimal.
Qed.

Lemma place_point_decimal d k : decimal_text (place_point d k).
Proof.
  unfold place_point. destruct (pretty_nonempty (Z.to_N d)) as (c & s & E). pose proof (all_digits_pretty (Z.to_N d)) as Hd.
  rewrite E in Hd |- *. destruct (0 <=? k).
  - rewrite text_app_cons. constructor. rewrite <- text_app_cons. by rewrite all_digits_app, Hd, all_digits_zeros.
  - destruct (Z.ltb_spec 0 (text_len (String c s) + k)) as [Hn|Hn].
    + destruct (Z.to_nat (text_len (String c s) + k)) as [|n] eqn:En; [lia|]. cbn [String.substring].
      apply decimal_fraction.
      * cbn in Hd |- *. apply andb_true_iff in Hd as [-> Hd]. by apply all_digits_substring.
      * apply andb_true_iff in Hd as [_ Hd]. by apply all_digits_substring.
    + apply (decimal_fraction "0" EmptyString); [done|]. by rewrite all_digits_app, all_digits_zeros, Hd.
Qed.

(** Every double prints as text that reads as a double. *)
Lemma parse_f64_text x : is_Some (parse_f64 (f64_text x)).
Proof.
  destruct x as [s|s| |s m e]; cbn [f64_text]; [destruct s; by eexists..|by eexists|].
  destruct (shortest _ _ _) as [d k]. pose proof (place_point_decimal d k) as Hp.
  destruct s; [|by apply parse_decimal]. change (is_Some (read_unsigned true (place_point d k))). by apply read_unsigned_decimal.
Qed.

Lemma parse_f64_pretty (z : Z) : 0 <= z -> is_Some (parse_f64 (pretty z)).
Proof.
  intros Hz. apply parse_decimal. assert (pretty z = pretty (Z.to_N z)) as -> by (by destruct z).
  destruct (pretty_nonempty (Z.to_N z)) as (c & s & E). rewrite E. constructor. rewrite <- E. apply all_digits_pretty.
Qed.
