(* ===== verification/TextOps.v ===== *)
(** Operations on strings beside those of SqlText.v, as the standard library has
    them: finding, slicing at character boundaries, splitting, trimming, and numbers
    in hexadecimal. *)

From S2P Require Import Prelude SqlText Float64.

(** [find] of a string: the byte index of its first occurrence. *)
Fixpoint text_find (needle hay : string) : option Z :=
  if String.prefix needle hay then Some 0
  else match hay with EmptyString => None | String _ hay => Z.succ <$> text_find needle hay end.

(** [is_char_boundary]. *)
Definition is_boundary (i : Z) (s : string) : bool :=
  match String.get (Z.to_nat i) s with Some c => negb (is_continuation c) | None => i =? text_len s end.

(** [&s[lo..hi]] and [&s[lo..]]. *)
Definition text_slice (lo hi : Z) (s : string) : outcome string :=
  if (0 <=? lo) && (lo <=? hi) && (hi <=? text_len s) && is_boundary lo s && is_boundary hi s
  then Ok (String.substring (Z.to_nat lo) (Z.to_nat (hi - lo)) s) else Panic.
Definition text_from (lo : Z) (s : string) : outcome string := text_slice lo (text_len s) s.

(** [trim_start_matches] and [trim_end_matches] of an ASCII character. *)
Fixpoint trim_start_matches (c : ascii) (s : string) : string :=
  match s with String d s' => if Ascii.eqb d c then trim_start_matches c s' else s | EmptyString => EmptyString end.
Fixpoint trim_end_matches (c : ascii) (s : string) : string :=
  match s with
  | EmptyString => EmptyString
  | String d s => match trim_end_matches c s with EmptyString => if Ascii.eqb d c then EmptyString else String d EmptyString | r => String d r end
  end.

(** [split] at an ASCII character. *)
Fixpoint text_split (c : ascii) (s : string) : list string :=
  match s with
  | EmptyString => [EmptyString]
  | String d s =>
      if Ascii.eqb d c then EmptyString :: text_split c s
      else match text_split c s with x :: xs => String d x :: xs | [] => [String d EmptyString] end
  end.

(** [splitn(2, pat)], when there are two parts. *)
Definition split_once (pat s : string) : option (string * string) :=
  i ← text_find pat s;
  Some (String.substring 0 (Z.to_nat i) s, String.substring (Z.to_nat i + String.length pat) (String.length s) s).

(** [split_whitespace]. *)
Fixpoint words_of (word : string) (cs : list string) : list string :=
  match cs with
  | [] => match word with EmptyString => [] | _ => [word] end
  | c :: cs =>
      if is_space c then match word with EmptyString => words_of EmptyString cs | _ => word :: words_of EmptyString cs end
      else words_of (word +:+ c) cs
  end.
Definition split_whitespace (s : string) : list string := words_of EmptyString (text_chars s).

Definition quote : ascii := of_byte 39.

(* ------------------------------------------------------------------ *)
(** ** Hexadecimal *)

(** The digits of [{:0nx}] and [{:0nX}], of a number that has no more than [n]. *)
Definition hex_digit (upper : bool) (d : Z) : ascii := of_byte (if d <? 10 then 48 + d else (if upper then 55 else 87) + d).

Fixpoint hex_text (upper : bool) (n : nat) (z : Z) : string :=
  match n with O => EmptyString | S n => hex_text upper n (z / 16) +:+ String (hex_digit upper (z mod 16)) EmptyString end.

(** [to_digit(16)] and [from_str_radix(.., 16)] for [u32]. *)
Definition hex_value (c : ascii) : option Z :=
  let b := byte_of c in
  if (48 <=? b) && (b <=? 57) then Some (b - 48)
  else if (65 <=? b) && (b <=? 70) then Some (b - 55)
  else if (97 <=? b) && (b <=? 102) then Some (b - 87) else None.

Fixpoint hex_digits (acc : Z) (s : string) : option Z :=
  match s with EmptyString => Some acc | String c s => d ← hex_value c; hex_digits (acc * 16 + d) s end.

Definition parse_hex (w : Z) (s : string) : option Z :=
  let s := match s with String c s' => if Ascii.eqb c "+" then s' else s | EmptyString => s end in
  match s with EmptyString => None | _ => z ← hex_digits 0 s; in_range 0 (2 ^ w - 1) z end.

Lemma length_hex_text upper n z : String.length (hex_text upper n z) = n.
Proof.
  revert z. induction n as [|n IH]; intros z; [done|]. cbn [hex_text]. rewrite text_length_app, IH. cbn. lia.
Qed.

Lemma hex_value_digit upper d : 0 <= d < 16 -> hex_value (hex_digit upper d) = Some d.
Proof.
  intros Hd. unfold hex_value, hex_digit. rewrite byte_of_of by (unfold in_width; destruct upper, (Z.ltb_spec d 10); lia).
  destruct upper, (Z.ltb_spec d 10); repeat case_match; try (f_equal; lia); exfalso; lia.
Qed.

Lemma hex_digits_app acc s t : hex_digits acc (s +:+ t) = (a ← hex_digits acc s; hex_digits a t).
Proof. revert acc. induction s as [|c s IH]; intros acc; [done|]. rewrite text_app_cons. cbn. destruct (hex_value c); cbn; auto. Qed.

Lemma hex_digits_text upper n z acc : 0 <= z < 16 ^ Z.of_nat n -> hex_digits acc (hex_text upper n z) = Some (acc * 16 ^ Z.of_nat n + z).
Proof.
  revert z acc. induction n as [|n IH]; intros z acc Hz; [cbn in *; f_equal; lia|].
  rewrite Nat2Z.inj_succ, Z.pow_succ_r in * by lia. cbn [hex_text]. rewrite hex_digits_app, IH.
  - cbn [mbind option_bind hex_digits]. rewrite hex_value_digit by (apply Z.mod_pos_bound; lia). cbn. f_equal.
    pose proof (Z.div_mod z 16). lia.
  - split; [apply Z.div_pos; lia|]. apply Z.div_lt_upper_bound; lia.
Qed.

Lemma hex_text_inj upper n z z' : 0 <= z < 16 ^ Z.of_nat n -> 0 <= z' < 16 ^ Z.of_nat n -> hex_text upper n z = hex_text upper n z' -> z = z'.
Proof. intros Hz Hz' E. pose proof (hex_digits_text upper n z 0 Hz) as H. rewrite E, hex_digits_text in H by done. injection H. lia. Qed.
