(* ===== verification/Ast.v ===== *)
(** The syntax trees of [src/src/sql/ast.rs]. The enums that mention no other
    part of the tree are each in a module of their own, so that their constructors
    are written as in the source ([BinaryOperator.Plus]); the rest, which refer to
    one another through subqueries, are one mutual definition, in which the
    constructor [C] of the enum [E] is [E_C] and a struct [S] has the constructor
    [mkS], with its fields as functions below. *)

From S2P Require Import Prelude SqlText.

(* ------------------------------------------------------------------ *)
(** ** Enums without parts *)

Module SetOperator.
Inductive SetOperator := Union | UnionAll | Intersect | IntersectAll | Except | ExceptAll.
End SetOperator.
Abbreviation SetOperator := SetOperator.SetOperator.

Module LockingClause.
Inductive LockingClause := ForUpdate | ForNoKeyUpdate | ForShare | ForKeyShare.
End LockingClause.
Abbreviation LockingClause := LockingClause.LockingClause.

Module ReferentialAction.
Inductive ReferentialAction := Restrict | Cascade | SetNull | SetDefault | NoAction.
End ReferentialAction.
Abbreviation ReferentialAction := ReferentialAction.ReferentialAction.

Module SetValue.
Inductive SetValue := Identifier (name : string) | String (s : string) | Number (n : string) | Default.
End SetValue.
Abbreviation SetValue := SetValue.SetValue.

Module SqlIsolation.
Inductive IsolationLevel := Serializable | RepeatableRead | ReadCommitted | ReadUncommitted.
End SqlIsolation.

Module JoinType.
Inductive JoinType := Inner | Left | Right | Full | Cross | Lateral.
End JoinType.
Abbreviation JoinType := JoinType.JoinType.

Module SortDirection.
Inductive SortDirection := Asc | Desc | Default.
End SortDirection.
Abbreviation SortDirection := SortDirection.SortDirection.

Module NullsOrder.
Inductive NullsOrder := First | Last | Default.
End NullsOrder.
Abbreviation NullsOrder := NullsOrder.NullsOrder.

Record ObjectName := { parts : list string }.

Definition ObjectName_single (name : string) : ObjectName := {| parts := [name] |}.

Module DataType.
Inductive DataType :=
| Int | BigInt | SmallInt | Float | Double
| Numeric (precision scale : Z) | Varchar (len : Z) | Char (len : Z)
| Text | Boolean | Date | Time | TimeTz | Timestamp | TimestampTz | Interval | Json | JsonB | Uuid
| Serial | BigSerial | SmallSerial | Money | Inet | Cidr | MacAddr
| Bit (len : Z) | BitVarying (len : Z)
| TsVector | TsQuery
| Array (elem : DataType)
| Custom (name : list string).
End DataType.
Abbreviation DataType := DataType.DataType.

Module Literal.
Inductive Literal :=
| Number (n : string) | String (s : string) | Bool (b : bool) | Null | Blob (data : bytes)
| Date (s : string) | Time (s : string) | Timestamp (s : string) | TimestampTz (s : string) | Interval (s : string)
| Json (s : string) | JsonB (s : string) | Uuid (s : string) | Money (s : string) | Bit (s : string) | Hex (s : string).
End Literal.
Abbreviation Literal := Literal.Literal.

Module DatePart.
Inductive DatePart :=
| Year | Month | Day | Hour | Minute | Second | Millisecond | Microsecond | Dow | Doy | IsoDow | Week | Quarter | Epoch
| IsoYear | Timezone | TimezoneHour | TimezoneMinute.
End DatePart.
Abbreviation DatePart := DatePart.DatePart.

Module BinaryOperator.
Inductive BinaryOperator :=
| Plus | Minus | Multiply | Divide | Modulo
| Equals | NotEquals | LessThan | GreaterThan | LessOrEqual | GreaterOrEqual
| And | Or
| BitwiseAnd | BitwiseOr | BitwiseXor | BitwiseShiftLeft | BitwiseShiftRight
| Like | ILike | SimilarTo | Regex | RegexCaseInsensitive | NotRegex | NotRegexCaseInsensitive.
End BinaryOperator.
Abbreviation BinaryOperator := BinaryOperator.BinaryOperator.

Module UnaryOperator.
Inductive UnaryOperator := Plus | Minus | Not | BitwiseNot.
End UnaryOperator.
Abbreviation UnaryOperator := UnaryOperator.UnaryOperator.

(** The [FromStr] of [DatePart]. *)
Definition DatePart_from_str `{Unicode} (s : string) : option DatePart :=
  let named names := existsb (String.eqb (to_uppercase s)) names in
  if named ["YEAR"; "YEARS"] then Some DatePart.Year
  else if named ["MONTH"; "MONTHS"] then Some DatePart.Month
  else if named ["DAY"; "DAYS"] then Some DatePart.Day
  else if named ["HOUR"; "HOURS"] then Some DatePart.Hour
  else if named ["MINUTE"; "MINUTES"] then Some DatePart.Minute
  else if named ["SECOND"; "SECONDS"] then Some DatePart.Second
  else if named ["MILLISECOND"; "MILLISECONDS"] then Some DatePart.Millisecond
  else if named ["MICROSECOND"; "MICROSECONDS"] then Some DatePart.Microsecond
  else if named ["DOW"] then Some DatePart.Dow
  else if named ["DOY"] then Some DatePart.Doy
  else if named ["ISODOW"] then Some DatePart.IsoDow
  else if named ["WEEK"; "WEEKS"] then Some DatePart.Week
  else if named ["QUARTER"; "QUARTERS"] then Some DatePart.Quarter
  else if named ["EPOCH"] then Some DatePart.Epoch
  else if named ["ISOYEAR"] then Some DatePart.IsoYear
  else if named ["TIMEZONE"] then Some DatePart.Timezone
  else if named ["TIMEZONE_HOUR"] then Some DatePart.TimezoneHour
  else if named ["TIMEZONE_MINUTE"] then Some DatePart.TimezoneMinute
  else None.

(* ------------------------------------------------------------------ *)
(** ** Statements without expressions *)

Inductive CreateSequenceStatement :=
| mkCreateSequenceStatement (name : ObjectName) (if_not_exists : bool) (data_type : option DataType)
    (increment min_value max_value start cache : option Z) (cycle : bool) (owned_by : option ObjectName).

Inductive CompositeAttribute :=
| mkCompositeAttribute (name : string) (data_type : DataType) (collation : option ObjectName).

Inductive TypeDefinition :=
| TypeDefinition_Composite (attributes : list CompositeAttribute)
| TypeDefinition_Enum (labels : list string)
| TypeDefinition_Range (subtype : DataType).

Inductive CreateTypeStatement :=
| mkCreateTypeStatement (name : ObjectName) (definition : TypeDefinition).

Inductive CreateSchemaStatement :=
| mkCreateSchemaStatement (name : option string) (if_not_exists : bool) (authorization : option string).

Inductive DropTableStatement :=
| mkDropTableStatement (table : ObjectName) (if_exists cascade : bool).

Inductive DropIndexStatement :=
| mkDropIndexStatement (name : ObjectName) (if_exists cascade : bool).

Inductive SetStatement :=
| mkSetStatement (name : string) (values : list SetValue).

Inductive BeginStatement :=
| mkBeginStatement (isolation_level : option SqlIsolation.IsolationLevel) (read_only deferrable : bool).

(* ------------------------------------------------------------------ *)
(** ** Expressions, queries and statements *)

Unset Elimination Schemes.

Inductive Expr :=
| Expr_Identifier (name : string)
| Expr_QualifiedIdentifier (table column : string)
| Expr_Literal (lit : Literal)
| Expr_Parameter (n : Z)
| Expr_IsNull (expr : Expr)
| Expr_IsNotNull (expr : Expr)
| Expr_InList (expr : Expr) (negated : bool) (members : list Expr)
| Expr_InSubquery (expr : Expr) (negated : bool) (subquery : SelectStatement)
| Expr_Between (expr : Expr) (negated : bool) (low high : Expr)
| Expr_BinaryOp (left : Expr) (op : BinaryOperator) (right : Expr)
| Expr_UnaryOp (op : UnaryOperator) (expr : Expr)
| Expr_NestedSelect (query : SelectStatement)
| Expr_Function (func : FunctionCall)
| Expr_Array (elems : list Expr)
| Expr_Row (fields : list Expr)
| Expr_TypeCast (expr : Expr) (data_type : DataType)
| Expr_Case (operand : option Expr) (when_clauses : list WhenClause) (else_clause : option Expr)
| Expr_Collate (expr : Expr) (collation : ObjectName)
| Expr_AnyComparison (op : BinaryOperator) (left right : Expr)
| Expr_SomeComparison (op : BinaryOperator) (left right : Expr)
| Expr_AtTimeZone (expr zone : Expr)
| Expr_IntervalExpr (value : Expr)
| Expr_Extract (field : DatePart) (source : Expr)
| Expr_DateTrunc (field : DatePart) (source : Expr) (zone : option Expr)
with WhenClause :=
| mkWhenClause (condition result : Expr)
with FunctionCall :=
| mkFunctionCall (name : ObjectName) (args : list FunctionArg) (filter : option Expr) (over : option WindowSpec)
with FunctionArg :=
| FunctionArg_Expr (expr : Expr)
| FunctionArg_Star
with WindowSpec :=
| mkWindowSpec (partition_by : list Expr) (order_by : list OrderByItem) (frame : option FrameClause)
with FrameClause :=
| mkFrameClause (start : FrameBound) (end_ : option FrameBound)
with FrameBound :=
| FrameBound_CurrentRow
| FrameBound_Preceding (expr : Expr)
| FrameBound_Following (expr : Expr)
| FrameBound_UnboundedPreceding
| FrameBound_UnboundedFollowing
with OrderByItem :=
| mkOrderByItem (expr : Expr) (direction : SortDirection) (nulls : NullsOrder)
with LimitClause :=
| LimitClause_All
| LimitClause_Expr (expr : Expr)
with SelectItem :=
| SelectItem_Expr (expr : Expr)
| SelectItem_ExprAs (expr : Expr) (alias : string)
| SelectItem_Star
| SelectItem_TableStar (table : string)
with DistinctClause :=
| DistinctClause_All
| DistinctClause_Distinct
| DistinctClause_DistinctOn (exprs : list Expr)
with FromClause :=
| mkFromClause (joins : list Join)
with TableRef :=
| TableRef_Table (name : ObjectName)
| TableRef_Subquery (query : SelectStatement)
| TableRef_Function (func : FunctionCall)
with Join :=
| mkJoin (table : TableRef) (alias : option string) (join_type : JoinType) (constraint : JoinConstraint)
with JoinConstraint :=
| JoinConstraint_On (expr : Expr)
| JoinConstraint_Using (columns : list string)
| JoinConstraint_None
with WithClause :=
| mkWithClause (recursive : bool) (ctes : list CommonTableExpr)
with CommonTableExpr :=
| mkCommonTableExpr (name : string) (columns : option (list string)) (materialized : option bool) (query : Statement)
with SetOperation :=
| mkSetOperation (operator : SetOperator) (select : SelectStatement)
with SelectStatement :=
| mkSelectStatement (with_ : option WithClause) (distinct : DistinctClause) (select_list : list SelectItem)
    (from : option FromClause) (where_clause : option Expr) (group_by : list Expr) (having : option Expr)
    (order_by : list OrderByItem) (limit : option LimitClause) (offset : option Expr)
    (locking : list LockingClause) (set_operations : list SetOperation)
with SetClause :=
| mkSetClause (column : string) (value : Expr)
with OnConflict :=
| OnConflict_DoNothing
| OnConflict_DoUpdate (target_columns : option (list string)) (where_clause : option Expr) (set_clauses : list SetClause)
with InsertSource :=
| InsertSource_Values (rows : list (list Expr))
| InsertSource_Select (query : SelectStatement)
with InsertStatement :=
| mkInsertStatement (table : ObjectName) (columns : option (list string)) (source : InsertSource)
    (on_conflict : option OnConflict) (returning : list SelectItem)
with UpdateStatement :=
| mkUpdateStatement (table : ObjectName) (from : option FromClause) (set_clauses : list SetClause)
    (where_clause : option Expr) (returning : list SelectItem)
with DeleteStatement :=
| mkDeleteStatement (table : ObjectName) (using_ : option FromClause) (where_clause : option Expr)
    (returning : list SelectItem)
with ColumnConstraint :=
| ColumnConstraint_NotNull
| ColumnConstraint_Null
| ColumnConstraint_Default (expr : Expr)
| ColumnConstraint_PrimaryKey
| ColumnConstraint_Unique
| ColumnConstraint_References (table : ObjectName) (column : string) (on_delete on_update : option ReferentialAction)
| ColumnConstraint_Check (expr : Expr)
with ColumnDef :=
| mkColumnDef (name : string) (data_type : DataType) (constraints : list ColumnConstraint)
with TableConstraint :=
| TableConstraint_PrimaryKey (columns : list string)
| TableConstraint_Unique (columns : list string)
| TableConstraint_ForeignKey (columns : list string) (ref_table : ObjectName) (ref_columns : list string)
    (on_delete on_update : option ReferentialAction)
| TableConstraint_Check (expr : Expr)
with CreateTableStatement :=
| mkCreateTableStatement (table : ObjectName) (columns : list ColumnDef) (constraints : list TableConstraint)
    (if_not_exists : bool)
with IndexColumn :=
| mkIndexColumn (expr : Expr) (direction : SortDirection) (nulls : NullsOrder)
with CreateIndexStatement :=
| mkCreateIndexStatement (name table : ObjectName) (columns : list IndexColumn) (unique if_not_exists : bool)
with CreateViewStatement :=
| mkCreateViewStatement (name : ObjectName) (columns : option (list string)) (query : SelectStatement) (or_replace : bool)
with CreateMaterializedViewStatement :=
| mkCreateMaterializedViewStatement (name : ObjectName) (columns : option (list string)) (query : SelectStatement)
    (or_replace : bool)
with AlterColumnAction :=
| AlterColumnAction_SetDataType (data_type : DataType)
| AlterColumnAction_SetDefault (expr : Expr)
| AlterColumnAction_DropDefault
| AlterColumnAction_SetNotNull
| AlterColumnAction_DropNotNull
with AlterTableAction :=
| AlterTableAction_AddColumn (column : ColumnDef)
| AlterTableAction_DropColumn (name : string) (if_exists cascade : bool)
| AlterTableAction_RenameColumn (old_name new_name : string)
| AlterTableAction_AlterColumn (name : string) (action : AlterColumnAction)
| AlterTableAction_RenameTable (new_name : ObjectName)
with AlterTableStatement :=
| mkAlterTableStatement (table : ObjectName) (action : AlterTableAction)
with MergeSource :=
| MergeSource_Table (name : ObjectName)
| MergeSource_Subquery (query : SelectStatement)
with MergeInsertSource :=
| MergeInsertSource_Values (rows : list (list Expr))
| MergeInsertSource_DefaultValues
with MergeAction :=
| MergeAction_Update (set_clauses : list SetClause)
| MergeAction_Delete
| MergeAction_DoNothing
| MergeAction_Insert (columns : option (list string)) (source : MergeInsertSource)
with MergeClause :=
| MergeClause_WhenMatched (condition : option Expr) (action : MergeAction)
| MergeClause_WhenNotMatched (condition : option Expr) (action : MergeAction)
with MergeStatement :=
| mkMergeStatement (target : ObjectName) (source : MergeSource) (join_condition : Expr) (clauses : list MergeClause)
with Statement :=
| Statement_Select (s : SelectStatement)
| Statement_Insert (s : InsertStatement)
| Statement_Update (s : UpdateStatement)
| Statement_Delete (s : DeleteStatement)
| Statement_CreateTable (s : CreateTableStatement)
| Statement_CreateIndex (s : CreateIndexStatement)
| Statement_CreateView (s : CreateViewStatement)
| Statement_CreateMaterializedView (s : CreateMaterializedViewStatement)
| Statement_CreateSequence (s : CreateSequenceStatement)
| Statement_CreateType (s : CreateTypeStatement)
| Statement_CreateSchema (s : CreateSchemaStatement)
| Statement_AlterTable (s : AlterTableStatement)
| Statement_DropTable (s : DropTableStatement)
| Statement_DropIndex (s : DropIndexStatement)
| Statement_Merge (s : MergeStatement)
| Statement_Set (s : SetStatement)
| Statement_Begin (s : BeginStatement)
| Statement_Commit
| Statement_Rollback
| Statement_Explain (s : Statement).

Set Elimination Schemes.
