(* ===== verification/Eval.v ===== *)
(** The evaluation of expressions on a row of text values
    ([src/src/server/eval.rs]). Every value is text; [None] is what a failed
    conversion or an unknown column gives. *)

From S2P Require Import Prelude Types SqlText Float64 Ast.

(** A row of the executor, [Vec<String>]. *)
Abbreviation Row := (list string).

(** The [{:?}] of a byte vector. *)
Definition blob_text (data : bytes) : string :=
  "[" +:+ text_join ", " (pretty <$> data) +:+ "]".

Definition literal_text (lit : Literal) : string :=
  match lit with
  | Literal.Number s | Literal.String s | Literal.Date s | Literal.Time s | Literal.Timestamp s | Literal.TimestampTz s
  | Literal.Interval s | Literal.Json s | Literal.JsonB s | Literal.Uuid s | Literal.Money s | Literal.Bit s
  | Literal.Hex s => s
  | Literal.Bool b => bool_text b
  | Literal.Null => "NULL"
  | Literal.Blob b => blob_text b
  end.

(** The column a name stands for: the first field with it, in any case. *)
Definition field_index (desc : TupleDesc) (col : string) : option nat :=
  position (fun f => eq_ignore_ascii_case (att_name f) col) (td_fields desc).

Definition column_value (row : Row) (desc : option TupleDesc) (col : string) : option string :=
  d ← desc; i ← field_index d col; row !! i.

(** [+], [-] and [*]. *)
Definition arith (f : f64 -> f64 -> f64) (l r : string) : option string :=
  l ← parse_f64 l; r ← parse_f64 r; Some (f64_text (f l r)).

(** [/] and [%]: nothing for a divisor of zero. *)
Definition arith_nonzero (f : f64 -> f64 -> f64) (l r : string) : option string :=
  l ← parse_f64 l; r ← parse_f64 r; if f_eqb r f_zero then None else Some (f64_text (f l r)).

Definition logic (f : bool -> bool -> bool) (l r : string) : option string :=
  l ← parse_bool l; r ← parse_bool r; Some (bool_text (f l r)).

Section eval.
Context `{Unicode}.

Definition eval_binary (op : BinaryOperator) (l r : string) : option string :=
  match op with
  | BinaryOperator.Equals => Some (bool_text (bool_decide (l = r)))
  | BinaryOperator.NotEquals => Some (bool_text (negb (bool_decide (l = r))))
  | BinaryOperator.LessThan => Some (bool_text (text_ltb l r))
  | BinaryOperator.LessOrEqual => Some (bool_text (text_leb l r))
  | BinaryOperator.GreaterThan => Some (bool_text (text_ltb r l))
  | BinaryOperator.GreaterOrEqual => Some (bool_text (text_leb r l))
  | BinaryOperator.And => logic andb l r
  | BinaryOperator.Or => logic orb l r
  | BinaryOperator.Plus => arith f_add l r
  | BinaryOperator.Minus => arith f_sub l r
  | BinaryOperator.Multiply => arith f_mul l r
  | BinaryOperator.Divide => arith_nonzero f_div l r
  | BinaryOperator.Modulo => arith_nonzero f_rem l r
  | BinaryOperator.Like => Some (bool_text (text_contains l (remove_percent r)))
  | BinaryOperator.ILike => Some (bool_text (text_contains (to_lowercase l) (to_lowercase (remove_percent r))))
  | _ => None
  end.

Definition eval_unary (op : UnaryOperator) (v : string) : option string :=
  match op with
  | UnaryOperator.Not => (fun b => bool_text (negb b)) <$> parse_bool v
  | UnaryOperator.Minus => (fun n => f64_text (f_neg n)) <$> parse_f64 v
  | UnaryOperator.Plus => f64_text <$> parse_f64 v
  | UnaryOperator.BitwiseNot => (fun n => pretty (Z.lnot n)) <$> parse_i64 v
  end.

(** The test of IS NULL. *)
Definition null_text (v : string) : bool :=
  let v := trim v in bool_decide (v = EmptyString) || eq_ignore_ascii_case v "NULL".

Definition substring_text (s : string) (start : Z) (len : option Z) : string :=
  let cs := drop (Z.to_nat (start - 1)) (text_chars s) in
  text_concat (match len with Some n => take (Z.to_nat n) cs | None => cs end).

(** The last part of a name, in upper case. *)
Definition function_name (name : ObjectName) : string := default EmptyString (to_uppercase <$> last (parts name)).

(** A function call on the values of its arguments. *)
Definition eval_function (name : string) (args : list (option string)) : option string :=
  let arg0 := args !! 0%nat ≫= id in
  let arg1 := args !! 1%nat ≫= id in
  let arg2 := args !! 2%nat ≫= id in
  if String.eqb name "COUNT" then Some "1"
  else if existsb (String.eqb name) ["SUM"; "AVG"; "MIN"; "MAX"] then arg0
  else if String.eqb name "LENGTH" then (fun v => pretty (text_len v)) <$> arg0
  else if String.eqb name "UPPER" then to_uppercase <$> arg0
  else if String.eqb name "LOWER" then to_lowercase <$> arg0
  else if String.eqb name "TRIM" then trim <$> arg0
  else if String.eqb name "SUBSTRING" then
    let start := default 1 (parse_unsigned 64 (default "1" arg1)) in
    Some (substring_text (default EmptyString arg0) start ((fun l => default 0 (parse_unsigned 64 l)) <$> arg2))
  else if String.eqb name "CONCAT" then Some (text_concat (omap id args))
  else arg0.

(** BETWEEN: as numbers when all three are, else as text. *)
Definition between_values (v l h : string) : bool :=
  match parse_f64 v, parse_f64 l, parse_f64 h with
  | Some v, Some l, Some h => f_leb l v && f_leb v h
  | _, _, _ => text_leb l v && text_leb v h
  end.

(** [matches] of a CASE branch. *)
Definition case_matches (operand : option string) (cond : string) : bool :=
  match operand with
  | Some op => bool_decide (cond = op)
  | None => String.eqb cond "true" || String.eqb cond "t"
  end.

(** CASE, BETWEEN and IN, over the evaluation of their parts. *)
Definition eval_case (ev : Expr -> option string) (operand : option Expr) (whens : list WhenClause) (els : option Expr) : option string :=
  let op := match operand with Some e => ev e | None => None end in
  let otherwise := match els with Some e => ev e | None => Some "NULL" end in
  (fix branches (whens : list WhenClause) : option string :=
     match whens with
     | [] => otherwise
     | mkWhenClause cond result :: whens => c ← ev cond; if case_matches op c then ev result else branches whens
     end) whens.

Definition eval_between (ev : Expr -> option string) (e : Expr) (negated : bool) (low high : Expr) : option string :=
  v ← ev e; l ← ev low; h ← ev high; Some (bool_text (xorb negated (between_values v l h))).

Definition eval_in_list (ev : Expr -> option string) (e : Expr) (negated : bool) (members : list Expr) : option string :=
  v ← ev e; Some (bool_text (xorb negated (existsb (fun m => bool_decide (ev m = Some v)) members))).

Fixpoint evaluate_expr (expr : Expr) (row : Row) (desc : option TupleDesc) : option string :=
  match expr with
  | Expr_Literal lit => Some (literal_text lit)
  | Expr_Identifier col => column_value row desc col
  | Expr_BinaryOp e op e' =>
      l ← evaluate_expr e row desc; r ← evaluate_expr e' row desc; eval_binary op l r
  | Expr_UnaryOp op e => v ← evaluate_expr e row desc; eval_unary op v
  | Expr_IsNull e => v ← evaluate_expr e row desc; Some (bool_text (null_text v))
  | Expr_IsNotNull e => v ← evaluate_expr e row desc; Some (bool_text (negb (null_text v)))
  | Expr_TypeCast e _ => evaluate_expr e row desc
  | Expr_QualifiedIdentifier _ col => column_value row desc col
  | Expr_Case operand whens els => eval_case (fun e => evaluate_expr e row desc) operand whens els
  | Expr_Function (mkFunctionCall name args _ _) =>
      eval_function (function_name name)
        (List.map (fun a => match a with FunctionArg_Expr e => evaluate_expr e row desc | FunctionArg_Star => Some "*" end) args)
  | Expr_Between e negated low high => eval_between (fun e => evaluate_expr e row desc) e negated low high
  | Expr_InList e negated members => eval_in_list (fun e => evaluate_expr e row desc) e negated members
  | _ => None
  end.

Definition is_true (v : option string) : bool :=
  match v with Some v => String.eqb v "true" || String.eqb v "t" | None => false end.

Definition evaluate_where (where_clause : Expr) (row : Row) (desc : option TupleDesc) : bool :=
  is_true (evaluate_expr where_clause row desc).
End eval.

(* ------------------------------------------------------------------ *)
(** ** Types *)

Inductive sql_type := TBool | TNum | TText.

(** The type of a column, by its oid in [pg_type]. *)
Definition type_of_oid (oid : Oid) : sql_type :=
  if oid =? 16 then TBool
  else if bool_decide (oid ∈ [20; 21; 23; 700; 701; 1700]) then TNum else TText.

Definition value_has (t : sql_type) (v : string) : Prop :=
  match t with TBool => is_Some (parse_bool v) | TNum => is_Some (parse_f64 v) | TText => True end.

(** The row has a value of the column's type in each column: no nulls. *)
Definition row_typed (desc : TupleDesc) (row : Row) : Prop :=
  Forall2 (fun f v => value_has (type_of_oid (att_type_oid f)) v) (td_fields desc) row.

Definition compares (op : BinaryOperator) : bool :=
  match op with
  | BinaryOperator.Equals | BinaryOperator.NotEquals | BinaryOperator.LessThan | BinaryOperator.LessOrEqual
  | BinaryOperator.GreaterThan | BinaryOperator.GreaterOrEqual | BinaryOperator.Like | BinaryOperator.ILike => true
  | _ => false
  end.

Definition connects (op : BinaryOperator) : bool :=
  match op with BinaryOperator.And | BinaryOperator.Or => true | _ => false end.

(** The operators that cannot fail on numbers: division by zero has no value. *)
Definition computes (op : BinaryOperator) : bool :=
  match op with BinaryOperator.Plus | BinaryOperator.Minus | BinaryOperator.Multiply => true | _ => false end.

Section typing.
Context `{Unicode} (desc : TupleDesc).

Inductive typed : Expr -> sql_type -> Prop :=
| T_text e t : typed e t -> typed e TText
| T_number n : is_Some (parse_f64 n) -> typed (Expr_Literal (Literal.Number n)) TNum
| T_bool b : typed (Expr_Literal (Literal.Bool b)) TBool
| T_literal l : typed (Expr_Literal l) TText
| T_column c i f :
    field_index desc c = Some i -> td_fields desc !! i = Some f -> typed (Expr_Identifier c) (type_of_oid (att_type_oid f))
| T_qualified t c : typed (Expr_Identifier c) t -> forall table, typed (Expr_QualifiedIdentifier table c) t
| T_compare a op b : compares op = true -> typed a TText -> typed b TText -> typed (Expr_BinaryOp a op b) TBool
| T_connect a op b : connects op = true -> typed a TBool -> typed b TBool -> typed (Expr_BinaryOp a op b) TBool
| T_compute a op b : computes op = true -> typed a TNum -> typed b TNum -> typed (Expr_BinaryOp a op b) TNum
| T_not a : typed a TBool -> typed (Expr_UnaryOp UnaryOperator.Not a) TBool
| T_minus a : typed a TNum -> typed (Expr_UnaryOp UnaryOperator.Minus a) TNum
| T_plus a : typed a TNum -> typed (Expr_UnaryOp UnaryOperator.Plus a) TNum
| T_is_null a : typed a TText -> typed (Expr_IsNull a) TBool
| T_is_not_null a : typed a TText -> typed (Expr_IsNotNull a) TBool
| T_cast a dt t : typed a t -> typed (Expr_TypeCast a dt) t
| T_between a neg l h : typed a TText -> typed l TText -> typed h TText -> typed (Expr_Between a neg l h) TBool
| T_in a neg l : typed a TText -> typed (Expr_InList a neg l) TBool
| T_count n args filter over :
    function_name n = "COUNT" -> typed (Expr_Function (mkFunctionCall n args filter over)) TNum
| T_length n a args filter over :
    function_name n = "LENGTH" -> typed a TText ->
    typed (Expr_Function (mkFunctionCall n (FunctionArg_Expr a :: args) filter over)) TNum
| T_change_text n a args filter over :
    function_name n ∈ ["UPPER"; "LOWER"; "TRIM"] -> typed a TText ->
    typed (Expr_Function (mkFunctionCall n (FunctionArg_Expr a :: args) filter over)) TText
| T_make_text n args filter over :
    function_name n ∈ ["SUBSTRING"; "CONCAT"] -> typed (Expr_Function (mkFunctionCall n args filter over)) TText
| T_case operand whens els t :
    typed_branches whens t -> typed els t -> typed (Expr_Case operand whens (Some els)) t
with typed_branches : list WhenClause -> sql_type -> Prop :=
| T_no_branch t : typed_branches [] t
| T_branch c r whens t : typed c TText -> typed r t -> typed_branches whens t -> typed_branches (mkWhenClause c r :: whens) t.

Scheme typed_ind2 := Minimality for typed Sort Prop
with typed_branches_ind2 := Minimality for typed_branches Sort Prop.
Combined Scheme typed_mutind from typed_ind2, typed_branches_ind2.

Lemma bool_text_typed b : value_has TBool (bool_text b).
Proof. exists b. apply parse_bool_text. Qed.

Lemma compares_value op l r : compares op = true -> exists v, eval_binary op l r = Some v /\ value_has TBool v.
Proof. destruct op; try done; intros _; eexists; (split; [reflexivity|]); apply bool_text_typed. Qed.

Lemma connects_value op l r :
  connects op = true -> value_has TBool l -> value_has TBool r -> exists v, eval_binary op l r = Some v /\ value_has TBool v.
Proof.
  intros Hop [x Hx] [y Hy]. destruct op; try done; cbn; unfold logic; rewrite Hx, Hy; cbn; (eexists; split; [reflexivity|]);
    apply bool_text_typed.
Qed.

Lemma computes_value op l r :
  computes op = true -> value_has TNum l -> value_has TNum r -> exists v, eval_binary op l r = Some v /\ value_has TNum v.
Proof.
  intros Hop [x Hx] [y Hy]. destruct op; try done; cbn; unfold arith; rewrite Hx, Hy; cbn; (eexists; split; [reflexivity|]);
    apply parse_f64_text.
Qed.

Lemma column_typed row c i f :
  row_typed desc row -> field_index desc c = Some i -> td_fields desc !! i = Some f ->
  exists v, column_value row (Some desc) c = Some v /\ value_has (type_of_oid (att_type_oid f)) v.
Proof.
  intros Hrow Hi Hf. destruct (Forall2_lookup_l _ _ _ _ _ Hrow Hf) as (v & Hv & Hty).
  exists v. split; [|done]. cbn. by rewrite Hi.
Qed.

Lemma typed_values row :
  row_typed desc row ->
  (forall e t, typed e t -> exists v, evaluate_expr e row (Some desc) = Some v /\ value_has t v) /\
  (forall whens t, typed_branches whens t ->
     forall operand els v, evaluate_expr els row (Some desc) = Some v -> value_has t v ->
     exists v', evaluate_expr (Expr_Case operand whens (Some els)) row (Some desc) = Some v' /\ value_has t v').
Proof.
  intros Hrow. apply typed_mutind; cbn [evaluate_expr]; unfold eval_case, eval_between, eval_in_list.
  - intros e t _ (v & Hv & _). by exists v.
  - intros n Hn. by exists n.
  - intros b. eexists. split; [reflexivity|]. apply bool_text_typed.
  - intros l. by eexists.
  - intros c i f Hi Hf. by eapply column_typed.
  - intros t c _ IH table. exact IH.
  - intros a op b Hop _ (v & -> & _) _ (w & -> & _). by apply compares_value.
  - intros a op b Hop _ (v & -> & Hv) _ (w & -> & Hw). by apply connects_value.
  - intros a op b Hop _ (v & -> & Hv) _ (w & -> & Hw). by apply computes_value.
  - intros a _ (v & -> & [b Hb]). cbn. rewrite Hb. eexists. split; [reflexivity|]. apply bool_text_typed.
  - intros a _ (v & -> & [x Hx]). cbn. rewrite Hx. eexists. split; [reflexivity|]. apply parse_f64_text.
  - intros a _ (v & -> & [x Hx]). cbn. rewrite Hx. eexists. split; [reflexivity|]. apply parse_f64_text.
  - intros a _ (v & -> & _). eexists. split; [reflexivity|]. apply bool_text_typed.
  - intros a _ (v & -> & _). eexists. split; [reflexivity|]. apply bool_text_typed.
  - done.
  - intros a neg l h _ (v & -> & _) _ (w & -> & _) _ (x & -> & _). eexists. split; [reflexivity|]. apply bool_text_typed.
  - intros a neg l _ (v & -> & _). eexists. split; [reflexivity|]. apply bool_text_typed.
  - intros n args filter over ->. eexists. split; [reflexivity|]. by eexists.
  - intros n a args filter over -> _ (v & Hv & _). cbn. rewrite Hv. eexists. split; [reflexivity|].
    apply parse_f64_pretty. unfold text_len. lia.
  - intros n a args filter over Hn _ (v & Hv & _). rewrite !elem_of_cons, elem_of_nil in Hn.
    destruct_or! Hn; try done; rewrite Hn; cbn; rewrite Hv; by eexists.
  - intros n args filter over Hn. rewrite !elem_of_cons, elem_of_nil in Hn.
    destruct_or! Hn; try done; rewrite Hn; by eexists.
  - intros operand whens els t _ Hb _ (v & Hv & Hty). by apply (Hb operand els v).
  - intros t operand els v Hv Hty. by exists v.
  - intros c r whens t _ (v & Hc & _) _ (w & Hr & Hw) _ IH operand els x Hx Hty. rewrite Hc. cbn [mbind option_bind].
    destruct (case_matches _ v); [by exists w|]. exact (IH operand els x Hx Hty).
Qed.
End typing.

(** C14. A well-typed expression has a value of its type on every row whose columns
    hold values of theirs: no conversion in it fails. *)
Theorem evaluate_expr_typed `{Unicode} desc e t row :
  typed desc e t -> row_typed desc row -> exists v, evaluate_expr e row (Some desc) = Some v /\ value_has t v.
Proof. intros He Hrow. by apply (typed_values desc row Hrow). Qed.

#[local] Existing Instance Ascii_Unicode.

Definition number (n : string) : Expr := Expr_Literal (Literal.Number n).

Definition staff : TupleDesc :=
  {| td_fields := [{| att_name := "name"; att_type_oid := 25; att_attnum := 1; att_typmod := -1 |};
                   {| att_name := "age"; att_type_oid := 23; att_attnum := 2; att_typmod := -1 |}] |}.

(** [UPPER(name) = 'ANA' AND Age + 1 > 40]. *)
Definition staff_filter : Expr :=
  Expr_BinaryOp
    (Expr_BinaryOp (Expr_Function (mkFunctionCall (ObjectName_single "upper") [FunctionArg_Expr (Expr_Identifier "name")] None None))
       BinaryOperator.Equals (Expr_Literal (Literal.String "ANA")))
    BinaryOperator.And
    (Expr_BinaryOp (Expr_BinaryOp (Expr_Identifier "Age") BinaryOperator.Plus (number "1"))
       BinaryOperator.GreaterThan (number "40")).

Lemma evaluate_expr_typed_witness :
  exists v, evaluate_expr staff_filter ["ana"; "41"] (Some staff) = Some v /\ value_has TBool v.
Proof.
  apply (evaluate_expr_typed staff staff_filter TBool ["ana"; "41"]).
  - apply T_connect; [reflexivity|apply T_compare; [reflexivity| |]..].
    + apply T_change_text; [vm_compute; left|]. by apply (T_column staff "name" 0 {| att_name := "name"; att_type_oid := 25; att_attnum := 1; att_typmod := -1 |}).
    + apply T_literal.
    + apply (T_text _ _ TNum). apply T_compute; [reflexivity| |].
      * by apply (T_column staff "Age" 1 {| att_name := "age"; att_type_oid := 23; att_attnum := 2; att_typmod := -1 |}).
      * apply T_number. by eexists.
    + apply (T_text _ _ TNum), T_number. by eexists.
  - repeat constructor; vm_compute; by eexists.
Defined.

(** Numbers are compared as text. *)
Example ten_below_nine :
  evaluate_expr (Expr_BinaryOp (number "10") BinaryOperator.LessThan (number "9")) [] None = Some "true".
Proof. reflexivity. Qed.

(** NULL equals NULL. *)
Example null_equals_null :
  evaluate_where (Expr_BinaryOp (Expr_Literal Literal.Null) BinaryOperator.Equals (Expr_Literal Literal.Null)) [] None = true.
Proof. reflexivity. Qed.

(** A pattern without [%] is found anywhere, and [_] is no wildcard. *)
Example like_is_substring :
  evaluate_where (Expr_BinaryOp (number "xay") BinaryOperator.Like (number "a")) [] None = true /\
  evaluate_where (Expr_BinaryOp (number "a") BinaryOperator.Like (number "_")) [] None = false.
Proof. by split. Qed.
