(* ===== verification/RowOps.v ===== *)
(** The steps of a query on its rows: WHERE, HAVING, DISTINCT, ORDER BY, OFFSET and
    LIMIT ([src/src/executor/select/filter_limit.rs]), the set operations
    ([set_ops.rs]) and materialisation ([materialize.rs]). *)

From S2P Require Import Prelude Types SqlText Ast Eval.

(** A row with the place it came from. *)
Abbreviation TidRow := (ItemPointerData * Row)%type.

Record SelectResult := { columns : list string; sel_rows : list Row }.

Definition no_tid : ItemPointerData := {| ip_page_id := 0; ip_offset := 0 |}.

(** The rows whose key was not there before, in order. *)
Fixpoint first_of_each {A K} `{Countable K} (key : A -> K) (seen : gset K) (l : list A) : list A :=
  match l with
  | [] => []
  | a :: l => if bool_decide (key a ∈ seen) then first_of_each key seen l else a :: first_of_each key ({[key a]} ∪ seen) l
  end.

Section rows.
Context `{Unicode}.

Definition execute_select_without_from (select_list : list SelectItem) : list TidRow :=
  let star item := match item with SelectItem_Star | SelectItem_TableStar _ => true | _ => false end in
  if existsb star select_list then []
  else [(no_tid, (fun item => match item with
                              | SelectItem_Expr e | SelectItem_ExprAs e _ => default EmptyString (evaluate_expr e [] None)
                              | _ => EmptyString
                              end) <$> select_list)].

(** The count of a LIMIT or OFFSET: what is no number counts as 0. *)
Definition row_count (desc : option TupleDesc) (e : Expr) : Z :=
  default 0 (evaluate_expr e [] desc ≫= parse_unsigned 64).

Definition apply_offset (desc : option TupleDesc) (rows : list TidRow) (offset : Expr) : list TidRow :=
  drop (Z.to_nat (row_count desc offset)) rows.

Definition apply_limit_offset (desc : option TupleDesc) (rows : list TidRow) (limit : LimitClause) : list TidRow :=
  match limit with
  | LimitClause_All => rows
  | LimitClause_Expr e => take (Z.to_nat (row_count desc e)) rows
  end.

Definition apply_where (desc : option TupleDesc) (rows : list TidRow) (where_clause : Expr) : list TidRow :=
  List.filter (fun r => evaluate_where where_clause r.2 desc) rows.

Definition apply_having (desc : option TupleDesc) (rows : list TidRow) (having : Expr) : list TidRow :=
  List.filter (fun r => evaluate_where having r.2 desc) rows.

Definition apply_distinct (rows : list TidRow) : list TidRow := first_of_each snd ∅ rows.

Definition distinct_key (desc : option TupleDesc) (on_exprs : list Expr) (r : TidRow) : list string :=
  (fun e => default EmptyString (evaluate_expr e r.2 desc)) <$> on_exprs.

Definition apply_distinct_on (desc : option TupleDesc) (rows : list TidRow) (on_exprs : list Expr) : list TidRow :=
  first_of_each (distinct_key desc on_exprs) ∅ rows.

(** What the sort takes for NULL. *)
Definition sorts_as_null (v : string) : bool := bool_decide (v = EmptyString) || eq_ignore_ascii_case v "NULL".

(** The order of two values under one item of ORDER BY. *)
Definition item_cmp (nulls_first : bool) (direction : SortDirection) (a b : string) : comparison :=
  match sorts_as_null a, sorts_as_null b with
  | true, true => Eq
  | true, false => if nulls_first then Lt else Gt
  | false, true => if nulls_first then Gt else Lt
  | false, false =>
      match direction with SortDirection.Asc => text_cmp a b | _ => CompOpp (text_cmp a b) end
  end.

Definition nulls_come_first (n : NullsOrder) : bool := match n with NullsOrder.First => true | _ => false end.

(** The comparison of [sort_by]: the first item on which the rows differ. *)
Fixpoint rows_cmp (desc : option TupleDesc) (order_by : list OrderByItem) (a b : Row) : comparison :=
  match order_by with
  | [] => Eq
  | mkOrderByItem e direction nulls :: rest =>
      match item_cmp (nulls_come_first nulls) direction (default EmptyString (evaluate_expr e a desc))
              (default EmptyString (evaluate_expr e b desc)) with
      | Eq => rows_cmp desc rest a b
      | c => c
      end
  end.

Definition apply_order_by (desc : option TupleDesc) (rows : list TidRow) (order_by : list OrderByItem) : list TidRow :=
  sort_by (fun a b => rows_cmp desc order_by a.2 b.2) rows.
End rows.

(* ------------------------------------------------------------------ *)
(** ** Set operations *)

(** The counts of the right side's rows. *)
Definition row_counts (rows : list Row) : gmap Row Z :=
  foldl (fun m r => <[r := default 0 (m !! r) + 1]> m) ∅ rows.

(** The rows that are left in the counts, each taken as it is met. *)
Fixpoint take_counted (counts : gmap Row Z) (rows : list Row) : list Row :=
  match rows with
  | [] => []
  | r :: rows =>
      match counts !! r with
      | Some n => if 0 <? n then r :: take_counted (<[r := n - 1]> counts) rows else take_counted counts rows
      | None => take_counted counts rows
      end
  end.

Fixpoint drop_counted (counts : gmap Row Z) (rows : list Row) : list Row :=
  match rows with
  | [] => []
  | r :: rows =>
      match counts !! r with
      | Some n => if 0 <? n then drop_counted (<[r := n - 1]> counts) rows else r :: drop_counted counts rows
      | None => r :: drop_counted counts rows
      end
  end.

Definition apply_set_operation (l r : SelectResult) (operator : SetOperator) : SelectResult :=
  let rows := sel_rows l in
  {| columns := columns l;
     sel_rows :=
       match operator with
       | SetOperator.Union => let kept := first_of_each id ∅ rows in kept ++ first_of_each id (list_to_set kept) (sel_rows r)
       | SetOperator.UnionAll => rows ++ sel_rows r
       | SetOperator.Intersect => List.filter (fun x => bool_decide (x ∈ (list_to_set (sel_rows r) : gset Row))) rows
       | SetOperator.IntersectAll => take_counted (row_counts (sel_rows r)) rows
       | SetOperator.Except => List.filter (fun x => negb (bool_decide (x ∈ (list_to_set (sel_rows r) : gset Row)))) rows
       | SetOperator.ExceptAll => drop_counted (row_counts (sel_rows r)) rows
       end |}.

(* ------------------------------------------------------------------ *)
(** ** Materialisation *)

Definition materialize (rows : list TidRow) : outcome (list TidRow) := Ok rows.

Definition materialize_with_limit (rows : list TidRow) (limit : Z) : outcome (list TidRow) := Ok (take (Z.to_nat limit) rows).

Lemma eq_Permutation {A} (l l' : list A) : l = l' -> l ≡ₚ l'.
Proof. by intros ->. Qed.

(* ------------------------------------------------------------------ *)
(** ** DISTINCT *)

Section firsts.
Context {A K : Type} `{Countable K} (key : A -> K).

Lemma first_of_each_elem seen l a : a ∈ first_of_each key seen l -> a ∈ l /\ key a ∉ seen.
Proof.
  revert seen. induction l as [|b l IH]; intros seen; cbn; [by intros ?%not_elem_of_nil|]. case_bool_decide as E.
  - intros [Hl Hs]%IH. split; [by right|done].
  - intros [->|Hin]%elem_of_cons; [by split; [left|]|]. apply IH in Hin as [Hl Hs]. split; [by right|set_solver].
Qed.

Lemma first_of_each_nodup seen l : NoDup (key <$> first_of_each key seen l).
Proof.
  revert seen. induction l as [|b l IH]; intros seen; cbn; [constructor|]. case_bool_decide; [done|]. cbn.
  constructor; [|done]. intros (a & Ha & Hin)%list_elem_of_fmap. apply first_of_each_elem in Hin as [_ Hn]. set_solver.
Qed.

Lemma first_of_each_sublist seen l : first_of_each key seen l `sublist_of` l.
Proof. revert seen. induction l as [|b l IH]; intros seen; cbn; [constructor|]. case_bool_decide; by constructor. Qed.

(** Each new key is represented by the first element that has it. *)
Lemma first_of_each_first seen l k :
  k ∉ seen ->
  List.find (fun a => bool_decide (key a = k)) (first_of_each key seen l) = List.find (fun a => bool_decide (key a = k)) l.
Proof.
  revert seen. induction l as [|b l IH]; intros seen Hk; cbn; [done|]. case_bool_decide as E.
  - rewrite (bool_decide_eq_false_2 (key b = k)) by congruence. by apply IH.
  - cbn. case_bool_decide; [done|]. apply IH. set_solver.
Qed.

Lemma first_of_each_in seen l k : k ∉ seen -> k ∈ key <$> l -> k ∈ key <$> first_of_each key seen l.
Proof.
  revert seen. induction l as [|b l IH]; intros seen Hk; cbn; [done|]. intros [->|Hin]%elem_of_cons.
  - rewrite bool_decide_eq_false_2 by done. left.
  - case_bool_decide; [by apply IH|]. destruct (decide (k = key b)) as [->|Hne]; [left|]. right. apply IH; set_solver.
Qed.
End firsts.

(* ------------------------------------------------------------------ *)
(** ** ORDER BY *)

Lemma item_cmp_total nulls_first direction : TotalOrder (item_cmp nulls_first direction).
Proof.
  split.
  - intros a b. unfold item_cmp. destruct (sorts_as_null a), (sorts_as_null b), nulls_first; try done.
    all: destruct direction; rewrite (text_cmp_antisym b a); by destruct (text_cmp a b).
  - intros a b c. unfold cmp_le, item_cmp. destruct (sorts_as_null a), (sorts_as_null b), (sorts_as_null c), nulls_first; try done.
    all: destruct direction; [apply (cmp_trans text_cmp)|apply (@cmp_trans _ _ (reverse_total text_cmp))..].
Qed.

Lemma rows_cmp_total `{Unicode} desc order_by : TotalOrder (rows_cmp desc order_by).
Proof.
  induction order_by as [|[e direction nulls] rest IH]; [by split|].
  apply (lexicographic_total (fun a b => item_cmp (nulls_come_first nulls) direction
    (default EmptyString (evaluate_expr e a desc)) (default EmptyString (evaluate_expr e b desc)))); [|done].
  apply (key_total (fun a => default EmptyString (evaluate_expr e a desc))), item_cmp_total.
Qed.

(** *** What ORDER BY asks for *)

(** The first byte in which the texts differ is less in [u], or [u] ends before it. *)
Definition text_before (u v : string) : Prop :=
  exists p, (exists x rest, bytes_of u = p /\ bytes_of v = p ++ x :: rest)
         \/ (exists x y rest rest', bytes_of u = p ++ x :: rest /\ bytes_of v = p ++ y :: rest' /\ x < y).

(** The value of an item in a row: empty texts and NULL in any case are null, and so
    is an expression that has no value. *)
Definition sort_value `{Unicode} (desc : option TupleDesc) (row : Row) (item : OrderByItem) : option string :=
  match item with
  | mkOrderByItem e _ _ => v ← evaluate_expr e row desc; if sorts_as_null v then None else Some v
  end.

Definition sort_key `{Unicode} (desc : option TupleDesc) (order_by : list OrderByItem) (row : Row) : list (option string) :=
  sort_value desc row <$> order_by.

(** When one value of an item comes before another: nulls are last unless the item
    says NULLS FIRST; other values ascend when it says ASC and descend otherwise. *)
Inductive item_before : OrderByItem -> option string -> option string -> Prop :=
| NullFirst e d v : item_before (mkOrderByItem e d NullsOrder.First) None (Some v)
| NullLast e d n v : n <> NullsOrder.First -> item_before (mkOrderByItem e d n) (Some v) None
| Ascending e n u v : text_before u v -> item_before (mkOrderByItem e SortDirection.Asc n) (Some u) (Some v)
| Descending e d n u v : d <> SortDirection.Asc -> text_before v u -> item_before (mkOrderByItem e d n) (Some u) (Some v).

(** The first item in which the keys differ decides. *)
Inductive key_before : list OrderByItem -> list (option string) -> list (option string) -> Prop :=
| BeforeHere item items x y k l : item_before item x y -> key_before (item :: items) (x :: k) (y :: l)
| BeforeLater item items x k l : key_before items k l -> key_before (item :: items) (x :: k) (x :: l).

Lemma text_before_cons c u v : text_before u v -> text_before (String c u) (String c v).
Proof.
  intros (p & [(x & rest & E & E')|(x & y & rest & rest' & E & E' & Hxy)]); exists (byte_of c :: p); cbn [bytes_of].
  - left. exists x, rest. by rewrite <- E, E', <- E.
  - right. exists x, y, rest, rest'. by rewrite E, E'.
Qed.

Lemma text_cmp_before u v : text_cmp u v = Lt -> text_before u v.
Proof.
  unfold text_cmp. revert v. induction u as [|c u IH]; intros [|d v]; try done.
  - intros _. exists []. left. cbn. eauto.
  - cbn [String.compare]. destruct (Ascii.compare c d) eqn:E; [|intros _|done].
    + apply Ascii.compare_eq_iff in E as ->. intros Huv. by apply text_before_cons, IH.
    + exists []. right. cbn. eexists _, _, _, _. split_and!; [done..|]. unfold Ascii.compare in E. change (N_of_ascii c < N_of_ascii d)%N in E. unfold byte_of. lia.
Qed.

(** An expression without a value counts as the empty text. *)
Lemma sort_value_default `{Unicode} desc row e d n :
  sort_value desc row (mkOrderByItem e d n) =
  (let v := default EmptyString (evaluate_expr e row desc) in if sorts_as_null v then None else Some v).
Proof. cbn. by destruct (evaluate_expr e row desc). Qed.

Lemma item_cmp_before `{Unicode} desc a b e d n :
  let item := mkOrderByItem e d n in
  match item_cmp (nulls_come_first n) d (default EmptyString (evaluate_expr e a desc)) (default EmptyString (evaluate_expr e b desc)) with
  | Lt => item_before item (sort_value desc a item) (sort_value desc b item)
  | Eq => sort_value desc a item = sort_value desc b item
  | Gt => item_before item (sort_value desc b item) (sort_value desc a item)
  end.
Proof.
  cbn zeta. rewrite !sort_value_default. generalize (default EmptyString (evaluate_expr e a desc)) (default EmptyString (evaluate_expr e b desc)). clear. intros u v.
  unfold item_cmp. destruct (sorts_as_null u), (sorts_as_null v); [done| | |]; [destruct n; constructor; done..|].
  destruct (text_cmp u v) eqn:E; [apply text_cmp_eq in E as ->; by destruct d| |rewrite text_cmp_antisym in E].
  - apply text_cmp_before in E. destruct d; cbn; constructor; done.
  - destruct (text_cmp v u) eqn:E'; [done| |done]. apply text_cmp_before in E'. destruct d; cbn; constructor; done.
Qed.

Lemma rows_cmp_before `{Unicode} desc order_by a b :
  let key := sort_key desc order_by in
  match rows_cmp desc order_by a b with
  | Lt => key_before order_by (key a) (key b)
  | Eq => key a = key b
  | Gt => key_before order_by (key b) (key a)
  end.
Proof.
  cbn zeta. induction order_by as [|[e d n] items IH]; [done|]. cbn [rows_cmp sort_key fmap list_fmap].
  pose proof (item_cmp_before desc a b e d n) as Hi. cbn zeta in Hi. destruct (item_cmp _ _ _ _); [|by constructor|by constructor].
  rewrite Hi. destruct (rows_cmp _ _ _ _); [by f_equal|by constructor..].
Qed.

Lemma rows_cmp_key `{Unicode} desc order_by a b : rows_cmp desc order_by a b = Eq <-> sort_key desc order_by a = sort_key desc order_by b.
Proof.
  split; [intros E; pose proof (rows_cmp_before desc order_by a b) as Hk; by rewrite E in Hk|].
  induction order_by as [|[e d n] items IH]; [done|]. cbn [sort_key fmap list_fmap rows_cmp]. intros [Hv Hk]%(inj2 cons).
  enough (item_cmp (nulls_come_first n) d (default EmptyString (evaluate_expr e a desc)) (default EmptyString (evaluate_expr e b desc)) = Eq) as -> by auto.
  rewrite !sort_value_default in Hv. revert Hv. cbn zeta. unfold item_cmp.
  destruct (sorts_as_null _), (sorts_as_null _); [done..|]. intros [= <-]. rewrite text_cmp_refl. by destruct d.
Qed.

Lemma sorted_impl {A} (R R' : A -> A -> Prop) l : (forall x y, R x y -> R' x y) -> StronglySorted R l -> StronglySorted R' l.
Proof. intros Hr. induction 1 as [|x l _ IH Hx]; constructor; [done|]. eapply Forall_impl; [exact Hx|]. auto. Qed.

(** C29. ORDER BY returns the rows it was given, each of them before those that its
    items put behind it: texts ascend for ASC and descend otherwise, nulls come last
    unless the item says NULLS FIRST, and a later item counts where the earlier ones
    are equal. Rows that are equal on all items keep their order. *)
Theorem apply_order_by_spec `{Unicode} desc rows order_by :
  let key := fun r : TidRow => sort_key desc order_by r.2 in
  let sorted := apply_order_by desc rows order_by in
  sorted ≡ₚ rows
  /\ StronglySorted (fun a b => key_before order_by (key a) (key b) \/ key a = key b) sorted
  /\ forall r, List.filter (fun r' => bool_decide (key r' = key r)) sorted = List.filter (fun r' => bool_decide (key r' = key r)) rows.
Proof.
  pose proof (rows_cmp_total desc order_by) as Hrows.
  pose proof (key_total (snd : TidRow -> Row) (rows_cmp desc order_by)) as Htot.
  cbn zeta. unfold apply_order_by. set (cmp := fun a b : TidRow => rows_cmp desc order_by a.2 b.2). split_and!.
  - apply sort_by_perm.
  - eapply sorted_impl; [|apply (sort_by_sorted cmp rows)]. intros a b. unfold cmp_le, cmp.
    pose proof (rows_cmp_before desc order_by a.2 b.2) as Hk. destruct (rows_cmp _ _ _ _); [by right|by left|done].
  - intros r. assert (Hsame : forall l : list TidRow,
      List.filter (fun r' => bool_decide (sort_key desc order_by r'.2 = sort_key desc order_by r.2)) l = List.filter (fun r' => bool_decide (cmp r r' = Eq)) l).
    { intros l. apply List.filter_ext. intros r'. apply bool_decide_ext. unfold cmp. by rewrite rows_cmp_key. }
    rewrite !Hsame. apply (sort_by_stable cmp).
Qed.

(** DISTINCT ON keeps, of the rows with the same key, the first, and keeps them in
    order; DISTINCT is the case of the whole row. *)
Theorem apply_distinct_on_spec `{Unicode} desc rows on_exprs :
  let key := distinct_key desc on_exprs in
  let kept := apply_distinct_on desc rows on_exprs in
  NoDup (key <$> kept) /\ kept `sublist_of` rows /\
  (forall k, List.find (fun r => bool_decide (key r = k)) kept = List.find (fun r => bool_decide (key r = k)) rows) /\
  NoDup (apply_distinct rows).*2 /\ (forall row, row ∈ (apply_distinct rows).*2 <-> row ∈ rows.*2).
Proof.
  cbn zeta. split_and!.
  - apply first_of_each_nodup.
  - apply first_of_each_sublist.
  - intros k. apply first_of_each_first. set_solver.
  - apply first_of_each_nodup.
  - intros row. split; [|apply first_of_each_in; set_solver].
    intros (r & -> & Hr)%list_elem_of_fmap.
    apply first_of_each_elem in Hr as [Hr _]. apply list_elem_of_fmap. by exists r.
Qed.

(** OFFSET n LIMIT m on literals keeps the rows n to n + m - 1. *)
Lemma row_count_number `{Unicode} desc n :
  0 <= n < 2 ^ 64 -> row_count desc (Expr_Literal (Literal.Number (pretty n))) = n.
Proof. intros Hn. unfold row_count. cbn. by rewrite parse_unsigned_pretty. Qed.

Theorem limit_offset_spec `{Unicode} desc rows n m :
  0 <= n < 2 ^ 64 -> 0 <= m < 2 ^ 64 ->
  let number k := Expr_Literal (Literal.Number (pretty k)) in
  apply_limit_offset desc (apply_offset desc rows (number n)) (LimitClause_Expr (number m)) =
  take (Z.to_nat m) (drop (Z.to_nat n) rows).
Proof. intros Hn Hm number. unfold number, apply_limit_offset, apply_offset. by rewrite !row_count_number. Qed.

(* ------------------------------------------------------------------ *)
(** ** Multiplicities of the set operations *)

(** How often a row occurs. *)
Definition occurrences (x : Row) (rows : list Row) : Z := zlen (List.filter (fun r => bool_decide (r = x)) rows).

Lemma occurrences_cons x r rows : occurrences x (r :: rows) = (if bool_decide (r = x) then 1 else 0) + occurrences x rows.
Proof. unfold occurrences. cbn. case_bool_decide; cbn; lia. Qed.

Lemma occurrences_app x rows rows' : occurrences x (rows ++ rows') = occurrences x rows + occurrences x rows'.
Proof. unfold occurrences. rewrite List.filter_app, length_app. lia. Qed.

Lemma occurrences_nonneg x rows : 0 <= occurrences x rows.
Proof. unfold occurrences. lia. Qed.

Lemma occurrences_in x rows : x ∈ rows <-> 0 < occurrences x rows.
Proof.
  induction rows as [|r rows IH]; [by split; [intros ?%not_elem_of_nil|]|].
  rewrite elem_of_cons, occurrences_cons, IH. pose proof (occurrences_nonneg x rows). case_bool_decide; naive_solver lia.
Qed.

Lemma occurrences_filter (p : Row -> bool) x rows : occurrences x (List.filter p rows) = if p x then occurrences x rows else 0.
Proof.
  induction rows as [|r rows IH]; [by destruct (p x)|]. cbn [List.filter]. rewrite occurrences_cons.
  destruct (p r) eqn:E; rewrite ?occurrences_cons, IH; case_bool_decide; subst; rewrite ?E; destruct (p x); lia.
Qed.

Lemma occurrences_firsts seen x rows :
  occurrences x (first_of_each id seen rows) =
    if decide (x ∈ seen) then 0 else if decide (x ∈ rows) then 1 else 0.
Proof.
  revert seen. induction rows as [|r rows IH]; intros seen; [by repeat case_decide; try set_solver|].
  cbn [first_of_each]. unfold id at 1. case_bool_decide as E.
  - rewrite IH. repeat case_decide; set_solver.
  - rewrite occurrences_cons, IH. unfold id. case_bool_decide; repeat case_decide; set_solver.
Qed.

Lemma default_some {A} (d a : A) : default d (Some a) = a.
Proof. done. Qed.

Lemma row_counts_spec rows x : default 0 (row_counts rows !! x) = occurrences x rows.
Proof.
  unfold row_counts. assert (Hg : forall m, default 0 (foldl (fun (m : gmap Row Z) r => <[r := default 0 (m !! r) + 1]> m) m rows !! x) =
    default 0 (m !! x) + occurrences x rows).
  { induction rows as [|r rows IH]; intros m; [unfold occurrences; cbn; lia|]. cbn [foldl]. rewrite IH, occurrences_cons.
    case_bool_decide as E; [subst; rewrite lookup_insert_eq; cbn; lia|]. rewrite lookup_insert_ne by done. lia. }
  rewrite Hg, lookup_empty. apply Z.add_0_l.
Qed.

Lemma take_counted_spec counts rows x :
  occurrences x (take_counted counts rows) = Z.min (occurrences x rows) (Z.max 0 (default 0 (counts !! x))).
Proof.
  revert counts. induction rows as [|r rows IH]; intros counts; [unfold occurrences; cbn; lia|]. pose proof (occurrences_nonneg x rows).
  cbn [take_counted]. rewrite occurrences_cons. destruct (counts !! r) as [n|] eqn:E.
  - destruct (Z.ltb_spec 0 n); [rewrite occurrences_cons|]; rewrite IH; case_bool_decide; subst;
      rewrite ?E, ?lookup_insert_eq, ?lookup_insert_ne, ?default_some by done; lia.
  - rewrite IH. case_bool_decide; subst; rewrite ?E; cbn [default from_option]; lia.
Qed.

Lemma drop_counted_spec counts rows x :
  occurrences x (drop_counted counts rows) = Z.max 0 (occurrences x rows - Z.max 0 (default 0 (counts !! x))).
Proof.
  revert counts. induction rows as [|r rows IH]; intros counts; [unfold occurrences; cbn; lia|]. pose proof (occurrences_nonneg x rows).
  cbn [drop_counted]. rewrite occurrences_cons. destruct (counts !! r) as [n|] eqn:E.
  - destruct (Z.ltb_spec 0 n); rewrite ?occurrences_cons, IH; case_bool_decide; subst;
      rewrite ?E, ?lookup_insert_eq, ?lookup_insert_ne, ?default_some by done; lia.
  - rewrite occurrences_cons, IH. case_bool_decide; subst; rewrite ?E; cbn [default from_option]; lia.
Qed.

(** How often a row is in the result of a set operation, from how often it is on
    the left and on the right. UNION, UNION ALL, INTERSECT ALL and EXCEPT ALL are
    SQL's; INTERSECT and EXCEPT keep the duplicates of the left side, where SQL
    returns the row once. *)
Theorem set_operation_multiplicity l r op x :
  let n := occurrences x (sel_rows l) in
  let m := occurrences x (sel_rows r) in
  occurrences x (sel_rows (apply_set_operation l r op)) =
    match op with
    | SetOperator.Union => Z.min 1 (n + m)
    | SetOperator.UnionAll => n + m
    | SetOperator.Intersect => if 0 <? m then n else 0
    | SetOperator.IntersectAll => Z.min n m
    | SetOperator.Except => if 0 <? m then 0 else n
    | SetOperator.ExceptAll => Z.max 0 (n - m)
    end.
Proof.
  cbn zeta. pose proof (occurrences_nonneg x (sel_rows l)) as Hn. pose proof (occurrences_nonneg x (sel_rows r)) as Hm.
  pose proof (occurrences_in x (sel_rows l)) as Hl. pose proof (occurrences_in x (sel_rows r)) as Hr.
  destruct op; cbn [apply_set_operation sel_rows].
  - rewrite occurrences_app, !occurrences_firsts.
    assert (Hk : x ∈ (list_to_set (first_of_each id ∅ (sel_rows l)) : gset Row) <-> x ∈ sel_rows l).
    { rewrite elem_of_list_to_set, occurrences_in, occurrences_firsts.
      rewrite decide_False by apply not_elem_of_empty. destruct (decide _); naive_solver lia. }
    rewrite decide_False by apply not_elem_of_empty.
    destruct (decide (x ∈ sel_rows l)) as [Il|Il], (decide (x ∈ list_to_set _)) as [Ik|Ik], (decide (x ∈ sel_rows r)) as [Ir|Ir];
      rewrite ?Hk in Ik; rewrite ?Hl in *; rewrite ?Hr in *; try done; lia.
  - apply occurrences_app.
  - rewrite occurrences_filter. case_bool_decide as E; rewrite elem_of_list_to_set in E; destruct (Z.ltb_spec 0 (occurrences x (sel_rows r))); naive_solver lia.
  - rewrite take_counted_spec, row_counts_spec. lia.
  - rewrite occurrences_filter. case_bool_decide as E; rewrite elem_of_list_to_set in E; cbn; destruct (Z.ltb_spec 0 (occurrences x (sel_rows r))); naive_solver lia.
  - rewrite drop_counted_spec, row_counts_spec. lia.
Qed.
