(* ===== verification/Joins.v ===== *)
(** Joins ([src/src/executor/select/joins.rs]) and their algorithms
    ([algorithms.rs]): nested loop, hash and merge join, the choice between them,
    and USING. *)

From S2P Require Import Prelude Types SqlText Ast Eval RowOps.

Inductive JoinAlgorithm := NestedLoop | Hash | Merge.

(** The length of the first row, for the columns of a side. *)
Definition first_width (rows : list TidRow) : nat := match rows with (_, r) :: _ => length r | [] => 0%nat end.

Definition blanks (n : nat) : Row := replicate n EmptyString.

(** Join types that keep the rows of a side without a match. *)
Definition keeps_left (t : JoinType) : bool := match t with JoinType.Left | JoinType.Full => true | _ => false end.
Definition keeps_right (t : JoinType) : bool := match t with JoinType.Right | JoinType.Full => true | _ => false end.
Definition is_left_join (t : JoinType) : bool := match t with JoinType.Left => true | _ => false end.
Definition is_full_join (t : JoinType) : bool := match t with JoinType.Full => true | _ => false end.

Definition no_rows (l : list TidRow) : bool := match l with [] => true | _ => false end.

(** The count of columns that the right side is padded to. *)
Definition right_width (left_rows right_rows : list TidRow) : nat :=
  if no_rows right_rows then first_width left_rows else first_width right_rows.

Section joins.
Context `{Unicode}.

(** The key of a row on one side of the condition: any operator will do where the
    code does not look at it. *)
Definition left_key (on_expr : Expr) (desc : option TupleDesc) (row : Row) : option string :=
  match on_expr with Expr_BinaryOp l _ _ => evaluate_expr l row desc | _ => None end.
Definition right_key (on_expr : Expr) (desc : option TupleDesc) (row : Row) : option string :=
  match on_expr with Expr_BinaryOp _ _ r => evaluate_expr r row desc | _ => None end.

Definition is_equi_join (on_expr : Expr) : bool :=
  match on_expr with Expr_BinaryOp _ BinaryOperator.Equals _ => true | _ => false end.

(* ---------------------------------------------------------------- *)
(** ** Hash join *)

(** The table of the right rows by their key. *)
Definition hash_build (on_expr : Expr) (desc : option TupleDesc) (right_rows : list TidRow) : gmap string (list Row) :=
  foldl (fun (table : gmap string (list Row)) (r : TidRow) =>
    if is_equi_join on_expr then
      match right_key on_expr desc r.2 with
      | Some k => <[k := (default [] (table !! k) ++ [r.2])%list]> table
      | None => table
      end
    else table) ∅ right_rows.

Definition hash_probe (on_expr : Expr) (desc : option TupleDesc) (join_type : JoinType) (width : nat)
    (table : gmap string (list Row)) (l : TidRow) : list TidRow :=
  if is_equi_join on_expr then
    match left_key on_expr desc l.2 with
    | Some k =>
        match table !! k with
        | Some matching => (fun r => (l.1, l.2 ++ r)) <$> matching
        | None => if is_left_join join_type then [(l.1, l.2 ++ blanks width)] else []
        end
    | None => []
    end
  else [].

(** [matched]: a row of the other side with the same key. *)
Definition key_matches (a b : option string) : bool :=
  match a, b with Some k, Some k' => String.eqb k k' | _, _ => false end.

Definition hash_join (left_rows right_rows : list TidRow) (on_expr : Expr) (join_type : JoinType)
    (desc : option TupleDesc) : list TidRow :=
  let width := right_width left_rows right_rows in
  let table := hash_build on_expr desc right_rows in
  let kl := left_key on_expr desc in
  let kr := right_key on_expr desc in
  concat (hash_probe on_expr desc join_type width table <$> left_rows) ++
  (if keeps_right join_type then
     (fun r : TidRow => (no_tid, blanks (first_width left_rows) ++ r.2)) <$>
       List.filter (fun r : TidRow => negb (existsb (fun l : TidRow => key_matches (kl l.2) (kr r.2)) left_rows)) right_rows
   else []) ++
  (if is_full_join join_type then
     (fun l : TidRow => (l.1, l.2 ++ blanks width)) <$>
       List.filter (fun l : TidRow => negb (existsb (fun r : TidRow => key_matches (kl l.2) (kr r.2)) right_rows)) left_rows
   else []).

(* ---------------------------------------------------------------- *)
(** ** Merge join *)

(** A row with its key and whether it is matched. *)
Record keyed := { k_tid : ItemPointerData; k_row : Row; k_key : string; k_matched : bool }.

Definition with_key (key : Row -> option string) (r : TidRow) : keyed :=
  {| k_tid := r.1; k_row := r.2; k_key := default EmptyString (key r.2); k_matched := false |}.

Definition set_matched (k : keyed) : keyed :=
  {| k_tid := k_tid k; k_row := k_row k; k_key := k_key k; k_matched := true |}.

Definition has_key (k : string) (x : keyed) : bool := String.eqb (k_key x) k.

(** The rows at the front with a key, and those from the first other one on. *)
Fixpoint span_key (k : string) (l : list keyed) : list keyed * list keyed :=
  match l with
  | [] => ([], [])
  | x :: l' => if has_key k x then let '(g, rest) := span_key k l' in (x :: g, rest) else ([], l)
  end.

Definition pad_left_row (width : nat) (l : keyed) : list TidRow :=
  if k_matched l then [] else [(k_tid l, k_row l ++ blanks width)].
Definition pad_right_row (width : nat) (r : keyed) : list TidRow :=
  if k_matched r then [] else [(k_tid r, blanks width ++ k_row r)].

(** The merge of the rows from [i] on the left and from [j] on the right. The rows
    of a group are marked on both sides; the ones passed over, which are marked
    too, are not looked at again. Each round passes a row, so the number of rows is
    fuel enough. *)
Fixpoint merge_rows (fuel : nat) (join_type : JoinType) (lw rw : nat) (ls rs : list keyed) : list TidRow :=
  match fuel with
  | O => []
  | S fuel =>
      match ls, rs with
      | l :: ls', r :: rs' =>
          match text_cmp (k_key l) (k_key r) with
          | Eq =>
              let '(lg, lrest) := span_key (k_key l) ls in
              let '(rg, rrest) := span_key (k_key l) rs in
              concat ((fun x => (fun y => (k_tid x, k_row x ++ k_row y)) <$> rg) <$> lg) ++
              merge_rows fuel join_type lw rw lrest rrest
          | Lt =>
              (if keeps_left join_type then pad_left_row rw l else []) ++ merge_rows fuel join_type lw rw ls' rs
          | Gt =>
              (if keeps_right join_type then pad_right_row lw r else []) ++ merge_rows fuel join_type lw rw ls rs'
          end
      | _, _ =>
          (if keeps_left join_type then concat (pad_left_row rw <$> ls) else []) ++
          (if keeps_right join_type then concat (pad_right_row lw <$> rs) else [])
      end
  end.

Definition merge_join (left_rows right_rows : list TidRow) (on_expr : Expr) (join_type : JoinType)
    (desc : option TupleDesc) : list TidRow :=
  let rw := right_width left_rows right_rows in
  let lw := first_width left_rows in
  if no_rows left_rows || no_rows right_rows then
    match join_type with
    | JoinType.Left => (fun l : TidRow => (l.1, l.2 ++ blanks rw)) <$> left_rows
    | JoinType.Right => (fun r : TidRow => (r.1, blanks lw ++ r.2)) <$> right_rows
    | JoinType.Full =>
        ((fun l : TidRow => (l.1, l.2 ++ blanks rw)) <$> left_rows) ++ ((fun r : TidRow => (r.1, blanks lw ++ r.2)) <$> right_rows)
    | _ => []
    end
  else
    let by_key (a b : keyed) := text_cmp (k_key a) (k_key b) in
    let ls := sort_by by_key (with_key (left_key on_expr desc) <$> left_rows) in
    let rs := sort_by by_key (with_key (right_key on_expr desc) <$> right_rows) in
    merge_rows (S (length ls + length rs)) join_type lw rw ls rs.

Definition choose_join_algorithm (left_size right_size : Z) (join_type : JoinType) : JoinAlgorithm :=
  if (left_size <=? 1000) || (right_size <=? 1000) then Hash else Merge.

(* ---------------------------------------------------------------- *)
(** ** Nested loops *)

Definition evaluate_join_condition (e : Expr) (row : Row) (desc : option TupleDesc) : bool := evaluate_where e row desc.

Definition nested_loop_join (left_rows right_rows : list TidRow) (on_expr : Expr) (join_type : JoinType)
    (desc : option TupleDesc) (right_col_count : nat) : list TidRow :=
  let holds (l r : TidRow) := evaluate_join_condition on_expr (l.2 ++ r.2) desc in
  let pairs tid (p : TidRow -> TidRow -> bool) (l : TidRow) : list TidRow :=
    (fun r : TidRow => (tid l, l.2 ++ r.2)) <$> List.filter (p l) right_rows in
  match join_type with
  | JoinType.Inner => concat (pairs fst holds <$> left_rows)
  | JoinType.Left =>
      concat ((fun l => if existsb (holds l) right_rows then pairs fst holds l else [(l.1, l.2 ++ blanks right_col_count)]) <$> left_rows)
  | JoinType.Right =>
      concat ((fun r : TidRow =>
        if existsb (fun l => holds l r) left_rows then
          (fun l : TidRow => (r.1, l.2 ++ r.2)) <$> List.filter (fun l => holds l r) left_rows
        else [(r.1, blanks (first_width left_rows) ++ r.2)]) <$> right_rows)
  | JoinType.Full =>
      concat ((fun l => if existsb (holds l) right_rows then pairs fst holds l else [(l.1, l.2 ++ blanks right_col_count)]) <$> left_rows) ++
      ((fun r : TidRow => (r.1, blanks (first_width left_rows) ++ r.2)) <$>
         List.filter (fun r => negb (existsb (fun l => holds l r) left_rows)) right_rows)
  | JoinType.Cross | JoinType.Lateral => concat (pairs fst (fun _ _ => true) <$> left_rows)
  end.

(** USING: a column is looked up by its name, at the same place on both sides; one
    that is not there does not count. *)
Definition using_column_differs (col_names : list string) (l r : Row) (col : string) : bool :=
  match position (fun n => eq_ignore_ascii_case n col) col_names with
  | Some i =>
      match l !! i, r !! i with
      | Some a, Some b => negb (bool_decide (a = b))
      | _, _ => false
      end
  | None => false
  end.

Definition using_join (col_names : list string) (left_rows right_rows : list TidRow) (cols : list string) : list TidRow :=
  concat ((fun l : TidRow => (fun r : TidRow => (l.1, l.2 ++ r.2)) <$>
    List.filter (fun r : TidRow => negb (existsb (using_column_differs col_names l.2 r.2) cols)) right_rows) <$> left_rows).

Definition execute_join (col_names : list string) (left_rows right_rows : list TidRow) (join : Join)
    (left_desc : option TupleDesc) : list TidRow :=
  match join with
  | mkJoin _ _ join_type (JoinConstraint_On on_expr) =>
      let nested := nested_loop_join left_rows right_rows on_expr join_type left_desc (first_width right_rows) in
      if is_equi_join on_expr then
        match choose_join_algorithm (zlen left_rows) (zlen right_rows) join_type with
        | Hash => hash_join left_rows right_rows on_expr join_type left_desc
        | Merge => merge_join left_rows right_rows on_expr join_type left_desc
        | NestedLoop => nested
        end
      else nested
  | mkJoin _ _ _ JoinConstraint_None =>
      concat ((fun l : TidRow => (fun r : TidRow => (l.1, l.2 ++ r.2)) <$> right_rows) <$> left_rows)
  | mkJoin _ _ _ (JoinConstraint_Using cols) => using_join col_names left_rows right_rows cols
  end.
End joins.

(* ------------------------------------------------------------------ *)
(** ** The reference join *)

Section reference.
Context (m : Row -> Row -> bool).

Definition inner_rows (L R : list Row) : list Row :=
  concat ((fun l => (fun r => l ++ r) <$> List.filter (m l) R) <$> L).
Definition left_only (L R : list Row) : list Row := List.filter (fun l => negb (existsb (m l) R)) L.
Definition right_only (L R : list Row) : list Row := List.filter (fun r => negb (existsb (fun l => m l r) L)) R.

(** A join: the pairs that match, and, for an outer join, the rows of a side that
    match nothing, padded. *)
Definition reference_join (t : JoinType) (lw rw : nat) (L R : list Row) : list Row :=
  inner_rows L R ++
  (if keeps_left t then (fun l => l ++ blanks rw) <$> left_only L R else []) ++
  (if keeps_right t then (fun r => blanks lw ++ r) <$> right_only L R else []).

Definition apart (L R : list Row) : Prop := forall l r, l ∈ L -> r ∈ R -> m l r = false.

Lemma filter_none {A} (p : A -> bool) (l : list A) : (forall x, x ∈ l -> p x = false) -> List.filter p l = [].
Proof. induction l as [|a l IH]; intros Hp; [done|]. cbn. rewrite Hp by left. apply IH. intros. apply Hp. by right. Qed.

Lemma filter_all {A} (p : A -> bool) (l : list A) : (forall x, p x = true) -> List.filter p l = l.
Proof. intros Hp. induction l as [|a l IH]; [done|]. cbn. by rewrite Hp, IH. Qed.

Lemma filter_same {A} (p q : A -> bool) (l : list A) : (forall x, x ∈ l -> p x = q x) -> List.filter p l = List.filter q l.
Proof. induction l as [|a l IH]; intros Hp; [done|]. cbn. rewrite Hp by left. by rewrite IH by (intros; apply Hp; by right). Qed.

Lemma existsb_none {A} (p : A -> bool) (l : list A) : (forall x, x ∈ l -> p x = false) -> existsb p l = false.
Proof. induction l as [|a l IH]; intros Hp; [done|]. cbn. rewrite Hp by left. apply IH. intros. apply Hp. by right. Qed.

Lemma map_same {A B} (f g : A -> B) (l : list A) : (forall x, x ∈ l -> f x = g x) -> f <$> l = g <$> l.
Proof. intros Hf. apply list_fmap_ext. intros i x Hi. apply Hf. by eapply list_elem_of_lookup_2. Qed.

Lemma inner_rows_split L1 L2 R1 R2 :
  apart L1 R2 -> apart L2 R1 -> inner_rows (L1 ++ L2) (R1 ++ R2) = inner_rows L1 R1 ++ inner_rows L2 R2.
Proof.
  intros H1 H2. unfold inner_rows. rewrite fmap_app, concat_app. f_equal; f_equal; apply map_same; intros l Hl;
    rewrite List.filter_app.
  - rewrite (filter_none _ R2) by (intros; by apply H1). by rewrite app_nil_r.
  - by rewrite (filter_none _ R1) by (intros; by apply H2).
Qed.

Lemma left_only_split L1 L2 R1 R2 :
  apart L1 R2 -> apart L2 R1 -> left_only (L1 ++ L2) (R1 ++ R2) = left_only L1 R1 ++ left_only L2 R2.
Proof.
  intros H1 H2. unfold left_only. rewrite List.filter_app. f_equal; apply filter_same; intros l Hl; rewrite existsb_app.
  - rewrite (existsb_none _ R2) by (intros; by apply H1). by rewrite orb_false_r.
  - by rewrite (existsb_none _ R1) by (intros; by apply H2).
Qed.

Lemma right_only_split L1 L2 R1 R2 :
  apart L1 R2 -> apart L2 R1 -> right_only (L1 ++ L2) (R1 ++ R2) = right_only L1 R1 ++ right_only L2 R2.
Proof.
  intros H1 H2. unfold right_only. rewrite List.filter_app. f_equal; apply filter_same; intros r Hr; rewrite existsb_app.
  - rewrite (existsb_none _ L2) by (intros; by apply H2). by rewrite orb_false_r.
  - by rewrite (existsb_none _ L1) by (intros; by apply H1).
Qed.

Lemma reference_split t lw rw L1 L2 R1 R2 :
  apart L1 R2 -> apart L2 R1 ->
  reference_join t lw rw (L1 ++ L2) (R1 ++ R2) ≡ₚ reference_join t lw rw L1 R1 ++ reference_join t lw rw L2 R2.
Proof.
  intros H1 H2. unfold reference_join. rewrite inner_rows_split, left_only_split, right_only_split by done.
  destruct (keeps_left t), (keeps_right t); rewrite ?fmap_app, ?app_nil_r; solve_Permutation.
Qed.

Lemma concat_map_perm {A B} (f g : A -> list B) (l l' : list A) :
  l ≡ₚ l' -> (forall x, f x ≡ₚ g x) -> concat (f <$> l) ≡ₚ concat (g <$> l').
Proof.
  intros Hl Hfg. transitivity (concat (g <$> l)).
  - clear Hl. induction l as [|z l IH]; [done|]. cbn. by rewrite IH, Hfg.
  - apply (fmap_Permutation g) in Hl. induction Hl as [|x k k' _ IH|x y k|k k' k'' _ IH _ IH']; cbn; [done|by rewrite IH| |by rewrite IH].
    rewrite !(assoc_L (++)). f_equiv. apply Permutation_app_comm.
Qed.

Lemma filter_perm {A} (p : A -> bool) l l' : l ≡ₚ l' -> List.filter p l ≡ₚ List.filter p l'.
Proof.
  induction 1 as [|x l l' _ IH|x y l|l l' l'' _ IH _ IH']; cbn; [done|by destruct (p x); rewrite IH| |by rewrite IH].
  destruct (p x), (p y); try done. constructor.
Qed.

Lemma existsb_perm {A} (p : A -> bool) l l' : l ≡ₚ l' -> existsb p l = existsb p l'.
Proof.
  induction 1 as [|x l l' _ IH|x y l|l l' l'' _ IH _ IH']; cbn; [done|by rewrite IH| |by rewrite IH].
  by destruct (p x), (p y).
Qed.

Lemma reference_perm t lw rw L L' R R' :
  L ≡ₚ L' -> R ≡ₚ R' -> reference_join t lw rw L R ≡ₚ reference_join t lw rw L' R'.
Proof.
  intros HL HR. unfold reference_join. f_equiv; [|f_equiv].
  - apply concat_map_perm; [done|]. intros l. by apply fmap_Permutation, filter_perm.
  - destruct (keeps_left t); [|done]. apply fmap_Permutation. unfold left_only. rewrite (filter_perm _ L L' HL).
    rewrite (filter_same _ (fun l => negb (existsb (m l) R'))); [done|]. intros l _. by rewrite (existsb_perm (m l) R R' HR).
  - destruct (keeps_right t); [|done]. apply fmap_Permutation. unfold right_only. rewrite (filter_perm _ R R' HR).
    rewrite (filter_same _ (fun r => negb (existsb (fun l => m l r) L'))); [done|]. intros r _.
    by rewrite (existsb_perm (fun l => m l r) L L' HL).
Qed.
End reference.

Lemma concat_snd {A} (f : A -> list TidRow) l : (concat (f <$> l)).*2 = concat ((fun x => (f x).*2) <$> l).
Proof. induction l as [|a l IH]; cbn; [done|]. by rewrite fmap_app, IH. Qed.

Lemma filter_snd (p : Row -> bool) (R : list TidRow) : (List.filter (fun r : TidRow => p r.2) R).*2 = List.filter p R.*2.
Proof. induction R as [|[t r] R IH]; cbn; [done|]. destruct (p r); cbn; by rewrite IH. Qed.

Lemma existsb_snd (p : Row -> bool) (R : list TidRow) : existsb (fun r : TidRow => p r.2) R = existsb p R.*2.
Proof. induction R as [|[t r] R IH]; cbn; [done|]. by rewrite IH. Qed.

Lemma map_snd_rows (tid : TidRow -> ItemPointerData) (f : Row -> Row) (R : list TidRow) :
  ((fun r : TidRow => (tid r, f r.2)) <$> R).*2 = f <$> R.*2.
Proof. induction R as [|[t r] R IH]; cbn; [done|]. by rewrite IH. Qed.

Lemma map_concat_snd {B} (f : Row -> list B) (L : list TidRow) : concat ((fun l : TidRow => f l.2) <$> L) = concat (f <$> L.*2).
Proof. induction L as [|[t r] L IH]; cbn; [done|]. by rewrite IH. Qed.

(** The rows of an outer join, made row by row or at the end. *)
Lemma outer_concat (e : Row -> bool) (f : Row -> list Row) (g : Row -> Row) (L : list Row) :
  (forall l, l ∈ L -> e l = false -> f l = []) ->
  concat ((fun l => if e l then f l else [g l]) <$> L) ≡ₚ concat (f <$> L) ++ (g <$> List.filter (fun l => negb (e l)) L).
Proof.
  induction L as [|l L IH]; intros Hf; [done|]. cbn [fmap list_fmap concat List.filter].
  rewrite IH by (intros; apply Hf; [by right|done]). destruct (e l) eqn:E; cbn.
  - by rewrite (assoc_L (++)).
  - rewrite (Hf l) by (done || left). cbn. apply Permutation_middle.
Qed.

Lemma pairs_none (m : Row -> Row -> bool) l (R : list Row) :
  existsb (m l) R = false -> (fun r => l ++ r) <$> List.filter (m l) R = [].
Proof. intros E. rewrite (filter_none (m l) R); [done|]. intros r Hr. apply not_true_iff_false. intros Hm.
  apply not_true_iff_false in E. apply E. apply existsb_exists. exists r. by rewrite <- list_elem_of_In. Qed.

(** The pairs, taken for each right row. *)
Lemma inner_rows_by_right (m : Row -> Row -> bool) (L R : list Row) :
  concat ((fun r => (fun l => l ++ r) <$> List.filter (fun l => m l r) L) <$> R) ≡ₚ inner_rows m L R.
Proof.
  unfold inner_rows. induction L as [|l L IH]; cbn.
  - induction R as [|r R IH]; [done|]. exact IH.
  - rewrite <- IH. clear IH. induction R as [|r R IH]; [done|]. cbn. rewrite IH. destruct (m l r); cbn; [|].
    + f_equiv. rewrite !(assoc_L (++)). f_equiv. apply Permutation_app_comm.
    + rewrite !(assoc_L (++)). f_equiv. apply Permutation_app_comm.
Qed.

Section algorithms.
Context `{Unicode}.

(** The condition a join type asks of a pair. *)
Definition join_condition (t : JoinType) (on_expr : Expr) (desc : option TupleDesc) (l r : Row) : bool :=
  match t with
  | JoinType.Cross | JoinType.Lateral => true
  | _ => evaluate_join_condition on_expr (l ++ r) desc
  end.

Lemma nested_loop_reference L R on_expr t desc :
  (nested_loop_join L R on_expr t desc (first_width R)).*2 ≡ₚ
  reference_join (join_condition t on_expr desc) t (first_width L) (first_width R) L.*2 R.*2.
Proof.
  unfold nested_loop_join, reference_join.
  set (m := fun l r => evaluate_join_condition on_expr (l ++ r) desc).
  assert (Hpairs : forall (m' : Row -> Row -> bool) (l : TidRow), ((fun r : TidRow => (l.1, l.2 ++ r.2)) <$> List.filter (fun r : TidRow => m' l.2 r.2) R).*2 =
    (fun r => l.2 ++ r) <$> List.filter (m' l.2) R.*2).
  { intros m' l. by rewrite (map_snd_rows (fun _ => l.1) (fun r => l.2 ++ r)), (filter_snd (m' l.2)). }
  assert (Hinner : forall m' : Row -> Row -> bool, (concat ((fun l : TidRow => (fun r : TidRow => (l.1, l.2 ++ r.2)) <$> List.filter (fun r : TidRow => m' l.2 r.2) R) <$> L)).*2 =
    inner_rows m' L.*2 R.*2).
  { intros m'. rewrite concat_snd. unfold inner_rows. rewrite <- (map_concat_snd (fun l => (fun r => l ++ r) <$> List.filter (m' l) R.*2)).
    f_equal. apply map_same. intros l _. apply Hpairs. }
  assert (Hleft : (concat ((fun l : TidRow => if existsb (fun r : TidRow => m l.2 r.2) R
      then (fun r : TidRow => (l.1, l.2 ++ r.2)) <$> List.filter (fun r : TidRow => m l.2 r.2) R
      else [(l.1, l.2 ++ blanks (first_width R))]) <$> L)).*2 ≡ₚ
    inner_rows m L.*2 R.*2 ++ ((fun l => l ++ blanks (first_width R)) <$> left_only m L.*2 R.*2)).
  { rewrite concat_snd. rewrite (map_same _ (fun l : TidRow => if existsb (m l.2) R.*2 then (fun r => l.2 ++ r) <$> List.filter (m l.2) R.*2
        else [l.2 ++ blanks (first_width R)])).
    2:{ intros l _. rewrite (existsb_snd (m l.2)). destruct (existsb _ _); [apply Hpairs|done]. }
    rewrite (map_concat_snd (fun l => if existsb (m l) R.*2 then (fun r => l ++ r) <$> List.filter (m l) R.*2
        else [l ++ blanks (first_width R)])).
    rewrite (outer_concat (fun l => existsb (m l) R.*2)); [done|]. intros l _. apply pairs_none. }
  destruct t; cbn [keeps_left keeps_right join_condition]; rewrite ?app_nil_r.
  - apply eq_Permutation. exact (Hinner m).
  - exact Hleft.
  - cbn zeta. rewrite concat_snd. rewrite (map_same _ (fun r : TidRow => if existsb (fun l => m l r.2) L.*2
        then (fun l => l ++ r.2) <$> List.filter (fun l => m l r.2) L.*2 else [blanks (first_width L) ++ r.2])).
    2:{ intros r _. rewrite <- (existsb_snd (fun l => m l r.2)). fold (m). destruct (existsb _ _); [|done].
        rewrite <- (filter_snd (fun l => m l r.2)). by rewrite (map_snd_rows (fun _ => r.1) (fun l => l ++ r.2)). }
    rewrite (map_concat_snd (fun r => if existsb (fun l => m l r) L.*2 then (fun l => l ++ r) <$> List.filter (fun l => m l r) L.*2
        else [blanks (first_width L) ++ r])).
    rewrite (outer_concat (fun r => existsb (fun l => m l r) L.*2)); [|intros r _ E].
    + by rewrite inner_rows_by_right.
    + rewrite (filter_none _ L.*2); [done|]. intros l Hl. apply not_true_iff_false. intros Hm. apply not_true_iff_false in E. apply E.
      apply existsb_exists. exists l. by rewrite <- list_elem_of_In.
  - cbn zeta. rewrite fmap_app, (assoc_L (++)). apply Permutation_app; [exact Hleft|]. apply eq_Permutation.
    rewrite (map_snd_rows fst (fun r => blanks (first_width L) ++ r)). f_equal. unfold right_only.
    rewrite <- (filter_snd (fun r => negb (existsb (fun l => m l r) L.*2))). f_equal.
    apply filter_same. intros r _. by rewrite <- (existsb_snd (fun l => m l r.2)).
  - apply eq_Permutation. exact (Hinner (fun _ _ => true)).
  - apply eq_Permutation. exact (Hinner (fun _ _ => true)).
Qed.

(* ---------------------------------------------------------------- *)
(** ** Hash join against the reference *)

Definition same_key (on_expr : Expr) (desc : option TupleDesc) (l r : Row) : bool :=
  key_matches (left_key on_expr desc l) (right_key on_expr desc r).

Lemma hash_build_lookup on_expr desc R k :
  is_equi_join on_expr = true ->
  hash_build on_expr desc R !! k =
    match List.filter (fun r => key_matches (Some k) (right_key on_expr desc r)) R.*2 with [] => None | g => Some g end.
Proof.
  intros He. unfold hash_build. rewrite He. set (kr := right_key on_expr desc).
  assert (Hg : forall table : gmap string (list Row),
    foldl (fun (table : gmap string (list Row)) (r : TidRow) => match kr r.2 with
      | Some k => <[k := (default [] (table !! k) ++ [r.2])%list]> table | None => table end) table R !! k =
    match List.filter (fun r => key_matches (Some k) (kr r)) R.*2 with
    | [] => table !! k | g => Some (default [] (table !! k) ++ g) end).
  { induction R as [|[t r] R IH]; intros table; [done|]. cbn [foldl fmap list_fmap snd List.filter]. rewrite IH. clear IH.
    destruct (kr r) as [k'|]; cbn [key_matches]; [|done]. destruct (String.eqb_spec k k') as [<-|Hne].
    - rewrite lookup_insert_eq. cbn. destruct (List.filter _ _); [done|]. by rewrite <- (assoc_L (++)).
    - rewrite lookup_insert_ne by done. done. }
  rewrite Hg. rewrite lookup_empty. by destruct (List.filter _ _).
Qed.

Lemma hash_probe_rows on_expr desc t width R (l : TidRow) :
  is_equi_join on_expr = true -> (is_left_join t = true -> left_key on_expr desc l.2 <> None) ->
  (hash_probe on_expr desc t width (hash_build on_expr desc R) l).*2 =
    if is_left_join t && negb (existsb (same_key on_expr desc l.2) R.*2) then [l.2 ++ blanks width]
    else (fun r => l.2 ++ r) <$> List.filter (same_key on_expr desc l.2) R.*2.
Proof.
  intros He Hk. unfold hash_probe, same_key. rewrite He. destruct (left_key on_expr desc l.2) as [k|].
  - rewrite hash_build_lookup by done.
    set (p := fun r => key_matches (Some k) (right_key on_expr desc r)). destruct (existsb p R.*2) eqn:E.
    + rewrite andb_false_r. destruct (List.filter p R.*2) as [|r g] eqn:Ef.
      * apply existsb_exists in E as (r & Hr & Hp). assert (Hin : In r (List.filter p R.*2)) by (by apply filter_In). by rewrite Ef in Hin.
      * cbn [snd]. rewrite <- list_fmap_compose. done.
    + rewrite andb_true_r. pose proof (pairs_none (fun _ => p) l.2 R.*2 E) as Hn. destruct (List.filter p R.*2); [|done]. by destruct (is_left_join t).
  - destruct (is_left_join t); [by destruct (Hk eq_refl)|]. cbn [andb]. by rewrite filter_none.
Qed.

Lemma hash_join_reference L R on_expr t desc :
  is_equi_join on_expr = true -> (is_left_join t = true -> Forall (fun l => left_key on_expr desc l <> None) L.*2) ->
  (hash_join L R on_expr t desc).*2 ≡ₚ
  reference_join (same_key on_expr desc) t (first_width L) (right_width L R) L.*2 R.*2.
Proof.
  intros He Hk. unfold hash_join, reference_join. rewrite !fmap_app, concat_snd.
  set (m := same_key on_expr desc). set (rw := right_width L R).
  rewrite (map_same _ (fun l : TidRow => if is_left_join t && negb (existsb (m l.2) R.*2) then [l.2 ++ blanks rw]
    else (fun r => l.2 ++ r) <$> List.filter (m l.2) R.*2)).
  2:{ intros l Hl. apply hash_probe_rows; [done|]. intros Ht. specialize (Hk Ht). rewrite Forall_forall in Hk.
      apply Hk. apply list_elem_of_fmap. by exists l. }
  rewrite (map_concat_snd (fun l => if is_left_join t && negb (existsb (m l) R.*2) then [l ++ blanks rw]
    else (fun r => l ++ r) <$> List.filter (m l) R.*2)).
  assert (Hl : forall tid : TidRow -> ItemPointerData, ((fun l : TidRow => (tid l, l.2 ++ blanks rw)) <$>
      List.filter (fun l : TidRow => negb (existsb (fun r : TidRow => key_matches (left_key on_expr desc l.2) (right_key on_expr desc r.2)) R)) L).*2
    = (fun l => l ++ blanks rw) <$> left_only m L.*2 R.*2).
  { intros tid. rewrite (map_snd_rows tid (fun l => l ++ blanks rw)). f_equal. unfold left_only.
    rewrite <- (filter_snd (fun l => negb (existsb (m l) R.*2))). f_equal. apply filter_same. intros l _. by rewrite <- (existsb_snd (m l.2)). }
  assert (Hr : forall tid : TidRow -> ItemPointerData, ((fun r : TidRow => (tid r, blanks (first_width L) ++ r.2)) <$>
      List.filter (fun r : TidRow => negb (existsb (fun l : TidRow => key_matches (left_key on_expr desc l.2) (right_key on_expr desc r.2)) L)) R).*2
    = (fun r => blanks (first_width L) ++ r) <$> right_only m L.*2 R.*2).
  { intros tid. rewrite (map_snd_rows tid (fun r => blanks (first_width L) ++ r)). f_equal. unfold right_only.
    rewrite <- (filter_snd (fun r => negb (existsb (fun l => m l r) L.*2))). f_equal. apply filter_same. intros r _.
    by rewrite <- (existsb_snd (fun l => m l r.2)). }
  destruct t; cbn [is_left_join is_full_join keeps_left keeps_right andb]; rewrite ?(Hl fst), ?(Hr (fun _ => no_tid)), ?app_nil_r; try done.
  - etransitivity; [|apply (outer_concat (fun l => existsb (m l) R.*2) (fun l => (fun r => l ++ r) <$> List.filter (m l) R.*2)
      (fun l => l ++ blanks rw))].
    + apply eq_Permutation. f_equal. apply map_same. intros l _. by destruct (existsb _ _).
    + intros l _. apply pairs_none.
  - apply Permutation_app; [done|]. apply Permutation_app_comm.
Qed.

(* ---------------------------------------------------------------- *)
(** ** Merge join against the reference *)

Section merge.
Context (kl kr : Row -> string).

Definition keys_equal (l r : Row) : bool := String.eqb (kl l) (kr r).

(** The rows carry their keys, and no mark. *)
Definition keyed_by (kf : Row -> string) (xs : list keyed) : Prop := Forall (fun x => k_key x = kf (k_row x) /\ k_matched x = false) xs.

Definition key_sorted (xs : list keyed) : Prop := StronglySorted (cmp_le (fun a b => text_cmp (k_key a) (k_key b))) xs.

Lemma span_key_spec k xs g rest :
  span_key k xs = (g, rest) -> key_sorted xs -> Forall (fun x => cmp_le text_cmp k (k_key x)) xs ->
  xs = g ++ rest /\ Forall (fun x => k_key x = k) g /\ Forall (fun x => text_cmp k (k_key x) = Lt) rest /\ key_sorted rest.
Proof.
  revert g. induction xs as [|x xs IH]; intros g; cbn; [by intros [= <- <-]|]. intros Hsp Hs Hk.
  inversion Hs as [|? ? Hs' Hx]; inversion Hk as [|? ? Hkx Hk']; subst. unfold has_key in Hsp.
  destruct (String.eqb_spec (k_key x) k) as [E|E].
  - destruct (span_key k xs) as [g' rest'] eqn:Es. injection Hsp as <- <-.
    destruct (IH g' eq_refl Hs' Hk') as (-> & Hg & Hr & Hsr). split_and!; try done. by constructor.
  - injection Hsp as <- <-. split_and!; [done|constructor| |done].
    assert (Hlt : text_cmp k (k_key x) = Lt).
    { unfold cmp_le in Hkx. destruct (text_cmp k (k_key x)) eqn:Ek; [|done..]. by apply text_cmp_eq in Ek. }
    constructor; [done|]. rewrite Forall_forall in Hx |- *. intros y Hy. specialize (Hx y Hy). unfold cmp_le in Hx.
    destruct (text_cmp (k_key x) (k_key y)) eqn:Exy; [|by apply (text_cmp_trans Lt k (k_key x))|done].
    apply text_cmp_eq in Exy. by rewrite <- Exy.
Qed.

Lemma keyed_app kf xs ys : keyed_by kf (xs ++ ys) <-> keyed_by kf xs /\ keyed_by kf ys.
Proof. apply Forall_app. Qed.

Lemma keys_apart ls rs :
  keyed_by kl ls -> keyed_by kr rs -> (forall x y, x ∈ ls -> y ∈ rs -> k_key x <> k_key y) ->
  apart keys_equal (k_row <$> ls) (k_row <$> rs).
Proof.
  intros Hl Hr Hne l r (x & -> & Hx)%list_elem_of_fmap (y & -> & Hy)%list_elem_of_fmap.
  unfold keyed_by in Hl, Hr. rewrite Forall_forall in Hl, Hr. unfold keys_equal.
  destruct (Hl x Hx) as [<- _], (Hr y Hy) as [<- _]. apply String.eqb_neq. by apply Hne.
Qed.

Lemma keys_together ls rs k t lw rw :
  keyed_by kl ls -> keyed_by kr rs -> Forall (fun x => k_key x = k) ls -> Forall (fun x => k_key x = k) rs ->
  ls <> [] -> rs <> [] ->
  (concat ((fun x => (fun y => (k_tid x, k_row x ++ k_row y)) <$> rs) <$> ls)).*2 =
  reference_join keys_equal t lw rw (k_row <$> ls) (k_row <$> rs).
Proof.
  intros Hl Hr Hkl Hkr Hnl Hnr.
  assert (Heq : forall l r, l ∈ k_row <$> ls -> r ∈ k_row <$> rs -> keys_equal l r = true).
  { intros l r (x & -> & Hx)%list_elem_of_fmap (y & -> & Hy)%list_elem_of_fmap. unfold keyed_by in Hl, Hr.
    rewrite Forall_forall in Hl, Hr, Hkl, Hkr. unfold keys_equal. destruct (Hl x Hx) as [<- _], (Hr y Hy) as [<- _].
    rewrite (Hkl x Hx), (Hkr y Hy). apply String.eqb_refl. }
  unfold reference_join. assert (left_only keys_equal (k_row <$> ls) (k_row <$> rs) = []) as ->.
  { apply filter_none. intros l Hin. destruct rs as [|r rs]; [done|]. cbn. rewrite Heq; [done|done|]. left. }
  assert (right_only keys_equal (k_row <$> ls) (k_row <$> rs) = []) as ->.
  { apply filter_none. intros r Hin. destruct ls as [|l ls]; [done|]. cbn. rewrite Heq; [done|left|done]. }
  assert (Hnil : forall b : bool, (if b then [] else []) = ([] : list Row)) by (by intros []).
  cbn [fmap list_fmap]. rewrite !Hnil, !app_nil_r, concat_snd. unfold inner_rows. rewrite <- list_fmap_compose. f_equal.
  apply map_same. intros x Hx. cbn [compose]. rewrite (filter_same _ (fun _ => true)).
  - rewrite <- !list_fmap_compose. rewrite filter_all by done. by rewrite <- list_fmap_compose.
  - intros r Hin. apply Heq; [|done]. apply list_elem_of_fmap. by exists x.
Qed.

Lemma reference_nil_r t lw rw L :
  reference_join keys_equal t lw rw L [] = if keeps_left t then (fun l => l ++ blanks rw) <$> L else [].
Proof.
  unfold reference_join, inner_rows, left_only, right_only. cbn [List.filter existsb fmap list_fmap].
  assert (concat ((fun _ => []) <$> L) = ([] : list Row)) as -> by (by induction L).
  rewrite (filter_all _ L) by done.
  destruct (keeps_left t), (keeps_right t); by rewrite ?app_nil_r.
Qed.

Lemma reference_nil_l t lw rw R :
  reference_join keys_equal t lw rw [] R = if keeps_right t then (fun r => blanks lw ++ r) <$> R else [].
Proof.
  unfold reference_join, inner_rows, left_only, right_only. cbn [List.filter existsb fmap list_fmap concat].
  rewrite (filter_all _ R) by done.
  destruct (keeps_left t), (keeps_right t); by rewrite ?app_nil_r.
Qed.

Lemma pads_left rw ls : keyed_by kl ls -> (concat (pad_left_row rw <$> ls)).*2 = (fun l => l ++ blanks rw) <$> (k_row <$> ls).
Proof. induction 1 as [|x ls [_ Hm] _ IH]; cbn; [done|]. unfold pad_left_row at 1. rewrite Hm. cbn. by rewrite IH. Qed.

Lemma pads_right lw rs : keyed_by kr rs -> (concat (pad_right_row lw <$> rs)).*2 = (fun r => blanks lw ++ r) <$> (k_row <$> rs).
Proof. induction 1 as [|x ls [_ Hm] _ IH]; cbn; [done|]. unfold pad_right_row at 1. rewrite Hm. cbn. by rewrite IH. Qed.

Lemma keys_below (k : string) (x y : keyed) : k_key x = k -> text_cmp k (k_key y) = Lt -> k_key x <> k_key y.
Proof. intros -> Hlt E. rewrite <- E, text_cmp_refl in Hlt. done. Qed.

Lemma key_sorted_tail x xs : key_sorted (x :: xs) -> Forall (fun y => cmp_le text_cmp (k_key x) (k_key y)) (x :: xs).
Proof. intros Hs. inversion Hs as [|? ? _ Hx]; subst. constructor; [unfold cmp_le; by rewrite text_cmp_refl|done]. Qed.

(** A key below the first of a sorted list is below all of them. *)
Lemma sorted_above k x xs y : key_sorted (x :: xs) -> text_cmp k (k_key x) = Lt -> y ∈ x :: xs -> text_cmp k (k_key y) = Lt.
Proof.
  intros Hs%key_sorted_tail Hk Hy. rewrite Forall_forall in Hs. specialize (Hs y Hy). unfold cmp_le in Hs.
  destruct (text_cmp (k_key x) (k_key y)) eqn:E; [|by apply (text_cmp_trans Lt k (k_key x))|done].
  apply text_cmp_eq in E. by rewrite <- E.
Qed.

Lemma merge_rows_reference fuel t lw rw ls rs :
  (length ls + length rs < fuel)%nat -> key_sorted ls -> key_sorted rs -> keyed_by kl ls -> keyed_by kr rs ->
  (merge_rows fuel t lw rw ls rs).*2 ≡ₚ reference_join keys_equal t lw rw (k_row <$> ls) (k_row <$> rs).
Proof.
  revert ls rs. induction fuel as [|fuel IH]; intros ls rs Hf Hsl Hsr Hl Hr; [lia|]. cbn [merge_rows].
  destruct ls as [|l ls].
  { rewrite reference_nil_l. cbn [fmap list_fmap concat]. destruct (keeps_left t), (keeps_right t); cbn [app]; rewrite ?pads_right by done; done. }
  destruct rs as [|r rs].
  { rewrite reference_nil_r, fmap_app. destruct (keeps_left t), (keeps_right t); rewrite ?pads_left by done; by rewrite ?app_nil_r. }
  pose proof Hl as Hl0. pose proof Hr as Hr0. inversion Hl0 as [|? ? [Hkl Hml] Hl']; subst. inversion Hr0 as [|? ? [Hkr Hmr] Hr']; subst.
  cbn in Hf. destruct (text_cmp (k_key l) (k_key r)) eqn:Ec.
  - apply text_cmp_eq in Ec. destruct (span_key (k_key l) (l :: ls)) as [lg lrest] eqn:El.
    destruct (span_key (k_key l) (r :: rs)) as [rg rrest] eqn:Er.
    assert (Hlg : exists g, lg = l :: g).
    { cbn in El. unfold has_key in El. rewrite String.eqb_refl in El. destruct (span_key (k_key l) ls). injection El as <- <-. by eexists. }
    assert (Hrg : exists g, rg = r :: g).
    { cbn in Er. unfold has_key in Er. rewrite Ec, String.eqb_refl in Er. destruct (span_key (k_key r) rs). injection Er as <- <-. by eexists. }
    destruct (span_key_spec _ _ _ _ El Hsl (key_sorted_tail _ _ Hsl)) as (Eql & Hgl & Hrl & Hsl').
    assert (Htr : Forall (fun y => cmp_le text_cmp (k_key l) (k_key y)) (r :: rs)) by (rewrite Ec; by apply key_sorted_tail).
    destruct (span_key_spec _ _ _ _ Er Hsr Htr) as (Eqr & Hgr & Hrr & Hsr').
    rewrite Eql in Hl |- *. rewrite Eqr in Hr |- *. apply keyed_app in Hl as [Hlg' Hlr]. apply keyed_app in Hr as [Hrg' Hrr'].
    assert (Hlen : (length lrest + length rrest < fuel)%nat).
    { apply (f_equal length) in Eql. apply (f_equal length) in Eqr. rewrite length_app in Eql, Eqr.
      destruct Hlg as [? ->], Hrg as [? ->]. cbn in *. lia. }
    rewrite !fmap_app. rewrite (keys_together lg rg (k_key l) t lw rw); [|done..|by destruct Hlg as [? ->]|by destruct Hrg as [? ->]].
    rewrite (IH lrest rrest) by done. rewrite Forall_forall in Hgl, Hgr, Hrl, Hrr.
    symmetry. apply reference_split; apply keys_apart; try done; intros x y Hx Hy.
    + apply (keys_below (k_key l)); auto.
    + intros E. apply (keys_below (k_key l) y x); auto.
  - rewrite fmap_app, (IH ls (r :: rs)); [|cbn; lia|by inversion Hsl|done|done|done].
    change (k_row <$> l :: ls) with ([k_row l] ++ (k_row <$> ls)). change (k_row <$> r :: rs) with ([] ++ (k_row <$> r :: rs)) at 2.
    rewrite (reference_split keys_equal t lw rw [k_row l] (k_row <$> ls) [] (k_row <$> r :: rs)).
    + apply Permutation_app; [|done]. rewrite reference_nil_r. destruct (keeps_left t); [|done]. unfold pad_left_row. by rewrite Hml.
    + apply (keys_apart [l] (r :: rs)); [by constructor|done|]. intros x y ->%list_elem_of_singleton Hy.
      apply (keys_below (k_key l)); [done|]. by apply (sorted_above _ r rs).
    + intros x y _ Hy. by apply not_elem_of_nil in Hy.
  - assert (Ec' : text_cmp (k_key r) (k_key l) = Lt) by (by rewrite text_cmp_antisym, Ec).
    rewrite fmap_app, (IH (l :: ls) rs); [|cbn; lia|done|by inversion Hsr|done|done].
    change (k_row <$> r :: rs) with ([k_row r] ++ (k_row <$> rs)). change (k_row <$> l :: ls) with ([] ++ (k_row <$> l :: ls)) at 2.
    rewrite (reference_split keys_equal t lw rw [] (k_row <$> l :: ls) [k_row r] (k_row <$> rs)).
    + apply Permutation_app; [|done]. rewrite reference_nil_l. destruct (keeps_right t); [|done]. unfold pad_right_row. by rewrite Hmr.
    + intros x y Hx. by apply not_elem_of_nil in Hx.
    + apply (keys_apart (l :: ls) [r]); [done|by constructor|]. intros x y Hx ->%list_elem_of_singleton E.
      apply (keys_below (k_key r) r x); [done| |done]. by apply (sorted_above _ l ls).
Qed.
End merge.

Lemma with_key_sorted key rows :
  let by_key (a b : keyed) := text_cmp (k_key a) (k_key b) in
  let xs := sort_by by_key (with_key key <$> rows) in
  key_sorted xs /\ keyed_by (fun r => default EmptyString (key r)) xs /\ k_row <$> xs ≡ₚ rows.*2 /\ length xs = length rows.
Proof.
  cbn zeta. pose proof (sort_by_perm (fun a b : keyed => text_cmp (k_key a) (k_key b)) (with_key key <$> rows)) as Hp. split_and!.
  - apply (@sort_by_sorted _ _ (key_total k_key text_cmp)).
  - unfold keyed_by. rewrite Hp. apply Forall_fmap, Forall_forall. by intros [t r] _.
  - rewrite Hp, <- list_fmap_compose. done.
  - by rewrite Hp, length_fmap.
Qed.

Definition default_key (key : Row -> option string) (r : Row) : string := default EmptyString (key r).

Lemma merge_join_reference L R on_expr t desc :
  (merge_join L R on_expr t desc).*2 ≡ₚ
  reference_join (keys_equal (default_key (left_key on_expr desc)) (default_key (right_key on_expr desc))) t
    (first_width L) (right_width L R) L.*2 R.*2.
Proof.
  unfold merge_join. set (rw := right_width L R). set (lw := first_width L).
  destruct (no_rows L || no_rows R) eqn:E.
  - destruct L as [|l L]; [|destruct R as [|r R]; [|done]].
    + cbn [fmap list_fmap]. rewrite reference_nil_l. destruct t; cbn [keeps_right]; try done.
      * by rewrite (map_snd_rows fst (fun r => blanks lw ++ r)).
      * cbn [fmap list_fmap app]. by rewrite (map_snd_rows fst (fun r => blanks lw ++ r)).
    + change ([] : list TidRow).*2 with ([] : list Row). rewrite reference_nil_r. destruct t; cbn [keeps_left]; try done.
      * by rewrite (map_snd_rows fst (fun l => l ++ blanks rw)).
      * change ((fun r : TidRow => (r.1, blanks lw ++ r.2)) <$> []) with ([] : list TidRow).
        rewrite app_nil_r. by rewrite (map_snd_rows fst (fun l => l ++ blanks rw)).
  - destruct (with_key_sorted (left_key on_expr desc) L) as (Hsl & Hkl & Hpl & Hll).
    destruct (with_key_sorted (right_key on_expr desc) R) as (Hsr & Hkr & Hpr & Hlr).
    rewrite (merge_rows_reference (default_key (left_key on_expr desc)) (default_key (right_key on_expr desc))) by (done || lia).
    by apply reference_perm.
Qed.

Lemma keys_equal_same on_expr desc l r :
  left_key on_expr desc l <> None -> right_key on_expr desc r <> None ->
  keys_equal (default_key (left_key on_expr desc)) (default_key (right_key on_expr desc)) l r = same_key on_expr desc l r.
Proof. unfold keys_equal, same_key, default_key. by destruct (left_key _ _ _), (right_key _ _ _). Qed.

Lemma reference_same (m m' : Row -> Row -> bool) t lw rw L R :
  (forall l r, l ∈ L -> r ∈ R -> m l r = m' l r) -> reference_join m t lw rw L R = reference_join m' t lw rw L R.
Proof.
  intros Hm. unfold reference_join, inner_rows, left_only, right_only.
  assert (He : forall l, l ∈ L -> existsb (m l) R = existsb (m' l) R).
  { intros l Hl. apply eq_bool_prop_intro. rewrite !Is_true_true, !existsb_exists. setoid_rewrite <- list_elem_of_In.
    split; intros (r & Hr & H'); exists r; (split; [done|]); [by rewrite <- Hm|by rewrite Hm]. }
  assert (He' : forall r, r ∈ R -> existsb (fun l => m l r) L = existsb (fun l => m' l r) L).
  { intros r Hr. apply eq_bool_prop_intro. rewrite !Is_true_true, !existsb_exists. setoid_rewrite <- list_elem_of_In.
    split; intros (l & Hl & H'); exists l; (split; [done|]); [by rewrite <- Hm|by rewrite Hm]. }
  rewrite (map_same _ (fun l => (fun r => l ++ r) <$> List.filter (m' l) R)).
  2:{ intros l Hl. f_equal. apply filter_same. intros r Hr. by apply Hm. }
  rewrite (filter_same (fun l => negb (existsb (m l) R)) (fun l => negb (existsb (m' l) R)) L) by (intros; by rewrite He).
  by rewrite (filter_same (fun r => negb (existsb (fun l => m l r) L)) (fun r => negb (existsb (fun l => m' l r) L)) R) by (intros; by rewrite He').
Qed.
End algorithms.

(** C12. An equality join returns, up to order, the pairs of rows whose keys are equal
    and the padded rows of an outer join, by whichever algorithm the sizes choose:
    hash and merge join are the same join when every row has a key. *)
Theorem execute_join_equi `{Unicode} col_names L R table alias t a b desc :
  Forall (fun l => evaluate_expr a l desc <> None) L.*2 -> Forall (fun r => evaluate_expr b r desc <> None) R.*2 ->
  let on_expr := Expr_BinaryOp a BinaryOperator.Equals b in
  (execute_join col_names L R (mkJoin table alias t (JoinConstraint_On on_expr)) desc).*2 ≡ₚ
  reference_join (fun l r => bool_decide (evaluate_expr a l desc = evaluate_expr b r desc)) t
    (first_width L) (right_width L R) L.*2 R.*2.
Proof.
  intros Ha Hb on_expr. rewrite Forall_forall in Ha, Hb.
  assert (Hkey : forall l r, l ∈ L.*2 -> r ∈ R.*2 -> same_key on_expr desc l r = bool_decide (evaluate_expr a l desc = evaluate_expr b r desc)).
  { intros l r Hl Hr. unfold same_key, on_expr. cbn. specialize (Ha l Hl). specialize (Hb r Hr).
    destruct (evaluate_expr a l desc) as [x|], (evaluate_expr b r desc) as [y|]; try done. cbn.
    destruct (String.eqb_spec x y); symmetry; [apply bool_decide_eq_true|apply bool_decide_eq_false]; congruence. }
  rewrite <- (reference_same _ _ _ _ _ _ _ Hkey). unfold execute_join. cbn [is_equi_join on_expr].
  unfold choose_join_algorithm. destruct (_ || _).
  - apply hash_join_reference; [done|]. intros _. apply Forall_forall. exact Ha.
  - rewrite merge_join_reference. apply eq_Permutation. apply reference_same. intros l r Hl Hr.
    apply keys_equal_same; [by apply Ha|by apply Hb].
Qed.

(** Any other condition is tested on every pair. *)
Theorem execute_join_nested `{Unicode} col_names L R table alias t on_expr desc :
  is_equi_join on_expr = false ->
  (execute_join col_names L R (mkJoin table alias t (JoinConstraint_On on_expr)) desc).*2 ≡ₚ
  reference_join (join_condition t on_expr desc) t (first_width L) (first_width R) L.*2 R.*2.
Proof. intros He. cbn [execute_join]. rewrite He. apply nested_loop_reference. Qed.

(* ------------------------------------------------------------------ *)
(** ** Two small tables *)

#[local] Existing Instance Ascii_Unicode.

Definition pair_desc : TupleDesc :=
  {| td_fields := [{| att_name := "k"; att_type_oid := 23; att_attnum := 1; att_typmod := -1 |};
                   {| att_name := "v"; att_type_oid := 25; att_attnum := 2; att_typmod := -1 |}] |}.

Definition left_table : list TidRow := [(no_tid, ["1"; "a"]); (no_tid, ["2"; "b"])].
Definition right_table : list TidRow := [(no_tid, ["2"; "c"]); (no_tid, ["3"; "d"]); (no_tid, ["2"; "e"])].

Definition column (n : string) : Expr := Expr_Identifier n.

Lemma execute_join_equi_witness :
  (execute_join [] left_table right_table
     (mkJoin (TableRef_Table (ObjectName_single "t")) None JoinType.Full
        (JoinConstraint_On (Expr_BinaryOp (column "k") BinaryOperator.Equals (column "k")))) (Some pair_desc)).*2 ≡ₚ
  [["2"; "b"; "2"; "c"]; ["2"; "b"; "2"; "e"]; ["1"; "a"] ++ blanks 2; blanks 2 ++ ["3"; "d"]].
Proof.
  refine (execute_join_equi [] left_table right_table (TableRef_Table (ObjectName_single "t")) None JoinType.Full
    (column "k") (column "k") (Some pair_desc) _ _).
  all: repeat constructor; vm_compute; discriminate.
Defined.

Lemma execute_join_nested_witness :
  (execute_join [] left_table right_table
     (mkJoin (TableRef_Table (ObjectName_single "t")) None JoinType.Left
        (JoinConstraint_On (Expr_BinaryOp (column "k") BinaryOperator.GreaterThan (Expr_Literal (Literal.Number "1")))))
     (Some pair_desc)).*2 ≡ₚ
  [["2"; "b"; "2"; "c"]; ["2"; "b"; "3"; "d"]; ["2"; "b"; "2"; "e"]; ["1"; "a"] ++ blanks 2].
Proof.
  refine (execute_join_nested [] left_table right_table (TableRef_Table (ObjectName_single "t")) None JoinType.Left
    (Expr_BinaryOp (column "k") BinaryOperator.GreaterThan (Expr_Literal (Literal.Number "1"))) (Some pair_desc) _).
  reflexivity.
Defined.
