(* ===== verification/GroupBy.v ===== *)
(** Grouping and aggregates ([src/src/executor/select/group_by.rs]). *)

From Stdlib Require Import SpecFloat.
From S2P Require Import Prelude Types SqlText Float64 Ast Eval RowOps.

(** What the version of the standard library decides: the value a sum of [f64]
    starts from (zero, of either sign), and the order in which a [HashMap] of
    groups is iterated. *)
Class Grouping := {
  sum_start : f64;
  group_order : gmap (list string) (list Row) -> list (list string * list Row);
}.

Class GroupingLaws `{Grouping} := {
  sum_start_zero : exists s, sum_start = S754_zero s;
  group_order_perm : forall m, group_order m ≡ₚ map_to_list m;
}.

Definition Some_Grouping : Grouping := {| sum_start := f_zero; group_order := map_to_list |}.

Lemma Some_Grouping_laws : @GroupingLaws Some_Grouping.
Proof. split; [by exists false|done]. Qed.

Definition aggregate_names : list string := ["COUNT"; "SUM"; "AVG"; "MIN"; "MAX"].

Section grouping.
Context `{Unicode, Grouping}.

(* ---------------------------------------------------------------- *)
(** ** Which queries aggregate *)

Fixpoint expr_has_agg (expr : Expr) : bool :=
  match expr with
  | Expr_Function (mkFunctionCall name _ _ _) => existsb (String.eqb (function_name name)) aggregate_names
  | Expr_BinaryOp a _ b => expr_has_agg a || expr_has_agg b
  | Expr_UnaryOp _ e => expr_has_agg e
  | Expr_Between e _ low high => expr_has_agg e || expr_has_agg low || expr_has_agg high
  | Expr_InList e _ members => expr_has_agg e || existsb expr_has_agg members
  | _ => false
  end.

Definition item_has_agg (item : SelectItem) : bool :=
  match item with
  | SelectItem_Expr e | SelectItem_ExprAs e _ => expr_has_agg e
  | SelectItem_Star | SelectItem_TableStar _ => false
  end.

Definition has_aggregates (select_list : list SelectItem) : bool := existsb item_has_agg select_list.

(* ---------------------------------------------------------------- *)
(** ** A value for a group of rows *)

Definition number_or (d : f64) (s : string) : f64 := default d (parse_f64 s).
Definition bool_or_false (s : string) : bool := default false (parse_bool s).

(** The operators between the values of a group: what is no number counts as 0, or
    as 1 where it divides. *)
Definition group_binary_op (l : string) (op : BinaryOperator) (r : string) : string :=
  match op with
  | BinaryOperator.Plus => f64_text (f_add (number_or f_zero l) (number_or f_zero r))
  | BinaryOperator.Minus => f64_text (f_sub (number_or f_zero l) (number_or f_zero r))
  | BinaryOperator.Multiply => f64_text (f_mul (number_or f_zero l) (number_or f_zero r))
  | BinaryOperator.Divide =>
      if f_eqb (number_or f_one r) f_zero then "NULL" else f64_text (f_div (number_or f_zero l) (number_or f_one r))
  | BinaryOperator.Modulo =>
      if f_eqb (number_or f_one r) f_zero then "NULL" else f64_text (f_rem (number_or f_zero l) (number_or f_one r))
  | BinaryOperator.Equals => bool_text (bool_decide (l = r))
  | BinaryOperator.NotEquals => bool_text (negb (bool_decide (l = r)))
  | BinaryOperator.LessThan => bool_text (text_ltb l r)
  | BinaryOperator.LessOrEqual => bool_text (text_leb l r)
  | BinaryOperator.GreaterThan => bool_text (text_ltb r l)
  | BinaryOperator.GreaterOrEqual => bool_text (text_leb r l)
  | BinaryOperator.And => bool_text (bool_or_false l && bool_or_false r)
  | BinaryOperator.Or => bool_text (bool_or_false l || bool_or_false r)
  | BinaryOperator.Like => bool_text (text_contains l (remove_percent r))
  | BinaryOperator.ILike => bool_text (text_contains (to_lowercase l) (to_lowercase (remove_percent r)))
  | _ => "NULL"
  end.

Definition first_expr (args : list FunctionArg) : option Expr :=
  match args with FunctionArg_Expr e :: _ => Some e | _ => None end.

(** The values of an argument on the rows of a group, where it has one. *)
Definition group_values (desc : option TupleDesc) (e : Expr) (group : list Row) : list string :=
  omap (fun row => evaluate_expr e row desc) group.

Definition group_numbers (desc : option TupleDesc) (e : Expr) (group : list Row) : list f64 :=
  omap parse_f64 (group_values desc e group).

Definition f_sum (xs : list f64) : f64 := foldl f_add sum_start xs.

Definition aggregate (desc : option TupleDesc) (func : FunctionCall) (group : list Row) : string :=
  match func with
  | mkFunctionCall name args _ _ =>
      let name := function_name name in
      let arg := first_expr args in
      if String.eqb name "COUNT" then
        match arg with
        | Some e => pretty (zlen (group_values desc e group))
        | None => pretty (zlen group)
        end
      else if String.eqb name "SUM" then
        match arg with Some e => f64_text (f_sum (group_numbers desc e group)) | None => "0" end
      else if String.eqb name "AVG" then
        match arg with
        | Some e =>
            let vals := group_numbers desc e group in
            match vals with [] => "0" | _ => f64_text (f_div (f_sum vals) (f_of_Z (zlen vals))) end
        | None => "0"
        end
      else if String.eqb name "MIN" then
        match arg with Some e => default EmptyString (head (sort_by text_cmp (group_values desc e group))) | None => EmptyString end
      else if String.eqb name "MAX" then
        match arg with Some e => default EmptyString (last (sort_by text_cmp (group_values desc e group))) | None => EmptyString end
      else
        match group with
        | first :: _ => default EmptyString (evaluate_expr (Expr_Function func) first desc)
        | [] => EmptyString
        end
  end.

(** What is not an aggregate has its value on the first row of the group. *)
Definition first_of (group : list Row) (value : Row -> option string) : string :=
  match head group with Some first => default EmptyString (value first) | None => EmptyString end.

Definition group_literal (lit : Literal) : string :=
  match lit with
  | Literal.Number _ | Literal.String _ | Literal.Bool _ | Literal.Null => literal_text lit
  | _ => EmptyString
  end.

Fixpoint evaluate_expr_with_group (desc : option TupleDesc) (expr : Expr) (group : list Row) : string :=
  match expr with
  | Expr_Function f => aggregate desc f group
  | Expr_Identifier col => first_of group (fun first => column_value first desc col)
  | Expr_Literal lit => group_literal lit
  | Expr_BinaryOp a op b =>
      group_binary_op (evaluate_expr_with_group desc a group) op (evaluate_expr_with_group desc b group)
  | _ => first_of group (fun first => evaluate_expr expr first desc)
  end.

Definition evaluate_select_item_with_group (desc : option TupleDesc) (item : SelectItem) (group : list Row) : string :=
  match item with
  | SelectItem_Expr e | SelectItem_ExprAs e _ => evaluate_expr_with_group desc e group
  | SelectItem_Star | SelectItem_TableStar _ =>
      match head group with Some first => text_join ", " first | None => EmptyString end
  end.

(* ---------------------------------------------------------------- *)
(** ** Grouping *)

Definition group_key (desc : option TupleDesc) (group_by : list Expr) (row : Row) : list string :=
  match group_by with
  | [] => ["__all__"]
  | _ => (fun e => default EmptyString (evaluate_expr e row desc)) <$> group_by
  end.

(** [entry(key).or_default().push(row)]. *)
Definition group_rows (desc : option TupleDesc) (group_by : list Expr) (rows : list TidRow) : gmap (list string) (list Row) :=
  foldl (fun (groups : gmap (list string) (list Row)) (r : TidRow) =>
    let key := group_key desc group_by r.2 in <[key := default [] (groups !! key) ++ [r.2]]> groups) ∅ rows.

Definition group_result (desc : option TupleDesc) (select_list : list SelectItem) (group : list Row) : TidRow :=
  (no_tid, (fun item => evaluate_select_item_with_group desc item group) <$> select_list).

Definition is_nil {A} (l : list A) : bool := match l with [] => true | _ => false end.

Definition hash_aggregate (desc : option TupleDesc) (rows : list TidRow) (group_by : list Expr) (select_list : list SelectItem) : list TidRow :=
  if is_nil group_by && is_nil rows then []
  else (fun g => group_result desc select_list g.2) <$> group_order (group_rows desc group_by rows).

Definition sort_aggregate (desc : option TupleDesc) (rows : list TidRow) (group_by : list Expr) (select_list : list SelectItem) : list TidRow :=
  if is_nil group_by && is_nil rows then []
  else if is_nil group_by && negb (has_aggregates select_list) then rows
  else (fun g => group_result desc select_list g.2) <$> group_order (group_rows desc group_by rows).

Definition apply_group_by (desc : option TupleDesc) (rows : list TidRow) (group_by : list Expr) (select_list : list SelectItem) : list TidRow :=
  if is_nil group_by && is_nil rows then []
  else if is_nil group_by && negb (has_aggregates select_list) then rows
  else if 1000 <? zlen rows then hash_aggregate desc rows group_by select_list
  else sort_aggregate desc rows group_by select_list.

(* ---------------------------------------------------------------- *)
(** ** What grouping returns *)

Lemma group_rows_lookup desc group_by rows k :
  group_rows desc group_by rows !! k =
    match List.filter (fun row => bool_decide (group_key desc group_by row = k)) rows.*2 with [] => None | g => Some g end.
Proof.
  unfold group_rows. set (key := group_key desc group_by).
  assert (Hg : forall groups : gmap (list string) (list Row),
    foldl (fun (groups : gmap (list string) (list Row)) (r : TidRow) =>
      <[key r.2 := default [] (groups !! key r.2) ++ [r.2]]> groups) groups rows !! k =
    match List.filter (fun row => bool_decide (key row = k)) rows.*2 with
    | [] => groups !! k | g => Some (default [] (groups !! k) ++ g) end).
  { induction rows as [|[t r] rows IH]; intros groups; [done|]. cbn [foldl fmap list_fmap snd List.filter]. rewrite IH. clear IH.
    case_bool_decide as E.
    - rewrite E, lookup_insert_eq. cbn. destruct (List.filter _ _); [done|]. by rewrite <- (assoc_L (++)).
    - by rewrite lookup_insert_ne by done. }
  rewrite Hg, lookup_empty. by destruct (List.filter _ _).
Qed.

(** The keys of the rows, each once. *)
Definition distinct_keys (desc : option TupleDesc) (group_by : list Expr) (rows : list Row) : list (list string) :=
  first_of_each id ∅ (group_key desc group_by <$> rows).

(** The rows of a group, in order. *)
Definition group_of (desc : option TupleDesc) (group_by : list Expr) (rows : list Row) (k : list string) : list Row :=
  List.filter (fun row => bool_decide (group_key desc group_by row = k)) rows.

Lemma group_of_nonempty desc group_by rows k :
  group_of desc group_by rows k <> [] <-> k ∈ group_key desc group_by <$> rows.
Proof.
  unfold group_of. induction rows as [|r rows IH]; cbn; [split; [done|by intros ?%not_elem_of_nil]|].
  rewrite elem_of_cons. case_bool_decide as E; [split; [by left|done]|]. rewrite IH. naive_solver.
Qed.

Lemma groups_perm `{!GroupingLaws} desc group_by rows :
  group_order (group_rows desc group_by rows) ≡ₚ
  (fun k => (k, group_of desc group_by rows.*2 k)) <$> distinct_keys desc group_by rows.*2.
Proof.
  rewrite group_order_perm. apply NoDup_Permutation.
  - apply NoDup_map_to_list.
  - apply NoDup_fmap_2_strong; [by intros ? ? _ _ [= ->]|]. pose proof (first_of_each_nodup id ∅ (group_key desc group_by <$> rows.*2)) as Hnd.
    by rewrite list_fmap_id in Hnd.
  - intros [k g]. rewrite elem_of_map_to_list, group_rows_lookup, list_elem_of_fmap. fold (group_of desc group_by rows.*2 k).
    assert (Hk : k ∈ distinct_keys desc group_by rows.*2 <-> k ∈ group_key desc group_by <$> rows.*2).
    { unfold distinct_keys. split.
      - by intros [? _]%first_of_each_elem.
      - intros Hin. rewrite <- (list_fmap_id (first_of_each _ _ _)). apply (first_of_each_in id); [set_solver|]. by rewrite list_fmap_id. }
    rewrite <- group_of_nonempty in Hk. split.
    + intros Hg. exists k. destruct (group_of desc group_by rows.*2 k) as [|r g'] eqn:E; [done|]. injection Hg as <-. split; [done|]. by apply Hk.
    + intros (k' & [= -> ->] & Hin). apply Hk in Hin. by destruct (group_of _ _ _ _).
Qed.

Lemma one_group_gains (K : Type) `{EqDecision K} (k0 : K) (r : Row) (f : K -> list Row) (ks : list K) :
  NoDup ks -> k0 ∈ ks ->
  concat ((fun k => (if bool_decide (k0 = k) then [r] else []) ++ f k) <$> ks) ≡ₚ r :: concat (f <$> ks).
Proof.
  induction 1 as [|k ks Hk Hnd IH]; [by intros ?%not_elem_of_nil|]. cbn [fmap list_fmap concat].
  intros [->|Hin]%elem_of_cons.
  - rewrite bool_decide_eq_true_2 by done. cbn. f_equiv. f_equiv. apply eq_Permutation.
    f_equal. apply list_fmap_ext. intros i x Hx. rewrite bool_decide_eq_false_2; [done|].
    intros ->. apply Hk. by eapply list_elem_of_lookup_2.
  - rewrite bool_decide_eq_false_2 by (by intros ->). cbn. rewrite IH by done. symmetry; apply Permutation_middle.
Qed.

Lemma groups_partition desc group_by rows ks :
  NoDup ks -> (forall row, row ∈ rows -> group_key desc group_by row ∈ ks) -> concat (group_of desc group_by rows <$> ks) ≡ₚ rows.
Proof.
  intros Hnd. induction rows as [|r rows IH]; intros Hks.
  - apply eq_Permutation. clear. induction ks as [|k ks IH]; [done|]. cbn. exact IH.
  - rewrite <- IH at 2 by (intros; apply Hks; by right).
    rewrite <- (one_group_gains _ (group_key desc group_by r) r (group_of desc group_by rows) ks Hnd) by (apply Hks; left).
    apply eq_Permutation. f_equal. apply list_fmap_ext. intros i k _. unfold group_of. cbn [List.filter]. by case_bool_decide.
Qed.

Lemma distinct_keys_nodup desc group_by rows : NoDup (distinct_keys desc group_by rows).
Proof.
  pose proof (first_of_each_nodup id ∅ (group_key desc group_by <$> rows)) as Hnd. by rewrite list_fmap_id in Hnd.
Qed.

Lemma distinct_keys_elem desc group_by rows k : k ∈ distinct_keys desc group_by rows <-> k ∈ group_key desc group_by <$> rows.
Proof.
  unfold distinct_keys. split.
  - by intros [? _]%first_of_each_elem.
  - intros Hin. rewrite <- (list_fmap_id (first_of_each _ _ _)). apply (first_of_each_in id); [set_solver|]. by rewrite list_fmap_id.
Qed.

Lemma group_results `{!GroupingLaws} desc group_by rows select_list :
  ((fun g => group_result desc select_list g.2) <$> group_order (group_rows desc group_by rows)).*2 ≡ₚ
  (fun k => (fun item => evaluate_select_item_with_group desc item (group_of desc group_by rows.*2 k)) <$> select_list) <$>
    distinct_keys desc group_by rows.*2.
Proof. rewrite groups_perm. rewrite <- !list_fmap_compose. done. Qed.

(** The least and the greatest value of a group, in the order of text. *)
Lemma sorted_head_least (vs : list string) v :
  head (sort_by text_cmp vs) = Some v -> v ∈ vs /\ forall u, u ∈ vs -> text_leb v u = true.
Proof.
  pose proof (sort_by_perm text_cmp vs) as Hp. pose proof (sort_by_sorted text_cmp vs) as Hs.
  destruct (sort_by text_cmp vs) as [|x l]; [done|]. intros [= ->]. setoid_rewrite <- Hp. split; [left|].
  inversion Hs as [|? ? _ Hv]; subst. rewrite Forall_forall in Hv. intros u [->|Hu]%elem_of_cons; unfold text_leb.
  - by rewrite text_cmp_refl.
  - specialize (Hv u Hu). unfold cmp_le in Hv. by destruct (text_cmp v u).
Qed.

Lemma sorted_last_greatest (vs : list string) v :
  last (sort_by text_cmp vs) = Some v -> v ∈ vs /\ forall u, u ∈ vs -> text_leb u v = true.
Proof.
  pose proof (sort_by_perm text_cmp vs) as Hp. pose proof (sort_by_sorted text_cmp vs) as Hs.
  intros Hl. setoid_rewrite <- Hp. revert Hl Hs. generalize (sort_by text_cmp vs) as l. clear. intros l.
  induction l as [|x l IH]; [done|]. intros Hl Hs. inversion Hs as [|? ? Hs' Hx]; subst. rewrite Forall_forall in Hx.
  destruct l as [|y l].
  - injection Hl as ->. split; [left|]. intros u ->%list_elem_of_singleton. unfold text_leb. by rewrite text_cmp_refl.
  - destruct (IH Hl Hs') as [Hin Hmax]. split; [by right|]. intros u [->|Hu]%elem_of_cons; [|by apply Hmax].
    specialize (Hx v Hin). unfold text_leb, cmp_le in *. by destruct (text_cmp x v).
Qed.
End grouping.

(** C13. Grouping returns one row for each key that the rows have, which evaluates the
    select list on the rows of that key in their order; the groups are a partition
    of the rows. It is the same below and above the size where the hash aggregate
    takes over, and whatever order the hash map has. *)
Theorem apply_group_by_spec `{Unicode, GroupingLaws} desc rows group_by select_list :
  (group_by = [] -> rows <> [] /\ has_aggregates select_list = true) ->
  let keys := distinct_keys desc group_by rows.*2 in
  let group := group_of desc group_by rows.*2 in
  (apply_group_by desc rows group_by select_list).*2 ≡ₚ
    (fun k => (fun item => evaluate_select_item_with_group desc item (group k)) <$> select_list) <$> keys /\
  NoDup keys /\ (forall k, k ∈ keys -> group k <> []) /\ concat (group <$> keys) ≡ₚ rows.*2.
Proof.
  intros Hg keys group. split_and!.
  - unfold apply_group_by, hash_aggregate, sort_aggregate.
    assert (is_nil group_by && is_nil rows = false) as ->.
    { destruct group_by; [|done]. destruct (Hg eq_refl) as [Hr _]. by destruct rows. }
    assert (is_nil group_by && negb (has_aggregates select_list) = false) as ->.
    { destruct group_by; [|done]. destruct (Hg eq_refl) as [_ ->]. done. }
    destruct (1000 <? zlen rows); apply group_results.
  - apply distinct_keys_nodup.
  - intros k Hk. by apply group_of_nonempty, distinct_keys_elem.
  - apply groups_partition; [apply distinct_keys_nodup|]. intros row Hr. apply distinct_keys_elem, list_elem_of_fmap. by exists row.
Qed.

(* ------------------------------------------------------------------ *)
(** ** Two groups *)

#[local] Existing Instance Ascii_Unicode.
#[local] Existing Instance Some_Grouping.
#[local] Existing Instance Some_Grouping_laws.

Definition team_desc : TupleDesc :=
  {| td_fields := [{| att_name := "team"; att_type_oid := 25; att_attnum := 1; att_typmod := -1 |};
                   {| att_name := "points"; att_type_oid := 23; att_attnum := 2; att_typmod := -1 |}] |}.

Definition team_rows : list TidRow := [(no_tid, ["a"; "3"]); (no_tid, ["b"; "5"]); (no_tid, ["a"; "4"])].

Definition aggregate_item (name col : string) : SelectItem :=
  SelectItem_Expr (Expr_Function (mkFunctionCall (ObjectName_single name) [FunctionArg_Expr (Expr_Identifier col)] None None)).

Lemma apply_group_by_spec_witness :
  (apply_group_by (Some team_desc) team_rows [Expr_Identifier "team"]
     [SelectItem_Expr (Expr_Identifier "team"); aggregate_item "sum" "points"; aggregate_item "count" "points"]).*2 ≡ₚ
  [["a"; "7"; "2"]; ["b"; "5"; "1"]].
Proof.
  refine (proj1 (apply_group_by_spec (Some team_desc) team_rows [Expr_Identifier "team"]
    [SelectItem_Expr (Expr_Identifier "team"); aggregate_item "sum" "points"; aggregate_item "count" "points"] _)).
  discriminate.
Defined.
