(* ===== verification/Window.v ===== *)
(** Window functions ([src/src/executor/select/window.rs]). *)

From S2P Require Import Prelude Types SqlText Ast Eval RowOps.

Section window.
Context {P : Profile} `{Unicode}.

(** The rows with the value at the column of the select list, or behind the last
    column when the row is shorter. *)
Definition put_column (col_idx : nat) (row : Row) (v : string) : Row :=
  if (col_idx <? length row)%nat then <[col_idx := v]> row else row ++ [v].

(** The argument of a call, when it is an expression. *)
Definition window_arg (desc : option TupleDesc) (args : list FunctionArg) (i : nat) : option string :=
  match args !! i with Some (FunctionArg_Expr e) => evaluate_expr e [] desc | _ => None end.

Definition window_count (desc : option TupleDesc) (args : list FunctionArg) (i : nat) : Z :=
  default 1 (window_arg desc args i ≫= parse_unsigned 64).

Definition row_numbers (n : nat) : list string := (fun i : Z => pretty (i + 1)) <$> seqZ 0 (Z.of_nat n).

(** [(i * n / len) + 1] for each row. *)
Definition ntile_bucket (len n i : Z) : outcome Z := m ← mul_w 64 i n; Ok (m / len + 1).
Definition ntile (len : nat) (n : Z) : outcome (list string) :=
  (fun bs : list Z => pretty <$> bs) <$> mapM (ntile_bucket (Z.of_nat len) n) (seqZ 0 (Z.of_nat len)).

(** Rows are peers when they agree on the ORDER BY expressions, which are
    evaluated without the columns of the query. *)
Definition rows_equal_on_order_by (a b : Row) (order_by : list OrderByItem) : bool :=
  forallb (fun item => match item with mkOrderByItem e _ _ =>
    bool_decide (default EmptyString (evaluate_expr e a None) = default EmptyString (evaluate_expr e b None)) end) order_by.

(** The rows after the first that are its peers: how many there are, and the rest. *)
Fixpoint peers (order_by : list OrderByItem) (first : Row) (rows : list Row) : nat * list Row :=
  match rows with
  | [] => (0%nat, [])
  | r :: rest => if rows_equal_on_order_by first r order_by then let '(n, rest) := peers order_by first rest in (S n, rest) else (0%nat, rows)
  end.

(** The loops of RANK and DENSE_RANK from row [i] on: the rank of the peers, and
    the one after it; each round passes a row at least. *)
Fixpoint rank_loop (fuel : nat) (dense : bool) (order_by : list OrderByItem) (i rank : Z) (rows : list Row) : list string :=
  match fuel, rows with
  | S fuel, r :: rest =>
      let '(n, rest) := peers order_by r rest in
      replicate (S n) (pretty (if dense then rank else i + 1)) ++
      rank_loop fuel dense order_by (i + 1 + Z.of_nat n) (rank + 1) rest
  | _, _ => []
  end.

Definition ranks (dense : bool) (order_by : list OrderByItem) (rows : list Row) : list string :=
  rank_loop (length rows) dense order_by 0 1 rows.

Definition column_of (col_idx : nat) (row : Row) : string := default EmptyString (row !! col_idx).

(** [i + offset < len], and the row there. *)
Definition lead_value (col_idx : nat) (rows : list Row) (offset : Z) (d : string) (i : Z) : outcome string :=
  j ← add_w 64 i offset;
  if j <? zlen rows then row ← index j rows; Ok (column_of col_idx row) else Ok d.

Definition lag_value (col_idx : nat) (rows : list Row) (offset : Z) (d : string) (i : Z) : outcome string :=
  if offset <=? i then row ← index (i - offset) rows; Ok (column_of col_idx row) else Ok d.

(** The values of a window function on the sorted rows; [None] for another name. *)
Definition window_values (desc : option TupleDesc) (col_idx : nat) (name : string) (args : list FunctionArg)
    (order_by : list OrderByItem) (rows : list Row) : option (outcome (list string)) :=
  let n := length rows in
  if String.eqb name "ROW_NUMBER" then Some (Ok (row_numbers n))
  else if String.eqb name "RANK" then Some (Ok (ranks false order_by rows))
  else if String.eqb name "DENSE_RANK" then Some (Ok (ranks true order_by rows))
  else if String.eqb name "NTILE" then Some (ntile n (window_count desc args 0))
  else if String.eqb name "LAG" then
    Some (mapM (lag_value col_idx rows (window_count desc args 1) (default EmptyString (window_arg desc args 2))) (seqZ 0 (Z.of_nat n)))
  else if String.eqb name "LEAD" then
    Some (mapM (lead_value col_idx rows (window_count desc args 1) (default EmptyString (window_arg desc args 2))) (seqZ 0 (Z.of_nat n)))
  else if String.eqb name "FIRST_VALUE" then
    Some (Ok (match head rows with Some r => replicate n (column_of col_idx r) | None => [] end))
  else if String.eqb name "LAST_VALUE" then
    Some (Ok (match last rows with Some r => replicate n (column_of col_idx r) | None => [] end))
  else if String.eqb name "NTH_VALUE" then
    let k := window_count desc args 1 in
    let v := if (0 <? k) && (k <=? Z.of_nat n) then default EmptyString (column_of col_idx <$> rows !! Z.to_nat (k - 1)) else EmptyString in
    Some (Ok (replicate n v))
  else None.

(** Without ORDER BY and PARTITION BY. *)
Definition plain_window_values (desc : option TupleDesc) (name : string) (args : list FunctionArg) (rows : list Row) : option (outcome (list string)) :=
  let n := length rows in
  if existsb (String.eqb name) ["ROW_NUMBER"; "RANK"; "DENSE_RANK"] then Some (Ok (row_numbers n))
  else if String.eqb name "NTILE" then Some (ntile n (window_count desc args 0))
  else None.

(** [rows[orig_idx]] gets its value, for the values in sorted order. *)
Definition put_values (col_idx : nat) (indexed : list (nat * Row)) (vs : list string) (rows : list Row) : list Row :=
  foldl (fun rows iv => alter (fun r => put_column col_idx r iv.2) iv.1.1 rows) rows (zip indexed vs).

Definition compute_window_function (desc : option TupleDesc) (rows : list Row) (col_idx : nat) (func_name : string)
    (args : list FunctionArg) (over : WindowSpec) : outcome (list Row) :=
  match over with
  | mkWindowSpec partition_by order_by _ =>
      let indexed := imap (fun i r => (i, r)) rows in
      match order_by, partition_by with
      | [], [] =>
          match plain_window_values desc func_name args rows with
          | Some vs => vs ← vs; Ok (put_values col_idx indexed vs rows)
          | None => Ok rows
          end
      | _, _ =>
          let indexed := match order_by with [] => indexed | _ => sort_by (fun a b : nat * Row => rows_cmp desc order_by a.2 b.2) indexed end in
          match window_values desc col_idx func_name args order_by indexed.*2 with
          | Some vs => vs ← vs; Ok (put_values col_idx indexed vs rows)
          | None => Ok rows
          end
      end
  end.

(** The calls with OVER in the select list, each at its place. *)
Fixpoint apply_window_from (desc : option TupleDesc) (i : nat) (select_list : list SelectItem) (rows : list Row) : outcome (list Row) :=
  match select_list with
  | [] => Ok rows
  | item :: rest =>
      rows ←
        match item with
        | SelectItem_Expr (Expr_Function (mkFunctionCall name args _ (Some over)))
        | SelectItem_ExprAs (Expr_Function (mkFunctionCall name args _ (Some over))) _ =>
            compute_window_function desc rows i (function_name name) args over
        | _ => Ok rows
        end;
      apply_window_from desc (S i) rest rows
  end.

Definition apply_window_functions (desc : option TupleDesc) (rows : list Row) (select_list : list SelectItem) : outcome (list Row) :=
  apply_window_from desc 0 select_list rows.

(* ---------------------------------------------------------------- *)
(** ** Ranks *)

(** Rows with the same values of the expressions. *)
Definition peer_key (order_by : list OrderByItem) (r : Row) : list string :=
  (fun item => match item with mkOrderByItem e _ _ => default EmptyString (evaluate_expr e r None) end) <$> order_by.

Lemma rows_equal_key order_by a b : rows_equal_on_order_by a b order_by = bool_decide (peer_key order_by a = peer_key order_by b).
Proof.
  induction order_by as [|[e d n] rest IH]; [done|]. cbn [rows_equal_on_order_by forallb peer_key fmap list_fmap].
  change (forallb _ rest) with (rows_equal_on_order_by a b rest). rewrite IH. fold (peer_key rest a) (peer_key rest b).
  rewrite <- bool_decide_and. apply bool_decide_ext. split; [by intros [-> ->]|by intros [= -> ->]].
Qed.

(** A column named in OVER (ORDER BY ..) has no value there, so that all rows are
    peers. *)
Definition orders_by_column (item : OrderByItem) : bool :=
  match item with mkOrderByItem (Expr_Identifier _ | Expr_QualifiedIdentifier _ _) _ _ => true | _ => false end.

Lemma columns_are_peers order_by a b : forallb orders_by_column order_by = true -> rows_equal_on_order_by a b order_by = true.
Proof.
  unfold rows_equal_on_order_by. induction order_by as [|[e d n] rest IH]; [done|]. cbn [forallb].
  intros [He Hr]%andb_true_iff. rewrite IH by done. rewrite andb_true_r. by destruct e.
Qed.

Lemma all_peers order_by first rows :
  forallb orders_by_column order_by = true -> peers order_by first rows = (length rows, []).
Proof. intros Ho. induction rows as [|r rows IH]; [done|]. cbn. by rewrite columns_are_peers, IH. Qed.
End window.

(** RANK and DENSE_RANK over an ORDER BY of columns number every row 1. *)
Theorem ranks_over_columns `{Unicode} dense order_by rows :
  forallb orders_by_column order_by = true -> ranks dense order_by rows = replicate (length rows) "1".
Proof.
  intros Ho. unfold ranks. destruct rows as [|r rows]; [done|]. cbn [length rank_loop]. rewrite all_peers by done.
  assert (forall f i k, rank_loop f dense order_by i k [] = []) as -> by (by intros []).
  rewrite app_nil_r. by destruct dense.
Qed.

Section rank_spec.
Context `{Unicode} (order_by : list OrderByItem).

Lemma peers_spec first rows n rest :
  peers order_by first rows = (n, rest) ->
  exists g, rows = g ++ rest /\ length g = n /\ Forall (fun r => peer_key order_by first = peer_key order_by r) g /\
    match rest with r :: _ => peer_key order_by first <> peer_key order_by r | [] => True end.
Proof.
  revert n. induction rows as [|r rows IH]; intros n; cbn.
  - intros [= <- <-]. by exists [].
  - rewrite rows_equal_key. case_bool_decide as E.
    + destruct (peers order_by first rows) as [k rest'] eqn:Ep. intros [= <- <-]. destruct (IH k eq_refl) as (g & -> & <- & Hg & Hr).
      exists (r :: g). split_and!; try done. by constructor.
    + intros [= <- <-]. by exists [].
Qed.

(** How many rows up to [p] differ from the one before. *)
Fixpoint changes (keys : list (list string)) (p : nat) : Z :=
  match p, keys with
  | S p, k :: (k' :: _) as rest => (if bool_decide (k = k') then 0 else 1) + changes rest p
  | _, _ => 0
  end.

Lemma changes_cons k k' keys p : changes (k :: k' :: keys) (S p) = (if bool_decide (k = k') then 0 else 1) + changes (k' :: keys) p.
Proof. done. Qed.

Lemma changes_same g rest k p :
  Forall (eq k) g -> (p < length g)%nat -> changes (g ++ rest) p = 0.
Proof.
  intros Hg. revert p. induction Hg as [|k' g <- Hg IH]; intros [|p] Hp; cbn in Hp; [lia|lia|done|].
  inversion Hg as [|k' g' Hk Hg']; subst; cbn in Hp; [lia|]. cbn [app]. rewrite changes_cons, bool_decide_eq_true_2 by done.
  specialize (IH p ltac:(cbn; lia)). cbn [app] in IH. rewrite IH. done.
Qed.

Lemma changes_skip g k' rest k p :
  Forall (eq k) g -> g <> [] -> k <> k' -> changes (g ++ k' :: rest) (length g + p) = 1 + changes (k' :: rest) p.
Proof.
  intros Hg. induction Hg as [|k0 g <- Hg IH]; [done|]. intros _ Hne. destruct Hg as [|k1 g <- Hg].
  - cbn [length app Nat.add]. by rewrite changes_cons, bool_decide_eq_false_2.
  - cbn [length app Nat.add] in *. rewrite changes_cons, bool_decide_eq_true_2 by done. rewrite IH by done. lia.
Qed.

Lemma rank_loop_spec dense fuel i rank rows p :
  (length rows <= fuel)%nat -> (p < length rows)%nat ->
  exists s : nat, (s <= p)%nat /\
    (rank_loop fuel dense order_by i rank rows) !! p =
      Some (pretty (if dense then rank + changes (peer_key order_by <$> rows) p else i + Z.of_nat s + 1)) /\
    (forall q r r', (s <= q <= p)%nat -> rows !! q = Some r -> rows !! p = Some r' -> peer_key order_by r = peer_key order_by r') /\
    (forall r r', (0 < s)%nat -> rows !! (s - 1)%nat = Some r -> rows !! s = Some r' -> peer_key order_by r <> peer_key order_by r').
Proof.
  revert i rank rows p. induction fuel as [|fuel IH]; intros i rank rows p Hf Hp; [lia|].
  destruct rows as [|r rows]; [cbn in Hp; lia|]. cbn [rank_loop]. destruct (peers order_by r rows) as [n rest] eqn:Ep.
  destruct (peers_spec r rows n rest Ep) as (g & -> & <- & Hg & Hr). cbn in Hf, Hp. rewrite length_app in Hf, Hp.
  assert (Hg' : Forall (eq (peer_key order_by r)) (peer_key order_by <$> r :: g)).
  { cbn. constructor; [done|]. by apply Forall_fmap. }
  change (r :: g ++ rest) with ((r :: g) ++ rest). rewrite fmap_app.
  destruct (decide (p < length (r :: g))%nat) as [Hlt|Hge].
  - exists 0%nat. cbn in Hlt. split_and!; [lia| | |lia].
    + rewrite lookup_app_l by (rewrite length_replicate; lia). rewrite lookup_replicate_2 by lia. do 2 f_equal.
      destruct dense; [|lia]. rewrite (changes_same _ _ (peer_key order_by r)); [lia|done|]. rewrite length_fmap. cbn. lia.
    + intros q x y Hq Hx Hy. rewrite lookup_app_l in Hx by (cbn; lia). rewrite lookup_app_l in Hy by (cbn; lia).
      rewrite Forall_fmap, Forall_lookup in Hg'. pose proof (Hg' _ _ Hx) as E1. pose proof (Hg' _ _ Hy) as E2. cbn in E1, E2. congruence.
  - cbn in Hge. set (k := (p - S (length g))%nat).
    destruct (IH (i + 1 + Z.of_nat (length g)) (rank + 1) rest k) as (s & Hs & Hv & Hsame & Hdiff); [lia|unfold k; lia|].
    exists (S (length g) + s)%nat. split_and!; [unfold k in Hs; lia| | |].
    + rewrite lookup_app_r by (rewrite length_replicate; lia). rewrite length_replicate. fold k. rewrite Hv. do 2 f_equal.
      destruct dense; [|lia]. destruct rest as [|r' rest]; [cbn in Hp; lia|].
      replace p with (length (peer_key order_by <$> r :: g) + k)%nat by (rewrite length_fmap; cbn; unfold k; lia).
      rewrite fmap_cons, (changes_skip _ _ _ (peer_key order_by r)) by done. lia.
    + intros q x y Hq Hx Hy. rewrite lookup_app_r in Hx by (cbn; lia). rewrite lookup_app_r in Hy by (cbn; lia). cbn in Hx, Hy.
      apply (Hsame (q - S (length g))%nat x y); [unfold k; lia|done|done].
    + intros x y Hpos Hx Hy. rewrite lookup_app_r in Hy by (cbn; lia). cbn [length] in Hy.
      replace (S (length g) + s - S (length g))%nat with s in Hy by lia. destruct s as [|s].
      * rewrite lookup_app_l in Hx by (cbn; lia). destruct rest as [|r' rest]; [done|]. cbn in Hy. injection Hy as <-.
        rewrite Forall_fmap, Forall_lookup in Hg'. pose proof (Hg' _ _ Hx) as E. cbn in E. by rewrite <- E.
      * rewrite lookup_app_r in Hx by (cbn; lia). cbn [length] in Hx. apply (Hdiff x y); [lia| |done].
        replace (S s - 1)%nat with (S (length g) + S s - 1 - S (length g))%nat by lia. done.
Qed.
End rank_spec.

(** RANK numbers each row by the first of its peers, the rows before it that
    follow one another and agree on the ORDER BY expressions; DENSE_RANK counts
    the changes of their values. *)
Theorem ranks_spec `{Unicode} order_by rows p :
  (p < length rows)%nat ->
  let key q := peer_key order_by <$> rows !! q in
  exists s : nat, (s <= p)%nat /\ ranks false order_by rows !! p = Some (pretty (Z.of_nat s + 1)) /\
    (forall q, (s <= q <= p)%nat -> key q = key p) /\ ((0 < s)%nat -> key (s - 1)%nat <> key s) /\
    ranks true order_by rows !! p = Some (pretty (1 + changes (peer_key order_by <$> rows) p)).
Proof.
  intros Hp key. destruct (rank_loop_spec order_by false (length rows) 0 1 rows p (le_n _) Hp) as (s & Hs & Hv & Hsame & Hdiff).
  destruct (rank_loop_spec order_by true (length rows) 0 1 rows p (le_n _) Hp) as (_ & _ & Hd & _).
  exists s. split_and!; [done| | | |done].
  - unfold ranks. rewrite Hv. do 2 f_equal.
  - intros q Hq. unfold key. destruct (lookup_lt_is_Some_2 rows q) as [r Hr]; [lia|].
    destruct (lookup_lt_is_Some_2 rows p Hp) as [r' Hr']. rewrite Hr, Hr'. cbn. f_equal. by apply (Hsame q).
  - intros Hpos. unfold key. destruct (lookup_lt_is_Some_2 rows (s - 1)%nat) as [r Hr]; [lia|].
    destruct (lookup_lt_is_Some_2 rows s) as [r' Hr']; [lia|]. rewrite Hr, Hr'. cbn. intros [= E]. by apply (Hdiff r r').
Qed.

Lemma mapM_ok {A B} (f : A -> outcome B) (g : A -> B) l : Forall (fun x => f x = Ok (g x)) l -> mapM f l = Ok (g <$> l).
Proof. induction 1 as [|x l Hx _ IH]; [done|]. unfold mapM in *. cbn. rewrite Hx, ok_bind, IH. done. Qed.

Lemma mapM_panic {A B} (f : A -> outcome B) (g : A -> B) l x l' :
  Forall (fun x => f x = Ok (g x)) l -> f x = Panic -> mapM f (l ++ x :: l') = Panic.
Proof.
  intros Hl Hx. induction Hl as [|y l Hy _ IH]; unfold mapM in *; cbn; [by rewrite Hx|]. by rewrite Hy, ok_bind, IH.
Qed.

(** NTILE(n): as long as the products fit 64 bits, every row gets a bucket from 1
    to n, in ascending order; when one does not, a checked build panics. *)
Theorem ntile_bounds {P : Profile} len n :
  (0 < len)%nat -> 1 <= n ->
  ((Z.of_nat len - 1) * n < 2 ^ 64 ->
     exists bs : list Z, ntile len n = Ok (pretty <$> bs) /\ length bs = len /\ Forall (fun b => 1 <= b <= n) bs /\
       (forall i j b b', (i <= j)%nat -> bs !! i = Some b -> bs !! j = Some b' -> b <= b')) /\
  (2 ^ 64 <= (Z.of_nat len - 1) * n -> overflow_checks = true -> ntile len n = Panic).
Proof.
  intros Hl Hn. set (f := fun i => i * n / Z.of_nat len + 1). split.
  - intros Hfit. exists (f <$> seqZ 0 (Z.of_nat len)). split_and!.
    + unfold ntile. rewrite (mapM_ok _ f); [done|]. apply Forall_forall. intros i Hi%elem_of_seqZ.
      unfold ntile_bucket, mul_w. by rewrite checked_ok by (unfold in_width; nia).
    + rewrite length_fmap, length_seqZ. lia.
    + apply Forall_fmap, Forall_forall. intros i Hi%elem_of_seqZ. cbn. unfold f.
      pose proof (Z.div_pos (i * n) (Z.of_nat len) ltac:(nia) ltac:(lia)).
      assert (i * n / Z.of_nat len < n) by (apply Z.div_lt_upper_bound; nia). lia.
    + intros i j b b' Hij (x & -> & Hx)%list_lookup_fmap_Some_1 (y & -> & Hy)%list_lookup_fmap_Some_1.
      apply lookup_seqZ in Hx as [-> Hx]. apply lookup_seqZ in Hy as [-> Hy]. unfold f.
      assert ((0 + Z.of_nat i) * n / Z.of_nat len <= (0 + Z.of_nat j) * n / Z.of_nat len) by (apply Z.div_le_mono; nia). lia.
  - intros Hover Hck. set (k := (2 ^ 64 + n - 1) / n).
    assert (Hk : k * n <= 2 ^ 64 + n - 1) by (unfold k; pose proof (Z.mul_div_le (2 ^ 64 + n - 1) n); lia).
    assert (Hk' : 2 ^ 64 + n - 1 < (k + 1) * n) by (unfold k; pose proof (Z.mul_succ_div_gt (2 ^ 64 + n - 1) n); lia).
    assert (Hlast : 0 <= k <= Z.of_nat len - 1) by nia.
    unfold ntile. replace (Z.of_nat len) with (k + Z.succ (Z.of_nat len - k - 1)) at 2 by lia.
    rewrite seqZ_app, (seqZ_cons (0 + k)) by lia. rewrite (mapM_panic _ f); [done| |].
    + apply Forall_forall. intros i Hi%elem_of_seqZ. unfold ntile_bucket, mul_w. rewrite checked_ok by (unfold in_width; nia). done.
    + unfold ntile_bucket, mul_w, checked. rewrite Hck. rewrite decide_False by (unfold in_width; nia). done.
Qed.

#[local] Existing Instance debug_profile.

Lemma ntile_bounds_witness :
  exists bs : list Z, ntile 5 2 = Ok (pretty <$> bs) /\ length bs = 5%nat /\ Forall (fun b => 1 <= b <= 2) bs.
Proof.
  destruct (proj1 (ntile_bounds 5 2 ltac:(lia) ltac:(lia)) ltac:(reflexivity)) as (bs & Hb & Hl & Hf & _). by exists bs.
Defined.

#[local] Existing Instance Ascii_Unicode.

Definition by_points : list OrderByItem := [mkOrderByItem (Expr_Identifier "points") SortDirection.Asc NullsOrder.Default].

Lemma ranks_over_columns_witness : ranks false by_points [["5"]; ["3"]; ["1"]] = ["1"; "1"; "1"].
Proof. exact (ranks_over_columns false by_points [["5"]; ["3"]; ["1"]] eq_refl). Defined.

Lemma ranks_spec_witness :
  ranks true [mkOrderByItem (Expr_Literal (Literal.Number "1")) SortDirection.Asc NullsOrder.Default] [["5"]; ["3"]] !! 1%nat = Some "1".
Proof.
  destruct (ranks_spec [mkOrderByItem (Expr_Literal (Literal.Number "1")) SortDirection.Asc NullsOrder.Default] [["5"]; ["3"]] 1
    ltac:(cbn; lia)) as (s & _ & _ & _ & _ & Hd). exact Hd.
Defined.
