(* ===== verification/Query.v ===== *)
(** The execution of SELECT ([src/src/executor/select/mod.rs] and [context.rs]):
    tables and subqueries as sources of rows, index lookups for equality
    conditions, and the steps of a query over them. The recursion is on the query,
    so that every query is executed to its end; what may run forever is the search
    of an index, whose fuel is an argument. *)

From S2P Require Import Prelude Types Storage HeapPage Transaction BufferPool Wal BTreePage BTree IndexKeys Catalog TupleCodec HeapAccess.
From S2P Require Import SqlText Float64 Ast Eval RowOps Joins GroupBy Window.

(** A computation that may run forever ([None]). *)
Definition query_m (S X : Type) : Type := heap_state S -> option (outcome X * heap_state S).

#[export] Instance query_ret {S} : MRet (query_m S) := fun X x w => Some (Ok x, w).

#[export] Instance query_bind {S} : MBind (query_m S) := fun X Y f m w =>
  match m w with
  | Some (Ok x, w) => f x w
  | Some (Err e, w) => Some (Err e, w)
  | Some (Panic, w) => Some (Panic, w)
  | None => None
  end.

Definition q_run {S X} (m : heap_m S X) : query_m S X := fun w => Some (m w).
Definition q_fail {S X} (e : error) : query_m S X := fun w => Some (Err e, w).

(** The fields of [ExecContext] that change. *)
Record ExecContext := { col_names : list string; tuple_desc : option TupleDesc }.

Definition ExecContext_new : ExecContext := {| col_names := []; tuple_desc := None |}.

(** [bail!("relation ... does not exist")], with the bytes of the name. *)
Definition no_relation (name : string) : error :=
  Anyhow ("relation " +:+ String (of_byte 34) ("{}" +:+ String (of_byte 34) " does not exist")) (bytes_of name).

Definition value_row (r : ItemPointerData * list bytes) : TidRow := (r.1, text_of <$> r.2).

(** The rows of a subquery, numbered. *)
Definition subquery_rows (rows : list Row) : list TidRow :=
  imap (fun i row => ({| ip_page_id := (Z.of_nat i) as_u32; ip_offset := 0 |}, row)) rows.

Section query.
Context {P : Profile} {S : Type} `{Storage S} `{Bincode Tuple} `{Bincode WALRecord} `{Unicode} `{Grouping}.
Abbreviation Q := (query_m S).
Context (order : values_order) (catalog : Catalog S) (index_fuel : nat).

(** The name of a literal in [{:?}], where the code has no text for it. *)
Definition literal_to_string (lit : Literal) : string :=
  let debug name s := name +:+ "(" +:+ escape_debug s +:+ ")" in
  match lit with
  | Literal.Number n => n
  | Literal.String s => s
  | Literal.Bool b => bool_text b
  | Literal.Null => "NULL"
  | Literal.Blob b => "Blob(" +:+ blob_text b +:+ ")"
  | Literal.Date s => debug "Date" s
  | Literal.Time s => debug "Time" s
  | Literal.Timestamp s => debug "Timestamp" s
  | Literal.TimestampTz s => debug "TimestampTz" s
  | Literal.Interval s => debug "Interval" s
  | Literal.Json s => debug "Json" s
  | Literal.JsonB s => debug "JsonB" s
  | Literal.Uuid s => debug "Uuid" s
  | Literal.Money s => debug "Money" s
  | Literal.Bit s => debug "Bit" s
  | Literal.Hex s => debug "Hex" s
  end.

(** The first [column = literal] among the conditions joined by AND. *)
Fixpoint extract_equality (expr : Expr) : option (string * string) :=
  match expr with
  | Expr_BinaryOp (Expr_Identifier col) BinaryOperator.Equals (Expr_Literal lit) => Some (col, literal_to_string lit)
  | Expr_BinaryOp (Expr_Literal lit) BinaryOperator.Equals (Expr_Identifier col) => Some (col, literal_to_string lit)
  | Expr_BinaryOp a BinaryOperator.And b =>
      match extract_equality a with Some r => Some r | None => extract_equality b end
  | _ => None
  end.

(** [cache.fetch_page]. *)
Definition h_fetch (pid : PageId) : heap_m S bytes := fun w =>
  let '(r, c) := cache_fetch_page pid (hs_cache w) in (r, with_hcache w c).

Definition fetch_tuple_by_pointer (snap : option Snapshot) (oid : Oid) (page_id : PageId) (offset : Z) : heap_m S (option TidRow) :=
  rel ← h_relation oid;
  data ← h_fetch page_id;
  p ← h_lift (HeapPage_deserialize data);
  mret (t ← get offset (tuples p);
        tup ← tuple_of t;
        if is_visible tup (default latest_snapshot snap)
        then Some (value_row ({| ip_page_id := page_id; ip_offset := offset |}, decode_tuple_values tup (rel_tuple_desc rel)))
        else None).

(** The single key column of the search key. *)
Definition lookup_column (col_name : string) : IndexKeys.IndexColumn :=
  {| ic_name := col_name; ic_direction := IndexKeys.Asc; ic_nulls_first := false |}.

Definition index_scan_lookup (snap : option Snapshot) (oid : Oid) (idx : IndexInfo) (col_name value : string) : Q (list TidRow) :=
  let scan_key := encode_index_key [bytes_of value] [lookup_column col_name] in
  let op := {| bs_index_oid := ii_index_oid idx; bs_scan_from := scan_key |} in
  hits ← (fun w => match exec_btree_scan index_fuel (cache_storage (hs_cache w)) op (ii_root_page idx) with
                   | Some r => Some (r, w) | None => None end);
  found ← q_run (for_each (fun hit : bytes * (PageId * Z) => fetch_tuple_by_pointer snap oid hit.2.1 hit.2.2) hits);
  mret (omap id found).

(** A table of the catalog, by its name in any case. *)
Definition find_relation (name : string) : option Relation :=
  List.find (fun r => bool_decide (to_uppercase (rel_name r) = to_uppercase name)) (list_relations order catalog).

Definition equality_index (oid : Oid) (where_clause : option Expr) : option (IndexInfo * string * string) :=
  e ← where_clause; '(col, value) ← extract_equality e;
  idx ← find_index oid (to_uppercase col) catalog;
  if ii_root_page idx =? 0 then None else Some (idx, col, value).

Definition resolve_table (snap : option Snapshot) (name : ObjectName) (where_clause : option Expr) : Q (list TidRow * ExecContext) :=
  let table := text_join "." (parts name) in
  match find_relation table with
  | None => q_fail (no_relation table)
  | Some rel =>
      let oid := rel_oid rel in
      let desc := rel_tuple_desc rel in
      let ctx := {| col_names := att_name <$> td_fields desc; tuple_desc := Some desc |} in
      match equality_index oid where_clause with
      | Some (idx, col, value) => rows ← index_scan_lookup snap oid idx col value; mret (rows, ctx)
      | None => rows ← q_run (heap_scan_with_optional_snapshot oid snap); mret (value_row <$> rows, ctx)
      end
  end.

Definition expr_column_name (expr : Expr) : string :=
  match expr with
  | Expr_Identifier col => col
  | Expr_Function (mkFunctionCall name _ _ _) => default EmptyString (last (parts name))
  | Expr_Literal lit =>
      match lit with
      | Literal.Number n => n
      | Literal.String s => "'" +:+ s +:+ "'"
      | Literal.Bool b => bool_text b
      | Literal.Null => "NULL"
      | _ => "?"
      end
  | _ => "expr"
  end.

Definition resolve_columns (ctx : ExecContext) (select_list : list SelectItem) : list string :=
  concat ((fun item => match item with
                       | SelectItem_Star | SelectItem_TableStar _ =>
                           match tuple_desc ctx with Some d => att_name <$> td_fields d | None => [] end
                       | SelectItem_ExprAs _ alias => [alias]
                       | SelectItem_Expr e => [expr_column_name e]
                       end) <$> select_list).

(** The steps from the rows of FROM to the rows of the query, before the set
    operations. *)
Definition query_steps (desc : option TupleDesc) (distinct : DistinctClause) (select_list : list SelectItem)
    (where_clause : option Expr) (group_by : list Expr) (having : option Expr) (order_by : list OrderByItem)
    (limit : option LimitClause) (offset : option Expr) (base : list TidRow) : outcome (list Row) :=
  let filtered := match where_clause with Some e => apply_where desc base e | None => base end in
  let grouped :=
    if negb (is_nil group_by) || has_aggregates select_list then apply_group_by desc filtered group_by select_list else filtered in
  let kept := match having with Some e => apply_having desc grouped e | None => grouped end in
  let different :=
    match distinct with
    | DistinctClause_Distinct => apply_distinct kept
    | DistinctClause_DistinctOn exprs => apply_distinct_on desc kept exprs
    | DistinctClause_All => kept
    end in
  let ordered := match order_by with [] => different | _ => apply_order_by desc different order_by end in
  let offset_rows := match offset with Some e => apply_offset desc ordered e | None => ordered end in
  let final := match limit with Some l => apply_limit_offset desc offset_rows l | None => offset_rows end in
  apply_window_functions desc final.*2 select_list.

(** A table of FROM; a subquery leaves the descriptor of the table before it. *)
Definition resolve_table_ref (exec : SelectStatement -> option Snapshot -> Q SelectResult) (snap : option Snapshot) (table : TableRef)
    (where_clause : option Expr) (ctx : ExecContext) : Q (list TidRow * ExecContext) :=
  match table with
  | TableRef_Table name => resolve_table snap name where_clause
  | TableRef_Subquery q =>
      r ← exec q snap;
      mret (subquery_rows (sel_rows r), {| col_names := columns r; tuple_desc := tuple_desc ctx |})
  | TableRef_Function _ => q_fail (Anyhow "function calls in FROM not yet supported" [])
  end.

(** The tables of FROM joined from the left; only the first is asked for with the
    condition of the query. *)
Definition execute_from (exec : SelectStatement -> option Snapshot -> Q SelectResult) (snap : option Snapshot) (from : FromClause)
    (where_clause : option Expr) : Q (list TidRow * ExecContext) :=
  match from with
  | mkFromClause [] => mret ([], ExecContext_new)
  | mkFromClause (mkJoin table _ _ _ :: joins) =>
      first ← resolve_table_ref exec snap table where_clause ExecContext_new;
      (fix join_all (joins : list Join) (rows : list TidRow) (ctx : ExecContext) : Q (list TidRow * ExecContext) :=
         match joins with
         | [] => mret (rows, ctx)
         | mkJoin table alias join_type constraint :: joins =>
             next ← resolve_table_ref exec snap table None ctx;
             let '(right_rows, ctx) := (next : list TidRow * ExecContext) in
             join_all joins (execute_join (col_names ctx) rows right_rows (mkJoin table alias join_type constraint) (tuple_desc ctx)) ctx
         end) joins first.1 first.2
  end.

Definition execute_set_operations (exec : SelectStatement -> option Snapshot -> Q SelectResult) (snap : option Snapshot) :
    list SetOperation -> SelectResult -> Q SelectResult :=
  fix combine (ops : list SetOperation) (result : SelectResult) : Q SelectResult :=
    match ops with
    | [] => mret result
    | mkSetOperation operator q :: ops =>
        r ← exec q snap;
        combine ops (apply_set_operation result r operator)
    end.

Fixpoint execute_select_with_snapshot (select : SelectStatement) (snap : option Snapshot) : Q SelectResult :=
  match select with
  | mkSelectStatement _ distinct select_list from where_clause group_by having order_by limit offset _ set_operations =>
      source ←
        match from with
        | None => mret (execute_select_without_from select_list, ExecContext_new)
        | Some from => execute_from execute_select_with_snapshot snap from where_clause
        end;
      let '(base, ctx) := (source : list TidRow * ExecContext) in
      rows ← q_run (h_lift (query_steps (tuple_desc ctx) distinct select_list where_clause group_by having order_by limit offset base));
      execute_set_operations execute_select_with_snapshot snap set_operations {| columns := resolve_columns ctx select_list; sel_rows := rows |}
  end.

Definition execute_select (select : SelectStatement) : Q SelectResult := execute_select_with_snapshot select None.
End query.

(* ------------------------------------------------------------------ *)
(** ** A query changes nothing but the pool *)

Section clean.
Context {P : Profile} {S : Type} `{Storage S}.

Definition clean_pool (p : BufferPool) : Prop := Forall (fun b => buf_dirty b = false) (buffers p).

Lemma clean_insert bufs i b : Forall (fun b => buf_dirty b = false) bufs -> buf_dirty b = false ->
  Forall (fun b => buf_dirty b = false) (<[i := b]> bufs).
Proof. intros Hall Hb. by apply Forall_insert. Qed.

Lemma clean_lookup bufs i b : Forall (fun b => buf_dirty b = false) bufs -> bufs !! i = Some b -> buf_dirty b = false.
Proof. intros Hall Hi. by apply (Forall_lookup_1 _ _ _ _ Hall Hi). Qed.

Lemma sweep_clean n size hand bufs r bufs' :
  sweep n size hand bufs = Ok (r, bufs') -> Forall (fun b => buf_dirty b = false) bufs -> Forall (fun b => buf_dirty b = false) bufs'.
Proof.
  revert hand bufs. induction n as [|n IH]; intros hand bufs; cbn [sweep]; [by intros [= <- <-]|].
  destruct (bufs !! hand) as [b|] eqn:Eb; [|done]. destruct (buf_pin b =? 0); [destruct (0 <? buf_usage b)|]; intros Hs Hc.
  - apply IH in Hs; [done|]. apply clean_insert; [done|]. exact (clean_lookup _ _ _ Hc Eb).
  - by injection Hs as <- <-.
  - by apply IH in Hs.
Qed.

Lemma find_victim_clean p : clean_pool p -> clean_pool (find_victim p).2.
Proof.
  intros Hc. unfold find_victim. destruct (sweep _ _ _ _) as [[[[v h]|] bufs]|e|] eqn:E; [|destruct (position _ _)|done|done]; cbn;
    by apply (sweep_clean _ _ _ _ _ _ E).
Qed.

Lemma bump_clean p idx : clean_pool p -> clean_pool (bump p idx).2.
Proof.
  intros Hc. unfold bump. destruct (buffers p !! idx) as [b|] eqn:Eb; [|done]. destruct (add_w 32 (buf_usage b) 1); [|done..].
  destruct (add_w 32 (buf_pin b) 1); [|done|]; (apply clean_insert; [done|exact (clean_lookup _ _ _ Hc Eb)]).
Qed.

Lemma fetch_page_clean (s : S) pid p r s' p' : fetch_page s pid p = (r, s', p') -> clean_pool p -> s' = s /\ clean_pool p'.
Proof.
  unfold fetch_page. intros Hf Hc. destruct (page_map p !! pid) as [idx|].
  - pose proof (bump_clean p idx Hc) as Hb. destruct (bump p idx) as [o p1]. by injection Hf as <- <- <-.
  - pose proof (find_victim_clean p Hc) as Hv. destruct (find_victim p) as [[slot|e|] p1]; cbn in Hv; [|by injection Hf as <- <- <-..].
    destruct (read_page s pid) as [data|e|]; [|by injection Hf as <- <- <-..].
    unfold evict in Hf. destruct (buffers p1 !! slot) as [b|] eqn:Eb; [|by injection Hf as <- <- <-].
    rewrite (clean_lookup _ _ _ Hv Eb) in Hf. cbn in Hf. injection Hf as <- <- <-. split; [done|]. by apply clean_insert.
Qed.
End clean.

Section reads.
Context {P : Profile} {S : Type} `{Storage S} `{Bincode Tuple} `{Bincode WALRecord} `{Unicode} `{Grouping}.
Implicit Types w : heap_state S.

(** The store, the log and the table of relations are as they were, and nothing in
    the pool waits to be written. *)
Definition read_only w w' : Prop :=
  cache_storage (hs_cache w') = cache_storage (hs_cache w) /\ hs_wal w' = hs_wal w /\
  cache_rels (hs_cache w') = cache_rels (hs_cache w) /\ clean_pool (cache_pool (hs_cache w')).

Definition heap_reads {X} (m : heap_m S X) : Prop := forall w, clean_pool (cache_pool (hs_cache w)) -> read_only w (m w).2.

Definition query_reads {X} (m : query_m S X) : Prop :=
  forall w r w', clean_pool (cache_pool (hs_cache w)) -> m w = Some (r, w') -> read_only w w'.

Lemma read_only_refl w : clean_pool (cache_pool (hs_cache w)) -> read_only w w.
Proof. by split. Qed.

Lemma read_only_trans w1 w2 w3 : read_only w1 w2 -> read_only w2 w3 -> read_only w1 w3.
Proof. intros (E1 & E2 & E3 & _) (K1 & K2 & K3 & Hc). split_and!; congruence || done. Qed.

Lemma reads_const {X} (f : heap_state S -> outcome X) : heap_reads (fun w => (f w, w)).
Proof. intros w Hc. by apply read_only_refl. Qed.

Lemma reads_bind {X Y} (m : heap_m S X) (f : X -> heap_m S Y) : heap_reads m -> (forall x, heap_reads (f x)) -> heap_reads (m ≫= f).
Proof.
  intros Hm Hf w Hc. unfold mbind, heap_bind. specialize (Hm w Hc). destruct (m w) as [[x|e|] w1]; [|done..]. cbn in Hm.
  pose proof Hm as (_ & _ & _ & Hc1). by apply (read_only_trans w w1), (Hf x).
Qed.

Lemma reads_for_each {X Y} (f : X -> heap_m S Y) l : (forall x, heap_reads (f x)) -> heap_reads (for_each f l).
Proof.
  intros Hf. induction l as [|x l IH]; cbn [for_each]; [apply reads_const|]. apply reads_bind; [apply Hf|]. intros y.
  apply reads_bind; [exact IH|]. intros ys. apply reads_const.
Qed.

Lemma reads_fetch pid : heap_reads (h_fetch pid).
Proof.
  intros w Hc. unfold h_fetch, cache_fetch_page. destruct (fetch_page _ pid _) as [[r s'] p'] eqn:E.
  destruct (fetch_page_clean _ _ _ _ _ _ E Hc) as [-> Hc']. by split_and!.
Qed.

Lemma fetch_indices_clean pids (c : SharedBufferCache S) :
  clean_pool (cache_pool c) ->
  let c' := (fetch_indices pids c).2 in
  cache_storage c' = cache_storage c /\ cache_rels c' = cache_rels c /\ clean_pool (cache_pool c').
Proof.
  revert c. induction pids as [|pid pids IH]; intros c Hc; [done|]. cbn [fetch_indices].
  destruct (fetch_page _ pid _) as [[r s'] p'] eqn:E. destruct (fetch_page_clean _ _ _ _ _ _ E Hc) as [-> Hc'].
  destruct r as [idx|e|]; [|done..]. specialize (IH (BufferPool.with_cache c (cache_storage c) p') Hc').
  destruct (fetch_indices pids _) as [r' c']. destruct IH as (IH1 & IH2 & IH3). by split_and!.
Qed.

Lemma reads_fetch_batch pids : heap_reads (h_fetch_batch pids).
Proof.
  intros w Hc. unfold h_fetch_batch, fetch_pages_batch. pose proof (fetch_indices_clean pids (hs_cache w) Hc) as Hf.
  destruct (fetch_indices pids (hs_cache w)) as [r c']. destruct Hf as (Hs & Hr & Hc'). by split_and!.
Qed.

Lemma reads_scan oid snap : heap_reads (heap_scan_with_optional_snapshot oid snap).
Proof.
  unfold heap_scan_with_optional_snapshot, heap_scan_with_snapshot. apply reads_bind; [apply reads_const|]. intros rel.
  apply reads_bind; [apply reads_fetch_batch|]. intros pages. apply reads_bind; [|intros; apply reads_const].
  apply reads_for_each. intros pd. apply reads_bind; intros; apply reads_const.
Qed.

Lemma query_bind_reads {X Y} (m : query_m S X) (f : X -> query_m S Y) : query_reads m -> (forall x, query_reads (f x)) -> query_reads (m ≫= f).
Proof.
  intros Hm Hf w r w' Hc. unfold mbind, query_bind. destruct (m w) as [[[x|e|] w1]|] eqn:E; [|by intros [= <- <-]; apply (Hm _ _ _ Hc E)..|done].
  intros Hx. pose proof (Hm _ _ _ Hc E) as R1. pose proof R1 as (_ & _ & _ & Hc1). by apply (read_only_trans w w1), (Hf x _ _ _ Hc1 Hx).
Qed.

Lemma query_const_reads {X} (f : heap_state S -> option (outcome X)) : query_reads (fun w => (fun r => (r, w)) <$> f w).
Proof. intros w r w' Hc. destruct (f w); [|done]. intros [= <- <-]. by apply read_only_refl. Qed.

Lemma query_ret_reads {X} (x : X) : query_reads (mret x).
Proof. apply (query_const_reads (fun _ => Some (Ok x))). Qed.

Lemma query_fail_reads {X} e : query_reads (q_fail e : query_m S X).
Proof. apply (query_const_reads (fun _ => Some (Err e))). Qed.

Lemma query_run_reads {X} (m : heap_m S X) : heap_reads m -> query_reads (q_run m).
Proof. intros Hm w r w' Hc. unfold q_run. intros [= E]. specialize (Hm w Hc). by rewrite E in Hm. Qed.

Context (order : values_order) (catalog : Catalog S) (index_fuel : nat).

Lemma fetch_tuple_reads snap oid pid off : heap_reads (fetch_tuple_by_pointer snap oid pid off).
Proof.
  unfold fetch_tuple_by_pointer. apply reads_bind; [apply reads_const|]. intros rel. apply reads_bind; [apply reads_fetch|]. intros data.
  apply reads_bind; [apply reads_const|]. intros p. apply reads_const.
Qed.

Lemma resolve_table_reads snap name where_clause : query_reads (resolve_table order catalog index_fuel snap name where_clause).
Proof.
  unfold resolve_table. destruct (find_relation order catalog _) as [rel|]; [|apply query_fail_reads].
  destruct (equality_index catalog _ _) as [[[idx col] value]|].
  - apply query_bind_reads; [|intros; apply query_ret_reads]. unfold index_scan_lookup. apply query_bind_reads.
    + intros w r w' Hc. destruct (exec_btree_scan _ _ _ _); [|done]. intros [= <- <-]. by apply read_only_refl.
    + intros hits. apply query_bind_reads; [|intros; apply query_ret_reads]. apply query_run_reads, reads_for_each. intros. apply fetch_tuple_reads.
  - apply query_bind_reads; [|intros; apply query_ret_reads]. apply query_run_reads, reads_scan.
Qed.

(** A SELECT reads: with nothing waiting to be written in the pool, whatever it
    answers (rows, an error or a panic), the stored pages, the log and the relation
    table are those it found. *)
Theorem execute_select_reads q snap : query_reads (execute_select_with_snapshot order catalog index_fuel q snap).
Proof.
  revert q. fix IH 1. intros [with_ distinct sl from wc gb hv ob lm off lock ops]. cbn [execute_select_with_snapshot].
  unfold execute_from, execute_set_operations, resolve_table_ref.
  apply query_bind_reads.
  - destruct from as [[[|[table alias jt c] joins]]|]; [apply query_ret_reads| |apply query_ret_reads].
    apply query_bind_reads.
    + destruct table as [name|q|f]; [apply resolve_table_reads| |apply query_fail_reads].
      apply query_bind_reads; [apply IH|intros; apply query_ret_reads].
    + intros first. generalize first.1 first.2. revert joins. fix IHj 1. intros [|[table' alias' jt' c'] joins] rows ctx; [apply query_ret_reads|].
      apply query_bind_reads; [|intros [right ctx']; apply IHj].
      destruct table' as [name|q|f]; [apply resolve_table_reads| |apply query_fail_reads].
      apply query_bind_reads; [apply IH|intros; apply query_ret_reads].
  - intros [base ctx]. apply query_bind_reads; [apply query_run_reads, reads_const|]. intros rows.
    match goal with |- query_reads (_ ops ?r) => generalize r end. revert ops. fix IHo 1. intros [|[op q] ops] r; [apply query_ret_reads|].
    apply query_bind_reads; [apply IH|]. intros r'. apply IHo.
Qed.
End reads.

(* ------------------------------------------------------------------ *)
(** ** A query ends, when it searches no index *)

(** No index has been given a root page, so that none is searched. *)
Definition no_index {S} (catalog : Catalog S) : Prop := Forall (fun idx => ii_root_page idx = 0) (indexes catalog).

Lemma equality_index_none {S} `{Unicode} (catalog : Catalog S) oid where_clause : no_index catalog -> equality_index catalog oid where_clause = None.
Proof.
  intros Hni. unfold equality_index. destruct where_clause as [e|]; [|done]. cbn. destruct (extract_equality e) as [[col value]|]; [|done].
  cbn. unfold find_index. destruct (List.find _ _) as [idx|] eqn:E; [|done]. cbn.
  apply List.find_some in E as [Hin%list_elem_of_In _]. unfold no_index in Hni. rewrite Forall_forall in Hni. by rewrite (Hni _ Hin).
Qed.

Section ends.
Context {P : Profile} {S : Type} `{Storage S} `{Bincode Tuple} `{Bincode WALRecord} `{Unicode} `{Grouping}.
Context (order : values_order) (catalog : Catalog S) (index_fuel : nat) (Hni : no_index catalog).

Definition query_ends {X} (m : query_m S X) : Prop := forall w, m w <> None.

Lemma query_ends_bind {X Y} (m : query_m S X) (f : X -> query_m S Y) : query_ends m -> (forall x, query_ends (f x)) -> query_ends (m ≫= f).
Proof.
  intros Hm Hf w. unfold mbind, query_bind. specialize (Hm w). destruct (m w) as [[[x|e|] w1]|]; [apply Hf|done..].
Qed.

Lemma resolve_table_ends snap name where_clause : query_ends (resolve_table order catalog index_fuel snap name where_clause).
Proof. unfold resolve_table. destruct (find_relation _ _ _); [|done]. rewrite equality_index_none by done. by apply query_ends_bind. Qed.

Lemma execute_select_ends q snap : query_ends (execute_select_with_snapshot order catalog index_fuel q snap).
Proof.
  revert q. fix IH 1. intros [with_ distinct sl from wc gb hv ob lm off lock ops]. cbn [execute_select_with_snapshot].
  unfold execute_from, execute_set_operations, resolve_table_ref.
  apply query_ends_bind.
  - destruct from as [[[|[table alias jt c] joins]]|]; [done| |done]. apply query_ends_bind.
    + destruct table as [name|q|f]; [apply resolve_table_ends| |done]. by apply query_ends_bind; [apply IH|].
    + intros first. generalize first.1 first.2. revert joins. fix IHj 1. intros [|[table' alias' jt' c'] joins] rows ctx; [done|].
      apply query_ends_bind; [|intros [right ctx']; apply IHj].
      destruct table' as [name|q|f]; [apply resolve_table_ends| |done]. by apply query_ends_bind; [apply IH|].
  - intros [base ctx]. apply query_ends_bind; [done|]. intros rows.
    match goal with |- query_ends (_ ops ?r) => generalize r end. revert ops. fix IHo 1. intros [|[op q] ops] r; [done|].
    apply query_ends_bind; [apply IH|]. intros r'. apply IHo.
Qed.
End ends.
