(* ===== verification/Answers.v ===== *)
(** What a SELECT answers: over pages that hold the versions of some tables, the
    executor of Query.v, which fetches pages through the buffer pool, decodes tuples
    and tests their visibility, computes what the query means on the tables. *)

From S2P Require Import Prelude Types Storage HeapPage Transaction BufferPool PoolHistories Wal TupleCodec IndexKeys Catalog HeapAccess.
From S2P Require Import SqlText Ast Eval RowOps Joins GroupBy Window Query.

(* ------------------------------------------------------------------ *)
(** ** The meaning of a query *)

(** A table: its columns, and the versions of its rows with where they are. *)
Record sql_table := SqlTable { tbl_name : string; tbl_desc : TupleDesc; tbl_versions : list (ItemPointerData * Tuple) }.

(** The versions a snapshot sees, decoded. *)
Definition seen (snap : Snapshot) (desc : TupleDesc) (vs : list (ItemPointerData * Tuple)) : rows :=
  (fun v : ItemPointerData * Tuple => (v.1, decode_tuple_values v.2 desc)) <$> List.filter (fun v => is_visible v.2 snap) vs.

(** The rows of a table for a query. *)
Definition shown_rows (snap : option Snapshot) (t : sql_table) : list TidRow :=
  value_row <$> seen (default latest_snapshot snap) (tbl_desc t) (tbl_versions t).

Definition table_context (t : sql_table) : ExecContext :=
  {| col_names := att_name <$> td_fields (tbl_desc t); tuple_desc := Some (tbl_desc t) |}.

Section meaning.
Context {P : Profile} `{Unicode, Grouping} (db : list sql_table) (snap : option Snapshot).

Definition find_table (name : string) : option sql_table :=
  List.find (fun t => bool_decide (to_uppercase (tbl_name t) = to_uppercase name)) db.

Definition table_meaning (name : ObjectName) : outcome (list TidRow * ExecContext) :=
  let name := text_join "." (parts name) in
  match find_table name with Some t => Ok (shown_rows snap t, table_context t) | None => Err (no_relation name) end.

Definition ref_meaning (meaning : SelectStatement -> outcome SelectResult) (ref : TableRef) (ctx : ExecContext) :
    outcome (list TidRow * ExecContext) :=
  match ref with
  | TableRef_Table name => table_meaning name
  | TableRef_Subquery q => r ← meaning q; Ok (subquery_rows (sel_rows r), {| col_names := columns r; tuple_desc := tuple_desc ctx |})
  | TableRef_Function _ => Err (Anyhow "function calls in FROM not yet supported" [])
  end.

(** The tables of FROM, each joined to those before it. *)
Definition joins_meaning (meaning : SelectStatement -> outcome SelectResult) :=
  fix go (joins : list Join) (rows : list TidRow) (ctx : ExecContext) : outcome (list TidRow * ExecContext) :=
    match joins with
    | [] => Ok (rows, ctx)
    | mkJoin ref alias join_type constraint :: joins =>
        '(right_rows, ctx) ← ref_meaning meaning ref ctx;
        go joins (execute_join (col_names ctx) rows right_rows (mkJoin ref alias join_type constraint) (tuple_desc ctx)) ctx
    end.

Definition from_meaning (meaning : SelectStatement -> outcome SelectResult) (from : FromClause) : outcome (list TidRow * ExecContext) :=
  match from with
  | mkFromClause [] => Ok ([], ExecContext_new)
  | mkFromClause (mkJoin ref _ _ _ :: joins) =>
      '(rows, ctx) ← ref_meaning meaning ref ExecContext_new; joins_meaning meaning joins rows ctx
  end.

Definition sets_meaning (meaning : SelectStatement -> outcome SelectResult) :=
  fix go (ops : list SetOperation) (result : SelectResult) : outcome SelectResult :=
    match ops with
    | [] => Ok result
    | mkSetOperation operator q :: ops => r ← meaning q; go ops (apply_set_operation result r operator)
    end.

Fixpoint select_meaning (select : SelectStatement) : outcome SelectResult :=
  match select with
  | mkSelectStatement _ distinct select_list from where_clause group_by having order_by limit offset _ set_operations =>
      '(base, ctx) ←
        match from with
        | None => Ok (execute_select_without_from select_list, ExecContext_new)
        | Some from => from_meaning select_meaning from
        end;
      rows ← query_steps (tuple_desc ctx) distinct select_list where_clause group_by having order_by limit offset base;
      sets_meaning select_meaning set_operations {| columns := resolve_columns ctx select_list; sel_rows := rows |}
  end.
End meaning.

(** How many tables a query scans. *)
Definition ref_scans (scans : SelectStatement -> nat) (ref : TableRef) : nat :=
  match ref with TableRef_Table _ => 1 | TableRef_Subquery q => scans q | TableRef_Function _ => 0 end.

Definition from_scans (scans : SelectStatement -> nat) (from : FromClause) : nat :=
  match from with mkFromClause joins => sum_list_with (fun '(mkJoin ref _ _ _) => ref_scans scans ref) joins end.

Fixpoint select_scans (select : SelectStatement) : nat :=
  match select with
  | mkSelectStatement _ _ _ from _ _ _ _ _ _ _ set_operations =>
      (from_option (from_scans select_scans) 0 from + sum_list_with (fun '(mkSetOperation _ q) => select_scans q) set_operations)%nat
  end.

(* ------------------------------------------------------------------ *)
(** ** Pages that hold tables *)

(** The versions of a page with their slots. *)
Definition located `{Bincode Tuple} (pid : PageId) (ts : list bytes) : list (ItemPointerData * Tuple) :=
  concat (imap (fun i t => match tuple_of t with
                           | Some v => [({| ip_page_id := pid; ip_offset := (Z.of_nat i) as_u16 |}, v)]
                           | None => []
                           end) ts).

Definition located_versions {S} `{Storage S} `{Bincode Tuple} {P : Profile} (s : S) (pids : list PageId) : list (ItemPointerData * Tuple) :=
  concat ((fun pid => match data ← read_page s pid; HeapPage_deserialize data with Ok p => located pid (tuples p) | _ => [] end) <$> pids).

(** They are the versions that the statements of the heap work on. *)
Lemma located_snd {S} `{Storage S} `{Bincode Tuple} {P : Profile} (s : S) pids : (located_versions s pids).*2 = stored_versions s pids.
Proof.
  unfold located_versions, stored_versions. induction pids as [|pid pids IH]; [done|]. cbn [fmap list_fmap concat].
  rewrite fmap_app. f_equal; [|exact IH]. destruct (_ ≫= _) as [p|e|]; [|done..]. unfold located, versions_of.
  rewrite (imap_concat_snd _ (fun t => match tuple_of t with Some v => [v] | None => [] end)); [|by intros i t; destruct (tuple_of t)].
  induction (tuples p) as [|t ts IHt]; [done|]. cbn [fmap list_fmap concat omap list_omap]. rewrite IHt. by destruct (tuple_of t).
Qed.

Lemma concat_imap_hom {A B C} (g : list B -> list C) (f : nat -> A -> list B) l :
  g [] = [] -> (forall a b, g (a ++ b) = g a ++ g b) -> concat (imap (fun i x => g (f i x)) l) = g (concat (imap f l)).
Proof.
  intros Hnil Happ. revert f. induction l as [|x l IH]; intros f; [done|]. rewrite !imap_cons. cbn [concat].
  rewrite Happ. f_equal. apply (IH (f ∘ Datatypes.S)).
Qed.

Lemma seen_app snap desc vs vs' : seen snap desc (vs ++ vs') = seen snap desc vs ++ seen snap desc vs'.
Proof. unfold seen. by rewrite List.filter_app, fmap_app. Qed.

(** A scan of a page shows those of its versions that are visible. *)
Lemma scan_tuples_located `{Bincode Tuple} snap desc pid ts :
  scan_tuples (fun _ => true) snap desc pid ts = seen snap desc (located pid ts).
Proof.
  unfold scan_tuples, located. rewrite <- (concat_imap_hom (seen snap desc)); [|done|apply seen_app]. f_equal.
  apply imap_ext. intros i t _. destruct (tuple_of t) as [v|]; [|done]. unfold seen. cbn. by destruct (is_visible v snap).
Qed.

Section serving.
Context {P : Profile} {S : Type} (valid : S -> Prop) `{StorageLaws S (Z.to_nat 8192) valid} `{TupleLaws} `{Bincode WALRecord} `{Unicode} `{Grouping}.
Context (order : values_order) (catalog : Catalog S) (index_fuel n : nat) (U : gset PageId) (w0 : heap_state S).
Implicit Types w : heap_state S.
Abbreviation shows := (shows (Z.to_nat 8192) valid n).

(** The store, the log and the relations are those of [w0], and the pool has no page
    that differs from the stored one, and room for those of [U] it has not. [c]
    bounds its counters. *)
Record ready (c : Z) w : Prop := {
  rd_store : store w = store w0;
  rd_log : hs_wal w = hs_wal w0;
  rd_rels : cache_rels (hs_cache w) = cache_rels (hs_cache w0);
  rd_pool : exists a, shows c (store w) (cache_pool (hs_cache w)) a /\ (forall q, is_u32 q -> mem a q = disk a q)
              /\ (used a + size (U ∖ cached a) <= n)%nat;
}.

Lemma ready_more c c' w : ready c w -> c <= c' -> ready c' w.
Proof. intros [? ? ? (a & Ha & ?)] Hc. split; try done. exists a. split; [by apply (shows_more _ _ _ c)|done]. Qed.

(** The page as it is stored. *)
Definition page_data (pid : PageId) : bytes := default [] (outcome_ok (read_page (store w0) pid)).

Lemma page_data_read pid d : read_page (store w0) pid = Ok d -> page_data pid = d.
Proof. intros Hr. unfold page_data. by rewrite Hr. Qed.

(* ------------------------------------------------------------------ *)
(** ** A scan through the pool *)

Lemma fetch_ready c w pid :
  ready c w -> 0 <= c < 2 ^ 32 - 1 -> is_u32 pid -> pid ∈ U ->
  exists idx p', fetch_page (store w) pid (cache_pool (hs_cache w)) = (Ok idx, store w, p')
    /\ ready (c + 1) (with_hcache w (BufferPool.with_cache (hs_cache w) (store w) p'))
    /\ page_map p' !! pid = Some idx /\ page_map (cache_pool (hs_cache w)) ⊆ page_map p'.
Proof.
  intros [Hst Hlog Hrels (a & Ha & Hclean & Hroom)] Hc H32 HU.
  assert (Hfree : pid ∉ cached a -> size (U ∖ cached a) <> 0%nat) by (intros Hni; rewrite size_non_empty_iff; set_solver).
  destruct (fetch_shows (Z.to_nat 8192) valid n c _ _ a pid Ha Hc H32) as (idx & b & p' & E & Hs & Hm & _ & _ & _ & Hsub).
  { destruct (decide (pid ∈ cached a)) as [?|Hni]; [by left|right]. specialize (Hfree Hni). lia. }
  exists idx, p'. split_and!; try done. split; try done. exists (touch pid a). split; [done|]. unfold touch. case_decide as Hin; [done|].
  cbn [mem disk cached used]. split; [done|].
  replace (U ∖ ({[pid]} ∪ cached a)) with ((U ∖ cached a) ∖ {[pid]}) by set_solver.
  rewrite size_difference by set_solver. rewrite size_singleton. specialize (Hfree Hin). lia.
Qed.

Lemma fetch_indices_ready pids c w :
  ready c w -> 0 <= c -> c + zlen pids < 2 ^ 32 -> Forall is_u32 pids -> Forall (fun q => q ∈ U) pids ->
  exists found k, fetch_indices pids (hs_cache w) = (Ok found, k) /\ ready (c + zlen pids) (with_hcache w k)
    /\ found.*1 = pids /\ Forall (fun qi : PageId * nat => page_map (cache_pool k) !! qi.1 = Some qi.2) found
    /\ page_map (cache_pool (hs_cache w)) ⊆ page_map (cache_pool k).
Proof.
  revert c w. induction pids as [|pid pids IH]; intros c w Hw Hc Hlen H32 HU.
  { exists [], (hs_cache w). split_and!; try done. rewrite Z.add_0_r. by destruct w. }
  cbn [length] in Hlen |- *. apply Forall_cons in H32 as [H32 H32s]. apply Forall_cons in HU as [HU HUs].
  destruct (fetch_ready c w pid Hw ltac:(lia) H32 HU) as (idx & p' & E & Hw' & Hm & Hsub).
  destruct (IH (c + 1) _ Hw' ltac:(lia) ltac:(lia) H32s HUs) as (found & k & Ek & Hk & Hf & Hall & Hsub').
  cbn [fetch_indices]. fold (store w). rewrite E. cbn [with_hcache hs_cache] in Ek. rewrite Ek.
  exists ((pid, idx) :: found), k. cbn [fmap list_fmap]. split_and!; [done| |by rewrite Hf| |by etransitivity].
  - replace (c + Z.of_nat (Datatypes.S (length pids))) with (c + 1 + zlen pids) by lia. exact Hk.
  - constructor; [|done]. cbn. by eapply lookup_weaken.
Qed.

Lemma clone_ready c w found :
  ready c w -> Forall (fun qi : PageId * nat => is_u32 qi.1 /\ page_map (cache_pool (hs_cache w)) !! qi.1 = Some qi.2) found ->
  clone_slots (cache_pool (hs_cache w)) found = Ok ((fun q => (q, page_data q)) <$> found.*1).
Proof.
  intros [Hst _ _ (a & Ha & Hclean & _)]. induction found as [|[q i] found IH]; intros Hall; [done|]. apply Forall_cons in Hall as [[H32 Hm] Hall].
  cbn in H32, Hm. cbn [clone_slots fmap list_fmap fst]. rewrite IH by done. destruct (sh_mem _ _ _ _ _ _ _ Ha q H32) as [Hview _].
  unfold view in Hview. rewrite Hm in Hview. rewrite Hview. unfold page_data.
  destruct (sh_disk _ _ _ _ _ _ _ Ha q H32) as [Hd _]. rewrite <- Hst, Hd. cbn. by rewrite Hclean.
Qed.

(** The pages of a batch are the stored ones. *)
Lemma fetch_batch_ready c w pids :
  ready c w -> 0 <= c -> c + zlen pids < 2 ^ 32 -> Forall is_u32 pids -> Forall (fun q => q ∈ U) pids ->
  exists w', h_fetch_batch pids w = (Ok ((fun q => (q, page_data q)) <$> pids), w') /\ ready (c + zlen pids) w'.
Proof.
  intros Hw Hc Hlen H32 HU. destruct (fetch_indices_ready pids c w Hw Hc Hlen H32 HU) as (found & k & E & Hk & Hf & Hall & _).
  exists (with_hcache w k). split; [|done]. unfold h_fetch_batch, fetch_pages_batch. rewrite E. rewrite ok_bind.
  pose proof (clone_ready _ _ found Hk) as Hclone. cbn [with_hcache hs_cache] in Hclone. rewrite Hclone; [by rewrite Hf|].
  rewrite <- Hf, Forall_fmap in H32. apply Forall_and. split; [exact H32|exact Hall].
Qed.

(** The table that a relation of the catalog stands for. *)
Definition holds_table (rel : Relation) (t : sql_table) : Prop :=
  tbl_name t = rel_name rel /\ tbl_desc t = rel_tuple_desc rel /\
  exists st, get_relation_state (rel_oid rel) (hs_cache w0) = Some st /\ rel_tuple_desc (mrs_relation st) = tbl_desc t
    /\ heap_ok (store w0) (rel_pages (mrs_relation st)) /\ Forall (fun q => q ∈ U) (rel_pages (mrs_relation st))
    /\ tbl_versions t = located_versions (store w0) (rel_pages (mrs_relation st)).

Lemma zlen_pages (pids : list PageId) : NoDup pids -> Forall (fun q => q ∈ U) pids -> zlen pids <= Z.of_nat (size U).
Proof.
  intros Hnd HU. rewrite <- (size_list_to_set (C := gset PageId) pids) by done. apply inj_le, subseteq_size.
  intros q. rewrite elem_of_list_to_set. rewrite Forall_forall in HU. apply HU.
Qed.

Lemma scan_ready c w rel t snap :
  ready c w -> 0 <= c -> c + Z.of_nat (size U) < 2 ^ 32 -> holds_table rel t ->
  exists found w', heap_scan_with_optional_snapshot (rel_oid rel) snap w = (Ok found, w') /\ ready (c + Z.of_nat (size U)) w'
    /\ value_row <$> found = shown_rows snap t.
Proof.
  intros Hw Hc Hlen (_ & _ & st & Hst & Hdesc & [Hnd Hok] & HU & Hvs). pose proof (zlen_pages _ Hnd HU) as Hn. set (pids := rel_pages _) in *.
  unfold heap_scan_with_optional_snapshot, heap_scan_with_snapshot, shown_rows. rewrite Hvs, <- Hdesc.
  rewrite (h_bind_run _ _ w (mrs_relation st) w).
  2:{ unfold h_relation, get_relation_state in *. by rewrite (rd_rels _ _ Hw), Hst. }
  destruct (fetch_batch_ready c w pids Hw Hc ltac:(lia)) as (w' & E & Hw'); [|done|].
  { eapply Forall_impl; [exact Hok|]. by intros q [? _]. }
  fold pids. rewrite (h_bind_run _ _ w _ w' E). set (sn := default _ snap). set (desc := rel_tuple_desc _).
  set (g := fun pd : PageId * bytes => match HeapPage_deserialize pd.2 with Ok p => seen sn desc (located pd.1 (tuples p)) | _ => [] end).
  rewrite (h_bind_run _ _ w' (g <$> ((fun q => (q, page_data q)) <$> pids)) w').
  2:{ apply for_each_pure. intros pd (q & -> & Hq)%list_elem_of_fmap. rewrite Forall_forall in Hok. destruct (Hok q Hq) as [_ [p [(d & Hr & Hd) _ _ _]]].
      unfold g. cbn [fst snd]. rewrite (page_data_read _ _ Hr), Hd.
      rewrite (h_bind_run _ _ w' p w') by (unfold h_lift; done). by rewrite scan_tuples_located. }
  eexists _, w'. split; [reflexivity|]. split; [apply (ready_more (c + zlen pids)); [done|lia]|]. f_equal.
  clear Hvs E Hn. revert Hok. clearbody pids. clear. intros Hok. unfold located_versions. induction Hok as [|q pids [_ [p [(d & Hr & Hd) _ _ _]]] _ IH]; [done|].
  cbn [fmap list_fmap concat]. rewrite seen_app. f_equal; [|exact IH]. unfold g. cbn [fst snd].
  by rewrite (page_data_read _ _ Hr), Hr, ok_bind, Hd.
Qed.

(* ------------------------------------------------------------------ *)
(** ** The executor computes the meaning *)

(** From a ready state [m] ends with the outcome [o], in a ready state, scanning at
    most [k] tables. *)
Definition computes {X} (m : query_m S X) (o : outcome X) (k : nat) : Prop :=
  forall c w, ready c w -> 0 <= c -> c + Z.of_nat (k * size U) < 2 ^ 32 ->
    exists w', m w = Some (o, w') /\ ready (c + Z.of_nat (k * size U)) w'.

Lemma computes_ret {X} (x : X) : computes (mret x) (Ok x) 0.
Proof. intros c w Hw _ _. exists w. split; [done|]. by rewrite Z.add_0_r. Qed.

Lemma computes_fail {X} e : computes (q_fail e : query_m S X) (Err e) 0.
Proof. intros c w Hw _ _. exists w. split; [done|]. by rewrite Z.add_0_r. Qed.

Lemma computes_lift {X} (o : outcome X) : computes (q_run (h_lift o)) o 0.
Proof. intros c w Hw _ _. exists w. split; [done|]. by rewrite Z.add_0_r. Qed.

Lemma computes_bind {X Y} (m : query_m S X) (f : X -> query_m S Y) o g k k' :
  computes m o k -> (forall x, computes (f x) (g x) k') -> computes (m ≫= f) (o ≫= g) (k + k').
Proof.
  intros Hm Hf c w Hw Hc Hlen. destruct (Hm c w Hw Hc ltac:(lia)) as (w1 & E & Hw1). unfold mbind at 1, query_bind. rewrite E.
  destruct o as [x|e|]; [|exists w1; (split; [done|]); apply (ready_more _ _ _ Hw1); lia..].
  destruct (Hf x _ w1 Hw1 ltac:(lia) ltac:(lia)) as (w2 & E2 & Hw2). exists w2. split; [exact E2|]. apply (ready_more _ _ _ Hw2). lia.
Qed.

Lemma computes_eq {X} (m : query_m S X) o o' k k' : computes m o k -> o = o' -> k = k' -> computes m o' k'.
Proof. by intros Hm -> ->. Qed.

Context (db : list sql_table).

Definition holds_tables : Prop := Forall2 holds_table (list_relations order catalog) db.

Lemma find_holds name :
  holds_tables ->
  match find_relation order catalog name, find_table db name with
  | Some rel, Some t => holds_table rel t
  | None, None => True
  | _, _ => False
  end.
Proof.
  unfold holds_tables, find_relation, find_table. induction 1 as [|rel t rels ts Ht _ IH]; [done|]. cbn [List.find].
  destruct Ht as [Hn Ht]. rewrite Hn. case_bool_decide; [by split|exact IH].
Qed.

Lemma computes_table snap name where_clause :
  no_index catalog -> holds_tables -> computes (resolve_table order catalog index_fuel snap name where_clause) (table_meaning db snap name) 1.
Proof.
  intros Hni Hdb. unfold resolve_table, table_meaning. pose proof (find_holds (text_join "." (parts name)) Hdb) as Hf.
  destruct (find_relation _ _ _) as [rel|], (find_table _ _) as [t|]; try done.
  2:{ intros c w Hw Hc Hlen. exists w. split; [done|]. apply (ready_more _ _ _ Hw). lia. }
  rewrite equality_index_none by done.
  intros c w Hw Hc Hlen. rewrite Nat.mul_1_l in *. destruct (scan_ready c w rel t snap Hw Hc Hlen Hf) as (found & w' & E & Hw' & Hrows).
  exists w'. split; [|done]. unfold mbind, query_bind, q_run. rewrite E, Hrows. unfold table_context. destruct Hf as (_ & -> & _). done.
Qed.

Abbreviation exec snap := (fun q => execute_select_with_snapshot order catalog index_fuel q snap).
Abbreviation answers snap := (fun q => computes (exec snap q) (select_meaning db snap q) (select_scans q)).

Lemma computes_subquery (snap : option Snapshot) q ctx :
  answers snap q ->
  computes (r ← exec snap q; mret (subquery_rows (sel_rows r), {| col_names := columns r; tuple_desc := tuple_desc ctx |}))
    (ref_meaning db snap (select_meaning db snap) (TableRef_Subquery q) ctx) (select_scans q).
Proof. intros Hq. rewrite <- (Nat.add_0_r (select_scans q)). apply computes_bind; [exact Hq|]. intros r. apply computes_ret. Qed.

(** A fresh pool is ready. *)
Lemma ready_new :
  valid (store w0) -> n <> 0%nat -> (size U <= n)%nat -> cache_pool (hs_cache w0) = BufferPool_new n ->
  (forall q, is_u32 q -> exists d, read_page (store w0) q = Ok d /\ length d = Z.to_nat 8192) -> ready 0 w0.
Proof.
  intros Hv Hn HU Hp Hread. split; [done..|]. rewrite Hp. eexists. split_and!.
  - apply (new_shows (Z.to_nat 8192) valid n (store w0) page_data Hv Hn). intros q Hq. destruct (Hread q Hq) as (d & Hr & Hl).
    by rewrite (page_data_read _ _ Hr).
  - done.
  - cbn. by rewrite difference_empty_L.
Qed.

Lemma select_computes q snap : no_index catalog -> holds_tables -> answers snap q.
Proof.
  intros Hni Hdb. revert q. fix IH 1. intros [with_ distinct sl from wc gb hv ob lm off lock ops]. cbn [execute_select_with_snapshot select_meaning select_scans].
  apply computes_bind.
  - unfold execute_from, resolve_table_ref. destruct from as [[[|[table alias jt c] joins]]|]; [apply computes_ret| |apply computes_ret].
    cbn [from_option from_scans sum_list_with from_meaning]. apply computes_bind.
    + destruct table as [name|q|f]; [by apply computes_table|apply computes_subquery, IH|apply computes_fail].
    + intros [rows ctx]. cbn [fst snd]. revert joins rows ctx. fix IHj 1. intros [|[table' alias' jt' c'] joins] rows ctx; [apply computes_ret|].
      cbn [joins_meaning sum_list_with]. apply computes_bind; [|intros [right ctx']; apply IHj].
      destruct table' as [name|q|f]; [by apply computes_table|apply computes_subquery, IH|apply computes_fail].
  - intros [base ctx]. rewrite <- (Nat.add_0_l (sum_list_with _ _)). apply computes_bind; [apply computes_lift|]. intros rows.
    unfold execute_set_operations, sets_meaning.
    match goal with |- computes (_ ops ?r) _ _ => generalize r end. revert ops. fix IHo 1. intros [|[op q] ops] r; [apply computes_ret|].
    cbn [sum_list_with]. apply computes_bind; [apply IH|]. intros r'. apply IHo.
Qed.

(** C9. What a SELECT answers. The stored pages hold the tables [db] of the catalog, no
    index has a root page, the pool has no page that differs from the stored one and
    room for the pages of the tables it has not, and its counters stay in range (each
    scan counts a page up once). Then a SELECT, with subqueries, joins, set operations
    and whatever clauses, ends with what it means on the tables, be that rows or an
    error, and the pages, the log and the relations stay as they were. *)
Theorem select_answers q snap c w :
  no_index catalog -> holds_tables -> ready c w -> 0 <= c -> c + Z.of_nat (select_scans q * size U) < 2 ^ 32 ->
  exists w', execute_select_with_snapshot order catalog index_fuel q snap w = Some (select_meaning db snap q, w')
    /\ ready (c + Z.of_nat (select_scans q * size U)) w'.
Proof. intros Hni Hdb. by apply select_computes. Qed.
End serving.
