(* ===== verification/Token.v ===== *)
(** The tokens of SQL and the tokenizer ([src/src/sql/parser/token.rs]). The code
    goes over the characters of the text; here they are its bytes, since every
    character that is asked for is ASCII, and so one byte, and no byte of another
    character is equal to one. *)

From S2P Require Import Prelude SqlText.

Inductive Token :=
| Token_Keyword (k : string) | Token_Ident (s : string) | Token_Number (n : string) | Token_String (s : string)
| LParen | RParen | LBracket | RBracket | Comma | Dot | Semicolon | Colon
| Eq_ | Neq | Lt_ | Gt_ | LtEq | GtEq | Plus | Minus | Star | Slash | Percent
| Ampersand | Pipe | Caret | Tilde | Bang | Question | LtLt | GtGt | Eof.

#[export] Instance Token_eq_dec : EqDecision Token.
Proof. solve_decision. Defined.

Definition keywords : list string :=
  ["SELECT"; "INSERT"; "UPDATE"; "DELETE"; "CREATE"; "DROP"; "ALTER"; "TABLE"; "INDEX"; "VIEW"; "PRIMARY"; "KEY"; "FOREIGN"; "REFERENCES";
   "CONSTRAINT"; "NOT"; "NULL"; "DEFAULT"; "CHECK"; "UNIQUE"; "INT"; "INTEGER"; "BIGINT"; "SMALLINT"; "FLOAT"; "DOUBLE"; "PRECISION";
   "REAL"; "NUMERIC"; "DECIMAL"; "VARCHAR"; "CHAR"; "TEXT"; "BOOLEAN"; "BOOL"; "DATE"; "TIME"; "TIMETZ"; "TIMESTAMP"; "TIMESTAMPTZ";
   "INTERVAL"; "JSON"; "JSONB"; "UUID"; "ARRAY"; "SERIAL"; "BIGSERIAL"; "SMALLSERIAL"; "MONEY"; "INET"; "CIDR"; "MACADDR"; "MACADDR8";
   "BIT"; "VARYING"; "TSVECTOR"; "TSQUERY"; "FROM"; "WHERE"; "JOIN"; "INNER"; "LEFT"; "RIGHT"; "FULL"; "CROSS"; "ON"; "USING"; "AS";
   "AND"; "OR"; "IN"; "BETWEEN"; "LIKE"; "ILIKE"; "INTO"; "IS"; "EXISTS"; "ANY"; "ALL"; "SOME"; "ORDER"; "BY"; "ASC"; "DESC";
   "NULLS"; "FIRST"; "LAST"; "GROUP"; "HAVING"; "LIMIT"; "OFFSET"; "DISTINCT"; "RETURNING"; "VALUES"; "SET"; "UNION"; "INTERSECT";
   "EXCEPT"; "CONFLICT"; "NOTHING"; "DO"; "EXCLUDED"; "BEGIN"; "START"; "TRANSACTION"; "COMMIT"; "ROLLBACK"; "ABORT"; "ISOLATION"; "LEVEL";
   "READ"; "WRITE"; "SERIALIZABLE"; "REPEATABLE"; "COMMITTED"; "UNCOMMITTED"; "DEFERRABLE"; "EXPLAIN"; "CASCADE"; "RESTRICT"; "IF";
   "TRUE"; "FALSE"; "CASE"; "WHEN"; "THEN"; "ELSE"; "END"; "OVER"; "PARTITION"; "FILTER"; "ROWS"; "RANGE"; "GROUPS"; "CURRENT"; "ROW";
   "PRECEDING"; "FOLLOWING"; "UNBOUNDED"; "ADD"; "COLUMN"; "RENAME"; "TO"; "DATA"; "TYPE"; "WINDOW"; "FETCH"; "NEXT"; "ONLY"; "WITH";
   "RECURSIVE"; "MATERIALIZED"; "UNMATERIALIZED"; "FORCE"; "ENABLE"; "DISABLE"; "SECURITY"; "GRANT"; "REVOKE"; "ROLE"; "ADMIN"; "OPTION";
   "PUBLIC"; "TRIGGER"; "FUNCTION"; "PROCEDURE"; "RETURNS"; "RETURN"; "DECLARE"; "LOOP"; "WHILE"; "FOR"; "REVERSE"; "EXIT"; "CONTINUE";
   "ELSIF"; "PERFORM"; "EXECUTE"; "RAISE"; "NOTICE"; "EXCEPTION"; "WARNING"; "INFO"; "DEBUG"; "LOG"; "ASSERT"; "FOUND"; "NEW"; "OLD";
   "TG_OP"; "TG_TABLE_NAME"; "TG_TABLE_SCHEMA"; "TG_WHEN"; "TG_LEVEL"; "TG_ARGV"; "CAST"; "NOW"; "CURRENT_DATE"; "CURRENT_TIME";
   "CURRENT_TIMESTAMP"; "EXTRACT"; "DATE_TRUNC"; "DATE_PART"; "AT"; "ZONE"; "YEAR"; "MONTH"; "DAY"; "HOUR"; "MINUTE"; "SECOND";
   "MILLISECOND"; "MICROSECOND"; "DOW"; "DOY"; "ISODOW"; "WEEK"; "QUARTER"; "EPOCH"; "ISOYEAR"; "TIMEZONE"; "TIMEZONE_HOUR";
   "TIMEZONE_MINUTE"; "LOCALTIME"; "LOCALTIMESTAMP"; "GREATEST"; "LEAST"; "COALESCE"; "NULLIF"; "ABS"; "CEIL"; "FLOOR"; "ROUND"; "TRUNC";
   "SIGN"; "POWER"; "SQRT"; "LN"; "EXP"; "LENGTH"; "UPPER"; "LOWER"; "TRIM"; "LTRIM"; "RTRIM"; "SUBSTRING"; "REPLACE"; "CONCAT";
   "CONCAT_WS"; "INITCAP"; "POSITION"; "STRPOS"; "OVERLAY"; "LPAD"; "RPAD"; "REGEXP_REPLACE"; "REGEXP_MATCHES"; "SEQUENCE"; "INCREMENT";
   "CACHE"; "CYCLE"; "OWNED"; "MINVALUE"; "MAXVALUE"; "MERGE"; "MATCHED"; "SOURCE"; "TARGET"; "COMPOSITE"; "ENUM"; "NOCYCLE"; "NO";
   "NOMINVALUE"; "NOMAXVALUE"; "NOCACHE"; "SCHEMA"; "AUTHORIZATION"; "SESSION"; "LOCAL"; "CHARACTERISTICS"].

Definition is_blank (c : ascii) : bool := existsb (Ascii.eqb c) [" "; "009"; "010"; "013"]%char.

(** The characters that are a token on their own, whatever follows. *)
Definition symbol (c : ascii) : option Token :=
  match c with
  | "("%char => Some LParen | ")"%char => Some RParen | "["%char => Some LBracket | "]"%char => Some RBracket
  | ","%char => Some Comma | "."%char => Some Dot | ";"%char => Some Semicolon | ":"%char => Some Colon
  | "+"%char => Some Plus | "*"%char => Some Star | "/"%char => Some Slash | "%"%char => Some Percent
  | "&"%char => Some Ampersand | "|"%char => Some Pipe | "^"%char => Some Caret | "~"%char => Some Tilde
  | "?"%char => Some Question | "="%char => Some Eq_
  | _ => None
  end.

(** The text before the first character that fails the test, and from it on. *)
Fixpoint span_text (p : ascii -> bool) (s : string) : string * string :=
  match s with
  | String c s' => if p c then let '(w, r) := span_text p s' in (String c w, r) else (EmptyString, s)
  | EmptyString => (EmptyString, EmptyString)
  end.

(** Quoted text: what is before the quote, and what is after it. A doubled quote
    ends the text like any other: the branch of the code that would take it for one
    quote is behind a test that it fails. *)
Definition quoted (q : ascii) (s : string) : string * string :=
  let '(w, r) := span_text (fun c => negb (Ascii.eqb c q)) s in
  (w, match r with String _ r => r | EmptyString => EmptyString end).

Definition is_letter (c : ascii) : bool :=
  let b := byte_of c in ((65 <=? b) && (b <=? 90)) || ((97 <=? b) && (b <=? 122)).
Definition starts_word (c : ascii) : bool := is_letter c || Ascii.eqb c "_".
Definition in_word (c : ascii) : bool := is_letter c || is_digit c || Ascii.eqb c "_".
Definition in_number (c : ascii) : bool := is_digit c || Ascii.eqb c ".".

(** The tokens with two characters, by the first; the second is [None] at the end. *)
Definition two_chars (c : ascii) (d : option ascii) : option (Token * bool) :=
  match c, d with
  | "<"%char, Some ">"%char => Some (Neq, true)
  | "<"%char, Some "="%char => Some (LtEq, true)
  | "<"%char, Some "<"%char => Some (LtLt, true)
  | "<"%char, _ => Some (Lt_, false)
  | ">"%char, Some "="%char => Some (GtEq, true)
  | ">"%char, Some ">"%char => Some (GtGt, true)
  | ">"%char, _ => Some (Gt_, false)
  | "!"%char, Some "="%char => Some (Neq, true)
  | "!"%char, _ => Some (Bang, false)
  | _, _ => None
  end.

Definition first_char (s : string) : option ascii := match s with String c _ => Some c | EmptyString => None end.
Definition rest_text (s : string) : string := match s with String _ s => s | EmptyString => EmptyString end.

Section tokenize.
Context `{Unicode}.

Definition word_token (w : string) : Token :=
  if existsb (String.eqb (to_uppercase w)) keywords then Token_Keyword w else Token_Ident w.

(** One round of the loop at the character [c] with [s] behind it: the token it
    pushes, if any, and the text it leaves. *)
Definition next_token (c : ascii) (s : string) : option Token * string :=
  if is_blank c then (None, s)
  else match symbol c with
  | Some t => (Some t, s)
  | None =>
      if Ascii.eqb c "-" then
        if bool_decide (first_char s = Some "-"%char) then (None, (span_text (fun c => negb (Ascii.eqb c "010")) s).2)
        else (Some Minus, s)
      else match two_chars c (first_char s) with
      | Some (t, both) => (Some t, if both : bool then rest_text s else s)
      | None =>
          if Ascii.eqb c "'" then let '(w, r) := quoted "'" s in (Some (Token_String w), r)
          else if Ascii.eqb c (of_byte 34) then let '(w, r) := quoted (of_byte 34) s in (Some (Token_Ident w), r)
          else if is_digit c then let '(w, r) := span_text in_number s in (Some (Token_Number (String c w)), r)
          else if starts_word c then let '(w, r) := span_text in_word s in (Some (word_token (String c w)), r)
          else (None, s)
      end
  end.

(** Each round leaves less text, so that the length is fuel enough. *)
Fixpoint tokenize_from (fuel : nat) (s : string) : list Token :=
  match fuel, s with
  | S fuel, String c s =>
      let '(t, s) := next_token c s in
      match t with Some t => t :: tokenize_from fuel s | None => tokenize_from fuel s end
  | _, _ => [Eof]
  end.

Definition tokenize (sql : string) : list Token := tokenize_from (String.length sql) sql.
End tokenize.

(* ------------------------------------------------------------------ *)
(** ** Each round leaves less text *)

Lemma append_nil b : EmptyString +:+ b = b.
Proof. done. Qed.

Lemma span_text_app p s : (span_text p s).1 +:+ (span_text p s).2 = s.
Proof.
  induction s as [|c s IH]; [done|]. cbn. destruct (p c); [|done]. destruct (span_text p s) as [w r]. cbn in *. by rewrite text_app_cons, IH.
Qed.

Lemma span_text_shorter p s : (String.length (span_text p s).2 <= String.length s)%nat.
Proof. rewrite <- (span_text_app p s) at 2. rewrite text_length_app. lia. Qed.

Lemma quoted_shorter q s : (String.length (quoted q s).2 <= String.length s)%nat.
Proof.
  unfold quoted. pose proof (span_text_shorter (fun c => negb (Ascii.eqb c q)) s) as Hs. destruct (span_text _ s) as [w r]. cbn in *.
  destruct r; cbn in *; lia.
Qed.

Lemma rest_text_shorter s : (String.length (rest_text s) <= String.length s)%nat.
Proof. destruct s; cbn; lia. Qed.

Section tokenize_facts.
Context `{Unicode}.

Lemma next_token_shorter c s : (String.length (next_token c s).2 <= String.length s)%nat.
Proof.
  unfold next_token. destruct (is_blank c); [done|]. destruct (symbol c); [done|].
  destruct (Ascii.eqb c "-"); [case_bool_decide; [apply span_text_shorter|done]|].
  destruct (two_chars c (first_char s)) as [[t []]|]; [apply rest_text_shorter|done|].
  pose proof (quoted_shorter "'" s). pose proof (quoted_shorter (of_byte 34) s).
  pose proof (span_text_shorter in_number s). pose proof (span_text_shorter in_word s).
  destruct (Ascii.eqb c "'"); [by destruct (quoted "'" s)|]. destruct (Ascii.eqb c (of_byte 34)); [by destruct (quoted (of_byte 34) s)|].
  destruct (is_digit c); [by destruct (span_text in_number s)|]. destruct (starts_word c); [by destruct (span_text in_word s)|done].
Qed.

Lemma tokenize_from_fuel n m s :
  (String.length s <= n)%nat -> (String.length s <= m)%nat -> tokenize_from n s = tokenize_from m s.
Proof.
  revert m s. induction n as [|n IH]; intros [|m] [|c s] Hn Hm; cbn in Hn, Hm; try done; try lia. cbn [tokenize_from].
  pose proof (next_token_shorter c s) as Hs. destruct (next_token c s) as [t s']. cbn in Hs.
  by rewrite (IH m s') by lia.
Qed.

Lemma tokenize_step c s :
  tokenize (String c s) =
    match (next_token c s).1 with Some t => t :: tokenize (next_token c s).2 | None => tokenize (next_token c s).2 end.
Proof.
  unfold tokenize. cbn [String.length tokenize_from]. pose proof (next_token_shorter c s) as Hs.
  destruct (next_token c s) as [t s']. cbn in *. by rewrite (tokenize_from_fuel (String.length s) (String.length s') s') by lia.
Qed.

(* ---------------------------------------------------------------- *)
(** ** Tokens and their text *)

Fixpoint all_chars (p : ascii -> bool) (s : string) : bool :=
  match s with String c s => p c && all_chars p s | EmptyString => true end.

Definition is_word (w : string) : bool :=
  match w with String c s => starts_word c && all_chars in_word s | EmptyString => false end.
Definition is_number (w : string) : bool :=
  match w with String c s => is_digit c && all_chars in_number s | EmptyString => false end.

(** The tokens that have a text of their own: those that text can be read as. *)
Definition readable (t : Token) : bool :=
  match t with
  | Token_Keyword k => is_word k && existsb (String.eqb (to_uppercase k)) keywords
  | Token_Ident s => all_chars (fun c => negb (Ascii.eqb c (of_byte 34))) s
  | Token_Number n => is_number n
  | Token_String s => all_chars (fun c => negb (Ascii.eqb c "'")) s
  | Eof => false
  | _ => true
  end.

Definition quote_text (q : ascii) (s : string) : string := String q (s +:+ String q EmptyString).

Definition token_text (t : Token) : string :=
  match t with
  | Token_Keyword k => k
  | Token_Ident s => quote_text (of_byte 34) s
  | Token_Number n => n
  | Token_String s => quote_text "'" s
  | LParen => "(" | RParen => ")" | LBracket => "[" | RBracket => "]" | Comma => "," | Dot => "." | Semicolon => ";" | Colon => ":"
  | Eq_ => "=" | Neq => "<>" | Lt_ => "<" | Gt_ => ">" | LtEq => "<=" | GtEq => ">=" | Plus => "+" | Minus => "-" | Star => "*"
  | Slash => "/" | Percent => "%" | Ampersand => "&" | Pipe => "|" | Caret => "^" | Tilde => "~" | Bang => "!" | Question => "?"
  | LtLt => "<<" | GtGt => ">>" | Eof => EmptyString
  end.

(** The tokens with a space behind each. *)
Fixpoint tokens_text (ts : list Token) : string :=
  match ts with [] => EmptyString | t :: ts => token_text t +:+ String " " (tokens_text ts) end.

Lemma text_app_assoc a b c : (a +:+ b) +:+ c = a +:+ (b +:+ c).
Proof. induction a as [|x a IH]; [done|]. by rewrite !text_app_cons, IH. Qed.

Lemma span_text_stops p w c s : all_chars p w = true -> p c = false -> span_text p (w +:+ String c s) = (w, String c s).
Proof.
  intros Hw Hc. induction w as [|x w IH]; [rewrite append_nil; cbn; by rewrite Hc|]. rewrite text_app_cons. cbn in *.
  apply andb_true_iff in Hw as [-> Hw]. by rewrite IH.
Qed.

Lemma quoted_text q w s : all_chars (fun c => negb (Ascii.eqb c q)) w = true -> quoted q (w +:+ String q s) = (w, s).
Proof. intros Hw. unfold quoted. rewrite span_text_stops; [done|done|]. by rewrite Ascii.eqb_refl. Qed.

(** The first character of a word is none of those that other branches ask for. *)
Lemma word_start c s : starts_word c = true -> next_token c s = let '(w, r) := span_text in_word s in (Some (word_token (String c w)), r).
Proof. destruct c as [[] [] [] [] [] [] [] []]; cbn; intros; try discriminate; reflexivity. Qed.

Lemma number_start c s : is_digit c = true -> next_token c s = let '(w, r) := span_text in_number s in (Some (Token_Number (String c w)), r).
Proof. destruct c as [[] [] [] [] [] [] [] []]; cbn; intros; try discriminate; reflexivity. Qed.

Lemma tokenize_blank s : tokenize (String " " s) = tokenize s.
Proof. by rewrite tokenize_step. Qed.

Lemma tokenize_token t s : readable t = true -> tokenize (token_text t +:+ String " " s) = t :: tokenize s.
Proof.
  destruct t as [k|w|n|w| | | | | | | | | | | | | | | | | | | | | | | | | | | |]; intros Hr; cbn [token_text];
    try (rewrite ?text_app_cons, ?append_nil, tokenize_step; cbn; by rewrite ?tokenize_blank).
  - cbn [readable] in Hr. apply andb_true_iff in Hr as [Hw Hk]. destruct k as [|c k]; [done|]. cbn [is_word] in Hw. apply andb_true_iff in Hw as [Hc Hw].
    rewrite !text_app_cons, ?append_nil. rewrite tokenize_step, word_start by done. rewrite span_text_stops by done. cbn [fst snd].
    rewrite tokenize_blank. unfold word_token. by rewrite Hk.
  - unfold quote_text. rewrite !text_app_cons, ?append_nil. rewrite text_app_assoc, tokenize_step. rewrite !text_app_cons, ?append_nil.
    change (next_token (of_byte 34)) with (fun s => let '(w, r) := quoted (of_byte 34) s in (Some (Token_Ident w), r)). cbv beta.
    rewrite quoted_text by done. cbn [fst snd]. by rewrite tokenize_blank.
  - cbn in Hr. destruct n as [|c n]; [done|]. cbn in Hr. apply andb_true_iff in Hr as [Hc Hw].
    rewrite !text_app_cons, ?append_nil. rewrite tokenize_step, number_start by done. rewrite span_text_stops by done. cbn [fst snd]. by rewrite tokenize_blank.
  - unfold quote_text. rewrite !text_app_cons, ?append_nil. rewrite text_app_assoc, tokenize_step. rewrite !text_app_cons, ?append_nil.
    change (next_token "'"%char) with (fun s => let '(w, r) := quoted "'" s in (Some (Token_String w), r)). cbv beta.
    rewrite quoted_text by done. cbn [fst snd]. by rewrite tokenize_blank.
Qed.
End tokenize_facts.

(** Text written from tokens, with a space behind each, is read as those tokens:
    keywords, quoted identifiers, numbers, strings and every symbol. *)
Theorem tokenize_roundtrip `{Unicode} ts :
  forallb readable ts = true -> tokenize (tokens_text ts) = ts ++ [Eof].
Proof.
  induction ts as [|t ts IH]; [done|]. cbn [forallb tokens_text]. intros [Ht Hts]%andb_true_iff.
  rewrite tokenize_token by done. by rewrite IH.
Qed.

#[local] Existing Instance Ascii_Unicode.

Definition some_tokens : list Token :=
  [Token_Keyword "select"; Token_Ident "a b"; LtEq; Token_Number "1.5"; Comma; Token_String "it"; Minus; Minus; RParen].

Lemma tokenize_roundtrip_witness : tokenize (tokens_text some_tokens) = some_tokens ++ [Eof].
Proof. refine (tokenize_roundtrip some_tokens _). vm_compute. reflexivity. Defined.

(** A doubled quote ends the string and starts another. *)
Example doubled_quote : tokenize "'it''s'" = [Token_String "it"; Token_String "s"; Eof].
Proof. reflexivity. Qed.

(** OUTER, NATURAL, LATERAL and SHARE, which the parser asks for as keywords, are
    not keywords of the tokenizer. *)
Example join_words_are_no_keywords :
  (word_token <$> ["OUTER"; "NATURAL"; "LATERAL"; "SHARE"]) =
  [Token_Ident "OUTER"; Token_Ident "NATURAL"; Token_Ident "LATERAL"; Token_Ident "SHARE"].
Proof. reflexivity. Qed.
