(* ===== verification/Parsing.v ===== *)
(** The state of the parser ([src/src/sql/parser.rs], [struct Parser]) and the
    moves on it. The state is the list of the tokens from [pos] on: the parser only
    moves forward, except where it goes back to a place it has just looked past,
    which is looking at several tokens. Behind the last token, which is [Eof], it
    goes on reading [Eof]s. *)

From S2P Require Import Prelude SqlText Token.

(** What [anyhow::bail!] is called with. *)
Inductive parse_error :=
| Expected (expected got : Token) | ExpectedKeyword (keyword : string) (got : Token)
| ExpectedIdent (got : Token) | ExpectedString (got : Token)
| UnexpectedKeyword (k : string) | UnexpectedToken (what : string) (got : Token) | Message (m : string).

(** The outcome of a parser: its value and the tokens left, an error, or no end. *)
Inductive presult (A : Type) := Parsed (a : A) (rest : list Token) | Failed (e : parse_error) | Endless.
Arguments Parsed {A} a rest.
Arguments Failed {A} e.
Arguments Endless {A}.

Definition parser (A : Type) : Type := list Token -> presult A.

#[export] Instance parser_ret : MRet parser := fun A a ts => Parsed a ts.

#[export] Instance parser_bind : MBind parser := fun A B f p ts =>
  match p ts with Parsed a rest => f a rest | Failed e => Failed e | Endless => Endless end.

#[export] Instance parser_fmap : FMap parser := fun A B f p => x ← p; mret (f x).

Definition fail {A} (e : parse_error) : parser A := fun _ => Failed e.

Definition peek : parser Token := fun ts => Parsed (default Eof (head ts)) ts.

Definition advance : parser Token := fun ts => Parsed (default Eof (head ts)) (tail ts).

(** [expect]: only for tokens other than [Eof]. *)
Definition expect (t : Token) : parser unit := fun ts =>
  match ts with
  | u :: rest => if bool_decide (u = t) then Parsed tt rest else Failed (Expected t u)
  | [] => Failed (Expected t Eof)
  end.

(** [match self.peek()] with arms that begin with [self.advance()], and what is
    done otherwise. *)
Definition on_token {A} (arms : Token -> option (parser A)) (otherwise : parser A) : parser A := fun ts =>
  match ts with
  | t :: rest => match arms t with Some p => p rest | None => otherwise ts end
  | [] => otherwise ts
  end.

Fixpoint matches (tests : list (Token -> bool)) (ts : list Token) : bool :=
  match tests, ts with
  | [], _ => true
  | f :: tests, t :: ts => f t && matches tests ts
  | _ :: _, [] => false
  end.

(** Some tokens in a row, which are passed when they are all there. *)
Definition on_tokens {A} (tests : list (Token -> bool)) (p otherwise : parser A) : parser A := fun ts =>
  if matches tests ts then p (drop (length tests) ts) else otherwise ts.

Definition is_token (t u : Token) : bool := bool_decide (u = t).

Definition when_token {A} (t : Token) (p otherwise : parser A) : parser A := on_tokens [is_token t] p otherwise.

Definition at_token (t : Token) : parser bool := fun ts => Parsed (matches [is_token t] ts) ts.

(** [while] and [loop]: the body gives the next value of the variables, or [None]
    for [break]. Each round passes a token, so that their number bounds the rounds. *)
Fixpoint iterate {A} (fuel : nat) (body : A -> parser (option A)) (a : A) : parser A :=
  match fuel with
  | O => fun _ => Endless
  | S fuel => r ← body a; match r with Some a => iterate fuel body a | None => mret a end
  end.

Definition loop {A} (body : A -> parser (option A)) (a : A) : parser A := fun ts => iterate (S (length ts)) body a ts.

(** [loop { v.push(..); if !matches!(self.peek(), sep) { break; } self.advance(); }] *)
Definition separated {A} (sep : Token) (p : parser A) : parser (list A) :=
  x ← p;
  loop (fun xs => when_token sep (y ← p; mret (Some (xs ++ [y]))) (mret None)) [x].

Definition comma_list {A} (p : parser A) : parser (list A) := separated Comma p.

(** A list in parentheses. *)
Definition parens {A} (p : parser A) : parser A := _ ← expect LParen; x ← p; _ ← expect RParen; mret x.

(** [if matches!(..) { self.advance(); Some(..) } else { None }] *)
Definition optional {A} (test : Token -> bool) (p : parser A) : parser (option A) :=
  on_tokens [test] (Some <$> p) (mret None).

Section keywords.
Context `{Unicode}.

Definition is_keyword (k : string) (t : Token) : bool :=
  match t with Token_Keyword s => String.eqb (to_uppercase s) k | _ => false end.

Definition when_keyword {A} (k : string) (p otherwise : parser A) : parser A := on_tokens [is_keyword k] p otherwise.

Definition at_keyword (k : string) : parser bool := fun ts => Parsed (matches [is_keyword k] ts) ts.

(** [let b = matches!(..); if b { self.advance(); }] *)
Definition flag (k : string) : parser bool := when_keyword k (mret true) (mret false).

Definition expect_keyword (k : string) : parser unit := fun ts =>
  match ts with
  | t :: rest => if is_keyword (to_uppercase k) t then Parsed tt rest else Failed (ExpectedKeyword k t)
  | [] => Failed (ExpectedKeyword k Eof)
  end.

Definition expect_ident : parser string :=
  on_token (fun t => match t with Token_Ident s | Token_Keyword s => Some (mret s) | _ => None end)
    (t ← peek; fail (ExpectedIdent t)).

Definition expect_string : parser string :=
  on_token (fun t => match t with Token_String s => Some (mret s) | _ => None end) (t ← peek; fail (ExpectedString t)).

(** [IF NOT EXISTS] and [IF EXISTS]. *)
Definition if_not_exists_clause : parser bool :=
  when_keyword "IF" (_ ← expect_keyword "NOT"; _ ← expect_keyword "EXISTS"; mret true) (mret false).
Definition if_exists_clause : parser bool := when_keyword "IF" (_ ← expect_keyword "EXISTS"; mret true) (mret false).

(** Names joined by dots. *)
Definition dotted_name : parser (list string) := separated Dot expect_ident.
End keywords.

(* ------------------------------------------------------------------ *)
(** ** Parsers that agree and end *)

(** On fewer than [n] tokens [p] and [q] give the same result; what they leave is
    no more than they were given, and less when the value satisfies [s]; and they
    end, unless [d]. Between runs with different fuel, this says that the fuel is
    enough; between a parser and itself, that it ends. *)
Definition agree {A} (s : A -> bool) (d : bool) (n : nat) (p q : parser A) : Prop :=
  forall ts, (length ts < n)%nat ->
    p ts = q ts /\
    match p ts with
    | Parsed a rest => if s a then (length rest < length ts)%nat else (length rest <= length ts)%nat
    | Failed _ => True
    | Endless => d = true
    end.

Definition always {A} (a : A) : bool := true.
Definition never {A} (a : A) : bool := false.
Definition some_of {A} (a : option A) : bool := match a with Some _ => true | None => false end.

Section agreement.
Implicit Types (d : bool) (n m : nat).

Lemma agree_weaken {A} s s' d d' n m (p q : parser A) :
  agree s d m p q -> (n <= m)%nat -> (forall a, s' a = true -> s a = true) -> (d = true -> d' = true) -> agree s' d' n p q.
Proof.
  intros H Hn Hs Hd ts Hts. destruct (H ts) as [E Hp]; [lia|]. split; [done|]. destruct (p ts) as [a r|e|]; [|done|by apply Hd].
  destruct (s' a) eqn:Ea; [by rewrite Hs in Hp|]. destruct (s a); lia.
Qed.

Lemma agree_always {A} s d n (p q : parser A) : agree always d n p q -> agree s d n p q.
Proof. intros H. by apply (agree_weaken always s d d n n p q H). Qed.

Lemma agree_ret {A} s d n (a : A) : s a = false -> agree s d n (mret a) (mret a).
Proof. intros Hs ts _. split; [done|]. cbn. rewrite Hs. lia. Qed.

Lemma agree_fail {A} s d n e : agree s d n (fail e : parser A) (fail e).
Proof. by split. Qed.

Lemma agree_read {A} d n (f : list Token -> A) : agree never d n (fun ts => Parsed (f ts) ts) (fun ts => Parsed (f ts) ts).
Proof. intros ts _. split; [done|]. cbn. lia. Qed.

Lemma agree_advance d n : agree never d n advance advance.
Proof. intros [|t ts] _; split; cbn; try done; lia. Qed.

(** A first part that passes a token leaves the second fewer. *)
Lemma agree_bind_strict {A B} s d n (p q : parser A) (f g : A -> parser B) :
  agree always d n p q -> (forall a, agree never d (pred n) (f a) (g a)) -> agree s d n (p ≫= f) (q ≫= g).
Proof.
  intros Hp Hf ts Hts. destruct (Hp ts Hts) as [Epq Hr]. unfold mbind, parser_bind. rewrite <- Epq. destruct (p ts) as [a r|e|]; [|done..].
  cbn in Hr. destruct (Hf a r ltac:(lia)) as [Efg Hr']. split; [done|]. destruct (f a r) as [b r'|e|]; [|done..]. cbn in Hr'.
  destruct (s b); lia.
Qed.

Lemma agree_bind {A B} s d n (p q : parser A) (f g : A -> parser B) :
  agree never d n p q -> (forall a, agree s d n (f a) (g a)) -> agree s d n (p ≫= f) (q ≫= g).
Proof.
  intros Hp Hf ts Hts. destruct (Hp ts Hts) as [Epq Hr]. unfold mbind, parser_bind. rewrite <- Epq. destruct (p ts) as [a r|e|]; [|done..].
  cbn in Hr. destruct (Hf a r ltac:(lia)) as [Efg Hr']. split; [done|]. destruct (f a r) as [b r'|e|]; [|done..].
  destruct (s b); lia.
Qed.

Lemma agree_expect d n t : agree always d n (expect t) (expect t).
Proof. intros [|u ts] _; [by split|]. cbn. case_bool_decide; (split; [done|]); cbn; lia. Qed.

Lemma agree_on_tokens {A} s d n tests (p q o o' : parser A) :
  tests <> [] -> agree never d (pred n) p q -> agree s d n o o' -> agree s d n (on_tokens tests p o) (on_tokens tests q o').
Proof.
  intros Ht Hp Ho ts Hts. unfold on_tokens. destruct (matches tests ts) eqn:Em; [|by apply Ho].
  destruct ts as [|t ts]; [by destruct tests|]. destruct tests as [|f tests]; [done|]. cbn [drop length].
  assert (length (drop (length tests) ts) <= length ts)%nat by (rewrite length_drop; lia).
  cbn in Hts. destruct (Hp (drop (length tests) ts)) as [E Hr]; [lia|]. split; [done|].
  destruct (p _) as [a r|e|]; [|done..]. cbn in Hr. cbn [length]. destruct (s a); lia.
Qed.

Lemma agree_on_token {A} s d n (f g : Token -> option (parser A)) (o o' : parser A) :
  (forall t, match f t, g t with Some p, Some q => agree never d (pred n) p q | None, None => True | _, _ => False end) ->
  agree s d n o o' -> agree s d n (on_token f o) (on_token g o').
Proof.
  intros Hf Ho ts Hts. unfold on_token. destruct ts as [|t ts]; [by apply Ho|]. specialize (Hf t).
  destruct (f t) as [p|], (g t) as [q|]; try done; [|by apply Ho]. cbn in Hts. destruct (Hf ts) as [E Hr]; [lia|]. split; [done|].
  destruct (p ts) as [a r|e|]; [|done..]. cbn in *. destruct (s a); lia.
Qed.

Lemma agree_iterate {A} d n (f g : A -> parser (option A)) k a :
  (forall a, agree some_of d n (f a) (g a)) -> forall ts, (length ts < k)%nat -> (length ts < n)%nat ->
  iterate k f a ts = iterate k g a ts /\
  match iterate k f a ts with Parsed a rest => (length rest <= length ts)%nat | Failed _ => True | Endless => d = true end.
Proof.
  intros Hf. revert a. induction k as [|k IH]; intros a ts Hk Hn; [lia|]. cbn [iterate]. unfold mbind, parser_bind.
  destruct (Hf a ts Hn) as [E Hr]. rewrite <- E. destruct (f a ts) as [[a'|] r|e|]; [|done..]. cbn in Hr.
  destruct (IH a' r ltac:(lia) ltac:(lia)) as [E' Hr']. split; [done|]. destruct (iterate k f a' r); [lia|done..].
Qed.

Lemma agree_loop {A} d n (f g : A -> parser (option A)) a :
  (forall a, agree some_of d n (f a) (g a)) -> agree never d n (loop f a) (loop g a).
Proof. intros Hf ts Hts. apply (agree_iterate d n f g); [done|lia|done]. Qed.

Lemma agree_fmap {A B} s s' d n (f : A -> B) (p q : parser A) :
  agree s d n p q -> (forall a, s' (f a) = true -> s a = true) -> agree s' d n (f <$> p) (f <$> q).
Proof.
  intros Hp Hs ts Hts. destruct (Hp ts Hts) as [E Hr]. unfold fmap, parser_fmap, mbind, parser_bind. rewrite <- E.
  destruct (p ts) as [a r|e|]; [|done..]. split; [done|]. cbn. destruct (s' (f a)) eqn:Ef; [by rewrite Hs in Hr|]. destruct (s a); lia.
Qed.

Lemma agree_separated {A} d n sep (p q : parser A) : agree always d n p q -> agree always d n (separated sep p) (separated sep q).
Proof.
  intros Hp. apply agree_bind_strict; [done|]. intros x. apply agree_loop. intros xs. apply agree_on_tokens; [done| |by apply agree_ret].
  apply agree_bind_strict; [|intros; by apply agree_ret]. by apply (agree_weaken _ _ _ _ _ _ _ _ Hp); [lia|..].
Qed.

Lemma agree_parens {A} d n (p q : parser A) : agree never d (pred n) p q -> agree always d n (parens p) (parens q).
Proof.
  intros Hp. apply agree_bind_strict; [apply agree_expect|]. intros _. apply agree_bind; [done|]. intros x.
  apply agree_bind_strict; [apply agree_expect|]. intros _. by apply agree_ret.
Qed.

Lemma agree_optional {A} d n test (p q : parser A) : agree never d (pred n) p q -> agree never d n (optional test p) (optional test q).
Proof. intros Hp. apply agree_on_tokens; [done| |by apply agree_ret]. by apply (agree_fmap never). Qed.
End agreement.

Section agreement_keywords.
Context `{Unicode}.

Lemma agree_expect_keyword d n k : agree always d n (expect_keyword k) (expect_keyword k).
Proof. intros [|u ts] _; [by split|]. cbn. destruct (is_keyword _ u); (split; [done|]); cbn; lia. Qed.

Lemma agree_expect_ident d n : agree always d n expect_ident expect_ident.
Proof. intros [|[] ts] _; (split; [done|]); cbn; lia || done. Qed.

Lemma agree_expect_string d n : agree always d n expect_string expect_string.
Proof. intros [|[] ts] _; (split; [done|]); cbn; lia || done. Qed.

Lemma agree_dotted_name d n : agree always d n dotted_name dotted_name.
Proof. apply agree_separated, agree_expect_ident. Qed.

Lemma agree_flag d n k : agree never d n (flag k) (flag k).
Proof. apply agree_on_tokens; [done|by apply agree_ret..]. Qed.

Lemma agree_if_exists d n : agree never d n if_exists_clause if_exists_clause.
Proof.
  apply agree_on_tokens; [done| |by apply agree_ret]. apply agree_bind_strict; [apply agree_expect_keyword|]. intros _. by apply agree_ret.
Qed.

Lemma agree_if_not_exists d n : agree never d n if_not_exists_clause if_not_exists_clause.
Proof.
  apply agree_on_tokens; [done| |by apply agree_ret]. apply agree_bind_strict; [apply agree_expect_keyword|]. intros _.
  apply agree_bind_strict; [apply agree_expect_keyword|]. intros _. by apply agree_ret.
Qed.

Lemma agree_at_keyword d n k : agree never d n (at_keyword k) (at_keyword k).
Proof. apply (agree_read d n (matches [is_keyword k])). Qed.

Lemma agree_at_token d n t : agree never d n (at_token t) (at_token t).
Proof. apply (agree_read d n (matches [is_token t])). Qed.

Lemma agree_peek d n : agree never d n peek peek.
Proof. apply (agree_read d n (fun ts => default Eof (head ts))). Qed.
End agreement_keywords.

Create HintDb agree.
#[export] Hint Resolve agree_expect agree_expect_keyword agree_expect_ident agree_expect_string agree_dotted_name agree_flag agree_if_exists
  agree_if_not_exists agree_at_keyword agree_at_token agree_peek agree_advance agree_fail : agree.

(** A parser known to agree, perhaps on more tokens or more strictly than asked. *)
Ltac agree_known :=
  first
    [ solve [eauto with agree nocore]
    | solve [apply agree_always; eauto with agree nocore]
    | match goal with
      | H : agree _ _ _ ?p ?q |- agree _ _ _ ?p ?q => solve [apply (agree_weaken _ _ _ _ _ _ _ _ H); [lia|done|done]]
      end ].

(** One step along the shape of a parser. *)
Ltac agree_step :=
  lazymatch goal with
  | |- agree _ _ _ (mret _) _ => apply agree_ret; reflexivity
  | |- agree _ _ _ (fail _) _ => apply agree_fail
  | |- agree _ _ _ (if ?b then _ else _) _ => destruct b
  | |- agree _ _ _ (match ?x with _ => _ end) _ => destruct x
  | |- agree _ _ _ (mbind _ _) _ => first [apply agree_bind_strict; [agree_known|intros ?] | apply agree_bind; [|intros ?]]
  | |- agree _ _ _ (on_tokens _ _ _) _ => apply agree_on_tokens; [done| |]
  | |- agree _ _ _ (when_token _ _ _) _ => apply agree_on_tokens; [done| |]
  | |- agree _ _ _ (when_keyword _ _ _) _ => apply agree_on_tokens; [done| |]
  | |- agree _ _ _ (on_token _ _) _ => apply agree_on_token; [intros []; cbv beta iota; try exact I|]
  | |- agree _ _ _ (loop _ _) _ => apply agree_loop; intros ?
  | |- agree _ _ _ (separated _ _) _ => first [apply agree_separated | apply agree_always, agree_separated]
  | |- agree _ _ _ (comma_list _) _ => first [apply agree_separated | apply agree_always, agree_separated]
  | |- agree _ _ _ (parens _) _ => first [apply agree_parens | apply agree_always, agree_parens]
  | |- agree _ _ _ (optional _ _) _ => apply agree_optional
  | |- agree _ _ _ (fmap _ _) _ => first [apply (agree_fmap always); [agree_known|done] | apply (agree_fmap never); [|done]]
  | |- match (if ?b then _ else _) with _ => _ end => destruct b
  | |- match Some _ with _ => _ end => cbv beta iota
  | |- match None with _ => _ end => exact I
  end.

Ltac agree_auto := repeat first [agree_known | agree_step].
