(* ===== verification/ExprParser.v ===== *)
(** The parsers of data types ([src/src/sql/parser/data_type.rs]) and of
    expressions and window specifications ([parser/expr.rs]). What a rule calls
    further inside an expression (an expression, a query) is an argument, [g]; the
    circle is closed in SqlParser.v. *)

From S2P Require Import Prelude SqlText Token Parsing Ast.

(** The rules that other rules come back to. *)
Record grammar := {
  g_expr : parser Expr;
  g_bitwise_or : parser Expr;
  g_select : parser SelectStatement;
  g_statement : parser Statement;
}.

(* ------------------------------------------------------------------ *)
(** ** Data types *)

Section data_types.
Context `{Unicode}.

(** The types that are one keyword. *)
Definition simple_type (k : string) : option DataType :=
  let named names := existsb (String.eqb k) names in
  if named ["INT"; "INTEGER"] then Some DataType.Int
  else if named ["BIGINT"] then Some DataType.BigInt
  else if named ["SMALLINT"] then Some DataType.SmallInt
  else if named ["FLOAT"; "REAL"] then Some DataType.Float
  else if named ["TEXT"] then Some DataType.Text
  else if named ["BOOLEAN"; "BOOL"] then Some DataType.Boolean
  else if named ["DATE"] then Some DataType.Date
  else if named ["TIMETZ"] then Some DataType.TimeTz
  else if named ["TIMESTAMPTZ"] then Some DataType.TimestampTz
  else if named ["INTERVAL"] then Some DataType.Interval
  else if named ["JSON"] then Some DataType.Json
  else if named ["JSONB"] then Some DataType.JsonB
  else if named ["UUID"] then Some DataType.Uuid
  else if named ["SERIAL"] then Some DataType.Serial
  else if named ["BIGSERIAL"] then Some DataType.BigSerial
  else if named ["SMALLSERIAL"] then Some DataType.SmallSerial
  else if named ["MONEY"] then Some DataType.Money
  else if named ["INET"] then Some DataType.Inet
  else if named ["CIDR"] then Some DataType.Cidr
  else if named ["MACADDR"; "MACADDR8"] then Some DataType.MacAddr
  else if named ["TSVECTOR"] then Some DataType.TsVector
  else if named ["TSQUERY"] then Some DataType.TsQuery
  else None.

(** A size: a number, or a word that reads as one. *)
Definition size_or (d : Z) : parser Z :=
  on_token (fun t => match t with Token_Number n => Some (mret (default d (parse_unsigned 32 n))) | _ => None end)
    (s ← expect_ident; mret (default d (parse_unsigned 32 s))).

(** A size, or 1 without moving on. *)
Definition bit_size : parser Z :=
  on_token (fun t => match t with Token_Number n => Some (mret (default 1 (parse_unsigned 32 n))) | _ => None end) (mret 1).

(** [(size)] behind a type, or the size it has without. *)
Definition sized (make : Z -> DataType) (d : Z) : parser DataType :=
  when_token LParen (n ← size_or d; _ ← expect RParen; mret (make n)) (mret (make d)).
Definition bit_sized (make : Z -> DataType) : parser DataType :=
  when_token LParen (n ← bit_size; _ ← expect RParen; mret (make n)) (mret (make 1)).

(** [WITH TIME ZONE]. *)
Definition with_zone (zoned plain : DataType) : parser DataType :=
  when_keyword "WITH" (_ ← expect_keyword "TIME"; _ ← expect_keyword "ZONE"; mret zoned) (mret plain).

Definition custom_type (name : string) : parser DataType :=
  parts ← loop (fun parts => when_token Dot (x ← expect_ident; mret (Some (parts ++ [x]))) (mret None)) [name];
  mret (DataType.Custom parts).

(** The rest of a type that begins with the keyword [k]. *)
Definition keyword_type (elem : parser DataType) (k : string) : parser DataType :=
  let u := to_uppercase k in
  match simple_type u with
  | Some ty => mret ty
  | None =>
      if String.eqb u "DOUBLE" then _ ← expect_keyword "PRECISION"; mret DataType.Double
      else if existsb (String.eqb u) ["NUMERIC"; "DECIMAL"] then
        when_token LParen
          (precision ← size_or 10; _ ← expect Comma; scale ← size_or 0; _ ← expect RParen;
           mret (DataType.Numeric precision scale))
          (mret (DataType.Numeric 10 0))
      else if String.eqb u "VARCHAR" then sized DataType.Varchar 255
      else if String.eqb u "CHAR" then sized DataType.Char 1
      else if String.eqb u "TIME" then with_zone DataType.TimeTz DataType.Time
      else if String.eqb u "TIMESTAMP" then with_zone DataType.TimestampTz DataType.Timestamp
      else if String.eqb u "BIT" then when_keyword "VARYING" (bit_sized DataType.BitVarying) (bit_sized DataType.Bit)
      else if String.eqb u "VARYING" then bit_sized DataType.BitVarying
      else if String.eqb u "ARRAY" then _ ← expect LBracket; ty ← elem; _ ← expect RBracket; mret (DataType.Array ty)
      else custom_type k
  end.

Definition parse_data_type_base (elem : parser DataType) : parser DataType :=
  on_token (fun t => match t with
                     | Token_Keyword k => Some (keyword_type elem k)
                     | Token_Ident s => Some (custom_type s)
                     | _ => None
                     end) (t ← peek; fail (UnexpectedToken "expected data type, got" t)).

Fixpoint data_type_within (fuel : nat) : parser DataType :=
  match fuel with
  | O => fun _ => Endless
  | S fuel =>
      base ← parse_data_type_base (data_type_within fuel);
      when_token LBracket (_ ← expect RBracket; mret (DataType.Array base)) (mret base)
  end.

Definition parse_data_type : parser DataType := fun ts => data_type_within (S (length ts)) ts.

Lemma agree_custom_type d n name : agree never d n (custom_type name) (custom_type name).
Proof. unfold custom_type. agree_auto. Qed.

Lemma agree_size_or d n k : agree always d n (size_or k) (size_or k).
Proof. unfold size_or. agree_auto. Qed.

Lemma agree_bit_size d n : agree never d n bit_size bit_size.
Proof. unfold bit_size. agree_auto. Qed.

Lemma agree_keyword_type d n p q k : agree always d n p q -> agree never d n (keyword_type p k) (keyword_type q k).
Proof.
  intros Hp. unfold keyword_type, sized, bit_sized, with_zone. pose proof (agree_size_or d). pose proof (agree_bit_size d).
  pose proof (agree_custom_type d). repeat first [agree_step | agree_known | solve [auto]].
Qed.

Lemma agree_data_type_within d k m n : (n <= k)%nat -> (n <= m)%nat -> agree always d n (data_type_within k) (data_type_within m).
Proof.
  revert m n. induction k as [|k IH]; intros m n Hk Hm; [assert (n = 0%nat) as -> by lia; intros ts Hts; lia|].
  destruct m as [|m]; [assert (n = 0%nat) as -> by lia; intros ts Hts; lia|]. cbn [data_type_within].
  apply agree_bind_strict; [|intros; agree_auto]. unfold parse_data_type_base. apply agree_on_token; [|agree_auto].
  intros []; try exact I; [|by apply agree_custom_type]. apply agree_keyword_type, IH; lia.
Qed.

Lemma agree_data_type d n : agree always d n parse_data_type parse_data_type.
Proof.
  intros ts Hts. split; [done|]. unfold parse_data_type.
  by destruct (agree_data_type_within d (S (length ts)) (S (length ts)) (S (length ts)) (le_n _) (le_n _) ts ltac:(lia)).
Qed.
End data_types.

#[export] Hint Resolve agree_data_type : agree.

(* ------------------------------------------------------------------ *)
(** ** Parts of expressions *)

Section parts.
Context `{Unicode}.

(** A date part in EXTRACT, DATE_TRUNC and DATE_PART. *)
Definition date_part (what : string) : parser DatePart :=
  s ← on_token (fun t => match t with Token_Ident s | Token_String s | Token_Keyword s => Some (mret s) | _ => None end)
        (fail (Message ("expected date part in " +:+ what)));
  match DatePart_from_str s with Some p => mret p | None => fail (Message ("unknown date part: " +:+ s)) end.

(** ASC or DESC, and NULLS FIRST or LAST. *)
Definition sort_direction : parser SortDirection :=
  when_keyword "ASC" (mret SortDirection.Asc) (when_keyword "DESC" (mret SortDirection.Desc) (mret SortDirection.Default)).
Definition nulls_order : parser NullsOrder :=
  when_keyword "NULLS"
    (when_keyword "FIRST" (mret NullsOrder.First) (_ ← expect_keyword "LAST"; mret NullsOrder.Last)) (mret NullsOrder.Default).

(** A call without arguments. *)
Definition plain_call (name : string) : Expr := Expr_Function (mkFunctionCall (ObjectName_single name) [] None None).

(** The operators of comparisons. *)
Definition comparison_op (t : Token) : option BinaryOperator :=
  match t with
  | Eq_ => Some BinaryOperator.Equals | Neq => Some BinaryOperator.NotEquals | Lt_ => Some BinaryOperator.LessThan
  | Gt_ => Some BinaryOperator.GreaterThan | LtEq => Some BinaryOperator.LessOrEqual | GtEq => Some BinaryOperator.GreaterOrEqual
  | _ => None
  end.

Definition keyword_op (k : string) (op : BinaryOperator) (t : Token) : option BinaryOperator :=
  if is_keyword k t then Some op else None.
Definition shift_op (t : Token) : option BinaryOperator :=
  match t with LtLt => Some BinaryOperator.BitwiseShiftLeft | GtGt => Some BinaryOperator.BitwiseShiftRight | _ => None end.
Definition additive_op (t : Token) : option BinaryOperator :=
  match t with Plus => Some BinaryOperator.Plus | Minus => Some BinaryOperator.Minus | _ => None end.
Definition multiplicative_op (t : Token) : option BinaryOperator :=
  match t with
  | Star => Some BinaryOperator.Multiply | Slash => Some BinaryOperator.Divide | Percent => Some BinaryOperator.Modulo | _ => None
  end.
Definition token_op (u : Token) (op : BinaryOperator) (t : Token) : option BinaryOperator := if is_token u t then Some op else None.

(** The loop of every level of binary operators: what binds closer, then as long as
    an operator of the level follows, another, to the left. *)
Definition binary_level (next : parser Expr) (op : Token -> option BinaryOperator) : parser Expr :=
  left ← next;
  loop (fun left =>
    on_token (fun t => (fun o => right ← next; mret (Some (Expr_BinaryOp left o right))) <$> op t) (mret None)) left.

Definition unary_op (t : Token) : option UnaryOperator :=
  match t with Minus => Some UnaryOperator.Minus | Plus => Some UnaryOperator.Plus | Tilde => Some UnaryOperator.BitwiseNot | _ => None end.
End parts.

(* ------------------------------------------------------------------ *)
(** ** Expressions *)

Section expressions.
Context `{Unicode} (g : grammar).

Definition order_by_item : parser OrderByItem :=
  e ← g_expr g; direction ← sort_direction; nulls ← nulls_order; mret (mkOrderByItem e direction nulls).

(** [ORDER BY] or [PARTITION BY] or [GROUP BY] and a list, or nothing. *)
Definition by_clause {A} (k : string) (item : parser A) : parser (list A) :=
  when_keyword k (_ ← expect_keyword "BY"; comma_list item) (mret []).

Definition parse_frame_bound : parser FrameBound :=
  when_keyword "UNBOUNDED"
    (when_keyword "PRECEDING" (mret FrameBound_UnboundedPreceding) (_ ← expect_keyword "FOLLOWING"; mret FrameBound_UnboundedFollowing))
    (when_keyword "CURRENT" (_ ← expect_keyword "ROW"; mret FrameBound_CurrentRow)
       (e ← g_expr g;
        when_keyword "PRECEDING" (mret (FrameBound_Preceding e)) (_ ← expect_keyword "FOLLOWING"; mret (FrameBound_Following e)))).

Definition frame_word (t : Token) : bool := is_keyword "ROWS" t || is_keyword "RANGE" t || is_keyword "GROUPS" t.

Definition parse_window_spec : parser WindowSpec :=
  _ ← expect LParen;
  partition_by ← by_clause "PARTITION" (g_expr g);
  order_by ← by_clause "ORDER" order_by_item;
  frame ← optional frame_word
    (when_keyword "BETWEEN"
       (start ← parse_frame_bound; _ ← expect_keyword "AND"; end_ ← parse_frame_bound; mret (mkFrameClause start (Some end_)))
       (start ← parse_frame_bound; mret (mkFrameClause start (Some FrameBound_CurrentRow))));
  _ ← expect RParen;
  mret (mkWindowSpec partition_by order_by frame).

(** A call, behind its name and the parenthesis. *)
Definition function_call (name : string) : parser Expr :=
  _ ← flag "DISTINCT";
  args ← when_token Star (mret [FunctionArg_Star]) (comma_list (FunctionArg_Expr <$> g_expr g));
  _ ← expect RParen;
  filter ← optional (is_keyword "FILTER")
    (_ ← expect LParen; _ ← expect_keyword "WHERE"; e ← g_expr g; _ ← expect RParen; mret e);
  over ← optional (is_keyword "OVER") parse_window_spec;
  mret (Expr_Function (mkFunctionCall (ObjectName_single name) args filter over)).

Definition array_elements : parser Expr := elems ← comma_list (g_expr g); _ ← expect RBracket; mret (Expr_Array elems).

(** What begins with a name. *)
Definition named_expr (name : string) : parser Expr :=
  let qualified := when_token Dot (column ← expect_ident; mret (Expr_QualifiedIdentifier name column)) (mret (Expr_Identifier name)) in
  when_token LParen (function_call name)
    (if String.eqb (to_uppercase name) "ARRAY" then when_token LBracket array_elements qualified else qualified).

(** CASE, behind the keyword. *)
Definition case_expr : parser Expr :=
  w ← at_keyword "WHEN";
  operand ← if w : bool then mret None else Some <$> g_expr g;
  when_clauses ← loop (fun clauses =>
    when_keyword "WHEN"
      (c ← g_expr g; _ ← expect_keyword "THEN"; r ← g_expr g; mret (Some (clauses ++ [mkWhenClause c r]))) (mret None)) [];
  else_clause ← optional (is_keyword "ELSE") (g_expr g);
  _ ← expect_keyword "END";
  mret (Expr_Case operand when_clauses else_clause).

(** A query or an expression in parentheses, behind the first. *)
Definition paren_expr : parser Expr :=
  q ← at_keyword "SELECT";
  if q : bool then query ← g_select g; _ ← expect RParen; mret (Expr_NestedSelect query)
  else e ← g_expr g; _ ← expect RParen; mret e.

(** What begins with a keyword. *)
Definition keyword_expr (k : string) : parser Expr :=
  let u := to_uppercase k in
  if String.eqb u "TRUE" then mret (Expr_Literal (Literal.Bool true))
  else if String.eqb u "FALSE" then mret (Expr_Literal (Literal.Bool false))
  else if String.eqb u "NULL" then mret (Expr_Literal Literal.Null)
  else if String.eqb u "CASE" then case_expr
  else if String.eqb u "CAST" then
    _ ← expect LParen; e ← g_expr g; _ ← expect_keyword "AS"; ty ← parse_data_type; _ ← expect RParen; mret (Expr_TypeCast e ty)
  else if String.eqb u "EXTRACT" then
    _ ← expect LParen; field ← date_part "EXTRACT"; _ ← expect_keyword "FROM"; source ← g_expr g; _ ← expect RParen;
    mret (Expr_Extract field source)
  else if String.eqb u "DATE_TRUNC" then
    _ ← expect LParen; field ← date_part "DATE_TRUNC"; _ ← expect Comma; source ← g_expr g;
    zone ← optional (is_keyword "AT") (_ ← expect_keyword "TIME"; _ ← expect_keyword "ZONE"; g_expr g);
    _ ← expect RParen;
    mret (Expr_DateTrunc field source zone)
  else if String.eqb u "DATE_PART" then
    _ ← expect LParen; field ← date_part "DATE_PART"; _ ← expect Comma; source ← g_expr g; _ ← expect RParen;
    mret (Expr_Extract field source)
  else if String.eqb u "NOW" then _ ← expect LParen; _ ← expect RParen; mret (plain_call "NOW")
  else if existsb (String.eqb u) ["CURRENT_DATE"; "CURRENT_TIME"; "CURRENT_TIMESTAMP"; "LOCALTIME"; "LOCALTIMESTAMP"] then mret (plain_call u)
  else named_expr k.

Definition parse_primary : parser Expr :=
  on_token (fun t =>
    match t with
    | Token_Number n => Some (mret (Expr_Literal (Literal.Number n)))
    | Token_String s => Some (mret (Expr_Literal (Literal.String s)))
    | LParen => Some paren_expr
    | Token_Keyword k => Some (keyword_expr k)
    | Token_Ident s => Some (named_expr s)
    | Question =>
        Some (on_token (fun t => match t with Token_Number n => Some (mret (Expr_Parameter (default 1 (parse_unsigned 32 n)))) | _ => None end)
                (mret (Expr_Parameter 1)))
    | LBracket => Some array_elements
    | _ => None
    end) (t ← peek; fail (UnexpectedToken "unexpected token in expression:" t)).

(** [::type] and [AT TIME ZONE zone], any number of times, the casts first. *)
Definition parse_postfix : parser Expr :=
  e ← parse_primary;
  e ← loop (fun e =>
    on_tokens [is_token Colon; is_token Colon] (ty ← parse_data_type; mret (Some (Expr_TypeCast e ty))) (mret None)) e;
  loop (fun e =>
    on_tokens [is_keyword "AT"; is_keyword "TIME"; is_keyword "ZONE"]
      (zone ← g_bitwise_or g; mret (Some (Expr_AtTimeZone e zone))) (mret None)) e.

Definition parse_unary : parser Expr :=
  on_token (fun t => (fun op => Expr_UnaryOp op <$> parse_postfix) <$> unary_op t) parse_postfix.

Definition parse_multiplicative : parser Expr := binary_level parse_unary multiplicative_op.
Definition parse_additive : parser Expr := binary_level parse_multiplicative additive_op.
Definition parse_shift : parser Expr := binary_level parse_additive shift_op.
Definition parse_bitwise_and : parser Expr := binary_level parse_shift (token_op Ampersand BinaryOperator.BitwiseAnd).
Definition parse_bitwise_xor : parser Expr := binary_level parse_bitwise_and (token_op Caret BinaryOperator.BitwiseXor).
Definition parse_bitwise_or : parser Expr := binary_level parse_bitwise_xor (token_op Pipe BinaryOperator.BitwiseOr).

(** A comparison behind its operator. *)
Definition compare_with (left : Expr) (op : BinaryOperator) : parser Expr :=
  when_keyword "SOME" (Expr_SomeComparison op left <$> parse_primary)
    (when_keyword "ANY" (Expr_AnyComparison op left <$> parse_primary) (Expr_BinaryOp left op <$> parse_bitwise_or)).

(** IN, behind the keyword. *)
Definition in_members (left : Expr) : parser Expr :=
  when_token LParen
    (q ← at_keyword "SELECT";
     if q : bool then query ← g_select g; _ ← expect RParen; mret (Expr_InSubquery left false query)
     else members ← comma_list (g_expr g); _ ← expect RParen; mret (Expr_InList left false members))
    (fail (Message "expected ( after IN")).

(** The comparisons that begin with a keyword. *)
Definition comparison_keyword (left : Expr) (t : Token) : option (parser Expr) :=
  if is_keyword "IN" t then Some (in_members left)
  else if is_keyword "BETWEEN" t then
    Some (low ← parse_bitwise_or; _ ← expect_keyword "AND"; high ← parse_bitwise_or; mret (Expr_Between left false low high))
  else if is_keyword "LIKE" t then Some (Expr_BinaryOp left BinaryOperator.Like <$> parse_bitwise_or)
  else if is_keyword "ILIKE" t then Some (Expr_BinaryOp left BinaryOperator.ILike <$> parse_bitwise_or)
  else if is_keyword "IS" t then
    Some (when_keyword "NULL" (mret (Expr_IsNull left))
            (_ ← expect_keyword "NOT"; _ ← expect_keyword "NULL"; mret (Expr_IsNotNull left)))
  else None.

Definition parse_comparison : parser Expr :=
  left ← parse_bitwise_or;
  on_token (fun t => match comparison_op t with Some op => Some (compare_with left op) | None => comparison_keyword left t end) (mret left).

Definition parse_not_expr : parser Expr :=
  when_keyword "NOT" (Expr_UnaryOp UnaryOperator.Not <$> parse_comparison) parse_comparison.

Definition parse_and_expr : parser Expr := binary_level parse_not_expr (keyword_op "AND" BinaryOperator.And).
Definition parse_or_expr : parser Expr := binary_level parse_and_expr (keyword_op "OR" BinaryOperator.Or).
Definition parse_expr : parser Expr := parse_or_expr.
End expressions.

(* ------------------------------------------------------------------ *)
(** ** Agreement of the rules *)

(** Two grammars that agree on fewer than [n] tokens. *)
Record grammar_agree (d : bool) (n : nat) (g1 g2 : grammar) : Prop := {
  ga_expr : agree always d n (g_expr g1) (g_expr g2);
  ga_bitwise_or : agree always d n (g_bitwise_or g1) (g_bitwise_or g2);
  ga_select : agree always d n (g_select g1) (g_select g2);
}.

Section agreement.
Context `{Unicode} (d : bool) (n : nat) (g1 g2 : grammar) (Hg : grammar_agree d n g1 g2).
#[local] Hint Resolve ga_expr ga_bitwise_or ga_select : agree.

Lemma agree_date_part m what : agree never d m (date_part what) (date_part what).
Proof. unfold date_part. agree_auto. Qed.

Lemma agree_sort_direction m : agree never d m sort_direction sort_direction.
Proof. unfold sort_direction. agree_auto. Qed.

Lemma agree_nulls_order m : agree never d m nulls_order nulls_order.
Proof. unfold nulls_order. agree_auto. Qed.
#[local] Hint Resolve agree_date_part agree_sort_direction agree_nulls_order : agree.

Lemma agree_g_expr m : (m <= n)%nat -> agree always d m (g_expr g1) (g_expr g2).
Proof. intros Hm. by apply (agree_weaken always always d d m n _ _ (ga_expr _ _ _ _ Hg)). Qed.

Lemma agree_g_bitwise_or m : (m <= n)%nat -> agree always d m (g_bitwise_or g1) (g_bitwise_or g2).
Proof. intros Hm. by apply (agree_weaken always always d d m n _ _ (ga_bitwise_or _ _ _ _ Hg)). Qed.

Lemma agree_g_select m : (m <= n)%nat -> agree always d m (g_select g1) (g_select g2).
Proof. intros Hm. by apply (agree_weaken always always d d m n _ _ (ga_select _ _ _ _ Hg)). Qed.
#[local] Hint Extern 2 (_ <= _)%nat => lia : agree.
#[local] Hint Resolve agree_g_expr agree_g_bitwise_or agree_g_select : agree.

Lemma agree_order_by_item m : (m <= n)%nat -> agree always d m (order_by_item g1) (order_by_item g2).
Proof. intros Hm. unfold order_by_item. agree_auto. Qed.
#[local] Hint Resolve agree_order_by_item : agree.

Lemma agree_by_clause {A} m k (p q : parser A) :
  agree always d (pred (pred m)) p q -> agree never d m (by_clause k p) (by_clause k q).
Proof. intros Hp. unfold by_clause. agree_auto. Qed.

Lemma agree_frame_bound m : (m <= n)%nat -> agree always d m (parse_frame_bound g1) (parse_frame_bound g2).
Proof. intros Hm. unfold parse_frame_bound. agree_auto. Qed.
#[local] Hint Resolve agree_frame_bound : agree.
#[local] Hint Extern 1 (agree _ _ _ (by_clause _ _) _) => (apply agree_by_clause) : agree.

Lemma agree_window_spec m : (m <= S n)%nat -> agree always d m (parse_window_spec g1) (parse_window_spec g2).
Proof. intros Hm. unfold parse_window_spec. agree_auto. Qed.
#[local] Hint Resolve agree_window_spec : agree.

Lemma agree_function_call m name : (m <= n)%nat -> agree always d m (function_call g1 name) (function_call g2 name).
Proof. intros Hm. unfold function_call. agree_auto. Qed.
#[local] Hint Resolve agree_function_call : agree.

Lemma agree_array_elements m : (m <= n)%nat -> agree always d m (array_elements g1) (array_elements g2).
Proof. intros Hm. unfold array_elements. agree_auto. Qed.
#[local] Hint Resolve agree_array_elements : agree.

Lemma agree_named_expr m name : (m <= n)%nat -> agree never d m (named_expr g1 name) (named_expr g2 name).
Proof. intros Hm. unfold named_expr. agree_auto. Qed.
#[local] Hint Resolve agree_named_expr : agree.

Lemma agree_case_expr m : (m <= n)%nat -> agree always d m (case_expr g1) (case_expr g2).
Proof. intros Hm. unfold case_expr. agree_auto. Qed.
#[local] Hint Resolve agree_case_expr : agree.

Lemma agree_paren_expr m : (m <= n)%nat -> agree always d m (paren_expr g1) (paren_expr g2).
Proof. intros Hm. unfold paren_expr. agree_auto. Qed.
#[local] Hint Resolve agree_paren_expr : agree.

Lemma agree_keyword_expr m k : (m <= n)%nat -> agree never d m (keyword_expr g1 k) (keyword_expr g2 k).
Proof. intros Hm. unfold keyword_expr. agree_auto. Qed.
#[local] Hint Resolve agree_keyword_expr : agree.

Lemma agree_primary m : (m <= S n)%nat -> agree always d m (parse_primary g1) (parse_primary g2).
Proof. intros Hm. unfold parse_primary. agree_auto. Qed.
#[local] Hint Resolve agree_primary : agree.

Lemma agree_postfix m : (m <= S n)%nat -> agree always d m (parse_postfix g1) (parse_postfix g2).
Proof. intros Hm. unfold parse_postfix. agree_auto. Qed.
#[local] Hint Resolve agree_postfix : agree.

Lemma agree_binary_level m p q op : agree always d m p q -> agree always d m (binary_level p op) (binary_level q op).
Proof.
  intros Hp. unfold binary_level. apply agree_bind_strict; [done|]. intros left. apply agree_loop. intros e.
  apply agree_on_token; [|by apply agree_ret]. intros t. destruct (op t) as [o|]; [|exact I]. cbn. agree_auto.
Qed.
#[local] Hint Resolve agree_binary_level : agree.

Lemma agree_unary m : (m <= S n)%nat -> agree always d m (parse_unary g1) (parse_unary g2).
Proof.
  intros Hm. unfold parse_unary. apply agree_on_token; [|agree_auto]. intros t. destruct (unary_op t) as [o|]; [|exact I]. cbn. agree_auto.
Qed.

Lemma agree_bitwise_or m : (m <= S n)%nat -> agree always d m (parse_bitwise_or g1) (parse_bitwise_or g2).
Proof. intros Hm. by repeat apply agree_binary_level; apply agree_unary. Qed.
#[local] Hint Resolve agree_bitwise_or : agree.

Lemma agree_compare_with m left op : (m <= S n)%nat -> agree always d m (compare_with g1 left op) (compare_with g2 left op).
Proof. intros Hm. unfold compare_with. agree_auto. Qed.

Lemma agree_in_members m left : (m <= S n)%nat -> agree always d m (in_members g1 left) (in_members g2 left).
Proof. intros Hm. unfold in_members. agree_auto. Qed.
#[local] Hint Resolve agree_compare_with agree_in_members : agree.

Lemma agree_comparison m : (m <= S n)%nat -> agree always d m (parse_comparison g1) (parse_comparison g2).
Proof.
  intros Hm. unfold parse_comparison, comparison_keyword. apply agree_bind_strict; [agree_known|]. intros left.
  apply agree_on_token; [|agree_auto]. intros t. destruct (comparison_op t) as [o|]; [agree_auto|].
  repeat match goal with |- match (if ?b then _ else _) with _ => _ end => destruct b end; try exact I; agree_auto.
Qed.
#[local] Hint Resolve agree_comparison : agree.

Lemma agree_parse_expr m : (m <= S n)%nat -> agree always d m (parse_expr g1) (parse_expr g2).
Proof. intros Hm. do 2 apply agree_binary_level. unfold parse_not_expr. agree_auto. Qed.
End agreement.
