(* ===== verification/SelectParser.v ===== *)
(** The parsers of queries ([src/src/sql/parser/select.rs]). *)

From S2P Require Import Prelude SqlText Token Parsing Ast ExprParser.

Section queries.
Context `{Unicode} (g : grammar).

Definition select_item : parser SelectItem :=
  when_token Star
    (when_token Dot (table ← expect_ident; mret (SelectItem_TableStar table)) (mret SelectItem_Star))
    (e ← g_expr g;
     when_keyword "AS" (alias ← expect_ident; mret (SelectItem_ExprAs e alias))
       (on_token (fun t => match t with Token_Ident s => Some (mret (SelectItem_ExprAs e s)) | _ => None end)
          (mret (SelectItem_Expr e)))).

Definition parse_select_list : parser (list SelectItem) := comma_list select_item.

Definition parse_table_ref : parser TableRef :=
  when_token LParen
    (q ← at_keyword "SELECT";
     if q : bool then query ← g_select g; _ ← expect RParen; mret (TableRef_Subquery query)
     else name ← expect_ident; _ ← expect RParen; mret (TableRef_Table (ObjectName_single name)))
    ((fun parts => TableRef_Table {| parts := parts |}) <$> dotted_name).

(** An alias, with AS or without: a keyword, which the code looks for first in a
    join, is no identifier. *)
Definition alias : parser (option string) :=
  when_keyword "AS" (Some <$> expect_ident)
    (on_token (fun t => match t with Token_Ident s => Some (mret (Some s)) | _ => None end) (mret None)).

Definition join_word (t : Token) : bool :=
  existsb (fun k => is_keyword k t) ["JOIN"; "INNER"; "LEFT"; "RIGHT"; "FULL"; "CROSS"; "NATURAL"; "LATERAL"].

Definition parse_join_type : parser JoinType :=
  let outer t : parser JoinType := when_keyword "OUTER" (mret t) (mret t) in
  join_type ←
    when_keyword "CROSS" (mret JoinType.Cross)
      (when_keyword "INNER" (mret JoinType.Inner)
        (when_keyword "LEFT" (outer JoinType.Left)
          (when_keyword "RIGHT" (outer JoinType.Right)
            (when_keyword "FULL" (outer JoinType.Full)
              (when_keyword "NATURAL" (mret JoinType.Inner)
                (when_keyword "LATERAL" (mret JoinType.Lateral) (mret JoinType.Inner)))))));
  _ ← expect_keyword "JOIN";
  mret join_type.

Definition join_constraint : parser JoinConstraint :=
  when_keyword "ON" (JoinConstraint_On <$> g_expr g)
    (when_keyword "USING" (JoinConstraint_Using <$> parens (comma_list expect_ident)) (mret JoinConstraint_None)).

Definition parse_from_clause : parser FromClause :=
  table ← parse_table_ref;
  a ← alias;
  joins ← loop (fun joins =>
    t ← peek;
    if join_word t then
      join_type ← parse_join_type; table ← parse_table_ref; a ← alias; constraint ← join_constraint;
      mret (Some (joins ++ [mkJoin table a join_type constraint]))
    else mret None) [mkJoin table a JoinType.Inner JoinConstraint_None];
  mret (mkFromClause joins).

(** A clause that is a keyword and an expression. *)
Definition expr_clause (k : string) : parser (option Expr) := optional (is_keyword k) (g_expr g).

Definition distinct_clause : parser DistinctClause :=
  when_keyword "DISTINCT"
    (when_keyword "ON" (DistinctClause_DistinctOn <$> parens (comma_list (g_expr g))) (mret DistinctClause_Distinct))
    (mret DistinctClause_All).

Definition locking_clauses : parser (list LockingClause) :=
  loop (fun locking =>
    when_keyword "FOR"
      (l ← when_keyword "UPDATE" (mret LockingClause.ForUpdate)
             (when_keyword "NO" (_ ← expect_keyword "KEY"; _ ← expect_keyword "UPDATE"; mret LockingClause.ForNoKeyUpdate)
               (when_keyword "SHARE" (mret LockingClause.ForShare)
                 (_ ← expect_keyword "KEY"; _ ← expect_keyword "SHARE"; mret LockingClause.ForKeyShare)));
       mret (Some (locking ++ [l])))
      (mret None)) [].

Definition parse_select_body : parser SelectStatement :=
  when_token LParen (q ← g_select g; _ ← expect RParen; mret q) (g_select g).

(** The operators of queries, plain and with ALL. *)
Definition set_operator (t : Token) : option (SetOperator * SetOperator) :=
  if is_keyword "UNION" t then Some (SetOperator.Union, SetOperator.UnionAll)
  else if is_keyword "INTERSECT" t then Some (SetOperator.Intersect, SetOperator.IntersectAll)
  else if is_keyword "EXCEPT" t then Some (SetOperator.Except, SetOperator.ExceptAll)
  else None.

Definition set_operations_clause : parser (list SetOperation) :=
  loop (fun ops =>
    on_token (fun t =>
      (fun o : SetOperator * SetOperator =>
         all ← flag "ALL"; right ← parse_select_body;
         mret (Some (ops ++ [mkSetOperation (if all : bool then o.2 else o.1) right]))) <$> set_operator t)
      (mret None)) [].

Definition parse_select : parser SelectStatement :=
  _ ← expect_keyword "SELECT";
  distinct ← distinct_clause;
  select_list ← parse_select_list;
  from ← optional (is_keyword "FROM") parse_from_clause;
  where_clause ← expr_clause "WHERE";
  group_by ← by_clause "GROUP" (g_expr g);
  having ← expr_clause "HAVING";
  order_by ← by_clause "ORDER" (order_by_item g);
  limit ← optional (is_keyword "LIMIT") (when_keyword "ALL" (mret LimitClause_All) (LimitClause_Expr <$> g_expr g));
  offset ← expr_clause "OFFSET";
  locking ← locking_clauses;
  set_operations ← set_operations_clause;
  mret (mkSelectStatement None distinct select_list from where_clause group_by having order_by limit offset locking set_operations).

(** A common table expression: its body is any statement. *)
Definition parse_cte : parser CommonTableExpr :=
  name ← expect_ident;
  columns ← when_token LParen (cols ← comma_list expect_ident; _ ← expect RParen; mret (Some cols)) (mret None);
  _ ← expect_keyword "AS";
  materialized ←
    when_keyword "MATERIALIZED" (mret (Some true))
      (on_tokens [is_keyword "NOT"; is_keyword "MATERIALIZED"] (mret (Some false)) (mret None));
  query ← when_token LParen (s ← g_statement g; _ ← expect RParen; mret s) (g_statement g);
  mret (mkCommonTableExpr name columns materialized query).

Definition set_with (w : WithClause) (q : SelectStatement) : SelectStatement :=
  match q with
  | mkSelectStatement _ distinct select_list from where_clause group_by having order_by limit offset locking set_operations =>
      mkSelectStatement (Some w) distinct select_list from where_clause group_by having order_by limit offset locking set_operations
  end.

Definition parse_with_select : parser SelectStatement :=
  _ ← expect_keyword "WITH";
  recursive ← flag "RECURSIVE";
  ctes ← comma_list parse_cte;
  q ← parse_select;
  mret (set_with (mkWithClause recursive ctes) q).
End queries.

(* ------------------------------------------------------------------ *)
(** ** Agreement of the rules *)

Section agreement.
Context `{Unicode} (d : bool) (n : nat) (g1 g2 : grammar) (Hg : grammar_agree d n g1 g2).
#[local] Hint Extern 2 (_ <= _)%nat => lia : agree.
#[local] Hint Resolve agree_g_expr agree_g_bitwise_or agree_g_select agree_order_by_item : agree.
#[local] Hint Extern 1 (agree _ _ _ (by_clause _ _) _) => (apply agree_by_clause) : agree.

Lemma agree_alias m : agree never d m alias alias.
Proof. unfold alias. agree_auto. Qed.

Lemma agree_select_list m : (m <= n)%nat -> agree always d m (parse_select_list g1) (parse_select_list g2).
Proof. intros Hm. apply agree_separated. unfold select_item. agree_auto. Qed.

Lemma agree_table_ref m : (m <= n)%nat -> agree always d m (parse_table_ref g1) (parse_table_ref g2).
Proof. intros Hm. unfold parse_table_ref. agree_auto. Qed.

Lemma agree_join_type m : agree always d m parse_join_type parse_join_type.
Proof. unfold parse_join_type. agree_auto. Qed.

Lemma agree_join_constraint m : (m <= S n)%nat -> agree never d m (join_constraint g1) (join_constraint g2).
Proof. intros Hm. unfold join_constraint. agree_auto. Qed.
#[local] Hint Resolve agree_alias agree_select_list agree_table_ref agree_join_type agree_join_constraint : agree.

Lemma agree_from_clause m : (m <= n)%nat -> agree always d m (parse_from_clause g1) (parse_from_clause g2).
Proof. intros Hm. unfold parse_from_clause. agree_auto. Qed.

Lemma agree_expr_clause m k : (m <= S n)%nat -> agree never d m (expr_clause g1 k) (expr_clause g2 k).
Proof. intros Hm. unfold expr_clause. agree_auto. Qed.

Lemma agree_distinct_clause m : (m <= S n)%nat -> agree never d m (distinct_clause g1) (distinct_clause g2).
Proof. intros Hm. unfold distinct_clause. agree_auto. Qed.

Lemma agree_locking_clauses m : agree never d m locking_clauses locking_clauses.
Proof. unfold locking_clauses. agree_auto. Qed.

Lemma agree_select_body m : (m <= n)%nat -> agree always d m (parse_select_body g1) (parse_select_body g2).
Proof. intros Hm. unfold parse_select_body. agree_auto. Qed.
#[local] Hint Resolve agree_from_clause agree_expr_clause agree_distinct_clause agree_locking_clauses agree_select_body : agree.

Lemma agree_set_operations m : (m <= S n)%nat -> agree never d m (set_operations_clause g1) (set_operations_clause g2).
Proof.
  intros Hm. unfold set_operations_clause. apply agree_loop. intros ops. apply agree_on_token; [|by apply agree_ret].
  intros t. destruct (set_operator t) as [o|]; [|exact I]. cbn. agree_auto.
Qed.
#[local] Hint Resolve agree_set_operations : agree.

Lemma agree_parse_select m : (m <= S n)%nat -> agree always d m (parse_select g1) (parse_select g2).
Proof. intros Hm. unfold parse_select. agree_auto. Qed.
#[local] Hint Resolve agree_parse_select : agree.

Lemma agree_parse_with_select m :
  (forall k, (k <= n)%nat -> agree always d k (g_statement g1) (g_statement g2)) ->
  (m <= S n)%nat -> agree always d m (parse_with_select g1) (parse_with_select g2).
Proof. intros Hs Hm. unfold parse_with_select, parse_cte. agree_auto. Qed.
End agreement.
