(* ===== verification/StatementParser.v ===== *)
(** The parsers of INSERT, UPDATE and DELETE ([src/src/sql/parser/dml.rs]), of the
    statements that define things and of MERGE ([parser/ddl.rs]), of BEGIN
    ([parser/transaction.rs]) and of SET ([src/src/sql/parser.rs]). *)

From S2P Require Import Prelude SqlText Token Parsing Ast ExprParser SelectParser.

Definition named (parts : list string) : ObjectName := {| Ast.parts := parts |}.

(* ------------------------------------------------------------------ *)
(** ** INSERT, UPDATE, DELETE *)

Section dml.
Context `{Unicode} (g : grammar).

Definition object_name : parser ObjectName := named <$> dotted_name.

(** A list of names in parentheses, or nothing. *)
Definition column_names : parser (option (list string)) :=
  when_token LParen (cols ← comma_list expect_ident; _ ← expect RParen; mret (Some cols)) (mret None).

Definition set_clause : parser SetClause :=
  column ← expect_ident; _ ← expect Eq_; value ← g_expr g; mret (mkSetClause column value).

Definition returning_clause : parser (list SelectItem) := when_keyword "RETURNING" (parse_select_list g) (mret []).

Definition insert_source : parser InsertSource :=
  on_token (fun t => if is_keyword "VALUES" t then Some (InsertSource_Values <$> comma_list (parens (comma_list (g_expr g)))) else None)
    (q ← at_keyword "SELECT";
     if q : bool then InsertSource_Select <$> g_select g
     else fail (Message "expected VALUES or SELECT after INSERT INTO")).

(** The target columns are a list that is not empty. *)
Definition on_conflict_clause : parser (option OnConflict) :=
  optional (is_keyword "ON")
    (_ ← expect_keyword "CONFLICT";
     target ← column_names;
     _ ← expect_keyword "DO";
     when_keyword "NOTHING" (mret OnConflict_DoNothing)
       (when_keyword "UPDATE"
          (_ ← expect_keyword "SET"; sets ← comma_list set_clause; where_clause ← expr_clause g "WHERE";
           mret (OnConflict_DoUpdate target where_clause sets))
          (fail (Message "expected NOTHING or UPDATE after DO")))).

Definition parse_insert : parser InsertStatement :=
  _ ← expect_keyword "INSERT";
  _ ← expect_keyword "INTO";
  table ← object_name;
  columns ← column_names;
  source ← insert_source;
  on_conflict ← on_conflict_clause;
  returning ← returning_clause;
  mret (mkInsertStatement table columns source on_conflict returning).

Definition parse_update : parser UpdateStatement :=
  _ ← expect_keyword "UPDATE";
  table ← object_name;
  from ← optional (is_keyword "FROM") (parse_from_clause g);
  _ ← expect_keyword "SET";
  sets ← comma_list set_clause;
  where_clause ← expr_clause g "WHERE";
  returning ← returning_clause;
  mret (mkUpdateStatement table from sets where_clause returning).

Definition parse_delete : parser DeleteStatement :=
  _ ← expect_keyword "DELETE";
  _ ← expect_keyword "FROM";
  table ← object_name;
  using_ ← optional (is_keyword "USING") (parse_from_clause g);
  where_clause ← expr_clause g "WHERE";
  returning ← returning_clause;
  mret (mkDeleteStatement table using_ where_clause returning).
End dml.

(* ------------------------------------------------------------------ *)
(** ** CREATE *)

Section create.
Context `{Unicode} (g : grammar).

Definition name_list : parser (list string) := parens (comma_list expect_ident).

Definition references_clause : parser (ObjectName * string) :=
  table ← object_name; _ ← expect LParen; column ← expect_ident; _ ← expect RParen; mret (table, column).

(** A constraint of a column; [None] at a keyword that begins none. *)
Definition column_constraint (k : string) : option (parser ColumnConstraint) :=
  let u := to_uppercase k in
  if String.eqb u "NOT" then Some (_ ← expect_keyword "NULL"; mret ColumnConstraint_NotNull)
  else if String.eqb u "NULL" then Some (mret ColumnConstraint_Null)
  else if String.eqb u "PRIMARY" then Some (_ ← expect_keyword "KEY"; mret ColumnConstraint_PrimaryKey)
  else if String.eqb u "UNIQUE" then Some (mret ColumnConstraint_Unique)
  else if String.eqb u "DEFAULT" then Some (ColumnConstraint_Default <$> g_expr g)
  else if String.eqb u "REFERENCES" then
    Some (r ← references_clause; mret (ColumnConstraint_References r.1 r.2 None None))
  else if String.eqb u "CHECK" then Some (ColumnConstraint_Check <$> parens (g_expr g))
  else None.

(** The loop goes on at a keyword of a constraint and stops at another one, at a
    comma, a parenthesis or the end; anything else is an error. *)
Definition parse_column_def : parser ColumnDef :=
  name ← expect_ident;
  data_type ← parse_data_type;
  constraints ← loop (fun constraints =>
    on_token (fun t =>
      match t with
      | Token_Keyword k => (fun p => c ← p; mret (Some (constraints ++ [c]))) <$> column_constraint k
      | _ => None
      end)
      (t ← peek;
       match t with
       | Token_Keyword _ | RParen | Comma | Eof => mret None
       | _ => fail (UnexpectedToken "unexpected token in column definition:" t)
       end)) [];
  mret (mkColumnDef name data_type constraints).

Definition parse_table_constraint : parser TableConstraint :=
  when_keyword "PRIMARY" (_ ← expect_keyword "KEY"; TableConstraint_PrimaryKey <$> name_list)
    (when_keyword "UNIQUE" (TableConstraint_Unique <$> name_list)
      (when_keyword "CHECK" (TableConstraint_Check <$> parens (g_expr g))
        (when_keyword "FOREIGN"
          (_ ← expect_keyword "KEY"; columns ← name_list; _ ← expect_keyword "REFERENCES";
           ref_table ← object_name; ref_columns ← name_list;
           mret (TableConstraint_ForeignKey columns ref_table ref_columns None None))
          (fail (Message "unexpected token in table constraint"))))).

(** One entry of the list of CREATE TABLE: a constraint or a column. *)
Definition table_entry : parser (ColumnDef + TableConstraint) :=
  when_keyword "PRIMARY" (_ ← expect_keyword "KEY"; (fun cols => inr (TableConstraint_PrimaryKey cols)) <$> name_list)
    (when_keyword "UNIQUE" ((fun cols => inr (TableConstraint_Unique cols)) <$> name_list)
      (when_keyword "CONSTRAINT" (_ ← expect_ident; inr <$> parse_table_constraint) (inl <$> parse_column_def))).

(** The entries up to the closing parenthesis; a comma between them may be missing. *)
Definition table_entries : parser (list ColumnDef * list TableConstraint) :=
  loop (fun entries : list ColumnDef * list TableConstraint =>
    b ← at_token RParen;
    if b : bool then mret None
    else
      entry ← table_entry;
      _ ← when_token Comma (mret tt) (mret tt);
      mret (Some (match (entry : ColumnDef + TableConstraint) with
                  | inl col => (entries.1 ++ [col], entries.2)
                  | inr c => (entries.1, entries.2 ++ [c])
                  end))) ([], []).

Definition create_table : parser Statement :=
  if_not_exists ← if_not_exists_clause;
  table ← object_name;
  _ ← expect LParen;
  entries ← table_entries;
  _ ← expect RParen;
  mret (Statement_CreateTable (mkCreateTableStatement table entries.1 entries.2 if_not_exists)).

Definition index_column : parser IndexColumn :=
  e ← g_expr g; direction ← sort_direction; nulls ← nulls_order; mret (mkIndexColumn e direction nulls).

Definition create_index : parser Statement :=
  if_not_exists ← if_not_exists_clause;
  name ← object_name;
  _ ← expect_keyword "ON";
  table ← object_name;
  columns ← parens (comma_list index_column);
  mret (Statement_CreateIndex (mkCreateIndexStatement name table columns false if_not_exists)).

(** The rest of CREATE VIEW and CREATE MATERIALIZED VIEW. *)
Definition view_definition : parser (ObjectName * option (list string) * SelectStatement) :=
  name ← object_name;
  columns ← column_names;
  _ ← expect_keyword "AS";
  query ← g_select g;
  mret (name, columns, query).

(** A number, or [d] without moving on. *)
Definition number_or (d : Z) : parser Z :=
  on_token (fun t => match t with Token_Number n => Some (mret (default d (parse_i64 n))) | _ => None end) (mret d).

(** The options of a sequence as they are read. *)
Record sequence_options := {
  so_data_type : option DataType; so_increment : option Z; so_min : option Z; so_max : option Z; so_start : option Z;
  so_cache : option Z; so_cycle : bool; so_owned : option ObjectName;
}.

Definition no_options : sequence_options :=
  {| so_data_type := None; so_increment := None; so_min := None; so_max := None; so_start := None; so_cache := None;
     so_cycle := false; so_owned := None |}.

Definition sequence_option (o : sequence_options) (k : string) : option (parser sequence_options) :=
  let u := to_uppercase k in
  let 'Build_sequence_options ty inc mn mx st ca cy ow := o in
  if String.eqb u "AS" then Some (ty ← parse_data_type; mret (Build_sequence_options (Some ty) inc mn mx st ca cy ow))
  else if String.eqb u "INCREMENT" then
    Some (_ ← expect_keyword "BY"; negative ← when_token Minus (mret true) (mret false); n ← number_or 1;
          mret (Build_sequence_options ty (Some (if negative : bool then - n else n)) mn mx st ca cy ow))
  else if String.eqb u "MINVALUE" then Some (n ← number_or 1; mret (Build_sequence_options ty inc (Some n) mx st ca cy ow))
  else if String.eqb u "MAXVALUE" then
    Some (n ← number_or (2 ^ 63 - 1); mret (Build_sequence_options ty inc mn (Some n) st ca cy ow))
  else if String.eqb u "START" then
    Some (_ ← flag "WITH"; n ← number_or 1; mret (Build_sequence_options ty inc mn mx (Some n) ca cy ow))
  else if String.eqb u "CACHE" then Some (n ← number_or 1; mret (Build_sequence_options ty inc mn mx st (Some n) cy ow))
  else if String.eqb u "CYCLE" then Some (mret (Build_sequence_options ty inc mn mx st ca true ow))
  else if String.eqb u "NO" then
    Some (when_keyword "CYCLE" (mret (Build_sequence_options ty inc mn mx st ca false ow))
           (when_keyword "MINVALUE" (mret (Build_sequence_options ty inc None mx st ca cy ow))
             (when_keyword "MAXVALUE" (mret (Build_sequence_options ty inc mn None st ca cy ow))
               (when_keyword "CACHE" (mret (Build_sequence_options ty inc mn mx st None cy ow)) (mret o)))))
  else if String.eqb u "OWNED" then
    Some (_ ← expect_keyword "BY"; name ← object_name; mret (Build_sequence_options ty inc mn mx st ca cy (Some name)))
  else None.

Definition parse_create_sequence : parser Statement :=
  if_not_exists ← if_not_exists_clause;
  name ← object_name;
  o ← loop (fun o =>
    on_token (fun t => match t with Token_Keyword k => (fun p => Some <$> p) <$> sequence_option o k | _ => None end) (mret None)) no_options;
  mret (Statement_CreateSequence (mkCreateSequenceStatement name if_not_exists (so_data_type o) (so_increment o) (so_min o) (so_max o)
    (so_start o) (so_cache o) (so_cycle o) (so_owned o))).

(** SUBTYPE, which the tokenizer takes for an identifier. *)
Definition subtype_word (t : Token) : bool :=
  match t with Token_Keyword k | Token_Ident k => String.eqb (to_uppercase k) "SUBTYPE" | _ => false end.

Definition range_subtype : parser DataType :=
  on_tokens [subtype_word] (_ ← expect Eq_; parse_data_type) (fail (Message "expected SUBTYPE")).

Definition composite_attribute : parser CompositeAttribute :=
  name ← expect_ident;
  data_type ← parse_data_type;
  collation ← optional (is_keyword "COLLATE") object_name;
  mret (mkCompositeAttribute name data_type collation).

Definition type_definition : parser TypeDefinition :=
  when_keyword "ENUM" (TypeDefinition_Enum <$> parens (comma_list expect_string))
    (when_keyword "RANGE"
      (TypeDefinition_Range <$> when_token LParen (ty ← range_subtype; _ ← expect RParen; mret ty) range_subtype)
      (when_token LParen (attrs ← comma_list composite_attribute; _ ← expect RParen; mret (TypeDefinition_Composite attrs))
        (fail (Message "expected ENUM, RANGE, or ( after CREATE TYPE ... AS")))).

Definition parse_create_type : parser Statement :=
  name ← object_name;
  _ ← expect_keyword "AS";
  definition ← type_definition;
  mret (Statement_CreateType (mkCreateTypeStatement name definition)).

Definition parse_create_schema : parser Statement :=
  if_not_exists ← if_not_exists_clause;
  when_keyword "AUTHORIZATION"
    (role ← expect_ident; mret (Statement_CreateSchema (mkCreateSchemaStatement None if_not_exists (Some role))))
    (on_token (fun t =>
       match t with
       | Token_Ident name | Token_Keyword name =>
           Some (role ← optional (is_keyword "AUTHORIZATION") expect_ident;
                 mret (Statement_CreateSchema (mkCreateSchemaStatement (Some name) if_not_exists role)))
       | _ => None
       end)
       (mret (Statement_CreateSchema (mkCreateSchemaStatement None if_not_exists None)))).

Definition create_view : parser Statement :=
  v ← view_definition; mret (Statement_CreateView (mkCreateViewStatement v.1.1 v.1.2 v.2 false)).

Definition create_materialized_view : parser Statement :=
  _ ← expect_keyword "VIEW"; v ← view_definition;
  mret (Statement_CreateMaterializedView (mkCreateMaterializedViewStatement v.1.1 v.1.2 v.2 false)).

Definition parse_create : parser Statement :=
  _ ← expect_keyword "CREATE";
  when_keyword "TABLE" create_table
    (when_keyword "INDEX" create_index
      (when_keyword "VIEW" create_view
        (when_keyword "MATERIALIZED" create_materialized_view
          (when_keyword "SEQUENCE" parse_create_sequence
            (when_keyword "TYPE" parse_create_type
              (when_keyword "SCHEMA" parse_create_schema
                (fail (Message "expected TABLE, INDEX, VIEW, MATERIALIZED VIEW, SEQUENCE, TYPE, or SCHEMA after CREATE")))))))).
End create.

(* ------------------------------------------------------------------ *)
(** ** ALTER, DROP and MERGE *)

Section alter.
Context `{Unicode} (g : grammar).

Definition alter_column_action : parser AlterColumnAction :=
  when_keyword "SET"
    (when_keyword "DEFAULT" (AlterColumnAction_SetDefault <$> g_expr g)
      (when_keyword "NOT" (_ ← expect_keyword "NULL"; mret AlterColumnAction_SetNotNull)
        (_ ← expect_keyword "DATA"; _ ← expect_keyword "TYPE"; AlterColumnAction_SetDataType <$> parse_data_type)))
    (when_keyword "DROP"
      (when_keyword "DEFAULT" (mret AlterColumnAction_DropDefault)
        (when_keyword "NOT" (_ ← expect_keyword "NULL"; mret AlterColumnAction_DropNotNull)
          (fail (Message "expected DEFAULT or NOT NULL after DROP"))))
      (fail (Message "expected SET or DROP after ALTER COLUMN"))).

Definition alter_action : parser AlterTableAction :=
  when_keyword "ADD" (_ ← flag "COLUMN"; AlterTableAction_AddColumn <$> parse_column_def g)
    (when_keyword "DROP"
      (_ ← flag "COLUMN"; name ← expect_ident; if_exists ← if_exists_clause; cascade ← flag "CASCADE";
       mret (AlterTableAction_DropColumn name if_exists cascade))
      (when_keyword "RENAME"
        (when_keyword "COLUMN"
          (old_name ← expect_ident; _ ← expect_keyword "TO"; new_name ← expect_ident;
           mret (AlterTableAction_RenameColumn old_name new_name))
          (_ ← expect_keyword "TO"; AlterTableAction_RenameTable <$> object_name))
        (when_keyword "ALTER"
          (_ ← flag "COLUMN"; name ← expect_ident; action ← alter_column_action; mret (AlterTableAction_AlterColumn name action))
          (fail (Message "expected ADD, DROP, RENAME, or ALTER after ALTER TABLE"))))).

Definition parse_alter : parser Statement :=
  _ ← expect_keyword "ALTER";
  _ ← expect_keyword "TABLE";
  table ← object_name;
  action ← alter_action;
  mret (Statement_AlterTable (mkAlterTableStatement table action)).

(** The rest of DROP TABLE and DROP INDEX. *)
Definition drop_rest : parser (ObjectName * bool * bool) :=
  if_exists ← if_exists_clause; name ← object_name; cascade ← flag "CASCADE"; mret (name, if_exists, cascade).

Definition parse_drop : parser Statement :=
  _ ← expect_keyword "DROP";
  when_keyword "TABLE" (x ← drop_rest; mret (Statement_DropTable (mkDropTableStatement x.1.1 x.1.2 x.2)))
    (when_keyword "INDEX" (x ← drop_rest; mret (Statement_DropIndex (mkDropIndexStatement x.1.1 x.1.2 x.2)))
      (fail (Message "expected TABLE or INDEX after DROP"))).

(** A column in MERGE: the parts of its name, with dots between them. *)
Definition merge_set_clause : parser SetClause :=
  column ← dotted_name; _ ← expect Eq_; value ← g_expr g; mret (mkSetClause (text_join "." column) value).

Definition parse_merge_action : parser MergeAction :=
  when_keyword "UPDATE" (_ ← expect_keyword "SET"; MergeAction_Update <$> comma_list merge_set_clause)
    (when_keyword "DELETE" (mret MergeAction_Delete)
      (when_keyword "INSERT"
        (columns ← column_names; _ ← expect_keyword "VALUES"; values ← parens (comma_list (comma_list (g_expr g)));
         mret (MergeAction_Insert columns (MergeInsertSource_Values values)))
        (when_keyword "DO" (_ ← expect_keyword "NOTHING"; mret MergeAction_DoNothing)
          (fail (Message "expected UPDATE, DELETE, INSERT, or DO NOTHING in MERGE action"))))).

Definition merge_source : parser MergeSource :=
  when_token LParen (q ← g_select g; _ ← expect RParen; mret (MergeSource_Subquery q)) (MergeSource_Table <$> object_name).

(** The alias of the source, which is dropped: behind AS, any token. *)
Definition skip_alias : parser unit :=
  when_keyword "AS" (_ ← advance; mret tt)
    (on_token (fun t => match t with Token_Ident _ => Some (mret tt) | _ => None end) (mret tt)).

Definition merge_clause : parser MergeClause :=
  not_matched ← flag "NOT";
  _ ← expect_keyword "MATCHED";
  condition ← optional (is_keyword "AND") (g_expr g);
  _ ← expect_keyword "THEN";
  action ← parse_merge_action;
  mret (if not_matched : bool then MergeClause_WhenNotMatched condition action else MergeClause_WhenMatched condition action).

Definition parse_merge : parser MergeStatement :=
  _ ← expect_keyword "MERGE";
  _ ← expect_keyword "INTO";
  target ← object_name;
  _ ← alias;
  _ ← expect_keyword "USING";
  source ← merge_source;
  _ ← skip_alias;
  _ ← expect_keyword "ON";
  join_condition ← g_expr g;
  clauses ← loop (fun clauses => when_keyword "WHEN" (c ← merge_clause; mret (Some (clauses ++ [c]))) (mret None)) [];
  mret (mkMergeStatement target source join_condition clauses).
End alter.

(* ------------------------------------------------------------------ *)
(** ** BEGIN and SET *)

Section session.
Context `{Unicode}.

Definition isolation_level : parser SqlIsolation.IsolationLevel :=
  when_keyword "SERIALIZABLE" (mret SqlIsolation.Serializable)
    (when_keyword "REPEATABLE" (_ ← expect_keyword "READ"; mret SqlIsolation.RepeatableRead)
      (when_keyword "READ"
        (when_keyword "COMMITTED" (mret SqlIsolation.ReadCommitted)
          (when_keyword "UNCOMMITTED" (mret SqlIsolation.ReadUncommitted)
            (fail (Message "expected COMMITTED or UNCOMMITTED"))))
        (fail (Message "expected isolation level")))).

Definition parse_begin : parser BeginStatement :=
  _ ← when_keyword "BEGIN" (mret tt)
        (when_keyword "START" (expect_keyword "TRANSACTION") (fail (Message "expected BEGIN or START TRANSACTION")));
  loop (fun b : BeginStatement =>
    let 'mkBeginStatement isolation read_only deferrable := b in
    when_keyword "ISOLATION"
      (_ ← expect_keyword "LEVEL"; l ← isolation_level; mret (Some (mkBeginStatement (Some l) read_only deferrable)))
      (when_keyword "READ" (_ ← expect_keyword "WRITE"; mret (Some (mkBeginStatement isolation false deferrable)))
        (when_keyword "WRITE" (mret (Some (mkBeginStatement isolation true deferrable)))
          (when_keyword "DEFERRABLE" (mret (Some (mkBeginStatement isolation read_only true)))
            (when_keyword "NOT" (_ ← expect_keyword "DEFERRABLE"; mret (Some (mkBeginStatement isolation read_only false)))
              (mret None)))))) (mkBeginStatement None false false).

(** What SET is set to. *)
Definition set_value (t : Token) : option SetValue :=
  match t with
  | Token_String s => Some (SetValue.String s)
  | Token_Number n => Some (SetValue.Number n)
  | Token_Ident s | Token_Keyword s => Some (SetValue.Identifier s)
  | _ => None
  end.

(** The values, and whether the last was without a comma behind it. *)
Definition set_values : parser (list SetValue * bool) :=
  loop (fun vs : list SetValue * bool =>
    if vs.2 then mret None
    else on_token (fun t =>
      (fun v => when_token Comma (mret (Some (vs.1 ++ [v], false))) (mret (Some (vs.1 ++ [v], true)))) <$> set_value t)
      (mret None)) ([], false).

Definition parse_set : parser Statement :=
  _ ← expect_keyword "SET";
  name ← on_tokens [is_keyword "TIME"; is_keyword "ZONE"] (mret "TIME ZONE") expect_ident;
  _ ← when_keyword "TO" (mret tt) (when_token Eq_ (mret tt) (mret tt));
  values ← set_values;
  mret (Statement_Set (mkSetStatement name values.1)).
End session.

(* ------------------------------------------------------------------ *)
(** ** Agreement of the rules *)

Section agreement.
Context `{Unicode} (d : bool) (n : nat) (g1 g2 : grammar) (Hg : grammar_agree d n g1 g2).
#[local] Hint Extern 2 (_ <= _)%nat => lia : agree.
#[local] Hint Resolve agree_g_expr agree_g_bitwise_or agree_g_select agree_alias agree_select_list agree_from_clause agree_expr_clause
  agree_sort_direction agree_nulls_order : agree.

Lemma agree_object_name m : agree always d m object_name object_name.
Proof. unfold object_name. agree_auto. Qed.

Lemma agree_column_names m : agree never d m column_names column_names.
Proof. unfold column_names. agree_auto. Qed.

Lemma agree_name_list m : agree always d m name_list name_list.
Proof. unfold name_list. agree_auto. Qed.
#[local] Hint Resolve agree_object_name agree_column_names agree_name_list : agree.

Lemma agree_set_clause m : (m <= n)%nat -> agree always d m (set_clause g1) (set_clause g2).
Proof. intros Hm. unfold set_clause. agree_auto. Qed.

Lemma agree_returning m : (m <= S n)%nat -> agree never d m (returning_clause g1) (returning_clause g2).
Proof. intros Hm. unfold returning_clause. agree_auto. Qed.
#[local] Hint Resolve agree_set_clause agree_returning : agree.

Lemma agree_insert_source m : (m <= n)%nat -> agree always d m (insert_source g1) (insert_source g2).
Proof.
  intros Hm. unfold insert_source. apply agree_on_token; [|agree_auto]. intros t. destruct (is_keyword _ t); [|exact I]. agree_auto.
Qed.

Lemma agree_on_conflict m : (m <= S n)%nat -> agree never d m (on_conflict_clause g1) (on_conflict_clause g2).
Proof. intros Hm. unfold on_conflict_clause. agree_auto. Qed.
#[local] Hint Resolve agree_insert_source agree_on_conflict : agree.

Lemma agree_parse_insert m : (m <= S n)%nat -> agree always d m (parse_insert g1) (parse_insert g2).
Proof. intros Hm. unfold parse_insert. agree_auto. Qed.

Lemma agree_parse_update m : (m <= S n)%nat -> agree always d m (parse_update g1) (parse_update g2).
Proof. intros Hm. unfold parse_update. agree_auto. Qed.

Lemma agree_parse_delete m : (m <= S n)%nat -> agree always d m (parse_delete g1) (parse_delete g2).
Proof. intros Hm. unfold parse_delete. agree_auto. Qed.

Lemma agree_column_def m : (m <= S n)%nat -> agree always d m (parse_column_def g1) (parse_column_def g2).
Proof.
  intros Hm. unfold parse_column_def. apply agree_bind_strict; [agree_known|]. intros name. apply agree_bind; [agree_known|].
  intros ty. apply agree_bind; [|intros; agree_auto]. apply agree_loop. intros cs. apply agree_on_token; [|agree_auto].
  intros []; try exact I. unfold column_constraint, references_clause.
  repeat match goal with |- context [if String.eqb ?a ?b then _ else _] => destruct (String.eqb a b) end; cbn [fmap option_fmap option_map]; try exact I; agree_auto.
Qed.

Lemma agree_table_constraint m : (m <= S n)%nat -> agree never d m (parse_table_constraint g1) (parse_table_constraint g2).
Proof. intros Hm. unfold parse_table_constraint. agree_auto. Qed.
#[local] Hint Resolve agree_column_def agree_table_constraint : agree.

Lemma agree_table_entry m : (m <= S n)%nat -> agree always d m (table_entry g1) (table_entry g2).
Proof. intros Hm. unfold table_entry. agree_auto. Qed.
#[local] Hint Resolve agree_table_entry : agree.

Lemma agree_create_table m : (m <= n)%nat -> agree never d m (create_table g1) (create_table g2).
Proof. intros Hm. unfold create_table, table_entries. agree_auto. Qed.

Lemma agree_create_index m : (m <= n)%nat -> agree never d m (create_index g1) (create_index g2).
Proof. intros Hm. unfold create_index, index_column. agree_auto. Qed.

Lemma agree_view_definition m : (m <= n)%nat -> agree never d m (view_definition g1) (view_definition g2).
Proof. intros Hm. unfold view_definition. agree_auto. Qed.

Lemma agree_number_or m k : agree never d m (number_or k) (number_or k).
Proof. unfold number_or. agree_auto. Qed.
#[local] Hint Resolve agree_number_or : agree.

Lemma agree_create_sequence m : agree never d m parse_create_sequence parse_create_sequence.
Proof.
  unfold parse_create_sequence. do 2 (apply agree_bind; [agree_known|]; intros). apply agree_bind; [|intros; agree_auto].
  apply agree_loop. intros o. apply agree_on_token; [|agree_auto]. intros []; try exact I. unfold sequence_option. destruct o.
  repeat match goal with |- context [if String.eqb ?a ?b then _ else _] => destruct (String.eqb a b) end;
    cbn [fmap option_fmap option_map]; try exact I; agree_auto.
Qed.

Lemma agree_create_type m : agree always d m parse_create_type parse_create_type.
Proof. unfold parse_create_type, type_definition, range_subtype, composite_attribute. agree_auto. Qed.

Lemma agree_create_schema m : agree never d m parse_create_schema parse_create_schema.
Proof. unfold parse_create_schema. agree_auto. Qed.
#[local] Hint Resolve agree_create_table agree_create_index agree_view_definition agree_create_sequence agree_create_type agree_create_schema : agree.

Lemma agree_parse_create m : (m <= S n)%nat -> agree always d m (parse_create g1) (parse_create g2).
Proof. intros Hm. unfold parse_create, create_view, create_materialized_view. agree_auto. Qed.

Lemma agree_parse_alter m : (m <= S n)%nat -> agree always d m (parse_alter g1) (parse_alter g2).
Proof. intros Hm. unfold parse_alter, alter_action, alter_column_action. agree_auto. Qed.

Lemma agree_parse_drop m : agree always d m parse_drop parse_drop.
Proof. unfold parse_drop, drop_rest. agree_auto. Qed.

Lemma agree_merge_action m : (m <= n)%nat -> agree never d m (parse_merge_action g1) (parse_merge_action g2).
Proof. intros Hm. unfold parse_merge_action, merge_set_clause. agree_auto. Qed.
#[local] Hint Resolve agree_merge_action : agree.

Lemma agree_parse_merge m : (m <= S n)%nat -> agree always d m (parse_merge g1) (parse_merge g2).
Proof. intros Hm. unfold parse_merge, merge_source, skip_alias, merge_clause. agree_auto. Qed.

Lemma agree_parse_begin m : agree always d m parse_begin parse_begin.
Proof.
  unfold parse_begin, isolation_level. apply agree_bind_strict; [agree_auto|]. intros. apply agree_loop. intros []. agree_auto.
Qed.

Lemma agree_parse_set m : agree always d m parse_set parse_set.
Proof.
  unfold parse_set, set_values. apply agree_bind_strict; [agree_known|]. intros. do 2 (apply agree_bind; [agree_auto|]; intros).
  apply agree_bind; [|intros; agree_auto]. apply agree_loop. intros vs. destruct (vs.2); [agree_auto|].
  apply agree_on_token; [|agree_auto]. intros []; try exact I; cbn; agree_auto.
Qed.
End agreement.
