(* ===== verification/SqlParser.v ===== *)
(** The parser as a whole ([src/src/sql/parser.rs]): statements, and the circle of
    rules closed. *)

From S2P Require Import Prelude SqlText Token Parsing Ast ExprParser SelectParser StatementParser.

Section parser.
Context `{Unicode}.

(** The statements by their keyword. *)
Definition keyword_statement (g : grammar) (k : string) : parser Statement :=
  let u := to_uppercase k in
  if String.eqb u "SELECT" then Statement_Select <$> parse_select g
  else if String.eqb u "WITH" then Statement_Select <$> parse_with_select g
  else if String.eqb u "INSERT" then Statement_Insert <$> parse_insert g
  else if String.eqb u "UPDATE" then Statement_Update <$> parse_update g
  else if String.eqb u "DELETE" then Statement_Delete <$> parse_delete g
  else if String.eqb u "SET" then parse_set
  else if String.eqb u "CREATE" then parse_create g
  else if String.eqb u "ALTER" then parse_alter g
  else if String.eqb u "DROP" then parse_drop
  else if String.eqb u "MERGE" then Statement_Merge <$> parse_merge g
  else if existsb (String.eqb u) ["BEGIN"; "START"] then Statement_Begin <$> parse_begin
  else fail (UnexpectedKeyword k).

(** [parse_statement]: COMMIT, ROLLBACK and EXPLAIN pass their keyword here, the
    other rules do it themselves. At a parenthesis it calls itself where it stands. *)
Definition parse_statement (g : grammar) : parser Statement :=
  on_token (fun t =>
    match t with
    | Token_Keyword k =>
        let u := to_uppercase k in
        if String.eqb u "COMMIT" then Some (mret Statement_Commit)
        else if existsb (String.eqb u) ["ROLLBACK"; "ABORT"] then Some (mret Statement_Rollback)
        else if String.eqb u "EXPLAIN" then Some (Statement_Explain <$> g_statement g)
        else None
    | _ => None
    end)
    (t ← peek;
     match t with
     | Token_Keyword k => keyword_statement g k
     | LParen => g_statement g
     | _ => fail (UnexpectedToken "unexpected token:" t)
     end).

Definition endless_grammar : grammar :=
  {| g_expr := fun _ => Endless; g_bitwise_or := fun _ => Endless; g_select := fun _ => Endless; g_statement := fun _ => Endless |}.

Definition close (g : grammar) : grammar :=
  {| g_expr := parse_expr g; g_bitwise_or := parse_bitwise_or g; g_select := parse_select g; g_statement := parse_statement g |}.

(** The rules, with calls of one another to a depth. *)
Fixpoint rules (fuel : nat) : grammar := match fuel with O => endless_grammar | S fuel => close (rules fuel) end.

(** [Parser::parse]: the tokens that are left are not looked at. *)
Definition parse (sql : string) : presult Statement :=
  let ts := tokenize sql in g_statement (rules (S (length ts))) ts.

(* ---------------------------------------------------------------- *)
(** ** Termination *)

Lemma rules_agree d n k m : (n <= k)%nat -> (n <= m)%nat -> grammar_agree d n (rules k) (rules m).
Proof.
  revert n m. induction k as [|k IH]; intros n m Hk Hm.
  - assert (n = 0%nat) as -> by lia. by split; intros ts Hts; lia.
  - destruct m as [|m]; [assert (n = 0%nat) as -> by lia; by split; intros ts Hts; lia|].
    specialize (IH (pred n) m ltac:(lia) ltac:(lia)). cbn [rules]. split; cbn [close g_expr g_bitwise_or g_select].
    + apply (agree_parse_expr _ _ _ _ IH). lia.
    + apply (agree_bitwise_or _ _ _ _ IH). lia.
    + apply (agree_parse_select _ _ _ _ IH). lia.
Qed.

Lemma paren_endless k ts : g_statement (rules k) (LParen :: ts) = Endless.
Proof. induction k as [|k IH]; [done|]. exact IH. Qed.

#[local] Hint Resolve agree_parse_select agree_parse_with_select agree_parse_insert agree_parse_update agree_parse_delete agree_parse_create
  agree_parse_alter agree_parse_drop agree_parse_merge agree_parse_begin agree_parse_set : agree.
#[local] Hint Extern 2 (_ <= _)%nat => lia : agree.

Lemma agree_keyword_statement d n g1 g2 (Hg : grammar_agree d n g1 g2) m k :
  (String.eqb (to_uppercase k) "WITH" = true -> forall j, (j <= n)%nat -> agree always d j (g_statement g1) (g_statement g2)) ->
  (m <= S n)%nat -> agree always d m (keyword_statement g1 k) (keyword_statement g2 k).
Proof.
  intros Hs Hm. unfold keyword_statement. destruct (String.eqb _ "SELECT"); [agree_auto|].
  destruct (String.eqb _ "WITH"); [specialize (Hs eq_refl)|clear Hs]; agree_auto.
Qed.

(** The statements that do not come back to statements. *)
Definition plain_start (ts : list Token) : bool :=
  match ts with
  | Token_Keyword k :: _ => negb (existsb (String.eqb (to_uppercase k)) ["EXPLAIN"; "WITH"])
  | LParen :: _ => false
  | _ => true
  end.

Lemma statement_agree d n k m :
  (n <= k)%nat -> (n <= m)%nat ->
  forall ts, (length ts < n)%nat -> (plain_start ts = true \/ d = true) ->
  g_statement (rules k) ts = g_statement (rules m) ts /\
  match g_statement (rules k) ts with
  | Parsed a rest => (length rest < length ts)%nat | Failed _ => True | Endless => d = true
  end.
Proof.
  revert n m. induction k as [|k IH]; intros n m Hk Hm ts Hts Hd; [lia|]. destruct m as [|m]; [lia|].
  pose proof (rules_agree d (pred n) k m ltac:(lia) ltac:(lia)) as Hg.
  assert (Hst : d = true -> forall j, (j <= pred n)%nat -> agree always d j (g_statement (rules k)) (g_statement (rules m))).
  { intros -> j Hj ts' Hts'. apply (IH j m); [lia..|by right]. }
  cbn [rules close g_statement].
  destruct ts as [|[s|s|s|s| | | | | | | | | | | | | | | | | | | | | | | | | | | |] ts]; try (by split).
  2:{ destruct Hd as [Hd|Hd]; [done|]. assert (E : forall g, parse_statement g (LParen :: ts) = g_statement g (LParen :: ts)) by done.
      rewrite !E, !paren_endless. by split. }
  unfold parse_statement, on_token. cbn in Hd.
  destruct (String.eqb (to_uppercase s) "COMMIT"); [by split; [|cbn; lia]|]. destruct (existsb _ ["ROLLBACK"; "ABORT"]); [by split; [|cbn; lia]|].
  destruct (String.eqb (to_uppercase s) "EXPLAIN"); cbn in Hd.
  - destruct Hd as [|Hd]; [done|]. cbn in Hts. destruct (Hst Hd (pred n) (le_n _) ts ltac:(lia)) as [E Hr].
    unfold fmap, parser_fmap, mbind, parser_bind. rewrite <- E. destruct (g_statement (rules k) ts) as [a r|e|]; (split; [done|]); [|done..].
    cbn in *. lia.
  - apply (agree_keyword_statement d (pred n) (rules k) (rules m) Hg n s); [|lia|exact Hts].
    intros Hw. apply Hst. destruct Hd as [Hd|Hd]; [|done]. by rewrite Hw in Hd.
Qed.
End parser.

(** C27. With one more than the number of tokens as fuel the rules for expressions and
    queries end, and so does the rule for statements unless the statement begins
    with a parenthesis, EXPLAIN or WITH; and more fuel changes nothing, for any
    statement. *)
Theorem parser_ends `{Unicode} ts f f' :
  (length ts < f)%nat -> (length ts < f')%nat ->
  (g_expr (rules f) ts <> Endless /\ g_select (rules f) ts <> Endless /\
   (plain_start ts = true -> g_statement (rules f) ts <> Endless)) /\
  g_expr (rules f) ts = g_expr (rules f') ts /\ g_select (rules f) ts = g_select (rules f') ts /\
  g_statement (rules f) ts = g_statement (rules f') ts.
Proof.
  intros Hf Hf'. destruct (rules_agree false (S (length ts)) f f') as [He _ Hs]; [lia..|].
  destruct (He ts) as [E1 R1]; [lia|]. destruct (Hs ts) as [E2 R2]; [lia|].
  destruct (statement_agree true (S (length ts)) f f') with (ts := ts) as [E3 _]; [lia..|by right|].
  split_and!; try done.
  - intros E. by rewrite E in R1.
  - intros E. by rewrite E in R2.
  - intros Hp E. destruct (statement_agree false (S (length ts)) f f') with (ts := ts) as [_ R3]; [lia..|by left|]. by rewrite E in R3.
Qed.

(** A text that begins with a parenthesis is parsed forever: whatever the depth
    of the calls, [parse_statement] calls itself again. *)
Theorem parenthesis_never_ends `{Unicode} sql ts :
  tokenize sql = LParen :: ts -> forall fuel, g_statement (rules fuel) (tokenize sql) = Endless.
Proof. intros -> fuel. apply paren_endless. Qed.

#[local] Existing Instance Ascii_Unicode.

Lemma parser_ends_witness :
  g_statement (rules 9) [Token_Keyword "commit"] <> Endless /\
  g_expr (rules 2) [Token_Number "1"] = g_expr (rules 7) [Token_Number "1"].
Proof.
  split.
  - apply (parser_ends [Token_Keyword "commit"] 9 9); cbn; [lia|lia|reflexivity].
  - apply (parser_ends [Token_Number "1"] 2 7); cbn; lia.
Defined.

Lemma parenthesis_never_ends_witness : g_statement (rules 100) (tokenize "(SELECT 1)") = Endless.
Proof. refine (parenthesis_never_ends "(SELECT 1)" (tail (tokenize "(SELECT 1)")) _ 100). vm_compute. reflexivity. Defined.

(** The query of a text that is one, without what is left behind it. *)
Definition query_of (r : presult Statement) : option SelectStatement :=
  match r with Parsed (Statement_Select q) _ => Some q | _ => None end.

Definition is_failed {A} (r : presult A) : bool := match r with Failed _ => true | _ => false end.

(** Tokens behind a statement are not looked at: NOT IN ends the condition. *)
Example trailing_tokens_are_ignored :
  query_of (parse "SELECT a FROM t WHERE b NOT IN (1)") = query_of (parse "SELECT a FROM t WHERE b").
Proof. vm_compute. reflexivity. Qed.

(** A call without arguments is no expression, and so no window function without
    arguments can be written; NOW is an exception. *)
Example no_empty_calls :
  is_failed (parse "SELECT row_number() OVER (ORDER BY a) FROM t") = true /\ is_failed (parse "SELECT now()") = false.
Proof. vm_compute. by split. Qed.

(** The second of two set operations belongs to the query on its left's right. *)
Example set_operations_to_the_right :
  (fun q => match q with mkSelectStatement _ _ _ _ _ _ _ _ _ _ _ ops => length ops end)
    <$> query_of (parse "SELECT 1 EXCEPT SELECT 2 EXCEPT SELECT 3") = Some 1%nat.
Proof. vm_compute. reflexivity. Qed.

(** LEFT OUTER JOIN: the optional word is looked for as a keyword and read as an
    identifier. *)
Example left_outer_join_fails :
  is_failed (parse "SELECT * FROM a LEFT OUTER JOIN b ON a.x = b.x") = true /\
  is_failed (parse "SELECT * FROM a LEFT JOIN b ON a.x = b.x") = false.
Proof. vm_compute. by split. Qed.

(** READ ONLY is refused, and WRITE makes a transaction read-only. *)
Example begin_read_only :
  is_failed (parse "BEGIN READ ONLY") = true /\
  match parse "BEGIN WRITE" with Parsed (Statement_Begin (mkBeginStatement _ read_only _)) _ => read_only | _ => false end = true.
Proof. vm_compute. by split. Qed.
