(* ===== verification/ExprPrint.v ===== *)
(** Expressions as tokens: the text of an expression with as few parentheses as the
    precedence of its operators allows, and that the parser ([parser/expr.rs]) reads
    it back. It is what fixes the precedence and the association of every operator. *)

From S2P Require Import Prelude SqlText Token Parsing Ast ExprParser SelectParser StatementParser SqlParser.

(* ------------------------------------------------------------------ *)
(** ** Levels *)

(** The level of an operator; comparisons are level 3, and do not associate. *)
Definition op_level (op : BinaryOperator) : option nat :=
  match op with
  | BinaryOperator.Or => Some 0%nat
  | BinaryOperator.And => Some 1%nat
  | BinaryOperator.Equals | BinaryOperator.NotEquals | BinaryOperator.LessThan | BinaryOperator.GreaterThan
  | BinaryOperator.LessOrEqual | BinaryOperator.GreaterOrEqual | BinaryOperator.Like | BinaryOperator.ILike => Some 3%nat
  | BinaryOperator.BitwiseOr => Some 4%nat
  | BinaryOperator.BitwiseXor => Some 5%nat
  | BinaryOperator.BitwiseAnd => Some 6%nat
  | BinaryOperator.BitwiseShiftLeft | BinaryOperator.BitwiseShiftRight => Some 7%nat
  | BinaryOperator.Plus | BinaryOperator.Minus => Some 8%nat
  | BinaryOperator.Multiply | BinaryOperator.Divide | BinaryOperator.Modulo => Some 9%nat
  | _ => None
  end.

Definition op_token (op : BinaryOperator) : Token :=
  match op with
  | BinaryOperator.Or => Token_Keyword "OR" | BinaryOperator.And => Token_Keyword "AND"
  | BinaryOperator.Equals => Eq_ | BinaryOperator.NotEquals => Neq | BinaryOperator.LessThan => Lt_
  | BinaryOperator.GreaterThan => Gt_ | BinaryOperator.LessOrEqual => LtEq | BinaryOperator.GreaterOrEqual => GtEq
  | BinaryOperator.Like => Token_Keyword "LIKE" | BinaryOperator.ILike => Token_Keyword "ILIKE"
  | BinaryOperator.BitwiseOr => Pipe | BinaryOperator.BitwiseXor => Caret | BinaryOperator.BitwiseAnd => Ampersand
  | BinaryOperator.BitwiseShiftLeft => LtLt | BinaryOperator.BitwiseShiftRight => GtGt
  | BinaryOperator.Plus => Plus | BinaryOperator.Minus => Minus
  | BinaryOperator.Multiply => Star | BinaryOperator.Divide => Slash | BinaryOperator.Modulo => Percent
  | _ => Eof
  end.

Definition unary_token (op : UnaryOperator) : Token :=
  match op with
  | UnaryOperator.Minus => Minus | UnaryOperator.Plus => Plus | UnaryOperator.BitwiseNot => Tilde | UnaryOperator.Not => Token_Keyword "NOT"
  end.

(** The level of an expression: 2 for NOT, 10 for a sign, 11 for what needs no
    parentheses anywhere. *)
Definition expr_level (e : Expr) : nat :=
  match e with
  | Expr_BinaryOp _ op _ => default 11%nat (op_level op)
  | Expr_UnaryOp UnaryOperator.Not _ => 2
  | Expr_UnaryOp _ _ => 10
  | Expr_IsNull _ | Expr_IsNotNull _ | Expr_Between _ _ _ _ | Expr_InList _ _ _ => 3
  | _ => 11
  end.

(** The tokens of a list, with commas between. *)
Fixpoint commas (l : list (list Token)) : list Token :=
  match l with [] => [] | [x] => x | x :: l => x ++ Comma :: commas l end.

(** The tokens of an expression where a level [k] is asked for. *)
Fixpoint print (k : nat) (e : Expr) : list Token :=
  let body :=
    match e with
    | Expr_Identifier s => [Token_Ident s]
    | Expr_QualifiedIdentifier t c => [Token_Ident t; Dot; Token_Ident c]
    | Expr_Literal (Literal.Number n) => [Token_Number n]
    | Expr_Literal (Literal.String s) => [Token_String s]
    | Expr_Literal (Literal.Bool b) => [Token_Keyword (if b : bool then "TRUE" else "FALSE")]
    | Expr_Literal Literal.Null => [Token_Keyword "NULL"]
    | Expr_BinaryOp l op r =>
        let p := default 11%nat (op_level op) in
        print (if Nat.eqb p 3 then 4 else p)%nat l ++ op_token op :: print (S p) r
    | Expr_UnaryOp UnaryOperator.Not e => Token_Keyword "NOT" :: print 3 e
    | Expr_UnaryOp op e => unary_token op :: print 11 e
    | Expr_IsNull e => print 4 e ++ [Token_Keyword "IS"; Token_Keyword "NULL"]
    | Expr_IsNotNull e => print 4 e ++ [Token_Keyword "IS"; Token_Keyword "NOT"; Token_Keyword "NULL"]
    | Expr_Between e _ low high =>
        print 4 e ++ Token_Keyword "BETWEEN" :: print 4 low ++ Token_Keyword "AND" :: print 4 high
    | Expr_InList e _ members =>
        print 4 e ++ Token_Keyword "IN" :: LParen :: commas (List.map (print 0) members) ++ [RParen]
    | Expr_Function (mkFunctionCall name args _ _) =>
        Token_Ident (default EmptyString (last (parts name))) :: LParen ::
        commas (List.map (fun a => match a with FunctionArg_Expr e => print 0 e | FunctionArg_Star => [Star] end) args) ++ [RParen]
    | Expr_Array elems => LBracket :: commas (List.map (print 0) elems) ++ [RBracket]
    | _ => []
    end in
  if (expr_level e <? k)%nat then LParen :: body ++ [RParen] else body.

Definition is_star (a : FunctionArg) : bool := match a with FunctionArg_Star => true | _ => false end.

(** The expressions that are printed: those with an operator the parser knows, and
    without queries, casts, CASE and the date functions. *)
Fixpoint printable (e : Expr) : bool :=
  match e with
  | Expr_Identifier _ | Expr_QualifiedIdentifier _ _ => true
  | Expr_Literal (Literal.Number _ | Literal.String _ | Literal.Bool _ | Literal.Null) => true
  | Expr_BinaryOp l op r => match op_level op with Some _ => printable l && printable r | None => false end
  | Expr_UnaryOp _ e | Expr_IsNull e | Expr_IsNotNull e => printable e
  | Expr_Between e negated low high => negb negated && printable e && printable low && printable high
  | Expr_InList e negated members =>
      negb negated && printable e && match members with [] => false | _ => forallb printable members end
  | Expr_Function (mkFunctionCall {| parts := [_] |} args None None) =>
      match args with
      | [FunctionArg_Star] => true
      | [] => false
      | _ => forallb (fun a => match a with FunctionArg_Expr e => printable e | FunctionArg_Star => false end) args
      end
  | Expr_Array elems => match elems with [] => false | _ => forallb printable elems end
  | _ => false
  end.

(** The rule of a level. *)
Definition level (g : grammar) `{Unicode} (k : nat) : parser Expr :=
  match k with
  | 0 => parse_or_expr g | 1 => parse_and_expr g | 2 => parse_not_expr g | 3 => parse_comparison g
  | 4 => parse_bitwise_or g | 5 => parse_bitwise_xor g | 6 => parse_bitwise_and g | 7 => parse_shift g
  | 8 => parse_additive g | 9 => parse_multiplicative g | 10 => parse_unary g | _ => parse_postfix g
  end%nat.

(** The number of parts. *)
Fixpoint esize (e : Expr) : nat :=
  S (match e with
     | Expr_BinaryOp l _ r => esize l + esize r
     | Expr_UnaryOp _ e | Expr_IsNull e | Expr_IsNotNull e => esize e
     | Expr_Between e _ low high => esize e + esize low + esize high
     | Expr_InList e _ members => esize e + sum_list (List.map esize members)
     | Expr_Function (mkFunctionCall _ args _ _) =>
         sum_list (List.map (fun a => match a with FunctionArg_Expr e => esize e | FunctionArg_Star => 0 end) args)
     | Expr_Array elems => sum_list (List.map esize elems)
     | _ => 0
     end)%nat.

Section follow.
Context `{UnicodeLaws}.

(** Keywords of the grammar are ASCII, so that their case is known. *)
Lemma keyword_is a b :
  is_ascii_text a = true -> map_text ascii_upper a = a -> is_keyword b (Token_Keyword a) = String.eqb a b.
Proof. intros Ha Hu. cbn. by rewrite uppercase_ascii, Hu. Qed.

(** The level at which a token goes on with an expression. *)
Definition binds (t : Token) : option nat :=
  match t with
  | Token_Keyword k =>
      let u := to_uppercase k in
      if String.eqb u "OR" then Some 0
      else if String.eqb u "AND" then Some 1
      else if existsb (String.eqb u) ["IN"; "BETWEEN"; "LIKE"; "ILIKE"; "IS"] then Some 3
      else if String.eqb u "AT" then Some 11
      else if existsb (String.eqb u) ["FILTER"; "OVER"] then Some 12
      else None
  | Eq_ | Neq | Lt_ | Gt_ | LtEq | GtEq => Some 3
  | Pipe => Some 4 | Caret => Some 5 | Ampersand => Some 6 | LtLt | GtGt => Some 7 | Plus | Minus => Some 8
  | Star | Slash | Percent => Some 9
  | Colon => Some 11
  | LParen | Dot | LBracket => Some 12
  | _ => None
  end%nat.

(** What may stand behind an expression of level [k]. *)
Definition stops (k : nat) (rest : list Token) : bool :=
  match rest with t :: _ => match binds t with Some b => (b <? k)%nat | None => true end | [] => true end.

Lemma stops_up k j rest : (k <= j)%nat -> stops k rest = true -> stops j rest = true.
Proof.
  destruct rest as [|t rest]; [done|]. unfold stops. destruct (binds t); [|done]. rewrite !Nat.ltb_lt. lia.
Qed.

(** The tokens an expression begins with where level [k] is asked for. *)
Definition leads (k : nat) (t : Token) : bool :=
  match t with
  | Token_Number _ | Token_String _ | Token_Ident _ | LParen | LBracket => true
  | Token_Keyword s => existsb (String.eqb (to_uppercase s)) (if (k <=? 2)%nat then ["TRUE"; "FALSE"; "NULL"; "NOT"] else ["TRUE"; "FALSE"; "NULL"])
  | Minus | Plus | Tilde => (k <=? 10)%nat
  | _ => false
  end.

Definition begins (k : nat) (ts : list Token) : bool := match ts with t :: _ => leads k t | [] => false end.

Lemma begins_down k j ts : (k <= j)%nat -> begins j ts = true -> begins k ts = true.
Proof.
  destruct ts as [|t ts]; [done|]. destruct t; cbn; try done; rewrite ?Nat.leb_le; try lia.
  intros Hk. destruct (Nat.leb_spec k 2), (Nat.leb_spec j 2); cbn; rewrite ?orb_false_r; try done; try lia.
  repeat match goal with |- context [String.eqb ?a ?b] => destruct (String.eqb a b) end; done.
Qed.

Lemma begins_app k ts rest : begins k ts = true -> begins k (ts ++ rest) = true.
Proof. by destruct ts. Qed.

Lemma begins_print k e : printable e = true -> (k <= 11)%nat -> begins k (print k e) = true.
Proof.
  remember (esize e) as n eqn:En. assert (Hn : (esize e <= n)%nat) by lia. clear En. revert k e Hn.
  induction n as [|n IH]; intros k e Hn Hp Hk; [destruct e; cbn in Hn; lia|].
  assert (Hkw : forall s, In s ["TRUE"; "FALSE"; "NULL"] -> forall j, leads j (Token_Keyword s) = true).
  { intros s Hs j. cbn. destruct Hs as [<-|[<-|[<-|[]]]]; rewrite uppercase_ascii by reflexivity; by destruct (_ <=? _)%nat. }
  assert (Hnot : leads 2 (Token_Keyword "NOT") = true) by (cbn; by rewrite uppercase_ascii).
  assert (Hgo : forall j ts, (expr_level e <= 11)%nat -> j = expr_level e -> begins j ts = true ->
    begins k (if (expr_level e <? k)%nat then LParen :: ts ++ [RParen] else ts) = true).
  { intros j ts He -> Hb. destruct (Nat.ltb_spec (expr_level e) k); [done|]. by apply (begins_down k (expr_level e)). }
  destruct e; cbn [printable] in Hp; try discriminate; cbn [print]; cbn [esize] in Hn; rewrite ?andb_true_iff in Hp; destruct_and? Hp.
  all: try (by apply Hgo with (j := 11%nat)).
  all: try (apply Hgo with (j := 3%nat); [cbn; lia|done|]; apply begins_app, (begins_down 3 4); [lia|]; apply IH; [lia|done|lia]).
  - destruct lit; try discriminate; apply Hgo with (j := 11%nat); try done; [destruct b|]; apply Hkw; cbn; auto.
  - destruct (op_level op) as [p|] eqn:Eo; [|done]. rewrite andb_true_iff in Hp. destruct Hp as [Hp1 Hp2]. cbn [default from_option id].
    assert (p <= 9)%nat by (destruct op; cbn in Eo; try discriminate; injection Eo as <-; lia).
    assert (Hl : expr_level (Expr_BinaryOp e1 op e2) = p) by (cbn [expr_level]; by rewrite Eo).
    apply Hgo with (j := p); [lia|done|]. apply begins_app.
    destruct (Nat.eqb_spec p 3) as [->|]; [apply (begins_down 3 4); [lia|]|]; apply IH; try done; lia.
  - destruct op; [apply Hgo with (j := 10%nat); [cbn; lia|done|done]..|apply Hgo with (j := 2%nat); [cbn; lia|done|exact Hnot]|].
    apply Hgo with (j := 10%nat); [cbn; lia|done|done].
  - destruct func. by apply Hgo with (j := 11%nat).
Qed.

(** What stands behind an expression is none of the tokens that go on with it. *)
Lemma binds_keyword s t :
  is_ascii_text s = true -> map_text ascii_upper s = s -> is_keyword s t = true -> binds t = binds (Token_Keyword s).
Proof.
  intros Ha Hu Ht. destruct t as [| | |k| | | | | | | | | | | | | | | | | | | | | | | | | | | |]; try discriminate. cbn in Ht.
  apply String.eqb_eq in Ht. cbn. by rewrite (uppercase_ascii s Ha), Hu, Ht.
Qed.

Lemma stops_behind k j f rest :
  stops j rest = true -> (j <= k)%nat -> (forall t, f t = true -> exists b, binds t = Some b /\ (k <= b)%nat) -> matches [f] rest = false.
Proof.
  intros Hs Hj Hf. destruct rest as [|t rest]; [done|]. cbn. destruct (f t) eqn:Et; [|done]. destruct (Hf t Et) as (b & Eb & Hb).
  cbn in Hs. rewrite Eb in Hs. apply Nat.ltb_lt in Hs. lia.
Qed.

Lemma stops_keyword k j s rest b :
  is_ascii_text s = true -> map_text ascii_upper s = s -> binds (Token_Keyword s) = Some b -> (k <= b)%nat ->
  stops j rest = true -> (j <= k)%nat -> matches [is_keyword s] rest = false.
Proof. intros Ha Hu Hb Hk Hs Hj. apply (stops_behind k j); [done..|]. intros t Ht. exists b. by rewrite (binds_keyword s t). Qed.

Lemma stops_token k j t rest b :
  binds t = Some b -> (k <= b)%nat -> stops j rest = true -> (j <= k)%nat -> matches [is_token t] rest = false.
Proof.
  intros Hb Hk Hs Hj. apply (stops_behind k j); [done..|]. intros u Hu. apply bool_decide_eq_true in Hu as ->. by exists b.
Qed.

Lemma on_tokens_skip {A} f tests (p o : parser A) ts : matches [f] ts = false -> on_tokens (f :: tests) p o ts = o ts.
Proof. intros Hm. unfold on_tokens. destruct ts as [|t ts]; [done|]. cbn in *. rewrite andb_true_r in Hm. by rewrite Hm. Qed.

Lemma bind_parsed {A B} (p : parser A) (f : A -> parser B) ts a r : p ts = Parsed a r -> (p ≫= f) ts = f a r.
Proof. intros E. unfold mbind, parser_bind. by rewrite E. Qed.

Lemma fmap_parsed {A B} (p : parser A) (f : A -> B) ts a r : p ts = Parsed a r -> (f <$> p) ts = Parsed (f a) r.
Proof. intros E. unfold fmap, parser_fmap. by rewrite (bind_parsed _ _ _ _ _ E). Qed.

Lemma when_token_hit {A} t (p o : parser A) ts : when_token t p o (t :: ts) = p ts.
Proof. unfold when_token, on_tokens. cbn. unfold is_token. by rewrite bool_decide_true. Qed.

Lemma when_keyword_hit {A} k (p o : parser A) ts :
  is_ascii_text k = true -> map_text ascii_upper k = k -> when_keyword k p o (Token_Keyword k :: ts) = p ts.
Proof. intros Ha Hu. unfold when_keyword, on_tokens. cbn [matches]. by rewrite keyword_is, String.eqb_refl. Qed.

Lemma expect_hit t ts : expect t (t :: ts) = Parsed tt ts.
Proof. unfold expect. by rewrite bool_decide_true. Qed.

Lemma expect_keyword_hit k ts :
  is_ascii_text k = true -> map_text ascii_upper k = k -> expect_keyword k (Token_Keyword k :: ts) = Parsed tt ts.
Proof. intros Ha Hu. unfold expect_keyword. by rewrite keyword_is, (uppercase_ascii k Ha), Hu, String.eqb_refl. Qed.

Lemma on_token_skip {A} arms (o : parser A) ts : match ts with t :: _ => arms t = None | [] => True end -> on_token arms o ts = o ts.
Proof. intros Hm. destruct ts as [|t ts]; [done|]. unfold on_token. by rewrite Hm. Qed.

(** The head of an expression is no other keyword and no star. *)
Lemma begins_keyword k ts s :
  begins k ts = true -> ~ In s ["TRUE"; "FALSE"; "NULL"; "NOT"] -> matches [is_keyword s] ts = false.
Proof.
  intros Hb Hs. destruct ts as [|t ts]; [done|]. cbn. rewrite andb_true_r. destruct t; try done. cbn in Hb |- *.
  apply String.eqb_neq. intros Es. rewrite Es in Hb. apply Hs. apply existsb_exists in Hb as (x & Hx & Ex). apply String.eqb_eq in Ex as ->.
  cbn in *. destruct (k <=? 2)%nat; cbn in Hx; tauto.
Qed.

Lemma begins_not k ts : begins k ts = true -> (2 < k)%nat -> matches [is_keyword "NOT"] ts = false.
Proof.
  intros Hb Hk. destruct ts as [|t ts]; [done|]. cbn. rewrite andb_true_r. destruct t; try done. cbn in Hb |- *.
  apply String.eqb_neq. intros Es. rewrite Es in Hb. by replace (k <=? 2)%nat with false in Hb by (symmetry; apply Nat.leb_gt; lia).
Qed.

Lemma begins_token k ts t : begins k ts = true -> leads k t = false -> matches [is_token t] ts = false.
Proof.
  intros Hb Ht. destruct ts as [|u ts]; [done|]. cbn in *. rewrite andb_true_r. apply bool_decide_eq_false. intros ->. congruence.
Qed.

(* ---------------------------------------------------------------- *)
(** ** The levels of binary operators *)

Definition binary (p : nat) : bool := ((p <? 2) || ((4 <=? p) && (p <=? 9)))%nat.

Definition level_ops (p : nat) : Token -> option BinaryOperator :=
  match p with
  | 0 => keyword_op "OR" BinaryOperator.Or | 1 => keyword_op "AND" BinaryOperator.And
  | 4 => token_op Pipe BinaryOperator.BitwiseOr | 5 => token_op Caret BinaryOperator.BitwiseXor
  | 6 => token_op Ampersand BinaryOperator.BitwiseAnd | 7 => shift_op | 8 => additive_op | _ => multiplicative_op
  end%nat.

Lemma binary_cases p : binary p = true -> In p [0; 1; 4; 5; 6; 7; 8; 9]%nat.
Proof.
  unfold binary. rewrite orb_true_iff, andb_true_iff, Nat.ltb_lt, !Nat.leb_le. intros Hp. cbn.
  assert (p = 0 \/ p = 1 \/ p = 4 \/ p = 5 \/ p = 6 \/ p = 7 \/ p = 8 \/ p = 9)%nat by lia. intuition.
Qed.

Lemma level_binary g p : binary p = true -> level g p = binary_level (level g (S p)) (level_ops p).
Proof. intros Hp. apply binary_cases in Hp. cbn in Hp. by destruct_or? Hp; subst. Qed.

Lemma level_ops_token op p : op_level op = Some p -> binary p = true -> level_ops p (op_token op) = Some op.
Proof.
  intros Eo Hp. destruct op; cbn in Eo; try discriminate; injection Eo as <-; try discriminate; cbn; try done.
  all: unfold keyword_op; by rewrite keyword_is.
Qed.

Lemma binds_op op p : op_level op = Some p -> binds (op_token op) = Some p.
Proof.
  destruct op; cbn; intros [= <-]; try done.
  all: by rewrite uppercase_ascii.
Qed.

Lemma level_ops_binds p t o : level_ops p t = Some o -> binary p = true -> binds t = Some p.
Proof.
  intros Eo Hp. apply binary_cases in Hp. cbn in Hp. destruct_or? Hp; subst; cbn in Eo.
  1,2: unfold keyword_op in Eo; destruct (is_keyword _ t) eqn:Et; [|done];
    (erewrite binds_keyword; [|..|exact Et]; [|done..]); cbn; by rewrite uppercase_ascii.
  1,2,3: unfold token_op, is_token in Eo; case_bool_decide; [by subst|done].
  all: by destruct t.
Qed.
End follow.

(** Items read one after the other, each behind a separator. *)
Section lists.
Context `{UnicodeLaws} {A : Type} (p : parser A) (pr : A -> list Token) (n : nat) (sep : Token).
Context (ok : list Token -> bool) (Hok : forall r, ok (sep :: r) = true).

Definition behind (l : list A) : list Token := concat (List.map (fun x => sep :: pr x) l).

Lemma separated_reads x l rest :
  (forall y r, In y (x :: l) -> (length (pr y ++ r) <= n)%nat -> ok r = true -> p (pr y ++ r) = Parsed y r) ->
  (length (pr x ++ behind l ++ rest) <= n)%nat -> ok rest = true -> matches [is_token sep] rest = false ->
  separated sep p (pr x ++ behind l ++ rest) = Parsed (x :: l) rest.
Proof.
  intros Hp Hn Hs Hc.
  assert (Hs' : forall l, ok (behind l ++ rest) = true) by (intros [|y l']; [exact Hs|apply Hok]).
  unfold separated. rewrite (bind_parsed _ _ _ x _ (Hp x _ (or_introl eq_refl) Hn (Hs' l))). unfold loop.
  assert (Hgo : forall l' xs fuel, (forall y, In y l' -> In y (x :: l)) ->
    (length (behind l' ++ rest) <= n)%nat -> (length l' < fuel)%nat ->
    iterate fuel (fun xs => when_token sep (y ← p; mret (Some (xs ++ [y]))) (mret None)) xs (behind l' ++ rest) = Parsed (xs ++ l') rest).
  { induction l' as [|y l' IH]; intros xs [|fuel] Hin Hl Hf; cbn in Hf; try lia; cbn [iterate].
    - cbn [behind List.map concat app]. rewrite (bind_parsed _ _ _ None rest); [cbn; by rewrite app_nil_r|]. by apply on_tokens_skip.
    - assert (E : behind (y :: l') ++ rest = sep :: pr y ++ behind l' ++ rest) by (unfold behind; cbn; by rewrite <- app_assoc).
      rewrite E in Hl |- *. cbn [length] in Hl.
      erewrite bind_parsed; [|rewrite when_token_hit; by rewrite (bind_parsed _ _ _ y _ (Hp y _ (Hin y (or_introl eq_refl)) (Nat.lt_le_incl _ _ Hl) (Hs' l')))].
      cbv beta iota. rewrite (IH (xs ++ [y])); [by rewrite <- app_assoc|intros z Hz; apply Hin; cbn; auto| |lia]. rewrite !length_app in *. lia. }
  rewrite (Hgo l [x]); [done|cbn; auto| |].
  - rewrite !length_app in *. lia.
  - assert (length l <= length (behind l))%nat; [|rewrite length_app; lia].
    clear. unfold behind. induction l as [|y l IH]; [done|]. cbn. rewrite length_app. lia.
Qed.
End lists.

Lemma commas_cons (x : list Token) l : commas (x :: l) = x ++ concat (List.map (cons Comma) l).
Proof.
  revert x. induction l as [|y l IH]; intros x; [cbn; by rewrite app_nil_r|].
  cbn [List.map concat]. cbn [app]. rewrite <- IH. done.
Qed.

(** A list with commas is read back when its items are. *)
Lemma comma_list_reads `{UnicodeLaws} {A} (p : parser A) (pr : A -> list Token) (n : nat) (ok : list Token -> bool) l rest :
  (forall r, ok (Comma :: r) = true) ->
  (forall x r, In x l -> (length (pr x ++ r) <= n)%nat -> ok r = true -> p (pr x ++ r) = Parsed x r) ->
  l <> [] -> (length (commas (List.map pr l) ++ rest) <= n)%nat -> ok rest = true -> matches [is_token Comma] rest = false ->
  comma_list p (commas (List.map pr l) ++ rest) = Parsed l rest.
Proof.
  destruct l as [|x l]; [done|]. intros Hok Hp _ Hn Hs Hc. cbn [List.map] in *.
  assert (E : commas (pr x :: List.map pr l) ++ rest = pr x ++ behind pr Comma l ++ rest).
  { rewrite commas_cons, <- app_assoc. unfold behind. by rewrite List.map_map. }
  rewrite E in Hn |- *. by apply (separated_reads p pr n Comma ok Hok).
Qed.

Section round_trip.
Context `{UnicodeLaws}.

Lemma print_at k e : print k e = if (expr_level e <? k)%nat then LParen :: print 0 e ++ [RParen] else print 0 e.
Proof. by destruct e. Qed.

Lemma print_same k e : expr_level e <> k -> print (S k) e = print k e.
Proof.
  intros He. rewrite (print_at (S k)), (print_at k). destruct (Nat.ltb_spec (expr_level e) (S k)), (Nat.ltb_spec (expr_level e) k); lia || done.
Qed.

(** The expression is read back at a level, and at the level of its operators it can
    be the first operand of what follows. *)
Definition reads (f k : nat) (e : Expr) : Prop :=
  forall rest, (length (print k e ++ rest) <= f)%nat -> stops k rest = true -> level (rules f) k (print k e ++ rest) = Parsed e rest.

Definition step (g : grammar) (p : nat) (left : Expr) : parser (option Expr) :=
  on_token (fun t => (fun o => right ← level g (S p); mret (Some (Expr_BinaryOp left o right))) <$> level_ops p t) (mret None).

Definition chains (f p : nat) (e : Expr) : Prop :=
  forall rest R, (length (print p e ++ rest) <= f)%nat -> stops (S p) rest = true ->
  (forall fuel, (length rest < fuel)%nat -> iterate fuel (step (rules f) p) e rest = R) ->
  level (rules f) p (print p e ++ rest) = R.

Lemma chains_reads f p e : binary p = true -> chains f p e -> reads f p e.
Proof.
  intros Hp Hc rest Hf Hs. apply Hc; [done|apply (stops_up p); [lia|done]|]. intros [|fuel] Hl; [lia|]. cbn [iterate].
  rewrite (bind_parsed _ _ _ None rest); [done|]. unfold step. rewrite on_token_skip; [done|]. destruct rest as [|t rest]; [done|]. destruct (level_ops p t) as [o|] eqn:Eo; [|done].
  cbn in Hs. rewrite (level_ops_binds p t o Eo Hp) in Hs. apply Nat.ltb_lt in Hs. lia.
Qed.

Lemma next_chains f p e : binary p = true -> expr_level e <> p -> reads f (S p) e -> chains f p e.
Proof.
  intros Hp He Hr rest R Hf Hs HR. rewrite level_binary by done. unfold binary_level.
  rewrite <- (print_same p e He) in Hf |- *. rewrite (bind_parsed _ _ _ e rest (Hr rest Hf Hs)). apply HR. lia.
Qed.

Lemma op_chains f p l op r :
  op_level op = Some p -> binary p = true -> chains f p l -> reads f (S p) r -> chains f p (Expr_BinaryOp l op r).
Proof.
  intros Eo Hp Hl Hr rest R Hf Hs HR.
  assert (Ep : print p (Expr_BinaryOp l op r) = print p l ++ op_token op :: print (S p) r).
  { rewrite print_at. cbn [expr_level]. rewrite Eo. cbn [default from_option id]. rewrite Nat.ltb_irrefl. cbn [print expr_level].
    rewrite Eo. cbn [default from_option id Nat.ltb Nat.leb]. destruct (Nat.eqb_spec p 3) as [->|]; [discriminate|done]. }
  rewrite Ep, <- app_assoc in *. cbn [app] in *. apply Hl; [done| |].
  - cbn. rewrite (binds_op op p Eo). apply Nat.leb_refl.
  - intros [|fuel] Hfuel; cbn in Hfuel; [lia|]. cbn [iterate]. rewrite (bind_parsed _ _ _ (Some (Expr_BinaryOp l op r)) rest).
    + apply HR. rewrite length_app in Hfuel. lia.
    + unfold step, on_token. rewrite (level_ops_token op p Eo Hp). cbn [fmap option_fmap option_map].
      rewrite (bind_parsed _ _ _ r rest); [done|]. apply Hr; [|done]. rewrite length_app in Hf. cbn [length] in Hf. lia.
Qed.

(** *** The other levels *)

Lemma not_climbs f e : printable e = true -> expr_level e <> 2%nat -> reads f 3 e -> reads f 2 e.
Proof.
  intros Hp He Hr rest Hf Hs. rewrite <- (print_same 2 e He) in Hf |- *. cbn [level]. unfold parse_not_expr, when_keyword.
  rewrite on_tokens_skip; [apply Hr; [done|by apply (stops_up 2); [lia|]]|].
  eapply begins_not; [apply begins_app, begins_print; [done|]|]; lia.
Qed.

Lemma comparison_climbs f e : expr_level e <> 3%nat -> reads f 4 e -> reads f 3 e.
Proof.
  intros He Hr rest Hf Hs. rewrite <- (print_same 3 e He) in Hf |- *. cbn [level]. unfold parse_comparison.
  rewrite (bind_parsed _ _ _ e rest); [|apply Hr; [done|by apply (stops_up 3); [lia|]]].
  rewrite on_token_skip; [done|]. destruct rest as [|t rest]; [done|].
  assert (Hk : forall s, In s ["IN"; "BETWEEN"; "LIKE"; "ILIKE"; "IS"] -> is_keyword s t = false).
  { intros s Hin. enough (matches [is_keyword s] (t :: rest) = false) as E by (cbn in E; by rewrite andb_true_r in E).
    cbn in Hin. destruct_or? Hin; subst; try done; (eapply (stops_keyword 3 3); [done|done| |done|done|done]); cbn; by rewrite uppercase_ascii. }
  unfold comparison_keyword. rewrite !Hk by (cbn; tauto). destruct (comparison_op t) eqn:Eo; [|done]. destruct t; by try discriminate.
Qed.

Lemma unary_climbs f e : printable e = true -> expr_level e <> 10%nat -> reads f 11 e -> reads f 10 e.
Proof.
  intros Hp He Hr rest Hf Hs. rewrite <- (print_same 10 e He) in Hf |- *. cbn [level]. unfold parse_unary.
  rewrite on_token_skip; [apply Hr; [done|by apply (stops_up 10); [lia|]]|].
  pose proof (begins_app 11 _ rest (begins_print 11 e Hp (le_n _))) as Hb. destruct (print 11 e ++ rest) as [|t ts]; [done|]. cbn in Hb.
  destruct t; by try discriminate.
Qed.

(** Behind a primary nothing is left for the loops of casts and time zones. *)
Lemma primary_reads f ts e rest : parse_primary (rules f) ts = Parsed e rest -> stops 11 rest = true -> level (rules f) 11 ts = Parsed e rest.
Proof.
  intros Hp Hs. cbn [level]. unfold parse_postfix. rewrite (bind_parsed _ _ _ e rest Hp). rewrite (bind_parsed _ _ _ e rest).
  - unfold loop. cbn [iterate]. rewrite (bind_parsed _ _ _ None rest); [done|]. apply on_tokens_skip.
    eapply (stops_keyword 11 11); [done|done| |done|done|done]. cbn. by rewrite uppercase_ascii.
  - unfold loop. cbn [iterate]. rewrite (bind_parsed _ _ _ None rest); [done|]. apply on_tokens_skip.
    by apply (stops_token 11 11 Colon rest 11).
Qed.

Lemma sign_reads f op e : op <> UnaryOperator.Not -> reads f 11 e -> reads f 10 (Expr_UnaryOp op e).
Proof.
  intros Ho Hr rest Hf Hs.
  assert (Ep : print 10 (Expr_UnaryOp op e) = unary_token op :: print 11 e) by (by destruct op).
  rewrite Ep in Hf |- *. cbn [level app]. unfold parse_unary, on_token.
  assert (Eu : unary_op (unary_token op) = Some op) by (by destruct op). rewrite Eu. cbn [fmap option_fmap option_map].
  apply fmap_parsed, Hr; [cbn in Hf; lia|by apply (stops_up 10); [lia|]].
Qed.

Lemma not_reads f e : reads f 3 e -> reads f 2 (Expr_UnaryOp UnaryOperator.Not e).
Proof.
  intros Hr rest Hf Hs. change (print 2 (Expr_UnaryOp UnaryOperator.Not e)) with (Token_Keyword "NOT" :: print 3 e) in Hf |- *.
  cbn [level app]. unfold parse_not_expr. rewrite when_keyword_hit by done.
  apply fmap_parsed, Hr; [cbn in Hf; lia|by apply (stops_up 2); [lia|]].
Qed.

(** *** Comparisons *)

Lemma compare_reads f l op r :
  op_level op = Some 3%nat -> printable r = true -> reads f 4 l -> reads f 4 r -> reads f 3 (Expr_BinaryOp l op r).
Proof.
  intros Eo Hp Hl Hr rest Hf Hs.
  assert (Ep : print 3 (Expr_BinaryOp l op r) = print 4 l ++ op_token op :: print 4 r).
  { rewrite print_at. cbn [expr_level]. rewrite Eo. cbn [print expr_level]. by rewrite Eo. }
  rewrite Ep, <- app_assoc in Hf |- *. cbn [app] in Hf |- *. cbn [level]. unfold parse_comparison.
  assert (Hr' : parse_bitwise_or (rules f) (print 4 r ++ rest) = Parsed r rest).
  { apply Hr; [rewrite length_app in Hf; cbn [length] in Hf; lia|by apply (stops_up 3); [lia|]]. }
  pose proof (begins_app 4 _ rest (begins_print 4 r Hp ltac:(lia))) as Hb.
  rewrite (bind_parsed _ _ _ l (op_token op :: print 4 r ++ rest)); [|apply Hl; [done|by cbn; rewrite (binds_op op 3 Eo)]].
  assert (Hc : compare_with (rules f) l op (print 4 r ++ rest) = Parsed (Expr_BinaryOp l op r) rest).
  { unfold compare_with, when_keyword. rewrite !on_tokens_skip by (eapply begins_keyword; [exact Hb|cbn; intuition discriminate]).
    by apply fmap_parsed. }
  destruct op; cbn in Eo; try discriminate; cbn [op_token on_token comparison_op comparison_keyword]; try exact Hc.
  all: unfold comparison_keyword; rewrite !keyword_is by done; cbn [String.eqb Ascii.eqb Bool.eqb]; by apply fmap_parsed.
Qed.

Lemma is_null_reads f e negated :
  reads f 4 e -> reads f 3 (if negated : bool then Expr_IsNotNull e else Expr_IsNull e).
Proof.
  intros Hr rest Hf Hs. set (tail := if negated then [Token_Keyword "NOT"; Token_Keyword "NULL"] else [Token_Keyword "NULL"]).
  assert (Ep : print 3 (if negated then Expr_IsNotNull e else Expr_IsNull e) = print 4 e ++ Token_Keyword "IS" :: tail) by (by destruct negated).
  rewrite Ep, <- app_assoc in Hf |- *. cbn [app level] in Hf |- *. unfold parse_comparison.
  rewrite (bind_parsed _ _ _ e (Token_Keyword "IS" :: tail ++ rest)); [|apply Hr; [done|by cbn; rewrite uppercase_ascii]].
  cbn [on_token comparison_op]. unfold comparison_keyword. rewrite !keyword_is by done. cbn [String.eqb Ascii.eqb Bool.eqb]. destruct negated; cbn [tail app].
  - unfold when_keyword at 1. rewrite on_tokens_skip by (cbn [matches]; by rewrite keyword_is).
    rewrite (bind_parsed _ _ _ tt (Token_Keyword "NULL" :: rest)) by (by apply expect_keyword_hit).
    by rewrite (bind_parsed _ _ _ tt rest) by (by apply expect_keyword_hit).
  - by rewrite when_keyword_hit.
Qed.

Lemma between_reads f e low high :
  reads f 4 e -> reads f 4 low -> reads f 4 high -> reads f 3 (Expr_Between e false low high).
Proof.
  intros He Hl Hh rest Hf Hs.
  change (print 3 (Expr_Between e false low high))
    with (print 4 e ++ Token_Keyword "BETWEEN" :: print 4 low ++ Token_Keyword "AND" :: print 4 high) in Hf |- *.
  rewrite <- app_assoc in Hf |- *. cbn [app] in Hf |- *. rewrite <- app_assoc in Hf |- *. cbn [app level] in Hf |- *. unfold parse_comparison.
  rewrite !length_app in Hf. cbn [length] in Hf. rewrite !length_app in Hf. cbn [length] in Hf. rewrite length_app in Hf.
  rewrite (bind_parsed _ _ _ e (Token_Keyword "BETWEEN" :: print 4 low ++ Token_Keyword "AND" :: print 4 high ++ rest)).
  2:{ apply He; [repeat (rewrite length_app; cbn [length]); lia|by cbn; rewrite uppercase_ascii]. }
  cbn [on_token comparison_op]. unfold comparison_keyword. rewrite !keyword_is by done. cbn [String.eqb Ascii.eqb Bool.eqb].
  rewrite (bind_parsed _ _ _ low (Token_Keyword "AND" :: print 4 high ++ rest)).
  2:{ apply Hl; [repeat (rewrite length_app; cbn [length]); lia|by cbn; rewrite uppercase_ascii]. }
  rewrite (bind_parsed _ _ _ tt (print 4 high ++ rest)) by (by apply expect_keyword_hit).
  rewrite (bind_parsed _ _ _ high rest); [done|]. apply Hh; [rewrite length_app; lia|by apply (stops_up 3); [lia|]].
Qed.

(** *** Lists of expressions *)

Lemma exprs_read f l rest :
  (forall f' x, (f' < f)%nat -> In x l -> reads f' 0 x) -> l <> [] -> (length (commas (List.map (print 0) l) ++ rest) < f)%nat ->
  stops 0 rest = true -> matches [is_token Comma] rest = false ->
  comma_list (g_expr (rules f)) (commas (List.map (print 0) l) ++ rest) = Parsed l rest.
Proof.
  intros Hl Hne Hf Hs Hc. destruct f as [|f]; [lia|]. apply (comma_list_reads _ _ f (stops 0)); try done; [|lia].
  intros x r Hin Hx Hr. by apply (Hl f x); [lia|..].
Qed.

Lemma commas_begin k l : l <> [] -> (forall x, In x l -> begins k x = true) -> begins k (commas l) = true.
Proof. destruct l as [|x l]; [done|]. intros _ Hb. rewrite commas_cons. apply begins_app, Hb. cbn. auto. Qed.

Lemma exprs_begin l rest :
  forallb printable l = true -> l <> [] -> begins 0 (commas (List.map (print 0) l) ++ rest) = true.
Proof.
  intros Hp Hne. apply begins_app, commas_begin; [by destruct l|]. intros x (e & <- & He)%in_map_iff.
  apply begins_print; [|lia]. rewrite forallb_forall in Hp. by apply Hp.
Qed.

Lemma in_reads f e members :
  forallb printable members = true -> members <> [] -> reads f 4 e -> (forall f' x, (f' < f)%nat -> In x members -> reads f' 0 x) ->
  reads f 3 (Expr_InList e false members).
Proof.
  intros Hp Hne He Hm rest Hf Hs.
  change (print 3 (Expr_InList e false members))
    with (print 4 e ++ Token_Keyword "IN" :: LParen :: commas (List.map (print 0) members) ++ [RParen]) in Hf |- *.
  rewrite <- app_assoc in Hf |- *. cbn [app] in Hf |- *. rewrite <- app_assoc in Hf |- *. cbn [app level] in Hf |- *. unfold parse_comparison.
  rewrite (bind_parsed _ _ _ e (Token_Keyword "IN" :: LParen :: commas (List.map (print 0) members) ++ RParen :: rest)).
  2:{ apply He; [done|by cbn; rewrite uppercase_ascii]. }
  cbn [on_token comparison_op]. unfold comparison_keyword. rewrite !keyword_is by done. cbn [String.eqb Ascii.eqb Bool.eqb]. unfold in_members. rewrite when_token_hit.
  rewrite (bind_parsed _ _ _ false (commas (List.map (print 0) members) ++ RParen :: rest)).
  2:{ unfold at_keyword. rewrite (begins_keyword 0 _ "SELECT"); [done|by apply exprs_begin|cbn; intuition discriminate]. }
  rewrite (bind_parsed _ _ _ members (RParen :: rest)); [by rewrite (bind_parsed _ _ _ tt rest) by (by apply expect_hit)|].
  apply exprs_read; try done. rewrite length_app in Hf. cbn [length] in Hf. lia.
Qed.

(** *** What needs no parentheses *)

Lemma paren_reads f e :
  printable e = true -> (expr_level e < 11)%nat -> (forall f', (f' < f)%nat -> reads f' 0 e) -> reads f 11 e.
Proof.
  intros Hp He Hr rest Hf Hs. apply primary_reads; [|done]. rewrite print_at in Hf |- *.
  replace (expr_level e <? 11)%nat with true in Hf |- * by (symmetry; by apply Nat.ltb_lt).
  cbn [app] in Hf |- *. rewrite <- app_assoc in Hf |- *. cbn [app length] in Hf |- *. unfold parse_primary. cbn [on_token]. unfold paren_expr.
  rewrite (bind_parsed _ _ _ false (print 0 e ++ RParen :: rest)).
  - destruct f as [|f]; [lia|]. rewrite (bind_parsed _ _ _ e (RParen :: rest)); [by rewrite (bind_parsed _ _ _ tt rest) by (by apply expect_hit)|].
    apply (Hr f); [lia|lia|done].
  - unfold at_keyword. rewrite (begins_keyword 0 _ "SELECT"); [done| |cbn; intuition discriminate].
    apply begins_app, begins_print; [done|lia].
Qed.

Lemma word_reads f s e rest :
  In (s, e) [("TRUE", Expr_Literal (Literal.Bool true)); ("FALSE", Expr_Literal (Literal.Bool false)); ("NULL", Expr_Literal Literal.Null)] ->
  parse_primary (rules f) (Token_Keyword s :: rest) = Parsed e rest.
Proof.
  intros Hin. unfold parse_primary. cbn [on_token]. unfold keyword_expr. cbn in Hin.
  destruct_or? Hin; simplify_eq; rewrite uppercase_ascii by done; reflexivity.
Qed.

Lemma stops_open t rest : binds t = Some 12%nat -> stops 11 rest = true -> matches [is_token t] rest = false.
Proof. intros Hb Hs. apply (stops_token 12 11 t rest 12); [done|lia|done|lia]. Qed.

Lemma name_reads f s rest : stops 11 rest = true -> parse_primary (rules f) (Token_Ident s :: rest) = Parsed (Expr_Identifier s) rest.
Proof.
  intros Hs. unfold parse_primary. cbn [on_token]. unfold named_expr. unfold when_token at 1.
  rewrite on_tokens_skip by (by apply (stops_open LParen)).
  destruct (String.eqb _ "ARRAY"); [unfold when_token at 1; rewrite on_tokens_skip by (by apply (stops_open LBracket))|];
    unfold when_token; (rewrite on_tokens_skip by (by apply (stops_open Dot))); done.
Qed.

Lemma qualified_reads f t c rest :
  parse_primary (rules f) (Token_Ident t :: Dot :: Token_Ident c :: rest) = Parsed (Expr_QualifiedIdentifier t c) rest.
Proof.
  unfold parse_primary. cbn [on_token]. unfold named_expr. unfold when_token at 1. rewrite on_tokens_skip by done.
  destruct (String.eqb _ "ARRAY"); [unfold when_token at 1; rewrite on_tokens_skip by done|]; by rewrite when_token_hit.
Qed.

Lemma array_reads f l rest :
  (forall f' x, (f' < f)%nat -> In x l -> reads f' 0 x) -> l <> [] ->
  (length (LBracket :: commas (List.map (print 0) l) ++ RBracket :: rest) <= f)%nat ->
  parse_primary (rules f) (LBracket :: commas (List.map (print 0) l) ++ RBracket :: rest) = Parsed (Expr_Array l) rest.
Proof.
  intros Hl Hne Hf. unfold parse_primary. cbn [on_token]. unfold array_elements. cbn [length] in Hf.
  rewrite (bind_parsed _ _ _ l (RBracket :: rest)); [by rewrite (bind_parsed _ _ _ tt rest) by (by apply expect_hit)|].
  by apply exprs_read.
Qed.

Definition print_arg (a : FunctionArg) : list Token := match a with FunctionArg_Expr e => print 0 e | FunctionArg_Star => [Star] end.
Definition printable_arg (a : FunctionArg) : bool := match a with FunctionArg_Expr e => printable e | FunctionArg_Star => false end.

Lemma args_read f args rest :
  (forall f' x, (f' < f)%nat -> In (FunctionArg_Expr x) args -> reads f' 0 x) -> forallb printable_arg args = true -> args <> [] ->
  (length (commas (List.map print_arg args) ++ RParen :: rest) < f)%nat ->
  comma_list (FunctionArg_Expr <$> g_expr (rules f)) (commas (List.map print_arg args) ++ RParen :: rest) = Parsed args (RParen :: rest).
Proof.
  intros Hl Hp Hne Hf. destruct f as [|f]; [lia|]. apply (comma_list_reads _ _ f (stops 0)); try done; [|lia].
  intros x r Hin Hx Hr. rewrite forallb_forall in Hp. specialize (Hp x Hin). destruct x as [e|]; [|done].
  apply fmap_parsed. by apply (Hl f e); [lia|..].
Qed.

Lemma args_begin args rest :
  forallb printable_arg args = true -> args <> [] -> begins 0 (commas (List.map print_arg args) ++ rest) = true.
Proof.
  intros Hp Hne. apply begins_app, commas_begin; [by destruct args|]. intros x (a & <- & Ha)%in_map_iff.
  rewrite forallb_forall in Hp. specialize (Hp a Ha). destruct a as [e|]; [|done]. apply begins_print; [exact Hp|lia].
Qed.

(** Behind a call neither FILTER nor OVER follows. *)
Lemma call_reads f name args ts rest :
  matches [is_keyword "DISTINCT"] ts = false ->
  when_token Star (mret [FunctionArg_Star]) (comma_list (FunctionArg_Expr <$> g_expr (rules f))) ts = Parsed args (RParen :: rest) ->
  stops 11 rest = true ->
  parse_primary (rules f) (Token_Ident name :: LParen :: ts) = Parsed (Expr_Function (mkFunctionCall (ObjectName_single name) args None None)) rest.
Proof.
  intros Hd Ha Hs. unfold parse_primary. cbn [on_token]. unfold named_expr. rewrite when_token_hit. unfold function_call.
  rewrite (bind_parsed _ _ _ false ts) by (by apply on_tokens_skip). rewrite (bind_parsed _ _ _ args (RParen :: rest) Ha).
  rewrite (bind_parsed _ _ _ tt rest) by (by apply expect_hit).
  assert (Hk : forall s, In s ["FILTER"; "OVER"] -> matches [is_keyword s] rest = false).
  { intros s Hin. cbn in Hin. destruct_or? Hin; subst; try done; (eapply (stops_keyword 12 11); [done|done| |done|done|lia]); cbn;
      by rewrite uppercase_ascii. }
  rewrite (bind_parsed _ _ _ None rest) by (apply on_tokens_skip, Hk; cbn; auto).
  by rewrite (bind_parsed _ _ _ None rest) by (apply on_tokens_skip, Hk; cbn; auto).
Qed.

(** *** From the level of an expression to the others *)

Definition reads_up (f k : nat) (e : Expr) : Prop := reads f k e /\ (binary k = true -> chains f k e).

Lemma level_descends f e :
  printable e = true -> reads f 11 e -> (forall k, (k < 11)%nat -> expr_level e = k -> reads_up f k e) ->
  forall d k, (k + d = 11)%nat -> reads_up f k e.
Proof.
  intros Hp Hr Hown. induction d as [|d IH]; intros k Hk.
  - assert (k = 11)%nat as -> by lia. by split.
  - destruct (Nat.eq_dec (expr_level e) k) as [Ek|Ek]; [apply Hown; [lia|done]|]. destruct (IH (S k) ltac:(lia)) as [Hnext _].
    destruct (binary k) eqn:Eb.
    + assert (chains f k e) by (by apply next_chains). split; [by apply chains_reads|done].
    + split; [|intros; congruence]. assert (k = 2 \/ k = 3 \/ k = 10)%nat as Hc.
      { do 11 (destruct k as [|k]; [first [discriminate|tauto]|]). lia. }
      destruct_or? Hc; subst; [by apply not_climbs|by apply comparison_climbs|by apply unary_climbs].
Qed.

(** The steps of the induction: what is known of shorter texts and of smaller
    expressions gives an expression at its own level, [own], or as a primary. *)
Lemma primary_step f e :
  (forall f' x k, (f' < f)%nat -> printable x = true -> (k <= 11)%nat -> reads f' k x) -> printable e = true -> reads f 11 e.
Proof.
  intros IHf Hp. assert (IH0 : forall f' x, (f' < f)%nat -> printable x = true -> reads f' 0 x) by (intros; apply IHf; (done || lia)).
  destruct (Nat.ltb_spec (expr_level e) 11) as [He|He]; [apply paren_reads; auto|].
  intros rest Hf Hs. apply primary_reads; [|done]. rewrite print_at in Hf |- *. replace (expr_level e <? 11)%nat with false in Hf |- * by (symmetry; by apply Nat.ltb_ge).
  destruct e as [s|t c|lit|n|e|e|e neg ms|e neg q|e neg lo hi|l op r|op e|q|[[[|name [|? ?]]] args [?|] [?|]]|elems| | | | | | | | | |];
    cbn [printable] in Hp; try discriminate.
  all: try (cbn [expr_level] in He; lia).
  - by apply name_reads.
  - apply qualified_reads.
  - destruct lit; try discriminate; try done; [destruct b|]; apply word_reads; cbn; auto.
  - cbn [expr_level] in He. destruct (op_level op) as [p|] eqn:Eo; [|done]. assert (p < 11)%nat by (destruct op; cbn in Eo; simplify_eq; lia).
    cbn in He. lia.
  - destruct op; cbn [expr_level] in He; lia.
  - assert (Ep : print 0 (Expr_Function (mkFunctionCall {| parts := [name] |} args None None)) =
                 Token_Ident name :: LParen :: commas (List.map print_arg args) ++ [RParen]) by done.
    rewrite Ep in Hf |- *. clear Ep.
    cbn [app] in Hf |- *. rewrite <- app_assoc in Hf |- *. cbn [app length] in Hf |- *.
    assert (Hargs : args = [FunctionArg_Star] \/ (forallb printable_arg args = true /\ args <> [])).
    { destruct args as [|[x|] [|? ?]]; [done|by right|by right|by left|by right]. }
    destruct Hargs as [->|[Hpa Hne]]; [by apply call_reads; [|cbn [List.map commas print_arg app]; by rewrite when_token_hit|]|].
    pose proof (args_begin args (RParen :: rest) Hpa Hne) as Hb. apply call_reads; [| |done].
    + eapply begins_keyword; [exact Hb|cbn; intuition discriminate].
    + unfold when_token. rewrite on_tokens_skip by (by apply (begins_token 0)). apply args_read; try done; [|lia].
      intros f' x Hf' Hin. apply IH0; [done|]. rewrite forallb_forall in Hpa. exact (Hpa _ Hin).
  - change (print 0 (Expr_Array elems)) with (LBracket :: commas (List.map (print 0) elems) ++ [RBracket]) in Hf |- *.
    cbn [app] in Hf |- *. rewrite <- app_assoc in Hf |- *. cbn [app] in Hf |- *. destruct elems as [|x elems]; [done|].
    rewrite forallb_forall in Hp. apply array_reads; auto.
Qed.

Lemma own_step f e :
  (forall f' x k, (f' < f)%nat -> printable x = true -> (k <= 11)%nat -> reads f' k x) ->
  (forall x k, (esize x < esize e)%nat -> printable x = true -> (k <= 11)%nat -> reads_up f k x) ->
  printable e = true -> (expr_level e < 11)%nat -> reads_up f (expr_level e) e.
Proof.
  intros IHf IHe Hp He.
  assert (IHr : forall x k, (esize x < esize e)%nat -> printable x = true -> (k <= 11)%nat -> reads f k x) by (intros; by apply IHe).
  destruct e; cbn [printable] in Hp; try discriminate; try (cbn [expr_level] in He; lia); cbn [esize] in IHr, IHe; rewrite ?andb_true_iff in Hp; destruct_and? Hp.
  - split; [|done]. apply (is_null_reads f e false), IHr; [lia|done|lia].
  - split; [|done]. apply (is_null_reads f e true), IHr; [lia|done|lia].
  - split; [|done]. destruct negated; [done|]. destruct members as [|m members]; [done|]. apply in_reads; [done|done|apply IHr; [lia|done|lia]|].
    intros f' x Hf' Hin. apply IHf; [done| |lia]. by eapply forallb_forall.
  - split; [|done]. destruct negated; [done|]. apply between_reads; apply IHr; (done || lia).
  - cbn [expr_level]. destruct (op_level op) as [p|] eqn:Eo; [|done]. cbn [default from_option id]. rewrite andb_true_iff in Hp. destruct Hp as [Hp1 Hp2].
    destruct (Nat.eq_dec p 3) as [->|Hp3]; [split; [|done]; apply compare_reads; try done; apply IHr; (done || lia)|].
    assert (Hb : binary p = true /\ (p < 11)%nat) by (destruct op; cbn in Eo; simplify_eq; try done; (split; [done|lia])).
    destruct Hb as [Hb Hlt]. assert (Hc : chains f p (Expr_BinaryOp e1 op e2)).
    { apply op_chains; [done..|apply IHe; (done || lia)|apply IHr; (done || lia)]. }
    split; [by apply chains_reads|done].
  - destruct op; cbn [expr_level]; (split; [|done]); [apply sign_reads; [done|]..|apply not_reads|apply sign_reads; [done|]]; apply IHr; (done || lia).
Qed.

Lemma all_read f e k : printable e = true -> (k <= 11)%nat -> reads_up f k e.
Proof.
  revert e k. induction (lt_wf f) as [f _ IHf]. intros e. remember (esize e) as n eqn:En. revert e En.
  induction (lt_wf n) as [n _ IHn]. intros e -> k Hp Hk.
  assert (Hf : forall f' x k, (f' < f)%nat -> printable x = true -> (k <= 11)%nat -> reads f' k x) by (intros; by apply IHf).
  apply (level_descends f e Hp (primary_step f e Hf Hp)) with (d := (11 - k)%nat); [|lia].
  intros k' Hk' <-. apply own_step; try done. intros x j Hx Hpx Hj. by apply (IHn (esize x)).
Qed.
End round_trip.

(** C11. The parser reads an expression back from its tokens, whatever its size, and
    leaves what stands behind, when that does not go on with it: so the operators
    bind in the order OR, AND, NOT, the comparisons, |, ^, &, the shifts, sums and
    products, the signs; the binary ones associate to the left, the comparisons not
    at all; and parentheses are needed only against that order. *)
Theorem print_parse `{UnicodeLaws} e rest f :
  printable e = true -> stops 0 rest = true -> (length (print 0 e ++ rest) < f)%nat ->
  g_expr (rules f) (print 0 e ++ rest) = Parsed e rest.
Proof. intros Hp Hs Hf. destruct f as [|f]; [lia|]. exact (proj1 (all_read f e 0 Hp (Nat.le_0_l _)) rest ltac:(lia) Hs). Qed.

#[local] Existing Instances Ascii_Unicode Ascii_laws.

Lemma print_parse_witness :
  let e := Expr_BinaryOp (Expr_UnaryOp UnaryOperator.Not (Expr_Between (Expr_Identifier "x") false
             (Expr_BinaryOp (Expr_Literal (Literal.Number "1")) BinaryOperator.Minus (Expr_Literal (Literal.Number "2")))
             (Expr_Function (mkFunctionCall (ObjectName_single "f") [FunctionArg_Expr (Expr_Identifier "y")] None None))))
             BinaryOperator.And (Expr_Literal (Literal.Bool true)) in
  g_expr (rules 20) (print 0 e ++ [RParen]) = Parsed e [RParen].
Proof. intros e. apply (print_parse e [RParen] 20); [reflexivity|reflexivity|cbn; lia]. Defined.
