(* ===== verification/StatementPrint.v ===== *)
(** Statements as tokens: the text of a query, of INSERT, UPDATE, DELETE and of the
    statements without a body, and that the parser ([parser/select.rs],
    [parser/dml.rs], [parser/ddl.rs], [parser/transaction.rs]) reads it back. *)

From S2P Require Import Prelude SqlText Token Parsing Ast ExprParser SelectParser StatementParser SqlParser ExprPrint.

(* ------------------------------------------------------------------ *)
(** ** What is read back *)

(** The keywords of clauses go on with no expression; they are written in capitals. *)
Definition plain_word (k : string) : bool :=
  is_ascii_text k && String.eqb (map_text ascii_upper k) k
  && negb (existsb (String.eqb k) ["OR"; "AND"; "IN"; "BETWEEN"; "LIKE"; "ILIKE"; "IS"; "AT"; "FILTER"; "OVER"]).

Definition calm (t : Token) : bool := match t with Token_Keyword k => plain_word k | Comma => true | _ => false end.

(** The text behind ends, closes a parenthesis, or goes on with one of these tokens. *)
Definition ends_at (heads : list Token) (rest : list Token) : bool :=
  match rest with [] => true | t :: _ => existsb (fun u => bool_decide (t = u)) (Eof :: RParen :: heads) end.

(** A keyword that is none of the heads. *)
Definition fresh (k : string) (heads : list Token) : bool :=
  forallb calm heads && negb (existsb (fun u => bool_decide (Token_Keyword k = u)) heads).

Definition fresh_token (t : Token) (heads : list Token) : bool :=
  negb (existsb (fun u => bool_decide (t = u)) (Eof :: RParen :: heads)).

(** Up to [n] tokens that begin with [pre] and go on with what is [ok]: the parser
    reads [pre] as [a]. *)
Definition eats {A} (n : nat) (p : parser A) (pre : list Token) (a : A) (ok : list Token -> bool) : Prop :=
  forall rest, ok rest = true -> (length (pre ++ rest) <= n)%nat -> p (pre ++ rest) = Parsed a rest.

(** A part that is left out, or begins with one of these tokens. *)
Definition opened (heads ts : list Token) : Prop := match ts with [] => True | t :: _ => In t heads end.

(** A clause: its keyword and what stands behind it. *)
Definition clause {X} (k : string) (pr : X -> list Token) (o : option X) : list Token :=
  match o with Some x => Token_Keyword k :: pr x | None => [] end.

Lemma ends_opened heads heads' ts rest :
  opened heads ts -> ends_at heads' rest = true -> ends_at (heads ++ heads') (ts ++ rest) = true.
Proof.
  destruct ts as [|t ts]; cbn [opened app].
  - destruct rest as [|t rest]; [done|]. unfold ends_at. rewrite !existsb_exists. intros _ (u & Hin & Hu). exists u. split; [|done].
    cbn in Hin |- *. rewrite in_app_iff. tauto.
  - intros Hin _. cbn. apply orb_true_iff; right. apply orb_true_iff; right. apply existsb_exists. exists t.
    rewrite in_app_iff. split; [by left|by apply bool_decide_eq_true].
Qed.

Lemma opened_clause {X} k (pr : X -> list Token) o : opened [Token_Keyword k] (clause k pr o).
Proof. destruct o; cbn; auto. Qed.

Lemma opened_nil heads : opened heads [].
Proof. done. Qed.

Section framework.
Context `{UnicodeLaws}.

Lemma plain_upper k : plain_word k = true -> is_ascii_text k = true /\ map_text ascii_upper k = k.
Proof. unfold plain_word. rewrite !andb_true_iff, String.eqb_eq. tauto. Qed.

Lemma plain_is k b : plain_word k = true -> is_keyword b (Token_Keyword k) = String.eqb k b.
Proof. intros [Ha Hu]%plain_upper. by apply keyword_is. Qed.

Lemma calm_binds t : calm t = true -> binds t = None.
Proof.
  destruct t; try done. intros Hk. pose proof (plain_upper _ Hk) as [Ha Hu]. cbn. rewrite (uppercase_ascii _ Ha), Hu.
  cbn in Hk. unfold plain_word in Hk. rewrite !andb_true_iff, negb_true_iff in Hk. destruct Hk as [_ Hk]. cbn in Hk.
  repeat match goal with Hk : (_ || _)%bool = false |- _ => apply orb_false_iff in Hk as [? Hk] end.
  cbn. by repeat match goal with E : String.eqb ?a ?b = false |- _ => rewrite E; clear E end.
Qed.

Lemma ends_head heads t rest : ends_at heads (t :: rest) = true -> t = Eof \/ t = RParen \/ In t heads.
Proof.
  unfold ends_at. rewrite existsb_exists. intros (u & Hin & ->%bool_decide_eq_true). cbn in Hin. intuition.
Qed.

Lemma ends_stops k heads rest : forallb calm heads = true -> ends_at heads rest = true -> stops k rest = true.
Proof.
  destruct rest as [|t rest]; [done|]. intros Hc Ht. unfold stops. apply ends_head in Ht as [->|[->|Hin]]; [done..|].
  rewrite forallb_forall in Hc. by rewrite (calm_binds t (Hc t Hin)).
Qed.

Lemma ends_keyword k heads rest : fresh k heads = true -> ends_at heads rest = true -> matches [is_keyword k] rest = false.
Proof.
  destruct rest as [|t rest]; [done|]. unfold fresh. rewrite andb_true_iff, negb_true_iff, forallb_forall. intros [Hc Hk] Ht.
  cbn. rewrite andb_true_r. apply ends_head in Ht as [->|[->|Hin]]; [done..|]. specialize (Hc t Hin). destruct t as [| | |s| | | | | | | | | | | | | | | | | | | | | | | | | | | |]; try done.
  rewrite plain_is by done. apply String.eqb_neq. intros ->. apply not_true_iff_false in Hk. apply Hk, existsb_exists.
  exists (Token_Keyword k). split; [done|by apply bool_decide_eq_true].
Qed.

Lemma ends_token t heads rest : fresh_token t heads = true -> ends_at heads rest = true -> matches [is_token t] rest = false.
Proof.
  destruct rest as [|u rest]; [done|]. unfold fresh_token. rewrite negb_true_iff. intros Hf Hu. cbn. rewrite andb_true_r.
  apply bool_decide_eq_false. intros ->. unfold ends_at in Hu. congruence.
Qed.

Lemma at_word a b rest : plain_word a = true -> matches [is_keyword b] (Token_Keyword a :: rest) = String.eqb a b.
Proof. intros Ha. cbn [matches]. by rewrite andb_true_r, plain_is. Qed.

(** *** How parsers are put together *)

Lemma eats_bind {A B} n (p : parser A) (f : A -> parser B) pre1 pre2 a b ok1 ok2 :
  eats n p pre1 a ok1 -> eats n (f a) pre2 b ok2 -> (forall rest, ok2 rest = true -> ok1 (pre2 ++ rest) = true) ->
  eats n (p ≫= f) (pre1 ++ pre2) b ok2.
Proof.
  intros Hp Hf Hok rest Hr Hn. rewrite <- app_assoc in Hn |- *. rewrite (bind_parsed _ _ _ a (pre2 ++ rest)); [|by apply Hp; [apply Hok|]].
  apply Hf; [done|]. rewrite length_app in Hn. lia.
Qed.

(** The first part is there whatever follows. *)
Lemma eats_then {A B} n (p : parser A) (f : A -> parser B) pre1 pre2 a b ok :
  eats n p pre1 a (fun _ => true) -> eats n (f a) pre2 b ok -> eats n (p ≫= f) (pre1 ++ pre2) b ok.
Proof. intros Hp Hf. by apply (eats_bind n p f pre1 pre2 a b (fun _ => true)). Qed.

Lemma eats_fmap {A B} n (p : parser A) (f : A -> B) pre a ok : eats n p pre a ok -> eats n (f <$> p) pre (f a) ok.
Proof. intros Hp rest Hr Hn. by apply fmap_parsed, Hp. Qed.

Lemma eats_ret {A} n (a : A) ok : eats n (mret a) [] a ok.
Proof. by intros rest _ _. Qed.

Lemma eats_map {A B} n (p : parser A) (f : A -> B) pre a ok : eats n p pre a ok -> eats n (x ← p; mret (f x)) pre (f a) ok.
Proof. intros Hp rest Hr Hn. by rewrite (bind_parsed _ _ _ a rest) by (by apply Hp). Qed.

Lemma eats_ok {A} n (p : parser A) pre a (ok ok' : list Token -> bool) :
  eats n p pre a ok -> (forall rest, ok' rest = true -> ok rest = true) -> eats n p pre a ok'.
Proof. intros Hp Hok rest Hr. apply Hp. auto. Qed.

Lemma eats_expect n t : eats n (expect t) [t] tt (fun _ => true).
Proof. intros rest _ _. apply expect_hit. Qed.

Lemma eats_expect_keyword n k : plain_word k = true -> eats n (expect_keyword k) [Token_Keyword k] tt (fun _ => true).
Proof. intros [Ha Hu]%plain_upper rest _ _. by apply expect_keyword_hit. Qed.

Lemma eats_ident n s : eats n expect_ident [Token_Ident s] s (fun _ => true).
Proof. by intros rest _ _. Qed.

Lemma eats_keyword {A} n k (p o : parser A) pre a ok :
  plain_word k = true -> eats n p pre a ok -> eats n (when_keyword k p o) (Token_Keyword k :: pre) a ok.
Proof. intros [Ha Hu]%plain_upper Hp rest Hr Hn. cbn [app] in *. rewrite when_keyword_hit by done. apply Hp; [done|]. cbn in Hn. lia. Qed.

Lemma eats_token {A} n t (p o : parser A) pre a ok : eats n p pre a ok -> eats n (when_token t p o) (t :: pre) a ok.
Proof. intros Hp rest Hr Hn. cbn [app] in *. rewrite when_token_hit. apply Hp; [done|]. cbn in Hn. lia. Qed.

(** What is not there is passed over. *)
Lemma eats_else {A} n f tests (p o : parser A) pre a ok :
  (forall rest, ok rest = true -> matches [f] (pre ++ rest) = false) -> eats n o pre a ok -> eats n (on_tokens (f :: tests) p o) pre a ok.
Proof. intros Hm Ho rest Hr Hn. rewrite on_tokens_skip by auto. by apply Ho. Qed.

Lemma eats_no_keyword {A} n k (p o : parser A) a heads :
  fresh k heads = true -> eats n o [] a (ends_at heads) -> eats n (when_keyword k p o) [] a (ends_at heads).
Proof. intros Hk. apply eats_else. intros rest. by apply ends_keyword. Qed.

Lemma eats_optional {X} n k (p : parser X) pr o heads :
  plain_word k = true -> fresh k heads = true -> (forall x, o = Some x -> eats n p (pr x) x (ends_at heads)) ->
  eats n (optional (is_keyword k) p) (clause k pr o) o (ends_at heads).
Proof.
  intros Hp Hk Hx. destruct o as [x|].
  - by apply eats_keyword, eats_fmap, Hx.
  - by apply eats_no_keyword, eats_ret.
Qed.

Lemma eats_parens {A} n (p : parser A) pre a heads :
  eats n p pre a (ends_at heads) -> eats n (parens p) (LParen :: pre ++ [RParen]) a (fun _ => true).
Proof.
  intros Hp. apply (eats_then n _ _ [LParen] (pre ++ [RParen]) tt); [apply eats_expect|].
  apply (eats_bind n _ _ pre [RParen] a a (ends_at heads)); [done| |done]. apply (eats_then n _ _ [RParen] [] tt); [apply eats_expect|apply eats_ret].
Qed.

Lemma eats_commas {A} n (p : parser A) (pr : A -> list Token) heads l :
  l <> [] -> fresh_token Comma heads = true -> (forall x, In x l -> eats n p (pr x) x (ends_at (Comma :: heads))) ->
  eats n (comma_list p) (commas (List.map pr l)) l (ends_at heads).
Proof.
  intros Hne Hc Hl rest Hr Hn. apply (comma_list_reads p pr n (ends_at (Comma :: heads))); try done.
  - intros x r Hin Hnx Hrx. by apply Hl.
  - exact (ends_opened [Comma] heads [] rest I Hr).
  - by apply (ends_token Comma heads).
Qed.

Lemma eats_word {B} n k (f : unit -> parser B) pre b ok :
  plain_word k = true -> eats n (f tt) pre b ok -> eats n (expect_keyword k ≫= f) (Token_Keyword k :: pre) b ok.
Proof. intros Hk. apply (eats_then n _ _ [Token_Keyword k]). by apply eats_expect_keyword. Qed.

(** The keyword a statement begins with. *)
Lemma eats_first {B} n k (f : unit -> parser B) pre b ok :
  plain_word k = true -> eats n (f tt) pre b ok -> eats (S n) (expect_keyword k ≫= f) (Token_Keyword k :: pre) b ok.
Proof.
  intros [Ha Hu]%plain_upper Hf rest Hr Hn. cbn [app length] in *. rewrite (bind_parsed _ _ _ tt (pre ++ rest)) by (by apply expect_keyword_hit).
  apply Hf; [done|lia].
Qed.

(** A loop: one round for each item, and a round that ends it. *)
Lemma eats_loop {A X} n (body : A -> parser (option A)) (add : A -> X -> A) (pr : X -> list Token) heads heads' l a :
  (forall x, In x l -> pr x <> [] /\ opened heads (pr x)) ->
  (forall a x, In x l -> eats n (body a) (pr x) (Some (add a x)) (ends_at (heads ++ heads'))) ->
  (forall a, eats n (body a) [] None (ends_at heads')) ->
  eats n (loop body a) (concat (List.map pr l)) (foldl add a l) (ends_at heads').
Proof.
  intros Ho Hb Hend rest Hr Hn. unfold loop.
  assert (Hl : forall l', (forall x, In x l' -> In x l) -> opened heads (concat (List.map pr l'))).
  { intros [|x l'] Hin; [done|]. destruct (Ho x (Hin x (or_introl eq_refl))) as [Hne Hx]. cbn. by destruct (pr x). }
  assert (Hgo : forall l' a fuel, (forall x, In x l' -> In x l) -> (length (concat (List.map pr l') ++ rest) <= n)%nat -> (length (concat (List.map pr l')) < fuel)%nat ->
    iterate fuel body a (concat (List.map pr l') ++ rest) = Parsed (foldl add a l') rest).
  { induction l' as [|x l' IH]; intros b [|fuel] Hin Hl' Hf; cbn [List.map concat length] in Hf; try lia; cbn [iterate].
    - cbn [List.map concat app] in *. by rewrite (bind_parsed _ _ _ None rest) by (by apply (Hend b rest)).
    - cbn [List.map concat] in Hl', Hf |- *. rewrite <- app_assoc in Hl' |- *. rewrite length_app in Hf.
      destruct (Ho x (Hin x (or_introl eq_refl))) as [Hne _]. assert (1 <= length (pr x))%nat by (destruct (pr x); [done|cbn; lia]).
      rewrite (bind_parsed _ _ _ (Some (add b x)) (concat (List.map pr l') ++ rest)).
      + cbv beta iota. rewrite IH; [done|intros y Hy; apply Hin; by right| |lia]. rewrite length_app in Hl'. lia.
      + apply Hb; [apply Hin; by left| |done]. apply ends_opened; [|done]. apply Hl. intros y Hy. apply Hin. by right. }
  apply Hgo; [done|done|]. rewrite length_app. lia.
Qed.
End framework.

(** Keywords one after the other. *)
Ltac eat_words :=
  repeat first
    [ apply eats_ret
    | apply eats_keyword; [done|]
    | apply eats_word; [done|]
    | apply eats_else; [intros ? _; cbn [app]; by rewrite at_word|] ].

(* ------------------------------------------------------------------ *)
(** ** The tokens of a query *)

Definition words (ks : list string) : list Token := List.map Token_Keyword ks.

Definition print_name (name : ObjectName) : list Token :=
  match parts name with [] => [] | p :: ps => Token_Ident p :: behind (fun p => [Token_Ident p]) Dot ps end.

Definition print_names (names : list string) : list Token := LParen :: commas (List.map (fun s => [Token_Ident s]) names) ++ [RParen].

Definition print_alias (a : option string) : list Token := clause "AS" (fun s => [Token_Ident s]) a.

Definition print_item (i : SelectItem) : list Token :=
  match i with
  | SelectItem_Expr e => print 0 e
  | SelectItem_ExprAs e a => print 0 e ++ print_alias (Some a)
  | SelectItem_Star => [Star]
  | SelectItem_TableStar t => [Star; Dot; Token_Ident t]
  end.

Definition exprs (l : list Expr) : list Token := commas (List.map (print 0) l).

Definition print_distinct (d : DistinctClause) : list Token :=
  match d with
  | DistinctClause_All => []
  | DistinctClause_Distinct => words ["DISTINCT"]
  | DistinctClause_DistinctOn l => words ["DISTINCT"; "ON"] ++ LParen :: exprs l ++ [RParen]
  end.

Definition join_words (t : JoinType) : list string :=
  [match t with
   | JoinType.Inner => "INNER" | JoinType.Left => "LEFT" | JoinType.Right => "RIGHT" | JoinType.Full => "FULL"
   | JoinType.Cross => "CROSS" | JoinType.Lateral => "LATERAL"
   end; "JOIN"].

Definition print_constraint (c : JoinConstraint) : list Token :=
  match c with
  | JoinConstraint_On e => Token_Keyword "ON" :: print 0 e
  | JoinConstraint_Using cols => Token_Keyword "USING" :: print_names cols
  | JoinConstraint_None => []
  end.

Definition print_direction (d : SortDirection) : list Token :=
  match d with SortDirection.Asc => words ["ASC"] | SortDirection.Desc => words ["DESC"] | SortDirection.Default => [] end.
Definition print_nulls (n : NullsOrder) : list Token :=
  match n with NullsOrder.First => words ["NULLS"; "FIRST"] | NullsOrder.Last => words ["NULLS"; "LAST"] | NullsOrder.Default => [] end.
Definition print_order_item (i : OrderByItem) : list Token :=
  match i with mkOrderByItem e d n => print 0 e ++ print_direction d ++ print_nulls n end.

(** GROUP BY and ORDER BY with their lists. *)
Definition print_by {X} (k : string) (pr : X -> list Token) (l : list X) : list Token :=
  match l with [] => [] | _ => words [k; "BY"] ++ commas (List.map pr l) end.

Definition print_limit (l : LimitClause) : list Token :=
  match l with LimitClause_All => words ["ALL"] | LimitClause_Expr e => print 0 e end.

Definition lock_words (l : LockingClause) : list string :=
  "FOR" :: match l with
           | LockingClause.ForUpdate => ["UPDATE"] | LockingClause.ForNoKeyUpdate => ["NO"; "KEY"; "UPDATE"]
           | LockingClause.ForShare => ["SHARE"] | LockingClause.ForKeyShare => ["KEY"; "SHARE"]
           end.

Definition set_words (o : SetOperator) : list string :=
  match o with
  | SetOperator.Union => ["UNION"] | SetOperator.UnionAll => ["UNION"; "ALL"]
  | SetOperator.Intersect => ["INTERSECT"] | SetOperator.IntersectAll => ["INTERSECT"; "ALL"]
  | SetOperator.Except => ["EXCEPT"] | SetOperator.ExceptAll => ["EXCEPT"; "ALL"]
  end.

Section from.
Context (query : SelectStatement -> list Token).

Definition print_table (t : TableRef) : list Token :=
  match t with
  | TableRef_Table name => print_name name
  | TableRef_Subquery q => LParen :: query q ++ [RParen]
  | TableRef_Function _ => []
  end.

Definition print_join (j : Join) : list Token :=
  match j with mkJoin t a ty c => words (join_words ty) ++ print_table t ++ print_alias a ++ print_constraint c end.

Definition print_from (f : FromClause) : list Token :=
  match f with
  | mkFromClause (mkJoin t a _ _ :: joins) => print_table t ++ print_alias a ++ concat (List.map print_join joins)
  | mkFromClause [] => []
  end.

Definition print_set_operation (o : SetOperation) : list Token :=
  match o with mkSetOperation op q => words (set_words op) ++ LParen :: query q ++ [RParen] end.
End from.

(** A query: the right sides of its set operations and the queries in FROM are in
    parentheses. *)
Fixpoint print_select (q : SelectStatement) : list Token :=
  match q with
  | mkSelectStatement _ distinct items from where_clause group_by having order_by limit offset locking ops =>
      words ["SELECT"] ++ print_distinct distinct ++ commas (List.map print_item items)
      ++ clause "FROM" (print_from print_select) from ++ clause "WHERE" (print 0) where_clause ++ print_by "GROUP" (print 0) group_by
      ++ clause "HAVING" (print 0) having ++ print_by "ORDER" print_order_item order_by ++ clause "LIMIT" print_limit limit
      ++ clause "OFFSET" (print 0) offset ++ concat (List.map (fun l => words (lock_words l)) locking)
      ++ concat (List.map (print_set_operation print_select) ops)
  end.

(* ------------------------------------------------------------------ *)
(** ** The queries that are printed *)

Definition nonempty {X} (l : list X) : bool := match l with [] => false | _ => true end.
Definition given {X} (p : X -> bool) (o : option X) : bool := match o with Some x => p x | None => true end.

Definition printable_item (i : SelectItem) : bool :=
  match i with SelectItem_Expr e | SelectItem_ExprAs e _ => printable e | _ => true end.
Definition printable_constraint (c : JoinConstraint) : bool :=
  match c with JoinConstraint_On e => printable e | JoinConstraint_Using cols => nonempty cols | JoinConstraint_None => true end.
Definition printable_distinct (d : DistinctClause) : bool :=
  match d with DistinctClause_DistinctOn l => nonempty l && forallb printable l | _ => true end.
Definition printable_limit (l : LimitClause) : bool := match l with LimitClause_All => true | LimitClause_Expr e => printable e end.

Section printable_from.
Context (query : SelectStatement -> bool).

Definition printable_table (t : TableRef) : bool :=
  match t with TableRef_Table name => nonempty (parts name) | TableRef_Subquery q => query q | TableRef_Function _ => false end.

(** The first table is kept as a join without a condition. *)
Definition printable_from (f : FromClause) : bool :=
  match f with
  | mkFromClause (mkJoin t _ JoinType.Inner JoinConstraint_None :: joins) =>
      printable_table t && forallb (fun j => match j with mkJoin t _ _ c => printable_table t && printable_constraint c end) joins
  | _ => false
  end.
End printable_from.

(** Queries without WITH, whose expressions are printed. *)
Fixpoint printable_select (q : SelectStatement) : bool :=
  match q with
  | mkSelectStatement with_ distinct items from where_clause group_by having order_by limit offset _ ops =>
      match with_ with None => true | Some _ => false end
      && printable_distinct distinct && nonempty items && forallb printable_item items && given (printable_from printable_select) from
      && given printable where_clause && forallb printable group_by && given printable having
      && forallb (fun i => match i with mkOrderByItem e _ _ => printable e end) order_by && given printable_limit limit
      && given printable offset && forallb (fun o => match o with mkSetOperation _ q => printable_select q end) ops
  end.

(* ------------------------------------------------------------------ *)
(** ** Reading a query back *)

Section queries.
Context `{UnicodeLaws} (f : nat).
Abbreviation g := (rules (S f)).

Lemma eats_expr e heads : printable e = true -> forallb calm heads = true -> eats f (g_expr g) (print 0 e) e (ends_at heads).
Proof. intros Hp Hc rest Hr Hn. exact (proj1 (all_read f e 0 Hp (Nat.le_0_l _)) rest Hn (ends_stops 0 heads rest Hc Hr)). Qed.

Lemma eats_exprs l heads :
  forallb printable l = true -> nonempty l = true -> forallb calm heads = true -> fresh_token Comma heads = true ->
  eats f (comma_list (g_expr g)) (exprs l) l (ends_at heads).
Proof.
  intros Hp Hne Hc Hf. apply eats_commas; [by destruct l|done|]. intros x Hx. rewrite forallb_forall in Hp. apply eats_expr; [by apply Hp|exact Hc].
Qed.

(** An expression begins with no keyword of a clause. *)
Lemma expr_no_keyword k e rest :
  printable e = true -> existsb (String.eqb k) ["TRUE"; "FALSE"; "NULL"; "NOT"] = false -> matches [is_keyword k] (print 0 e ++ rest) = false.
Proof.
  intros Hp Hk. apply (begins_keyword 0); [by apply begins_app, begins_print; [|lia]|]. intros Hin.
  apply not_true_iff_false in Hk. apply Hk, existsb_exists. exists k. split; [done|apply String.eqb_refl].
Qed.

Lemma expr_no_token t e rest : printable e = true -> leads 0 t = false -> matches [is_token t] (print 0 e ++ rest) = false.
Proof. intros Hp Ht. eapply begins_token; [|exact Ht]. apply begins_app, begins_print; [done|lia]. Qed.

(** *** Names *)

Lemma eats_name name heads :
  nonempty (parts name) = true -> fresh_token Dot heads = true -> eats f object_name (print_name name) name (ends_at heads).
Proof.
  destruct name as [[|p ps]]; [done|]. intros _ Hd. unfold object_name.
  change {| parts := p :: ps |} with (named (p :: ps)). apply eats_fmap. intros rest Hr Hn. unfold print_name. cbn [parts app].
  change (Token_Ident p :: behind (fun p => [Token_Ident p]) Dot ps ++ rest)
    with ((fun p => [Token_Ident p]) p ++ behind (fun p => [Token_Ident p]) Dot ps ++ rest).
  apply (separated_reads expect_ident (fun p => [Token_Ident p]) f Dot (fun _ => true)); try done. by apply (ends_token Dot heads).
Qed.

Lemma eats_names cols : nonempty cols = true -> eats f (parens (comma_list expect_ident)) (print_names cols) cols (fun _ => true).
Proof.
  intros Hne. apply (eats_parens f _ _ _ []). apply eats_commas; [by destruct cols|done|]. intros x _. by eapply eats_ok; [apply eats_ident|].
Qed.

Lemma eats_alias a heads : fresh "AS" heads = true -> eats f alias (print_alias a) a (ends_at heads).
Proof.
  intros Ha. unfold alias. destruct a as [s|].
  - apply eats_keyword; [done|]. apply eats_fmap. by eapply eats_ok; [apply eats_ident|].
  - apply eats_no_keyword; [done|]. intros rest Hr _. apply on_token_skip. destruct rest as [|t rest]; [done|].
    unfold fresh in Ha. apply andb_true_iff in Ha as [Hc _]. rewrite forallb_forall in Hc.
    apply ends_head in Hr as [->|[->|Hin]]; [done..|]. specialize (Hc t Hin). by destruct t.
Qed.

(** *** The list of a query *)

Lemma eats_item i heads :
  printable_item i = true -> fresh "AS" heads = true -> fresh_token Dot heads = true -> eats f (select_item g) (print_item i) i (ends_at heads).
Proof.
  intros Hp Ha Hd. pose proof Ha as [Hc _]%andb_true_iff. unfold select_item, print_item.
  assert (Has : forall e a, printable e = true ->
    eats f (when_keyword "AS" (alias ← expect_ident; mret (SelectItem_ExprAs e alias))
      (on_token (fun t => match t with Token_Ident s => Some (mret (SelectItem_ExprAs e s)) | _ => None end) (mret (SelectItem_Expr e))))
      (print_alias a) (match a with Some a => SelectItem_ExprAs e a | None => SelectItem_Expr e end) (ends_at heads)).
  { intros e [a|] _.
    - apply eats_keyword; [done|]. apply eats_map. by eapply eats_ok; [apply eats_ident|].
    - apply eats_no_keyword; [done|]. intros rest Hr _. apply on_token_skip. destruct rest as [|t rest]; [done|].
      rewrite forallb_forall in Hc. apply ends_head in Hr as [->|[->|Hin]]; [done..|]. specialize (Hc t Hin). by destruct t. }
  assert (Hgo : forall e a, printable e = true ->
    eats f (select_item g) (print 0 e ++ print_alias a) (match a with Some a => SelectItem_ExprAs e a | None => SelectItem_Expr e end) (ends_at heads)).
  { intros e a He. apply eats_else; [intros rest _; rewrite <- app_assoc; by apply expr_no_token|].
    eapply eats_bind; [by apply (eats_expr e (words ["AS"] ++ heads))|by apply Has|].
    intros rest Hr. by apply ends_opened; [apply opened_clause|]. }
  destruct i as [e|e a| |t].
  - rewrite <- (app_nil_r (print 0 e)). by apply (Hgo e None).
  - by apply (Hgo e (Some a)).
  - apply eats_token. apply eats_else; [|apply eats_ret]. intros rest Hr. by apply (ends_token Dot heads).
  - apply eats_token, eats_token. apply eats_map. by eapply eats_ok; [apply eats_ident|].
Qed.

Lemma eats_items l heads :
  forallb printable_item l = true -> nonempty l = true -> fresh "AS" heads = true -> fresh_token Dot heads = true -> fresh_token Comma heads = true ->
  eats f (parse_select_list g) (commas (List.map print_item l)) l (ends_at heads).
Proof.
  intros Hp Hne Ha Hd Hc. apply eats_commas; [by destruct l|done|]. intros x Hx. rewrite forallb_forall in Hp.
  apply eats_item; [by apply Hp|exact Ha|exact Hd].
Qed.

(** The items begin with none of the keywords looked for before them. *)
Lemma items_no_keyword k l rest :
  forallb printable_item l = true -> nonempty l = true -> existsb (String.eqb k) ["TRUE"; "FALSE"; "NULL"; "NOT"] = false ->
  matches [is_keyword k] (commas (List.map print_item l) ++ rest) = false.
Proof.
  destruct l as [|i l]; [done|]. cbn [forallb List.map]. intros [Hi _]%andb_true_iff _ Hk. rewrite commas_cons, <- app_assoc.
  destruct i; cbn [print_item]; rewrite <- ?app_assoc; try done; by apply expr_no_keyword.
Qed.

(** What is left out before something that does not begin with a keyword. *)
Definition no_words (ks : list string) (rest : list Token) : bool := forallb (fun k => negb (matches [is_keyword k] rest)) ks.

Lemma eats_distinct d :
  printable_distinct d = true -> eats f (distinct_clause g) (print_distinct d) d (no_words ["DISTINCT"; "ON"]).
Proof.
  intros Hp. unfold distinct_clause. destruct d as [| |l]; cbn [print_distinct words List.map app].
  - apply eats_else; [|apply eats_ret]. intros rest Hr. unfold no_words in Hr. cbn [forallb] in Hr.
    rewrite !andb_true_iff, !negb_true_iff in Hr. tauto.
  - apply eats_keyword; [done|]. apply eats_else; [|apply eats_ret]. intros rest Hr.
    unfold no_words in Hr. cbn [forallb] in Hr. rewrite !andb_true_iff, !negb_true_iff in Hr. tauto.
  - apply andb_true_iff in Hp as [Hne Hp]. apply eats_keyword; [done|]. apply eats_keyword; [done|]. apply eats_fmap.
    eapply eats_ok; [|done]. apply (eats_parens f _ _ _ []). by apply eats_exprs.
Qed.
(** *** FROM *)

Context (Hq : forall q, printable_select q = true -> eats f (g_select g) (print_select q) q (ends_at (words ["RETURNING"]))).

Lemma select_begins q rest : matches [is_keyword "SELECT"] (print_select q ++ rest) = true.
Proof. destruct q. by apply (at_word "SELECT"). Qed.

(** A query in parentheses. *)
Lemma eats_query {A} (h : SelectStatement -> A) q ok :
  printable_select q = true -> eats f (q ← g_select g; _ ← expect RParen; mret (h q)) (print_select q ++ [RParen]) (h q) ok.
Proof.
  intros Hp. eapply eats_bind; [by apply Hq| |done]. change [RParen] with ([RParen] ++ []). eapply eats_then; [apply eats_expect|apply eats_ret].
Qed.

Lemma eats_table t heads :
  printable_table printable_select t = true -> fresh_token Dot heads = true -> eats f (parse_table_ref g) (print_table print_select t) t (ends_at heads).
Proof.
  intros Hp Hd. unfold parse_table_ref. destruct t as [name|q|]; [| |done].
  - destruct name as [[|p ps]]; [done|]. apply eats_else; [by intros rest _|].
    pose proof (eats_name {| parts := p :: ps |} heads eq_refl Hd) as Hn. intros rest Hr Hl. specialize (Hn rest Hr Hl).
    unfold object_name, fmap, parser_fmap, mbind, parser_bind in Hn |- *. destruct (dotted_name _); [|done..].
    cbn in Hn |- *. by injection Hn as -> ->.
  - apply eats_token. intros rest Hr Hl. cbn [app] in Hl |- *. unfold at_keyword.
    rewrite (bind_parsed _ _ _ true ((print_select q ++ [RParen]) ++ rest)); [|by rewrite <- app_assoc, select_begins].
    by apply (eats_query TableRef_Subquery q (fun _ => true)).
Qed.

Lemma eats_join_type t ok : eats f parse_join_type (words (join_words t)) t ok.
Proof.
  intros rest _ _. unfold parse_join_type.
  rewrite (bind_parsed _ _ _ t (Token_Keyword "JOIN" :: rest)); [by rewrite (bind_parsed _ _ _ tt rest) by (by apply expect_keyword_hit)|].
  unfold when_keyword. destruct t; cbn [words join_words List.map app];
    repeat (rewrite on_tokens_skip by (by rewrite at_word));
    unfold on_tokens at 1; rewrite at_word by done; cbn [String.eqb Ascii.eqb Bool.eqb drop length]; try done; by apply on_tokens_skip; rewrite at_word.
Qed.

Lemma eats_constraint c heads :
  printable_constraint c = true -> fresh "ON" heads = true -> fresh "USING" heads = true ->
  eats f (join_constraint g) (print_constraint c) c (ends_at heads).
Proof.
  intros Hp Ho Hu. pose proof Ho as [Hc _]%andb_true_iff. unfold join_constraint. destruct c as [e|cols|]; cbn [print_constraint].
  - apply eats_keyword; [done|]. by apply eats_fmap, eats_expr.
  - apply eats_else; [intros rest _; by apply (at_word "USING")|]. apply eats_keyword; [done|]. apply eats_fmap.
    by eapply eats_ok; [apply eats_names|].
  - do 2 (apply eats_no_keyword; [done|]). apply eats_ret.
Qed.

Definition join_heads : list Token := words ["INNER"; "LEFT"; "RIGHT"; "FULL"; "CROSS"; "LATERAL"].

(** Tokens that begin no join and continue none. *)
Definition joins_end (heads : list Token) : bool :=
  forallb (fun k => fresh k heads) ["JOIN"; "INNER"; "LEFT"; "RIGHT"; "FULL"; "CROSS"; "NATURAL"; "LATERAL"; "ON"; "USING"; "AS"]
  && fresh_token Dot heads.

Lemma fresh_app k h1 h2 : fresh k (h1 ++ h2) = fresh k h1 && fresh k h2.
Proof.
  unfold fresh. rewrite forallb_app, existsb_app, negb_orb.
  by destruct (forallb calm h1), (forallb calm h2), (existsb _ h1), (existsb _ h2).
Qed.

Lemma fresh_token_app t h1 h2 : fresh_token t (h1 ++ h2) = fresh_token t h1 && fresh_token t h2.
Proof.
  unfold fresh_token. cbn [existsb]. rewrite existsb_app, !negb_orb.
  by destruct (bool_decide (t = Eof)), (bool_decide (t = RParen)), (existsb _ h1), (existsb _ h2).
Qed.

(** The words that go on with a FROM clause are fresh behind a table, a join or its alias. *)
Lemma joins_end_fresh heads k :
  joins_end heads = true -> In k ["JOIN"; "INNER"; "LEFT"; "RIGHT"; "FULL"; "CROSS"; "NATURAL"; "LATERAL"; "ON"; "USING"; "AS"] -> fresh k heads = true.
Proof. unfold joins_end. rewrite andb_true_iff, forallb_forall. intros [Hf _] Hin. by apply Hf. Qed.

Lemma joins_end_dot heads : joins_end heads = true -> fresh_token Dot heads = true.
Proof. unfold joins_end. rewrite andb_true_iff. tauto. Qed.

Lemma no_join heads rest : joins_end heads = true -> ends_at heads rest = true -> join_word (default Eof (head rest)) = false.
Proof.
  intros Hj Hr. apply not_true_iff_false. intros Hw. unfold join_word in Hw. apply existsb_exists in Hw as (k & Hin & Hk).
  destruct rest as [|t rest]; [done|]. assert (Hm : matches [is_keyword k] (t :: rest) = true) by (cbn in *; by rewrite Hk).
  rewrite (ends_keyword k heads) in Hm; [done| |done]. apply (joins_end_fresh heads); [done|]. cbn in *. tauto.
Qed.

Lemma opened_constraint c : opened (words ["ON"; "USING"]) (print_constraint c).
Proof. destruct c; cbn; auto. Qed.

Definition join_round (joins : list Join) : parser (option (list Join)) :=
  t ← peek;
  if join_word t then
    join_type ← parse_join_type; table ← parse_table_ref g; a ← alias; constraint ← join_constraint g;
    mret (Some (joins ++ [mkJoin table a join_type constraint]))
  else mret None.

Lemma eats_join joins j heads :
  (match j with mkJoin t _ _ c => printable_table printable_select t && printable_constraint c end) = true -> joins_end heads = true ->
  eats f (join_round joins) (print_join print_select j) (Some (joins ++ [j])) (ends_at (join_heads ++ heads)).
Proof.
  destruct j as [t a ty c]. intros [Ht Hc]%andb_true_iff Hj.
  assert (Hf : forall k, In k ["ON"; "USING"; "AS"] -> fresh k (join_heads ++ heads) = true).
  { intros k Hin. rewrite fresh_app. rewrite (joins_end_fresh heads k) by (cbn in *; tauto). rewrite andb_true_r. cbn in Hin. by destruct_or? Hin; subst. }
  assert (Hgo : eats f (join_type ← parse_join_type; table ← parse_table_ref g; a ← alias; constraint ← join_constraint g;
      mret (Some (joins ++ [mkJoin table a join_type constraint]))) (print_join print_select (mkJoin t a ty c)) (Some (joins ++ [mkJoin t a ty c]))
      (ends_at (join_heads ++ heads))).
  { eapply eats_then; [apply eats_join_type|].
    eapply eats_bind; [apply (eats_table t (words ["AS"] ++ words ["ON"; "USING"] ++ join_heads ++ heads)); [done|]| |].
    { rewrite !fresh_token_app, (joins_end_dot heads) by done. done. }
    2:{ intros rest Hr. rewrite <- app_assoc. apply ends_opened; [apply opened_clause|]. apply ends_opened; [apply opened_constraint|exact Hr]. }
    eapply eats_bind; [apply (eats_alias a (words ["ON"; "USING"] ++ join_heads ++ heads))| |].
    { rewrite fresh_app, Hf by (cbn; tauto). done. }
    2:{ intros rest Hr. apply ends_opened; [apply opened_constraint|exact Hr]. }
    apply (eats_map f _ (fun c => Some (joins ++ [mkJoin t a ty c]))). apply eats_constraint; [done|apply Hf; cbn; tauto..]. }
  intros rest Hr Hn. unfold join_round. rewrite (bind_parsed _ _ _ (Token_Keyword (hd EmptyString (join_words ty))) (print_join print_select (mkJoin t a ty c) ++ rest)) by done.
  replace (join_word _) with true; [by apply Hgo|]. unfold join_word. symmetry. apply existsb_exists.
  exists (hd EmptyString (join_words ty)). split; [destruct ty; cbn; tauto|]. rewrite plain_is by (by destruct ty). apply String.eqb_refl.
Qed.

Lemma eats_no_join joins heads : joins_end heads = true -> eats f (join_round joins) [] None (ends_at heads).
Proof.
  intros Hj rest Hr _. unfold join_round. rewrite (bind_parsed _ _ _ (default Eof (head rest)) rest) by done. by rewrite (no_join heads).
Qed.

Lemma foldl_snoc {X} (l a : list X) : foldl (fun a x => a ++ [x]) a l = a ++ l.
Proof. revert a. induction l as [|x l IH]; intros a; cbn; [by rewrite app_nil_r|]. by rewrite IH, <- app_assoc. Qed.

Lemma opened_joins l : opened join_heads (concat (List.map (print_join print_select) l)).
Proof. destruct l as [|[t a ty c] l]; [done|]. destruct ty; cbn; tauto. Qed.

Lemma eats_from fr heads :
  printable_from printable_select fr = true -> joins_end heads = true ->
  eats f (parse_from_clause g) (print_from print_select fr) fr (ends_at heads).
Proof.
  destruct fr as [[|[t a [] []] joins]]; try done. intros [Ht Hjs]%andb_true_iff Hj. cbn [print_from]. rewrite forallb_forall in Hjs.
  unfold parse_from_clause. eapply eats_bind; [apply (eats_table t (words ["AS"] ++ join_heads ++ heads)); [done|]| |].
  { rewrite !fresh_token_app, (joins_end_dot heads) by done. done. }
  2:{ intros rest Hr. rewrite <- app_assoc. apply ends_opened; [apply opened_clause|]. apply ends_opened; [apply opened_joins|exact Hr]. }
  eapply eats_bind; [apply (eats_alias a (join_heads ++ heads))| |].
  { rewrite fresh_app, (joins_end_fresh heads) by (done || cbn; tauto). done. }
  2:{ intros rest Hr. apply ends_opened; [apply opened_joins|exact Hr]. }
  apply (eats_map f _ mkFromClause). change (mkJoin t a JoinType.Inner JoinConstraint_None :: joins) with ([mkJoin t a JoinType.Inner JoinConstraint_None] ++ joins).
  rewrite <- (foldl_snoc joins). apply (eats_loop f join_round (fun js j => js ++ [j]) (print_join print_select) join_heads heads).
  - intros [t' a' ty c] _. split; [by destruct ty|]. destruct ty; cbn; tauto.
  - intros js j Hin. apply eats_join; [by apply Hjs|done].
  - intros js. by apply eats_no_join.
Qed.

(** *** The other clauses *)

Lemma opened_by {X} k (pr : X -> list Token) l : opened (words [k]) (print_by k pr l).
Proof. destruct l; cbn; auto. Qed.

Lemma eats_by {X} k (p : parser X) pr l heads :
  plain_word k = true -> fresh k heads = true -> fresh_token Comma heads = true ->
  (forall x, In x l -> eats f p (pr x) x (ends_at (Comma :: heads))) -> eats f (by_clause k p) (print_by k pr l) l (ends_at heads).
Proof.
  intros Hp Hk Hc Hx. unfold by_clause. destruct l as [|x l]; [by apply eats_no_keyword, eats_ret|].
  apply eats_keyword; [done|]. change (words ["BY"] ++ ?x) with ([Token_Keyword "BY"] ++ x).
  apply (eats_then f _ _ [Token_Keyword "BY"] _ tt); [by apply eats_expect_keyword|]. by apply eats_commas.
Qed.

Lemma eats_expr_clause k o heads :
  given printable o = true -> plain_word k = true -> fresh k heads = true -> eats f (expr_clause g k) (clause k (print 0) o) o (ends_at heads).
Proof.
  intros Hp Hw Hk. pose proof Hk as [Hc _]%andb_true_iff. apply eats_optional; [done|done|]. intros x ->. by apply eats_expr.
Qed.

Lemma eats_group l heads :
  forallb printable l = true -> fresh "GROUP" heads = true -> fresh_token Comma heads = true ->
  eats f (by_clause "GROUP" (g_expr g)) (print_by "GROUP" (print 0) l) l (ends_at heads).
Proof.
  intros Hp Hk Hc. pose proof Hk as [Hcalm _]%andb_true_iff. apply eats_by; [done..|]. intros x Hx. rewrite forallb_forall in Hp. apply eats_expr; [by apply Hp|exact Hcalm].
Qed.

Lemma eats_direction d heads :
  fresh "ASC" heads = true -> fresh "DESC" heads = true -> eats f sort_direction (print_direction d) d (ends_at heads).
Proof.
  intros Ha Hd. unfold sort_direction. destruct d; cbn [print_direction words List.map].
  - apply eats_keyword; [done|]. apply eats_ret.
  - apply eats_else; [intros rest _; by apply (at_word "DESC")|]. apply eats_keyword; [done|]. apply eats_ret.
  - do 2 (apply eats_no_keyword; [done|]). apply eats_ret.
Qed.

Lemma eats_nulls n heads : fresh "NULLS" heads = true -> eats f nulls_order (print_nulls n) n (ends_at heads).
Proof.
  intros Hn. unfold nulls_order. destruct n; cbn [print_nulls words List.map].
  - apply eats_keyword; [done|]. apply eats_keyword; [done|]. apply eats_ret.
  - apply eats_keyword; [done|]. apply eats_else; [intros rest _; by apply (at_word "LAST")|].
    apply (eats_then f _ _ [Token_Keyword "LAST"] [] tt); [by apply eats_expect_keyword|apply eats_ret].
  - apply eats_no_keyword; [done|]. apply eats_ret.
Qed.

Lemma eats_order_item i heads :
  match i with mkOrderByItem e _ _ => printable e end = true ->
  fresh "ASC" heads = true -> fresh "DESC" heads = true -> fresh "NULLS" heads = true ->
  eats f (order_by_item g) (print_order_item i) i (ends_at heads).
Proof.
  destruct i as [e d n]. intros Hp Ha Hd Hn. pose proof Ha as [Hc _]%andb_true_iff. unfold order_by_item. cbn [print_order_item].
  assert (Hod : opened (words ["ASC"; "DESC"]) (print_direction d)) by (destruct d; cbn; auto).
  assert (Hon : opened (words ["NULLS"]) (print_nulls n)) by (destruct n; cbn; auto).
  eapply eats_bind; [apply (eats_expr e (words ["ASC"; "DESC"] ++ words ["NULLS"] ++ heads)); [done|by rewrite !forallb_app, Hc]| |].
  2:{ intros rest Hr. rewrite <- app_assoc. apply ends_opened; [done|]. by apply ends_opened. }
  eapply eats_bind; [apply (eats_direction d (words ["NULLS"] ++ heads)); rewrite fresh_app; by rewrite ?Ha, ?Hd| |].
  2:{ intros rest Hr. by apply ends_opened. }
  apply (eats_map f _ (mkOrderByItem e d)). by apply eats_nulls.
Qed.

Lemma eats_limit o heads :
  given printable_limit o = true -> fresh "LIMIT" heads = true ->
  eats f (optional (is_keyword "LIMIT") (when_keyword "ALL" (mret LimitClause_All) (LimitClause_Expr <$> g_expr g)))
    (clause "LIMIT" print_limit o) o (ends_at heads).
Proof.
  intros Hp Hk. pose proof Hk as [Hc _]%andb_true_iff. apply eats_optional; [done|done|]. intros l ->. destruct l as [|e]; cbn [print_limit words List.map].
  - apply eats_keyword; [done|]. apply eats_ret.
  - apply eats_else; [intros rest _; by apply expr_no_keyword|]. by apply eats_fmap, eats_expr.
Qed.

Lemma eats_locking l heads :
  fresh "FOR" heads = true -> eats f locking_clauses (concat (List.map (fun l => words (lock_words l)) l)) l (ends_at heads).
Proof.
  intros Hk. pose proof (foldl_snoc l []) as E. cbn [app] in E. rewrite <- E at 2. unfold locking_clauses.
  apply (eats_loop f _ (fun a x => a ++ [x]) (fun l => words (lock_words l)) (words ["FOR"])).
  - intros x _. split; [done|]. cbn. auto.
  - intros a x _. cbn [lock_words words List.map]. apply eats_keyword; [done|]. apply (eats_map f _ (fun x => Some (a ++ [x]))).
    destruct x; cbn [List.map]; eat_words.
  - intros a. apply eats_no_keyword; [done|]. apply eats_ret.
Qed.

(** *** Set operations *)

Definition set_heads : list Token := words ["UNION"; "INTERSECT"; "EXCEPT"].

Lemma opened_set_operations l : opened set_heads (concat (List.map (print_set_operation print_select) l)).
Proof. destruct l as [|[o q] l]; [done|]. destruct o; cbn; tauto. Qed.

(** The operator of the words it is written with. *)
Lemma set_operator_word o :
  exists u all, set_operator (hd Eof (words (set_words o))) = Some u /\ (if all : bool then u.2 else u.1) = o
    /\ tail (words (set_words o)) = if all then words ["ALL"] else [].
Proof.
  unfold set_operator. destruct o; cbn [set_words words List.map hd tail]; rewrite !plain_is by done; cbn [String.eqb Ascii.eqb Bool.eqb];
    [exists (SetOperator.Union, SetOperator.UnionAll), false|exists (SetOperator.Union, SetOperator.UnionAll), true
    |exists (SetOperator.Intersect, SetOperator.IntersectAll), false|exists (SetOperator.Intersect, SetOperator.IntersectAll), true
    |exists (SetOperator.Except, SetOperator.ExceptAll), false|exists (SetOperator.Except, SetOperator.ExceptAll), true]; done.
Qed.

Lemma eats_set_operations l heads :
  forallb (fun o => match o with mkSetOperation _ q => printable_select q end) l = true ->
  (forall k, In k ["UNION"; "INTERSECT"; "EXCEPT"] -> fresh k heads = true) ->
  eats f (set_operations_clause g) (concat (List.map (print_set_operation print_select) l)) l (ends_at heads).
Proof.
  intros Hp Hk. pose proof (foldl_snoc l []) as E. cbn [app] in E. rewrite <- E at 2. unfold set_operations_clause. rewrite forallb_forall in Hp.
  apply (eats_loop f _ (fun a x => a ++ [x]) (print_set_operation print_select) set_heads).
  - intros [o q] _. split; [by destruct o|]. destruct o; cbn; tauto.
  - intros ops [o q] Hin. specialize (Hp _ Hin). cbn in Hp. destruct (set_operator_word o) as (u & all & Eu & Eo & Et).
    cbn [print_set_operation]. assert (Ew : words (set_words o) = hd Eof (words (set_words o)) :: (if all then words ["ALL"] else [])) by (rewrite <- Et; by destruct o).
    rewrite Ew. rewrite <- Eo at 2. clear Ew Et. intros rest Hr Hn. cbn [app] in Hn |- *. unfold on_token. rewrite Eu. cbn [fmap option_fmap option_map].
    assert (Hgo : eats f (all ← flag "ALL"; right ← parse_select_body g; mret (Some (ops ++ [mkSetOperation (if all : bool then u.2 else u.1) right])))
      ((if all then words ["ALL"] else []) ++ LParen :: print_select q ++ [RParen]) (Some (ops ++ [mkSetOperation (if all then u.2 else u.1) q])) (fun _ => true)).
    { eapply (eats_bind f _ _ _ _ all _ (fun rest => negb (matches [is_keyword "ALL"] rest))); [| |done].
      - unfold flag. destruct all; [apply eats_keyword; [done|]; apply eats_ret|]. apply eats_else; [|apply eats_ret]. intros r. cbn [app]. by rewrite negb_true_iff.
      - apply (eats_map f _ (fun q => Some (ops ++ [mkSetOperation _ q]))). apply eats_token. by apply (eats_query id). }
    apply Hgo; [done|]. cbn [length] in Hn. lia.
  - intros ops rest Hr Hn. apply on_token_skip. destruct rest as [|t rest]; [done|]. unfold set_operator.
    assert (Hn' : forall k, In k ["UNION"; "INTERSECT"; "EXCEPT"] -> is_keyword k t = false).
    { intros k Hin. pose proof (ends_keyword k heads (t :: rest) (Hk k Hin) Hr) as Hm. cbn [matches] in Hm. by rewrite andb_true_r in Hm. }
    by rewrite !Hn' by (cbn; tauto).
Qed.

(** *** The whole query *)

(** What may stand behind each clause: the clauses after it. *)
Definition behind_ops : list Token := words ["RETURNING"].
Definition behind_locking : list Token := set_heads ++ behind_ops.
Definition behind_offset : list Token := words ["FOR"] ++ behind_locking.
Definition behind_limit : list Token := words ["OFFSET"] ++ behind_offset.
Definition behind_order : list Token := words ["LIMIT"] ++ behind_limit.
Definition behind_having : list Token := words ["ORDER"] ++ behind_order.
Definition behind_group : list Token := words ["HAVING"] ++ behind_having.
Definition behind_where : list Token := words ["GROUP"] ++ behind_group.
Definition behind_from : list Token := words ["WHERE"] ++ behind_where.
Definition behind_items : list Token := words ["FROM"] ++ behind_from.

Lemma opened_locking l : opened (words ["FOR"]) (concat (List.map (fun l => words (lock_words l)) l)).
Proof. destruct l; cbn; auto. Qed.

(** ORDER BY and what stands behind it. *)
Definition tail_tokens (order_by : list OrderByItem) (limit : option LimitClause) (offset : option Expr) (locking : list LockingClause)
    (ops : list SetOperation) : list Token :=
  print_by "ORDER" print_order_item order_by ++ clause "LIMIT" print_limit limit ++ clause "OFFSET" (print 0) offset
  ++ concat (List.map (fun l => words (lock_words l)) locking) ++ concat (List.map (print_set_operation print_select) ops).

(** From ORDER BY on. *)
Lemma eats_tail {A} (h : list OrderByItem -> option LimitClause -> option Expr -> list LockingClause -> list SetOperation -> A)
    order_by limit offset locking ops :
  forallb (fun i => match i with mkOrderByItem e _ _ => printable e end) order_by = true -> given printable_limit limit = true ->
  given printable offset = true -> forallb (fun o => match o with mkSetOperation _ q => printable_select q end) ops = true ->
  eats f
    (order_by ← by_clause "ORDER" (order_by_item g);
     limit ← optional (is_keyword "LIMIT") (when_keyword "ALL" (mret LimitClause_All) (LimitClause_Expr <$> g_expr g));
     offset ← expr_clause g "OFFSET"; locking ← locking_clauses; set_operations ← set_operations_clause g;
     mret (h order_by limit offset locking set_operations))
    (tail_tokens order_by limit offset locking ops) (h order_by limit offset locking ops) (ends_at behind_ops).
Proof.
  intros Ho Hl Hf Hs. rewrite forallb_forall in Ho. unfold tail_tokens.
  eapply eats_bind; [apply (eats_by "ORDER" _ print_order_item order_by behind_order); [done..|]| |].
  { intros i Hi. apply eats_order_item; [by apply Ho|done..]. }
  2:{ intros rest Hr. rewrite <- !app_assoc. apply (ends_opened (words ["LIMIT"])); [apply opened_clause|].
      apply (ends_opened (words ["OFFSET"])); [apply opened_clause|]. apply (ends_opened (words ["FOR"])); [apply opened_locking|].
      apply (ends_opened set_heads); [apply opened_set_operations|exact Hr]. }
  eapply eats_bind; [by apply (eats_limit limit behind_limit)| |].
  2:{ intros rest Hr. rewrite <- !app_assoc. apply (ends_opened (words ["OFFSET"])); [apply opened_clause|].
      apply (ends_opened (words ["FOR"])); [apply opened_locking|]. apply (ends_opened set_heads); [apply opened_set_operations|exact Hr]. }
  eapply eats_bind; [by apply (eats_expr_clause "OFFSET" offset behind_offset)| |].
  2:{ intros rest Hr. rewrite <- !app_assoc. apply (ends_opened (words ["FOR"])); [apply opened_locking|].
      apply (ends_opened set_heads); [apply opened_set_operations|exact Hr]. }
  eapply eats_bind; [by apply (eats_locking locking behind_locking)| |].
  2:{ intros rest Hr. apply (ends_opened set_heads); [apply opened_set_operations|exact Hr]. }
  apply (eats_map f _ (h order_by limit offset locking)). apply eats_set_operations; [done|]. intros k Hin. cbn in Hin. by destruct_or? Hin; subst.
Qed.

Lemma tail_opened order_by limit offset locking ops rest :
  ends_at behind_ops rest = true -> ends_at behind_having (tail_tokens order_by limit offset locking ops ++ rest) = true.
Proof.
  intros Hr. unfold tail_tokens. rewrite <- !app_assoc. apply (ends_opened (words ["ORDER"])); [apply opened_by|].
  apply (ends_opened (words ["LIMIT"])); [apply opened_clause|].
  apply (ends_opened (words ["OFFSET"])); [apply opened_clause|]. apply (ends_opened (words ["FOR"])); [apply opened_locking|].
  apply (ends_opened set_heads); [apply opened_set_operations|exact Hr].
Qed.
(** From WHERE to HAVING. *)
Definition middle_tokens (where_clause : option Expr) (group_by : list Expr) (having : option Expr) : list Token :=
  clause "WHERE" (print 0) where_clause ++ print_by "GROUP" (print 0) group_by ++ clause "HAVING" (print 0) having.

Lemma middle_opened where_clause group_by having rest :
  ends_at behind_having rest = true -> ends_at behind_from (middle_tokens where_clause group_by having ++ rest) = true.
Proof.
  intros Hr. unfold middle_tokens. rewrite <- !app_assoc. apply (ends_opened (words ["WHERE"])); [apply opened_clause|].
  apply (ends_opened (words ["GROUP"])); [apply opened_by|]. apply (ends_opened (words ["HAVING"])); [apply opened_clause|exact Hr].
Qed.

Lemma eats_middle {A} (k : option Expr -> list Expr -> option Expr -> parser A) where_clause group_by having pre a ok :
  given printable where_clause = true -> forallb printable group_by = true -> given printable having = true ->
  eats f (k where_clause group_by having) pre a ok -> (forall rest, ok rest = true -> ends_at behind_having (pre ++ rest) = true) ->
  eats f (where_clause ← expr_clause g "WHERE"; group_by ← by_clause "GROUP" (g_expr g); having ← expr_clause g "HAVING"; k where_clause group_by having)
    (middle_tokens where_clause group_by having ++ pre) a ok.
Proof.
  intros Hw Hg Hh Hk Hok. unfold middle_tokens. rewrite <- !app_assoc.
  eapply eats_bind; [by apply (eats_expr_clause "WHERE" where_clause behind_where)| |].
  2:{ intros rest Hr. rewrite <- !app_assoc. apply (ends_opened (words ["GROUP"])); [apply opened_by|]. apply (ends_opened (words ["HAVING"])); [apply opened_clause|by apply Hok]. }
  eapply eats_bind; [by apply (eats_group group_by behind_group)| |].
  2:{ intros rest Hr. rewrite <- !app_assoc. apply (ends_opened (words ["HAVING"])); [apply opened_clause|by apply Hok]. }
  eapply eats_bind; [by apply (eats_expr_clause "HAVING" having behind_having)|exact Hk|exact Hok].
Qed.

Lemma eats_select q : printable_select q = true -> eats (S f) (parse_select g) (print_select q) q (ends_at behind_ops).
Proof.
  destruct q as [w d items from wh gr ha ord li off lo ops]. cbn [printable_select]. rewrite !andb_true_iff.
  intros [[[[[[[[[[[Hwith Hd] Hne] Hi] Hf] Hw] Hg] Hh] Ho] Hl] Hoff] Hops]. destruct w; [done|].
  assert (E : print_select (mkSelectStatement None d items from wh gr ha ord li off lo ops) = Token_Keyword "SELECT" ::
      print_distinct d ++ commas (List.map print_item items) ++ clause "FROM" (print_from print_select) from
      ++ middle_tokens wh gr ha ++ tail_tokens ord li off lo ops).
  { cbn [print_select words List.map app]. unfold middle_tokens, tail_tokens. by rewrite <- !app_assoc. }
  rewrite E. clear E. apply eats_first; [done|].
  pose proof (fun rest Hr => middle_opened wh gr ha _ (tail_opened ord li off lo ops rest Hr)) as Hm.
  eapply eats_bind; [by apply eats_distinct| |].
  2:{ intros rest _. unfold no_words. cbn [forallb]. rewrite <- app_assoc. by rewrite !items_no_keyword. }
  eapply eats_bind; [by apply (eats_items items behind_items)| |].
  2:{ intros rest Hr. rewrite <- !app_assoc. apply (ends_opened (words ["FROM"])); [apply opened_clause|by apply Hm]. }
  eapply eats_bind; [apply (eats_optional f "FROM" _ (print_from print_select) from behind_from); [done|done|]| |].
  { intros fr ->. by apply eats_from. }
  2:{ intros rest Hr. rewrite <- app_assoc. by apply Hm. }
  apply (eats_middle (fun wh gr ha => order_by ← by_clause "ORDER" (order_by_item g); _)); [done..| |by apply tail_opened].
  by apply (eats_tail (mkSelectStatement None d items from wh gr ha)).
Qed.
End queries.

(** The parser reads a query back from its tokens, whatever its size. *)
Lemma select_read `{UnicodeLaws} f q :
  printable_select q = true -> eats f (g_select (rules (S f))) (print_select q) q (ends_at behind_ops).
Proof.
  revert q. induction f as [|f IH]; intros q Hp rest Hr Hn; [destruct q; cbn [print_select words List.map app length] in Hn; lia|].
  by apply (eats_select f IH q Hp).
Qed.

(* ------------------------------------------------------------------ *)
(** ** The tokens of a statement *)

Definition print_columns (cols : option (list string)) : list Token := match cols with Some cols => print_names cols | None => [] end.
Definition print_set (c : SetClause) : list Token := match c with mkSetClause column value => Token_Ident column :: Eq_ :: print 0 value end.
Definition print_sets (l : list SetClause) : list Token := commas (List.map print_set l).
Definition print_row (r : list Expr) : list Token := LParen :: exprs r ++ [RParen].

Definition print_source (s : InsertSource) : list Token :=
  match s with
  | InsertSource_Values rows => words ["VALUES"] ++ commas (List.map print_row rows)
  | InsertSource_Select q => print_select q
  end.

Definition print_conflict (c : OnConflict) : list Token :=
  match c with
  | OnConflict_DoNothing => words ["CONFLICT"; "DO"; "NOTHING"]
  | OnConflict_DoUpdate target where_clause sets =>
      words ["CONFLICT"] ++ print_columns target ++ words ["DO"; "UPDATE"; "SET"] ++ print_sets sets ++ clause "WHERE" (print 0) where_clause
  end.

Definition print_returning (l : list SelectItem) : list Token :=
  match l with [] => [] | _ => words ["RETURNING"] ++ commas (List.map print_item l) end.

Definition print_insert (s : InsertStatement) : list Token :=
  match s with
  | mkInsertStatement table columns source conflict returning =>
      words ["INSERT"; "INTO"] ++ print_name table ++ print_columns columns ++ print_source source ++ clause "ON" print_conflict conflict
      ++ print_returning returning
  end.

Definition print_update (s : UpdateStatement) : list Token :=
  match s with
  | mkUpdateStatement table from sets where_clause returning =>
      words ["UPDATE"] ++ print_name table ++ clause "FROM" (print_from print_select) from ++ words ["SET"] ++ print_sets sets
      ++ clause "WHERE" (print 0) where_clause ++ print_returning returning
  end.

Definition print_delete (s : DeleteStatement) : list Token :=
  match s with
  | mkDeleteStatement table using_ where_clause returning =>
      words ["DELETE"; "FROM"] ++ print_name table ++ clause "USING" (print_from print_select) using_
      ++ clause "WHERE" (print 0) where_clause ++ print_returning returning
  end.

Definition print_drop (what : string) (name : ObjectName) (if_exists cascade : bool) : list Token :=
  words ["DROP"; what] ++ (if if_exists then words ["IF"; "EXISTS"] else []) ++ print_name name ++ (if cascade then words ["CASCADE"] else []).

Fixpoint print_statement (s : Statement) : list Token :=
  match s with
  | Statement_Select q => print_select q
  | Statement_Insert s => print_insert s
  | Statement_Update s => print_update s
  | Statement_Delete s => print_delete s
  | Statement_DropTable (mkDropTableStatement name if_exists cascade) => print_drop "TABLE" name if_exists cascade
  | Statement_DropIndex (mkDropIndexStatement name if_exists cascade) => print_drop "INDEX" name if_exists cascade
  | Statement_Commit => words ["COMMIT"]
  | Statement_Rollback => words ["ROLLBACK"]
  | Statement_Explain s => words ["EXPLAIN"] ++ print_statement s
  | _ => []
  end.

(** *** The statements that are printed *)

Definition printable_sets (l : list SetClause) : bool :=
  nonempty l && forallb (fun c => match c with mkSetClause _ value => printable value end) l.

Definition printable_conflict (c : OnConflict) : bool :=
  match c with
  | OnConflict_DoNothing => true
  | OnConflict_DoUpdate target where_clause sets => given nonempty target && given printable where_clause && printable_sets sets
  end.

(** ON CONFLICT behind a query would be read as the condition of a join. *)
Definition printable_source (s : InsertSource) (c : option OnConflict) : bool :=
  match s with
  | InsertSource_Values rows => nonempty rows && forallb (fun r => nonempty r && forallb printable r) rows
  | InsertSource_Select q => printable_select q && match c with None => true | Some _ => false end
  end.

Definition printable_insert (s : InsertStatement) : bool :=
  match s with
  | mkInsertStatement table columns source conflict returning =>
      nonempty (parts table) && given nonempty columns && printable_source source conflict && given printable_conflict conflict
      && forallb printable_item returning
  end.

Definition printable_update (s : UpdateStatement) : bool :=
  match s with
  | mkUpdateStatement table from sets where_clause returning =>
      nonempty (parts table) && given (printable_from printable_select) from && printable_sets sets && given printable where_clause
      && forallb printable_item returning
  end.

Definition printable_delete (s : DeleteStatement) : bool :=
  match s with
  | mkDeleteStatement table using_ where_clause returning =>
      nonempty (parts table) && given (printable_from printable_select) using_ && given printable where_clause && forallb printable_item returning
  end.

Fixpoint printable_statement (s : Statement) : bool :=
  match s with
  | Statement_Select q => printable_select q
  | Statement_Insert s => printable_insert s
  | Statement_Update s => printable_update s
  | Statement_Delete s => printable_delete s
  | Statement_DropTable (mkDropTableStatement name _ _) | Statement_DropIndex (mkDropIndexStatement name _ _) => nonempty (parts name)
  | Statement_Commit | Statement_Rollback => true
  | Statement_Explain s => printable_statement s
  | _ => false
  end.

(* ------------------------------------------------------------------ *)
(** ** Reading a statement back *)

Section statements.
Context `{UnicodeLaws} (f : nat).
Abbreviation g := (rules (S f)).

Lemma eats_columns cols :
  given nonempty cols = true -> eats f column_names (print_columns cols) cols (fun rest => negb (matches [is_token LParen] rest)).
Proof.
  intros Hne. unfold column_names. destruct cols as [cols|]; cbn [print_columns].
  - apply eats_token. eapply eats_bind; [apply (eats_commas f _ (fun s => [Token_Ident s]) []); [by destruct cols|done|]| |done].
    + intros s _. by eapply eats_ok; [apply eats_ident|].
    + by intros rest _ _.
  - apply eats_else; [|apply eats_ret]. intros rest. cbn [app]. by rewrite negb_true_iff.
Qed.

Lemma eats_set c heads :
  match c with mkSetClause _ value => printable value end = true -> forallb calm heads = true ->
  eats f (set_clause g) (print_set c) c (ends_at heads).
Proof.
  destruct c as [column value]. intros Hp Hc. unfold set_clause. apply (eats_then f _ _ [Token_Ident column] (Eq_ :: print 0 value) column); [apply eats_ident|].
  apply (eats_then f _ _ [Eq_] (print 0 value) tt); [apply eats_expect|]. apply (eats_map f _ (mkSetClause column)). by apply eats_expr.
Qed.

Lemma eats_sets l heads :
  printable_sets l = true -> forallb calm heads = true -> fresh_token Comma heads = true ->
  eats f (comma_list (set_clause g)) (print_sets l) l (ends_at heads).
Proof.
  intros [Hne Hl]%andb_true_iff Hc Hf. rewrite forallb_forall in Hl. apply eats_commas; [by destruct l|done|].
  intros c Hin. by apply eats_set; [apply Hl|].
Qed.

Lemma eats_returning l : forallb printable_item l = true -> eats f (returning_clause g) (print_returning l) l (ends_at []).
Proof.
  intros Hl. unfold returning_clause. destruct l as [|i l]; [by apply eats_no_keyword; [|apply eats_ret]|].
  apply eats_keyword; [done|]. by apply eats_items.
Qed.

Lemma opened_returning l : opened (words ["RETURNING"]) (print_returning l).
Proof. destruct l; cbn; auto. Qed.

Lemma eats_conflict c heads :
  given printable_conflict c = true -> fresh "ON" heads = true -> fresh "WHERE" heads = true -> fresh_token Comma heads = true ->
  eats f (on_conflict_clause g) (clause "ON" print_conflict c) c (ends_at heads).
Proof.
  intros Hp Ho Hw Hf. pose proof Ho as [Hc _]%andb_true_iff. apply eats_optional; [done|done|]. intros [|target wh sets] ->; cbn [given printable_conflict] in Hp.
  - apply eats_word; [done|]. apply (eats_bind f _ _ [] _ None _ (fun rest => negb (matches [is_token LParen] rest))); [by apply (eats_columns None)| |done].
    cbn [List.map]. eat_words.
  - rewrite !andb_true_iff in Hp. destruct Hp as [[Ht Hwh] Hs]. apply eats_word; [done|].
    eapply eats_bind; [by apply eats_columns| |done]. cbn [words List.map app].
    apply eats_word; [done|]. apply eats_else; [intros rest _; by apply (at_word "UPDATE")|]. apply eats_keyword; [done|]. apply eats_word; [done|].
    eapply eats_bind; [by apply (eats_sets sets (words ["WHERE"] ++ heads))| |].
    + apply (eats_map f _ (fun wh => OnConflict_DoUpdate target wh sets)). by apply eats_expr_clause.
    + intros rest Hr. apply (ends_opened (words ["WHERE"])); [apply opened_clause|exact Hr].
Qed.

Lemma eats_source s c heads :
  printable_source s c = true -> forallb calm heads = true -> fresh_token Comma heads = true ->
  (c = None -> forall rest, ends_at heads rest = true -> ends_at behind_ops rest = true) ->
  eats f (insert_source g) (print_source s) s (ends_at heads).
Proof.
  intros Hp Hc Hf Hh. unfold insert_source. destruct s as [rows|q]; cbn [print_source printable_source] in *.
  - apply andb_true_iff in Hp as [Hne Hp]. rewrite forallb_forall in Hp. intros rest Hr Hn. cbn [words List.map app length] in Hn |- *.
    unfold on_token. rewrite plain_is by done. cbn [String.eqb Ascii.eqb Bool.eqb]. apply fmap_parsed.
    apply (eats_commas f _ print_row heads rows); [by destruct rows|done| |done|lia].
    intros r Hin. specialize (Hp r Hin). apply andb_true_iff in Hp as [Hrne Hrp]. eapply eats_ok; [|done].
    apply (eats_parens f _ _ _ []). by apply eats_exprs.
  - apply andb_true_iff in Hp as [Hp Hcn]. destruct c; [done|]. intros rest Hr Hn. rewrite on_token_skip.
    + unfold at_keyword. rewrite (bind_parsed _ _ _ true (print_select q ++ rest)) by (by rewrite select_begins).
      apply fmap_parsed. apply select_read; [done|by apply Hh|done].
    + destruct q. cbn [print_select words List.map app]. by rewrite plain_is.
Qed.

(** *** The statements *)

Lemma eats_insert s : printable_insert s = true -> eats (S f) (parse_insert g) (print_insert s) s (ends_at []).
Proof.
  destruct s as [table cols source conflict returning]. cbn [printable_insert]. rewrite !andb_true_iff. intros [[[[Ht Hc] Hs] Hcf] Hr].
  unfold parse_insert. cbn [print_insert words List.map app]. apply eats_first; [done|]. apply eats_word; [done|].
  eapply eats_bind; [by apply (eats_name f table (LParen :: words ["VALUES"; "SELECT"]))| |].
  2:{ intros rest _. destruct cols; [done|]. cbn [print_columns app]. destruct source as [rows|q]; [done|]. by destruct q. }
  eapply eats_bind; [by apply eats_columns| |].
  2:{ intros rest _. destruct source as [rows|q]; [done|]. by destruct q. }
  eapply eats_bind; [apply (eats_source source conflict (if conflict then words ["ON"; "RETURNING"] else words ["RETURNING"])); try done; by destruct conflict| |].
  2:{ intros rest Hrest. destruct conflict as [c|]; [by cbn|]. apply (ends_opened (words ["RETURNING"]) []); [apply opened_returning|exact Hrest]. }
  eapply eats_bind; [by apply (eats_conflict conflict (words ["RETURNING"]))| |].
  2:{ intros rest Hrest. apply (ends_opened (words ["RETURNING"]) []); [apply opened_returning|exact Hrest]. }
  apply (eats_map f _ (mkInsertStatement table cols source conflict)). by apply eats_returning.
Qed.
(** WHERE and RETURNING, which end three of the statements. *)
Lemma eats_where_returning {A} (h : option Expr -> list SelectItem -> A) wh returning :
  given printable wh = true -> forallb printable_item returning = true ->
  eats f (wh ← expr_clause g "WHERE"; returning ← returning_clause g; mret (h wh returning))
    (clause "WHERE" (print 0) wh ++ print_returning returning) (h wh returning) (ends_at []).
Proof.
  intros Hw Hr. eapply eats_bind; [by apply (eats_expr_clause f "WHERE" wh (words ["RETURNING"]))| |].
  - apply (eats_map f _ (h wh)). by apply eats_returning.
  - intros rest Hrest. apply (ends_opened (words ["RETURNING"]) []); [apply opened_returning|exact Hrest].
Qed.

Lemma where_returning_opened wh returning rest :
  ends_at [] rest = true -> ends_at (words ["WHERE"; "RETURNING"]) ((clause "WHERE" (print 0) wh ++ print_returning returning) ++ rest) = true.
Proof.
  intros Hr. rewrite <- app_assoc. apply (ends_opened (words ["WHERE"]) (words ["RETURNING"])); [apply opened_clause|].
  apply (ends_opened (words ["RETURNING"]) []); [apply opened_returning|exact Hr].
Qed.

(** A FROM clause behind a keyword. *)
Lemma eats_from_clause k fr heads :
  given (printable_from printable_select) fr = true -> plain_word k = true -> fresh k heads = true -> joins_end heads = true ->
  eats f (optional (is_keyword k) (parse_from_clause g)) (clause k (print_from print_select) fr) fr (ends_at heads).
Proof. intros Hp Hk Hf Hj. apply eats_optional; [done|done|]. intros x ->. apply eats_from; [intros q; apply select_read|exact Hp|exact Hj]. Qed.

Lemma eats_update s : printable_update s = true -> eats (S f) (parse_update g) (print_update s) s (ends_at []).
Proof.
  destruct s as [table from sets wh returning]. cbn [printable_update]. rewrite !andb_true_iff. intros [[[[Ht Hf] Hs] Hw] Hr].
  unfold parse_update. cbn [print_update words List.map app]. apply eats_first; [done|].
  eapply eats_bind; [by apply (eats_name f table (words ["FROM"; "SET"]))| |].
  2:{ intros rest _. rewrite <- app_assoc. by destruct from. }
  eapply eats_bind; [by apply (eats_from_clause "FROM" from (words ["SET"]))| |by intros rest _].
  apply eats_word; [done|]. eapply eats_bind; [by apply (eats_sets sets (words ["WHERE"; "RETURNING"]))| |by apply where_returning_opened].
  by apply (eats_where_returning (mkUpdateStatement table from sets)).
Qed.

Lemma eats_delete s : printable_delete s = true -> eats (S f) (parse_delete g) (print_delete s) s (ends_at []).
Proof.
  destruct s as [table using_ wh returning]. cbn [printable_delete]. rewrite !andb_true_iff. intros [[[Ht Hu] Hw] Hr].
  unfold parse_delete. cbn [print_delete words List.map app]. apply eats_first; [done|]. apply eats_word; [done|].
  eapply eats_bind; [by apply (eats_name f table (words ["USING"; "WHERE"; "RETURNING"]))| |].
  2:{ intros rest Hrest. rewrite <- app_assoc. apply (ends_opened (words ["USING"]) (words ["WHERE"; "RETURNING"])); [apply opened_clause|].
      by apply where_returning_opened. }
  eapply eats_bind; [by apply (eats_from_clause "USING" using_ (words ["WHERE"; "RETURNING"]))| |by apply where_returning_opened].
  by apply (eats_where_returning (mkDeleteStatement table using_)).
Qed.

Lemma eats_flag k (b : bool) heads :
  plain_word k = true -> fresh k heads = true -> eats f (flag k) (if b then words [k] else []) b (ends_at heads).
Proof.
  intros Hp Hk. unfold flag. destruct b; [apply eats_keyword; [done|]; apply eats_ret|]. by apply eats_no_keyword; [|apply eats_ret].
Qed.

Lemma eats_drop_rest {A} (h : ObjectName * bool * bool -> A) name (if_exists cascade : bool) :
  nonempty (parts name) = true ->
  eats f (x ← drop_rest; mret (h x)) ((if if_exists then words ["IF"; "EXISTS"] else []) ++ print_name name ++ (if cascade then words ["CASCADE"] else []))
    (h (name, if_exists, cascade)) (ends_at []).
Proof.
  intros Hn. apply (eats_map f _ h). unfold drop_rest. eapply (eats_bind f _ _ _ _ if_exists _ (no_words ["IF"])).
  - unfold if_exists_clause. destruct if_exists; [apply eats_keyword; [done|]; by apply eats_word; [|apply eats_ret]|].
    apply eats_else; [|apply eats_ret]. intros rest. unfold no_words. cbn. by rewrite andb_true_r, negb_true_iff.
  - eapply eats_bind; [by apply (eats_name f name (words ["CASCADE"]))| |].
    + apply (eats_map f _ (fun c => (name, if_exists, c))). by apply (eats_flag "CASCADE").
    + intros rest Hr. destruct cascade; [done|]. by apply (ends_opened (words ["CASCADE"]) [] []).
  - intros rest _. by destruct name as [[|p ps]].
Qed.

Lemma eats_drop_table name if_exists cascade :
  nonempty (parts name) = true ->
  eats (S f) parse_drop (print_drop "TABLE" name if_exists cascade) (Statement_DropTable (mkDropTableStatement name if_exists cascade)) (ends_at []).
Proof.
  intros Hn. unfold parse_drop, print_drop. cbn [words List.map app]. apply eats_first; [done|]. apply eats_keyword; [done|].
  by apply (eats_drop_rest (fun x => Statement_DropTable (mkDropTableStatement x.1.1 x.1.2 x.2))).
Qed.

Lemma eats_drop_index name if_exists cascade :
  nonempty (parts name) = true ->
  eats (S f) parse_drop (print_drop "INDEX" name if_exists cascade) (Statement_DropIndex (mkDropIndexStatement name if_exists cascade)) (ends_at []).
Proof.
  intros Hn. unfold parse_drop, print_drop. cbn [words List.map app]. apply eats_first; [done|].
  apply eats_else; [intros rest _; by apply (at_word "INDEX")|]. apply eats_keyword; [done|].
  by apply (eats_drop_rest (fun x => Statement_DropIndex (mkDropIndexStatement x.1.1 x.1.2 x.2))).
Qed.
End statements.

Section statement.
Context `{UnicodeLaws}.

(** The statement a keyword begins. *)
Lemma statement_at g k rest :
  plain_word k = true -> existsb (String.eqb k) ["COMMIT"; "ROLLBACK"; "ABORT"; "EXPLAIN"] = false ->
  parse_statement g (Token_Keyword k :: rest) = keyword_statement g k (Token_Keyword k :: rest).
Proof.
  intros [Ha Hu]%plain_upper Hk. unfold parse_statement, on_token. rewrite (uppercase_ascii k Ha), Hu. cbn [existsb] in Hk |- *.
  rewrite !orb_false_iff in Hk. destruct Hk as (-> & -> & -> & -> & _). done.
Qed.

Ltac at_statement := rewrite statement_at by done; unfold keyword_statement; rewrite uppercase_ascii by done; cbn [map_text ascii_upper String.eqb Ascii.eqb Bool.eqb existsb orb].

(** A statement whose rule is found by its keyword. *)
Lemma statement_of {A} k g (p : parser A) (h : A -> Statement) n pr a ok :
  (exists ts, pr = Token_Keyword k :: ts) ->
  (forall ts, parse_statement g (Token_Keyword k :: ts) = (h <$> p) (Token_Keyword k :: ts)) ->
  eats n p pr a ok -> eats n (parse_statement g) pr (h a) ok.
Proof. intros [ts ->] Hs Hp rest Hr Hn. cbn [app]. rewrite Hs. by apply fmap_parsed, Hp. Qed.

Lemma statement_begins s : printable_statement s = true -> print_statement s <> [].
Proof.
  destruct s; try discriminate; cbn [print_statement]; intros _.
  - by destruct s. - by destruct s. - by destruct s. - by destruct s. - by destruct s. - by destruct s.
Qed.

Lemma statement_read f s : printable_statement s = true -> eats f (g_statement (rules (S f))) (print_statement s) s (ends_at []).
Proof.
  revert s. induction f as [|f IH]; intros s Hp rest Hr Hn.
  - pose proof (statement_begins s Hp). by destruct (print_statement s); cbn in Hn; [|lia].
  - change (g_statement (rules (S (S f)))) with (parse_statement (rules (S f))).
    assert (Hdrop : forall ts, parse_statement (rules (S f)) (Token_Keyword "DROP" :: ts) = parse_drop (Token_Keyword "DROP" :: ts)) by (intros; by at_statement).
    destruct s; try discriminate; cbn [printable_statement print_statement] in *.
    + revert rest Hr Hn. apply (statement_of "SELECT" (rules (S f)) (parse_select (rules (S f)))); [by destruct s; eexists|intros; by at_statement|].
      eapply eats_ok; [by apply (eats_select f (fun q => select_read f q))|]. intros rest. exact (ends_opened (words ["RETURNING"]) [] [] rest I).
    + revert rest Hr Hn. apply (statement_of "INSERT" (rules (S f)) (parse_insert (rules (S f)))); [by destruct s; eexists|intros; by at_statement|].
      by apply (eats_insert f).
    + revert rest Hr Hn. apply (statement_of "UPDATE" (rules (S f)) (parse_update (rules (S f)))); [by destruct s; eexists|intros; by at_statement|].
      by apply (eats_update f).
    + revert rest Hr Hn. apply (statement_of "DELETE" (rules (S f)) (parse_delete (rules (S f)))); [by destruct s; eexists|intros; by at_statement|].
      by apply (eats_delete f).
    + destruct s as [name i c]. exact (eq_trans (Hdrop _) (eats_drop_table f name i c Hp rest Hr Hn)).
    + destruct s as [name i c]. exact (eq_trans (Hdrop _) (eats_drop_index f name i c Hp rest Hr Hn)).
    + cbn [words List.map app]. unfold parse_statement, on_token. by rewrite uppercase_ascii.
    + cbn [words List.map app]. unfold parse_statement, on_token. by rewrite uppercase_ascii.
    + cbn [words List.map app length] in Hn |- *. unfold parse_statement, on_token. rewrite uppercase_ascii by done.
      cbn [map_text ascii_upper String.eqb Ascii.eqb Bool.eqb existsb orb]. apply fmap_parsed. apply IH; [done|done|lia].
Qed.
End statement.

(** C10. A statement is read back from its text: a query with its joins, queries in
    FROM, set operations and every clause; INSERT, UPDATE and DELETE with what they
    return; DROP, COMMIT, ROLLBACK and EXPLAIN. The tokens have a text when their
    names and numbers do. *)
Theorem parse_printed `{UnicodeLaws} s :
  printable_statement s = true -> forallb readable (print_statement s) = true ->
  parse (tokens_text (print_statement s)) = Parsed s [Eof].
Proof.
  intros Hp Hr. unfold parse. rewrite tokenize_roundtrip by done. apply (statement_read _ s Hp [Eof]); [done|lia].
Qed.

#[local] Existing Instances Ascii_Unicode Ascii_laws.

(** SELECT DISTINCT u.name AS n, COUNT( * ) FROM users AS u LEFT JOIN (SELECT * FROM orders) AS o ON u.id = o.uid
    WHERE o.total > 10 GROUP BY u.name HAVING COUNT( * ) > 1 ORDER BY n DESC NULLS LAST LIMIT 5 OFFSET 2
    FOR UPDATE UNION ALL (SELECT 1). *)
Definition sample_query : SelectStatement :=
  let all from := mkSelectStatement None DistinctClause_All [SelectItem_Star] from None [] None [] None None [] [] in
  let table name := TableRef_Table (ObjectName_single name) in
  let number n := Expr_Literal (Literal.Number n) in
  let count := Expr_Function (mkFunctionCall (ObjectName_single "COUNT") [FunctionArg_Star] None None) in
  mkSelectStatement None DistinctClause_Distinct
    [SelectItem_ExprAs (Expr_QualifiedIdentifier "u" "name") "n"; SelectItem_Expr count]
    (Some (mkFromClause
      [mkJoin (table "users") (Some "u") JoinType.Inner JoinConstraint_None;
       mkJoin (TableRef_Subquery (all (Some (mkFromClause [mkJoin (table "orders") None JoinType.Inner JoinConstraint_None])))) (Some "o") JoinType.Left
         (JoinConstraint_On (Expr_BinaryOp (Expr_QualifiedIdentifier "u" "id") BinaryOperator.Equals (Expr_QualifiedIdentifier "o" "uid")))]))
    (Some (Expr_BinaryOp (Expr_QualifiedIdentifier "o" "total") BinaryOperator.GreaterThan (number "10")))
    [Expr_QualifiedIdentifier "u" "name"] (Some (Expr_BinaryOp count BinaryOperator.GreaterThan (number "1")))
    [mkOrderByItem (Expr_Identifier "n") SortDirection.Desc NullsOrder.Last] (Some (LimitClause_Expr (number "5"))) (Some (number "2"))
    [LockingClause.ForUpdate]
    [mkSetOperation SetOperator.UnionAll
       (mkSelectStatement None DistinctClause_All [SelectItem_Expr (number "1")] None None [] None [] None None [] [])].

Lemma parse_printed_witness :
  parse (tokens_text (print_statement (Statement_Explain (Statement_Select sample_query)))) = Parsed (Statement_Explain (Statement_Select sample_query)) [Eof].
Proof. apply (parse_printed (Statement_Explain (Statement_Select sample_query))); vm_compute; reflexivity. Defined.

(** An UPDATE and what it returns. *)
Example update_text :
  print_statement (Statement_Update (mkUpdateStatement (ObjectName_single "t") None [mkSetClause "a" (Expr_Literal (Literal.Number "1"))]
    (Some (Expr_Identifier "b")) [SelectItem_Star])) =
  words ["UPDATE"] ++ [Token_Ident "t"] ++ words ["SET"] ++ [Token_Ident "a"; Eq_; Token_Number "1"] ++ words ["WHERE"] ++ [Token_Ident "b"]
  ++ words ["RETURNING"] ++ [Star].
Proof. reflexivity. Qed.

(** The words of the locks and joins that the tokenizer knows: those of FOR SHARE
    and of LATERAL have no text that is read as a keyword. *)
Example unreadable_words :
  forallb readable (words (lock_words LockingClause.ForShare)) = false /\ forallb readable (words (join_words JoinType.Lateral)) = false.
Proof. by vm_compute. Qed.

(** The star of a table is asked for in front of its name: [SELECT t.* FROM t] is
    refused, and [*.t] is the star of [t]. *)
Example table_star_backwards :
  is_failed (parse "SELECT t.* FROM t") = true /\
  (fun q => match q with mkSelectStatement _ _ items _ _ _ _ _ _ _ _ _ => items end) <$> query_of (parse "SELECT *.t FROM t") = Some [SelectItem_TableStar "t"].
Proof. vm_compute. by split. Qed.

(** No lock of rows is read but those for an update: [FOR SHARE] is refused. *)
Example for_share_refused : is_failed (parse "SELECT a FROM t FOR SHARE") = true /\ is_failed (parse "SELECT a FROM t FOR UPDATE") = false.
Proof. vm_compute. by split. Qed.
