(* ===== verification/Wire.v ===== *)
(** The messages of the wire protocol: what the server sends
    ([src/src/protocol/backend.rs]) and what it reads ([src/src/protocol/frontend.rs]).
    The reference is the client: [client_read] takes a stream of server messages
    apart by their tags and lengths, [client_write] writes what a client sends. *)

From S2P Require Import Prelude Types Utf8 SqlText.

(* ------------------------------------------------------------------ *)
(** ** Big-endian integers *)

(** [to_be_bytes] and [from_be_bytes] at [n] bytes; a negative number is its two's
    complement. *)
Definition to_be (n : nat) (z : Z) : bytes := rev (to_le n z).
Definition from_be (bs : bytes) : Z := from_le (rev bs).

(** [as i16] and [as i32] of a number of [w] bits. *)
Definition signed (w z : Z) : Z := let z := wrap w z in if z <? 2 ^ (w - 1) then z else z - 2 ^ w.

Definition in_signed (w z : Z) : Prop := - 2 ^ (w - 1) <= z < 2 ^ (w - 1).

Lemma length_to_be n z : length (to_be n z) = n.
Proof. unfold to_be. by rewrite length_rev, length_to_le. Qed.

Lemma to_le_wrap n z : to_le n (wrap (8 * Z.of_nat n) z) = to_le n z.
Proof.
  revert z. induction n as [|n IH]; intros z; [done|]. unfold wrap in *.
  replace (8 * Z.of_nat (S n)) with (8 + 8 * Z.of_nat n) by lia. rewrite Z.pow_add_r by lia. change (2 ^ 8) with 256.
  pose proof (Z.pow_pos_nonneg 2 (8 * Z.of_nat n) ltac:(lia) ltac:(lia)). cbn [to_le].
  rewrite Z.rem_mul_r by lia. f_equal.
  - rewrite Z.mul_comm, Z_mod_plus_full. by rewrite Z.mod_mod by lia.
  - rewrite <- (IH (z / 256)). f_equal. rewrite Z.mul_comm, Z_div_plus_full by lia. rewrite Z.div_small; [lia|]. by apply Z.mod_pos_bound.
Qed.

Lemma from_to_be n z : from_be (to_be n z) = wrap (8 * Z.of_nat n) z.
Proof.
  unfold from_be, to_be. rewrite rev_involutive, <- to_le_wrap. apply from_to_le. unfold wrap. apply Z.mod_pos_bound.
  apply Z.pow_pos_nonneg; lia.
Qed.

Lemma signed_wrap w z : 0 < w -> in_signed w z -> signed w (wrap w z) = z.
Proof.
  unfold in_signed, signed. intros Hw Hz. assert (E2 : 2 ^ w = 2 * 2 ^ (w - 1)) by (rewrite <- Z.pow_succ_r by lia; f_equal; lia).
  assert (Ew : wrap w (wrap w z) = wrap w z) by (unfold wrap; apply Z.mod_mod; lia). rewrite Ew.
  destruct (decide (0 <= z)) as [Hp|Hn].
  - rewrite (wrap_small w z) by (unfold in_width; lia). destruct (Z.ltb_spec z (2 ^ (w - 1))); lia.
  - rewrite (wrap_below w z) by lia. destruct (Z.ltb_spec (z + 2 ^ w) (2 ^ (w - 1))); lia.
Qed.

(* ------------------------------------------------------------------ *)
(** ** What the server sends *)

Module TransactionStatus.
Inductive TransactionStatus := Idle | InTransaction | InFailedTransaction.
End TransactionStatus.
Abbreviation TransactionStatus := TransactionStatus.TransactionStatus.

(** The letters [I], [T] and [E]. *)
Definition status_u8 (s : TransactionStatus) : Z :=
  match s with TransactionStatus.Idle => 73 | TransactionStatus.InTransaction => 84 | TransactionStatus.InFailedTransaction => 69 end.

Record FieldDescription := {
  fd_name : string;
  fd_table_oid : Oid;
  fd_column_attr : Z;
  fd_type_oid : Oid;
  fd_type_size : Z;
  fd_type_mod : Z;
  fd_format : Z;
}.

Record ErrorField := { ef_field_type : Z; ef_value : string }.

Inductive BackendMessage :=
| AuthenticationOk
| ParameterStatus (name value : string)
| BackendKeyData (pid secret : Z)
| ReadyForQuery (status : TransactionStatus)
| RowDescription (fields : list FieldDescription)
| DataRow (values : list (option bytes))
| CommandComplete (tag : string)
| ErrorResponse (fields : list ErrorField)
| NoticeResponse (fields : list ErrorField)
| ParseComplete
| BindComplete
| CloseComplete
| NoData
| ParameterDescription (types : list Z)
| RowDescriptionEmpty.

Section encode.
Context {P : Profile}.

(** [body.len() as i32 + 4], which overflows for a body of two gigabytes. *)
Definition len_then_4 (n : Z) : outcome Z :=
  let v := signed 32 n + 4 in
  if overflow_checks && (2 ^ 31 <=? v) then Panic else Ok (signed 32 v).

(** A tag, the length that counts itself, and the body. *)
Definition message (tag : Z) (body : bytes) : bytes := tag :: to_be 4 (zlen body + 4) ++ body.

Definition field_bytes (f : FieldDescription) : bytes :=
  bytes_of (fd_name f) ++ 0 :: to_be 4 (fd_table_oid f) ++ to_be 2 (fd_column_attr f) ++ to_be 4 (fd_type_oid f) ++
  to_be 2 (fd_type_size f) ++ to_be 4 (fd_type_mod f) ++ to_be 2 0.

Definition value_bytes (v : option bytes) : bytes :=
  match v with Some data => to_be 4 (zlen data) ++ data | None => to_be 4 (-1) end.

Definition error_field_bytes (f : ErrorField) : bytes := ef_field_type f :: bytes_of (ef_value f) ++ [0].

(** [BackendMessage::encode]. *)
Definition encode_message (m : BackendMessage) : outcome bytes :=
  match m with
  | AuthenticationOk => Ok (82 :: to_be 4 4 ++ to_be 4 0)
  | ParameterStatus name value =>
      let body := bytes_of name ++ 0 :: bytes_of value ++ [0] in
      n ← len_then_4 (zlen body); Ok (83 :: to_be 4 n ++ body)
  | BackendKeyData pid secret => Ok (75 :: to_be 4 12 ++ to_be 4 pid ++ to_be 4 secret)
  | ReadyForQuery status => Ok (90 :: to_be 4 5 ++ [status_u8 status])
  | RowDescription fields => Ok (message 84 (to_be 2 (zlen fields) ++ concat (field_bytes <$> fields)))
  | DataRow values => Ok (message 68 (to_be 2 (zlen values) ++ concat (value_bytes <$> values)))
  | CommandComplete tag =>
      let body := bytes_of tag ++ [0] in
      n ← len_then_4 (zlen body); Ok (67 :: to_be 4 n ++ body)
  | ErrorResponse fields => Ok (message 69 (concat (error_field_bytes <$> fields) ++ [0]))
  | NoticeResponse fields => Ok (message 78 (concat (error_field_bytes <$> fields) ++ [0]))
  | ParseComplete => Ok (49 :: to_be 4 4)
  | BindComplete => Ok (50 :: to_be 4 4)
  | CloseComplete => Ok (51 :: to_be 4 4)
  | NoData => Ok (110 :: to_be 4 4)
  | ParameterDescription types => Ok (message 116 (to_be 2 (zlen types) ++ concat (to_be 4 <$> types)))
  | RowDescriptionEmpty => Ok (84 :: to_be 4 4 ++ to_be 2 0)
  end.

(** [protocol::encode]. *)
Fixpoint encode (messages : list BackendMessage) : outcome bytes :=
  match messages with
  | [] => Ok []
  | m :: messages => data ← encode_message m; rest ← encode messages; Ok (data ++ rest)
  end.
End encode.

(* ------------------------------------------------------------------ *)
(** ** The client's side *)

(** The next [n] bytes, and a number in them. *)
Definition next_bytes (n : nat) (data : bytes) : option (bytes * bytes) :=
  if decide (n <= length data)%nat then Some (take n data, drop n data) else None.

Definition next_be (n : nat) (data : bytes) : option (Z * bytes) := '(bs, rest) ← next_bytes n data; Some (from_be bs, rest).

(** Text up to a zero byte, which is passed. *)
Fixpoint next_text (data : bytes) : option (string * bytes) :=
  match data with
  | [] => None
  | b :: data => if b =? 0 then Some (EmptyString, data) else '(s, rest) ← next_text data; Some (String (of_byte b) s, rest)
  end.

Fixpoint next_many {X} (next : bytes -> option (X * bytes)) (n : nat) (data : bytes) : option (list X * bytes) :=
  match n with
  | O => Some ([], data)
  | S n => '(x, data) ← next data; '(xs, rest) ← next_many next n data; Some (x :: xs, rest)
  end.

Definition next_field (data : bytes) : option (FieldDescription * bytes) :=
  '(name, data) ← next_text data; '(table_oid, data) ← next_be 4 data; '(attr, data) ← next_be 2 data;
  '(type_oid, data) ← next_be 4 data; '(size, data) ← next_be 2 data; '(type_mod, data) ← next_be 4 data;
  '(format, data) ← next_be 2 data;
  Some ({| fd_name := name; fd_table_oid := table_oid; fd_column_attr := signed 16 attr; fd_type_oid := type_oid;
           fd_type_size := signed 16 size; fd_type_mod := signed 32 type_mod; fd_format := signed 16 format |}, data).

Definition next_value (data : bytes) : option (option bytes * bytes) :=
  '(n, data) ← next_be 4 data;
  if signed 32 n =? -1 then Some (None, data) else '(v, data) ← next_bytes (Z.to_nat n) data; Some (Some v, data).

Fixpoint error_fields (fuel : nat) (data : bytes) : option (list ErrorField) :=
  match fuel, data with
  | S fuel, t :: data =>
      if t =? 0 then match data with [] => Some [] | _ => None end
      else '(s, data) ← next_text data; fs ← error_fields fuel data; Some ({| ef_field_type := t; ef_value := s |} :: fs)
  | _, _ => None
  end.

Definition whole {X} (r : option (X * bytes)) : option X := '(x, rest) ← r; match rest with [] => Some x | _ => None end.

Definition read_body (tag : Z) (body : bytes) : option BackendMessage :=
  if tag =? 83 then whole ('(n, d) ← next_text body; '(v, d) ← next_text d; Some (ParameterStatus n v, d))
  else if tag =? 75 then whole ('(p, d) ← next_be 4 body; '(s, d) ← next_be 4 d; Some (BackendKeyData p s, d))
  else if tag =? 90 then
    match body with
    | [73] => Some (ReadyForQuery TransactionStatus.Idle) | [84] => Some (ReadyForQuery TransactionStatus.InTransaction)
    | [69] => Some (ReadyForQuery TransactionStatus.InFailedTransaction) | _ => None
    end
  else if tag =? 84 then
    whole ('(n, d) ← next_be 2 body; '(fs, d) ← next_many next_field (Z.to_nat n) d; Some (RowDescription fs, d))
  else if tag =? 68 then whole ('(n, d) ← next_be 2 body; '(vs, d) ← next_many next_value (Z.to_nat n) d; Some (DataRow vs, d))
  else if tag =? 67 then whole ('(s, d) ← next_text body; Some (CommandComplete s, d))
  else if tag =? 69 then fs ← error_fields (S (length body)) body; Some (ErrorResponse fs)
  else if tag =? 78 then fs ← error_fields (S (length body)) body; Some (NoticeResponse fs)
  else if tag =? 49 then whole (Some (ParseComplete, body))
  else if tag =? 50 then whole (Some (BindComplete, body))
  else if tag =? 51 then whole (Some (CloseComplete, body))
  else if tag =? 110 then whole (Some (NoData, body))
  else if tag =? 116 then
    whole ('(n, d) ← next_be 2 body; '(ts, d) ← next_many (next_be 4) (Z.to_nat n) d; Some (ParameterDescription ts, d))
  else None.

(** A message: the tag, the length that counts itself, that much of a body. *)
Definition client_read (data : bytes) : option (BackendMessage * bytes) :=
  match data with
  | [] => None
  | tag :: data =>
      '(n, data) ← next_be 4 data;
      if n <? 4 then None else '(body, rest) ← next_bytes (Z.to_nat (n - 4)) data; m ← read_body tag body; Some (m, rest)
  end.

Fixpoint client_read_all (fuel : nat) (data : bytes) : option (list BackendMessage) :=
  match data with
  | [] => Some []
  | _ => match fuel with O => None | S fuel => '(m, rest) ← client_read data; ms ← client_read_all fuel rest; Some (m :: ms) end
  end.

(** Every message takes a byte at least. *)
Definition client_reads (data : bytes) : option (list BackendMessage) := client_read_all (length data) data.

(** What can be sent: text without zero bytes, numbers and counts of their widths,
    and neither of the two messages whose length is wrong. *)
Definition text_ok (s : string) : Prop := Forall (fun b => b <> 0) (bytes_of s).

Definition field_ok (f : FieldDescription) : Prop :=
  text_ok (fd_name f) /\ is_u32 (fd_table_oid f) /\ in_signed 16 (fd_column_attr f) /\ is_u32 (fd_type_oid f) /\
  in_signed 16 (fd_type_size f) /\ in_signed 32 (fd_type_mod f) /\ fd_format f = 0.

Definition value_ok (v : option bytes) : Prop := match v with Some data => zlen data < 2 ^ 31 | None => True end.

Definition error_field_ok (f : ErrorField) : Prop := ef_field_type f <> 0 /\ text_ok (ef_value f).

Definition sendable (m : BackendMessage) : Prop :=
  match m with
  | AuthenticationOk | RowDescriptionEmpty => False
  | ParameterStatus name value => text_ok name /\ text_ok value /\ text_len name + text_len value < 2 ^ 31 - 6
  | BackendKeyData pid secret => is_u32 pid /\ is_u32 secret
  | ReadyForQuery _ | ParseComplete | BindComplete | CloseComplete | NoData => True
  | RowDescription fields => Forall field_ok fields /\ zlen fields < 2 ^ 15 /\ zlen (concat (field_bytes <$> fields)) < 2 ^ 31 - 6
  | DataRow values => Forall value_ok values /\ zlen values < 2 ^ 15 /\ zlen (concat (value_bytes <$> values)) < 2 ^ 31 - 6
  | CommandComplete tag => text_ok tag /\ text_len tag < 2 ^ 31 - 5
  | ErrorResponse fields | NoticeResponse fields =>
      Forall error_field_ok fields /\ zlen (concat (error_field_bytes <$> fields)) < 2 ^ 31 - 5
  | ParameterDescription types => Forall is_u32 types /\ zlen types < 2 ^ 15
  end.

(* ------------------------------------------------------------------ *)
(** ** Reading back *)

Lemma next_bytes_app (bs rest : bytes) n : n = length bs -> next_bytes n (bs ++ rest) = Some (bs, rest).
Proof.
  intros ->. unfold next_bytes. rewrite decide_True by (rewrite length_app; lia). by rewrite take_app_length, drop_app_length.
Qed.

Lemma next_be_wrap n z rest : next_be n (to_be n z ++ rest) = Some (wrap (8 * Z.of_nat n) z, rest).
Proof. unfold next_be. rewrite next_bytes_app by (by rewrite length_to_be). cbn [mbind option_bind]. by rewrite from_to_be. Qed.

Lemma next_be_small n z rest : 0 <= z < 2 ^ (8 * Z.of_nat n) -> next_be n (to_be n z ++ rest) = Some (z, rest).
Proof. intros Hz. by rewrite next_be_wrap, wrap_small. Qed.

Lemma next_text_app s rest : text_ok s -> next_text (bytes_of s ++ 0 :: rest) = Some (s, rest).
Proof.
  induction s as [|c s IH]; intros Hs; [done|]. apply Forall_cons in Hs as [Hc Hs]. cbn. cbn in Hc.
  destruct (Z.eqb_spec (byte_of c) 0); [done|]. rewrite (IH Hs). cbn. by rewrite of_byte_of.
Qed.

Lemma next_many_concat {X} (next : bytes -> option (X * bytes)) (enc : X -> bytes) (ok : X -> Prop) l rest :
  (forall x rest, ok x -> next (enc x ++ rest) = Some (x, rest)) -> Forall ok l ->
  next_many next (length l) (concat (enc <$> l) ++ rest) = Some (l, rest).
Proof.
  intros Hn. induction 1 as [|x l Hx _ IH]; [done|]. cbn [fmap list_fmap List.map concat length next_many].
  rewrite <- app_assoc, Hn by done. cbn [mbind option_bind]. fold (fmap enc l). by rewrite IH.
Qed.

Lemma next_field_bytes f rest : field_ok f -> next_field (field_bytes f ++ rest) = Some (f, rest).
Proof.
  intros (Hn & Ho & Ha & Ht & Hs & Hm & Hf). unfold next_field, field_bytes. repeat (rewrite <- ?app_assoc, <- ?app_comm_cons).
  rewrite next_text_app by done. cbn [mbind option_bind].
  repeat (rewrite next_be_wrap; cbn [mbind option_bind]). change (8 * Z.of_nat 4) with 32. change (8 * Z.of_nat 2) with 16.
  rewrite !(wrap_small 32) by done. rewrite !signed_wrap by (done || lia). destruct f; cbn in *; by subst.
Qed.

Lemma next_value_bytes v rest : value_ok v -> next_value (value_bytes v ++ rest) = Some (v, rest).
Proof.
  unfold next_value. destruct v as [data|]; cbn [value_ok value_bytes]; intros Hv; [|by rewrite next_be_wrap].
  rewrite <- app_assoc, next_be_wrap. cbn [mbind option_bind]. change (8 * Z.of_nat 4) with 32.
  rewrite signed_wrap by (unfold in_signed; lia). rewrite wrap_small by (unfold in_width; lia).
  destruct (Z.eqb_spec (zlen data) (-1)); [lia|]. by rewrite next_bytes_app by lia.
Qed.

Lemma error_fields_bytes fs fuel :
  Forall error_field_ok fs -> (length fs < fuel)%nat -> error_fields fuel (concat (error_field_bytes <$> fs) ++ [0]) = Some fs.
Proof.
  intros Hok. revert fuel. induction Hok as [|f fs [Ht Hv] _ IH]; intros [|fuel] Hf; cbn in Hf; try lia; [done|].
  cbn [fmap list_fmap List.map concat error_field_bytes app error_fields]. destruct (Z.eqb_spec (ef_field_type f) 0); [done|].
  rewrite <- !app_assoc. cbn [app]. rewrite next_text_app by done. cbn [mbind option_bind]. fold (fmap error_field_bytes fs).
  rewrite IH by lia. by destruct f.
Qed.

Lemma error_fields_fuel (fs : list ErrorField) : (length fs < S (length (concat (error_field_bytes <$> fs) ++ [0%Z])))%nat.
Proof.
  enough (length fs <= length (concat (error_field_bytes <$> fs)))%nat by (rewrite length_app; lia).
  induction fs as [|f fs IH]; cbn; [lia|]. rewrite length_app. lia.
Qed.

Lemma whole_done {X} (x : X) : whole (Some (x, [])) = Some x.
Proof. done. Qed.

Lemma client_read_message tag body m rest :
  read_body tag body = Some m -> zlen body < 2 ^ 31 - 4 -> client_read (message tag body ++ rest) = Some (m, rest).
Proof.
  intros Hb Hl. unfold message, client_read. cbn [app]. rewrite <- app_assoc, next_be_small by (change (8 * Z.of_nat 4) with 32; lia).
  cbn [mbind option_bind]. destruct (Z.ltb_spec (zlen body + 4) 4); [lia|].
  rewrite next_bytes_app by lia. cbn [mbind option_bind]. by rewrite Hb.
Qed.

Lemma len_then_4_small {P : Profile} n : 0 <= n < 2 ^ 31 - 4 -> len_then_4 n = Ok (n + 4).
Proof.
  intros Hn. assert (E : forall z, 0 <= z < 2 ^ 31 -> signed 32 z = z).
  { intros z Hz. unfold signed. rewrite wrap_small by (unfold in_width; lia). destruct (Z.ltb_spec z (2 ^ (32 - 1))); lia. }
  unfold len_then_4. rewrite E by lia. destruct (Z.leb_spec (2 ^ 31) (n + 4)); [lia|]. rewrite andb_false_r, E by lia. done.
Qed.

Lemma text_bytes_len s : zlen (bytes_of s) = text_len s.
Proof. unfold text_len. induction s as [|c s IH]; cbn; lia. Qed.

Lemma encode_sent {P : Profile} m :
  sendable m -> exists tag body, encode_message m = Ok (message tag body) /\ read_body tag body = Some m /\ zlen body < 2 ^ 31 - 4.
Proof.
  destruct m as [|name value|pid secret|status|fields|values|tag|fields|fields| | | | |types|]; cbn [sendable encode_message]; intros Hm; try done.
  - destruct Hm as (Hn & Hv & Hl). assert (Hz : zlen (bytes_of name ++ 0 :: bytes_of value ++ [0]) < 2 ^ 31 - 4).
    { rewrite length_app. cbn [length]. rewrite length_app. cbn [length]. pose proof (text_bytes_len name). pose proof (text_bytes_len value). lia. }
    rewrite len_then_4_small by lia. eexists 83, _. split; [reflexivity|split; [|exact Hz]].
    unfold read_body. cbn [Z.eqb Pos.eqb]. rewrite next_text_app by done. cbn [mbind option_bind]. by rewrite next_text_app.
  - destruct Hm as [Hp Hs]. eexists 75, (to_be 4 pid ++ to_be 4 secret). split; [|split].
    + unfold message. do 3 f_equal.
    + unfold read_body. cbn [Z.eqb Pos.eqb]. rewrite next_be_small by done. cbn [mbind option_bind].
      rewrite <- (app_nil_r (to_be 4 secret)), next_be_small by done. done.
    + rewrite length_app, !length_to_be. lia.
  - eexists 90, [_]. split; [reflexivity|split; [by destruct status|cbn; lia]].
  - destruct Hm as (Hf & Hc & Hl). eexists 84, _. split; [reflexivity|split].
    + unfold read_body. cbn [Z.eqb Pos.eqb]. rewrite next_be_small by (change (8 * Z.of_nat 2) with 16; lia). cbn [mbind option_bind].
      rewrite Nat2Z.id, <- (app_nil_r (concat _)), (next_many_concat _ _ field_ok) by (done || apply next_field_bytes). done.
    + rewrite length_app, length_to_be. lia.
  - destruct Hm as (Hf & Hc & Hl). eexists 68, _. split; [reflexivity|split].
    + unfold read_body. cbn [Z.eqb Pos.eqb]. rewrite next_be_small by (change (8 * Z.of_nat 2) with 16; lia). cbn [mbind option_bind].
      rewrite Nat2Z.id, <- (app_nil_r (concat _)), (next_many_concat _ _ value_ok) by (done || apply next_value_bytes). done.
    + rewrite length_app, length_to_be. lia.
  - destruct Hm as [Ht Hl]. assert (Hz : zlen (bytes_of tag ++ [0]) < 2 ^ 31 - 4).
    { rewrite length_app. cbn [length]. pose proof (text_bytes_len tag). lia. }
    rewrite len_then_4_small by lia. eexists 67, _. split; [reflexivity|split; [|exact Hz]].
    unfold read_body. cbn [Z.eqb Pos.eqb]. by rewrite next_text_app.
  - destruct Hm as [Hf Hl]. eexists 69, _. split; [reflexivity|split; [|rewrite length_app; cbn [length]; lia]].
    unfold read_body. cbn [Z.eqb Pos.eqb]. rewrite error_fields_bytes; [done..|]. apply error_fields_fuel.
  - destruct Hm as [Hf Hl]. eexists 78, _. split; [reflexivity|split; [|rewrite length_app; cbn [length]; lia]].
    unfold read_body. cbn [Z.eqb Pos.eqb]. rewrite error_fields_bytes; [done..|]. apply error_fields_fuel.
  - by eexists 49, [].
  - by eexists 50, [].
  - by eexists 51, [].
  - by eexists 110, [].
  - destruct Hm as [Ht Hc]. eexists 116, _. split; [reflexivity|split].
    + unfold read_body. cbn [Z.eqb Pos.eqb]. rewrite next_be_small by (change (8 * Z.of_nat 2) with 16; lia). cbn [mbind option_bind].
      rewrite Nat2Z.id, <- (app_nil_r (concat _)), (next_many_concat _ _ is_u32) by (done || (intros; by apply next_be_small)). done.
    + rewrite length_app, length_to_be. enough (length (concat (to_be 4 <$> types)) = 4 * length types)%nat by lia.
      clear. induction types as [|t ts IH]; [done|]. rewrite fmap_cons. cbn [concat length].
      rewrite length_app, length_to_be. lia.
Qed.

(** The two messages whose length does not count their last bytes. *)
Definition misframed (m : BackendMessage) : Prop := m = AuthenticationOk \/ m = RowDescriptionEmpty.

Lemma encode_app {P : Profile} m ms data : encode (m :: ms) = Ok data -> exists d rest, encode_message m = Ok d /\ encode ms = Ok rest /\ data = d ++ rest.
Proof.
  cbn [encode]. destruct (encode_message m) as [d| |]; [|done..]. destruct (encode ms) as [rest| |]; [|done..]. intros [= <-]. by exists d, rest.
Qed.

(** A client reads nothing behind one of them. *)
Lemma misframed_unreadable {P : Profile} ms m ms' data fuel :
  Forall sendable ms -> misframed m -> encode (ms ++ m :: ms') = Ok data -> client_read_all fuel data = None.
Proof.
  intros Hms Hm. revert data fuel. induction Hms as [|m1 ms Hm1 _ IH]; intros data fuel (d & rest & Ed & Er & ->)%encode_app.
  - destruct Hm as [-> | ->]; injection Ed as <-; by destruct fuel.
  - destruct (encode_sent m1 Hm1) as (tag & body & Em & Hb & Hl). rewrite Em in Ed. injection Ed as <-.
    destruct fuel as [|fuel]; [done|]. cbn [client_read_all]. rewrite (client_read_message tag body m1 rest Hb Hl).
    cbn [app message mbind option_bind]. by rewrite (IH rest fuel Er).
Qed.

(** C40. What a client makes of the stream the server encodes. A stream of messages
    whose texts have no zero byte and whose numbers, counts and lengths have their
    widths, with columns in text format, is taken apart into the messages that were
    sent: encoding succeeds, tags and lengths frame every message, and the fields of
    each read back. That is so for all kinds of messages but two, [AuthenticationOk] and
    the row description of an answer without rows, whose lengths are wrong: a client
    cannot read a stream that has one of them, whatever follows. *)
Theorem encode_read_back {P : Profile} ms :
  Forall sendable ms ->
  exists data, encode ms = Ok data /\ client_reads data = Some ms /\
  forall m ms' data', misframed m -> encode (ms ++ m :: ms') = Ok data' -> client_reads data' = None.
Proof.
  intros Hms. enough (exists data, encode ms = Ok data /\ forall fuel, (length data <= fuel)%nat -> client_read_all fuel data = Some ms)
    as (data & E & Hd) by (exists data; split_and!; [done|by apply Hd|]; intros m ms' data' Hm E'; by apply (misframed_unreadable ms m ms')).
  induction Hms as [|m ms Hm _ (data & E & IH)]; [exists []; split; [done|by intros []]|].
  destruct (encode_sent m Hm) as (tag & body & Em & Hb & Hl). exists (message tag body ++ data). cbn [encode]. rewrite Em, E. split; [done|].
  intros [|fuel] Hf; [cbn in Hf; lia|]. cbn [client_read_all].
  rewrite (client_read_message tag body m data Hb Hl). cbn [app message mbind option_bind].
  rewrite IH; [done|]. cbn [app message length] in Hf. rewrite length_app in Hf. lia.
Qed.

(** The answer to a query without rows cannot be read: the length of
    [RowDescriptionEmpty] leaves out its two bytes, which become the next tag. *)
Example empty_answer_unreadable :
  client_reads <$> outcome_ok (@encode debug_profile [RowDescriptionEmpty; CommandComplete "SELECT 0"; ReadyForQuery TransactionStatus.Idle]) = Some None.
Proof. reflexivity. Qed.

(** Nor can [AuthenticationOk], whose length leaves out its code. *)
Example authentication_unreadable :
  client_reads <$> outcome_ok (@encode debug_profile [AuthenticationOk; ReadyForQuery TransactionStatus.Idle]) = Some None.
Proof. reflexivity. Qed.

(* ------------------------------------------------------------------ *)
(** ** What the server reads *)

Inductive Message :=
| StartupMessage (protocol_version : Z) (parameters : gmap string string)
| Message_Query (sql : string)
| Message_Parse (name sql : string) (parameter_types : list Z)
| Message_Bind (portal statement : string) (parameter_formats : list Z) (parameter_values : list (option bytes)) (result_formats : list Z)
| Message_Describe (kind : Z) (name : string)
| Message_Execute (portal : string) (max_rows : Z)
| Message_Sync
| Message_Close (kind : Z) (name : string)
| Message_Flush
| Message_Terminate.

Definition lossy_text (data : bytes) : string := text_of (from_utf8_lossy data).

(** [trim_end_matches(0)]. *)
Fixpoint trim_zeros (data : bytes) : bytes :=
  match data with
  | [] => []
  | b :: data => match trim_zeros data with [] => if b =? 0 then [] else [b] | r => b :: r end
  end.

(** [read_cstring], on what is left of the body behind the cursor: the bytes up to
    a zero, which is passed, or all. *)
Fixpoint read_cstring (data : bytes) : bytes * bytes :=
  match data with
  | [] => ([], [])
  | b :: data => if b =? 0 then ([], data) else let '(s, rest) := read_cstring data in (b :: s, rest)
  end.

(** [uN::from_be_bytes([body[cursor], ..])]. *)
Definition read_be (n : nat) (data : bytes) : outcome (Z * bytes) :=
  match next_be n data with Some r => Ok r | None => Panic end.

Fixpoint read_many {X} (read : bytes -> outcome (X * bytes)) (n : nat) (data : bytes) : outcome (list X * bytes) :=
  match n with
  | O => Ok ([], data)
  | S n => '(x, data) ← read data; '(xs, rest) ← read_many read n data; Ok (x :: xs, rest)
  end.

Definition read_i16 (data : bytes) : outcome (Z * bytes) := '(z, rest) ← read_be 2 data; Ok (signed 16 z, rest).

(** [body[cursor..cursor + len as usize]]: a negative length is a huge one. *)
Definition read_value (data : bytes) : outcome (option bytes * bytes) :=
  '(n, data) ← read_be 4 data;
  if signed 32 n =? -1 then Ok (None, data)
  else if 0 <=? signed 32 n then
    match next_bytes (Z.to_nat n) data with Some (v, rest) => Ok (Some v, rest) | None => Panic end
  else Panic.

Definition kind_and_name (body : bytes) : outcome (Z * string) :=
  match body with [] => Panic | kind :: name => Ok (kind, text_of (trim_zeros (from_utf8_lossy name))) end.

(** The message of a type, or nothing for a type that is not known. *)
Definition decode_body (msg_type : Z) (body : bytes) : outcome (option Message) :=
  if msg_type =? 81 then Ok (Some (Message_Query (text_of (trim_zeros (from_utf8_lossy body)))))
  else if msg_type =? 80 then
    let '(name, d) := read_cstring body in
    let '(sql, d) := read_cstring d in
    '(n, d) ← read_be 2 d;
    '(types, d) ← read_many (read_be 4) (Z.to_nat n) d;
    Ok (Some (Message_Parse (lossy_text name) (lossy_text sql) types))
  else if msg_type =? 66 then
    let '(portal, d) := read_cstring body in
    let '(statement, d) := read_cstring d in
    '(n, d) ← read_be 2 d;
    '(formats, d) ← read_many read_i16 (Z.to_nat n) d;
    '(n, d) ← read_be 2 d;
    '(values, d) ← read_many read_value (Z.to_nat n) d;
    '(n, d) ← read_be 2 d;
    '(results, d) ← read_many read_i16 (Z.to_nat n) d;
    Ok (Some (Message_Bind (lossy_text portal) (lossy_text statement) formats values results))
  else if msg_type =? 68 then '(kind, name) ← kind_and_name body; Ok (Some (Message_Describe kind name))
  else if msg_type =? 69 then
    let '(portal, d) := read_cstring body in
    '(n, d) ← read_be 4 d;
    Ok (Some (Message_Execute (lossy_text portal) (signed 32 n)))
  else if msg_type =? 83 then Ok (Some Message_Sync)
  else if msg_type =? 67 then '(kind, name) ← kind_and_name body; Ok (Some (Message_Close kind name))
  else if msg_type =? 72 then Ok (Some Message_Flush)
  else if msg_type =? 88 then Ok (Some Message_Terminate)
  else Ok None.

Section decode.
Context {P : Profile}.

(** [length as usize] of the [i32]: a negative one wraps. *)
Definition as_usize (z : Z) : Z := (signed 32 z) as_u64.

(** The loop of [Message::decode] from [pos] on. *)
Fixpoint decode_from (fuel : nat) (data : bytes) (pos : Z) : outcome (list Message) :=
  match fuel with
  | O => Ok []
  | S fuel =>
      if negb (pos <? zlen data) then Ok []
      else if zlen data <? pos + 4 then Ok []
      else
        msg_type ← index pos data;
        header ← slice (pos + 1) (pos + 5) data;
        let length := as_usize (from_be header) in
        if length <? 4 then Ok []
        else
          end_ ← add_w 64 (pos + 1) length;
          if zlen data <? end_ then Ok []
          else
            body ← slice (pos + 5) end_ data;
            m ← decode_body msg_type body;
            rest ← decode_from fuel data end_;
            Ok (option_list m ++ rest)
  end.

(** [Message::decode]: each round passes a message of five bytes at least. *)
Definition decode (data : bytes) : outcome (list Message) := decode_from (S (length data)) data 0.
End decode.

(** Bytes that are left over: four of them, or a length that is negative, panic;
    so does a body that is too short for what it announces. *)
Example decode_four_bytes : @decode debug_profile [83; 0; 0; 0] = Panic.
Proof. reflexivity. Qed.

Example decode_negative_length {P : Profile} : decode [83; 255; 255; 255; 255] = Panic.
Proof. destruct P; reflexivity. Qed.

Example decode_short_body : @decode debug_profile [68; 0; 0; 0; 4] = Panic.
Proof. reflexivity. Qed.

(* ------------------------------------------------------------------ *)
(** ** The client's messages *)

Definition cstring (s : string) : bytes := bytes_of s ++ [0].

Definition counted {X} (enc : X -> bytes) (l : list X) : bytes := to_be 2 (zlen l) ++ concat (enc <$> l).

Definition client_write (m : Message) : bytes :=
  match m with
  | StartupMessage _ _ => []
  | Message_Query sql => message 81 (cstring sql)
  | Message_Parse name sql types => message 80 (cstring name ++ cstring sql ++ counted (to_be 4) types)
  | Message_Bind portal statement formats values results =>
      message 66 (cstring portal ++ cstring statement ++ counted (to_be 2) formats ++ counted value_bytes values ++ counted (to_be 2) results)
  | Message_Describe kind name => message 68 (kind :: cstring name)
  | Message_Execute portal max_rows => message 69 (cstring portal ++ to_be 4 max_rows)
  | Message_Sync => message 83 []
  | Message_Close kind name => message 67 (kind :: cstring name)
  | Message_Flush => message 72 []
  | Message_Terminate => message 88 []
  end.

Definition name_ok (s : string) : Prop := text_ok s /\ valid_utf8 (bytes_of s).

Definition writable (m : Message) : Prop :=
  zlen (client_write m) < 2 ^ 31 /\
  match m with
  | StartupMessage _ _ => False
  | Message_Query sql => name_ok sql
  | Message_Parse name sql types => name_ok name /\ name_ok sql /\ Forall is_u32 types /\ zlen types < 2 ^ 16
  | Message_Bind portal statement formats values results =>
      name_ok portal /\ name_ok statement /\ Forall (in_signed 16) formats /\ zlen formats < 2 ^ 16 /\
      Forall value_ok values /\ zlen values < 2 ^ 16 /\ Forall (in_signed 16) results /\ zlen results < 2 ^ 16
  | Message_Describe _ name | Message_Close _ name => name_ok name
  | Message_Execute portal max_rows => name_ok portal /\ in_signed 32 max_rows
  | Message_Sync | Message_Flush | Message_Terminate => True
  end.

Lemma read_cstring_app s rest : text_ok s -> read_cstring (cstring s ++ rest) = (bytes_of s, rest).
Proof.
  unfold cstring, text_ok. rewrite <- app_assoc. cbn [app]. induction 1 as [|b bs Hb _ IH]; [done|]. cbn. destruct (Z.eqb_spec b 0); [done|].
  by rewrite IH.
Qed.

Lemma lossy_name s : valid_utf8 (bytes_of s) -> lossy_text (bytes_of s) = s.
Proof. intros Hs. unfold lossy_text. by rewrite lossy_valid, text_of_bytes. Qed.

Lemma trim_zeros_end data : Forall (fun b => b <> 0) data -> trim_zeros (data ++ [0]) = data.
Proof.
  induction 1 as [|b data Hb _ IH]; [done|]. cbn. rewrite IH. destruct data; [|done]. by destruct (Z.eqb_spec b 0).
Qed.

Lemma read_be_app n z rest : 0 <= z < 2 ^ (8 * Z.of_nat n) -> read_be n (to_be n z ++ rest) = Ok (z, rest).
Proof. intros Hz. unfold read_be. by rewrite next_be_small. Qed.

Lemma read_many_concat {X} (read : bytes -> outcome (X * bytes)) (enc : X -> bytes) (ok : X -> Prop) l rest :
  (forall x rest, ok x -> read (enc x ++ rest) = Ok (x, rest)) -> Forall ok l ->
  read_many read (length l) (concat (enc <$> l) ++ rest) = Ok (l, rest).
Proof.
  intros Hn. induction 1 as [|x l Hx _ IH]; [done|]. rewrite fmap_cons. cbn [concat length read_many].
  rewrite <- app_assoc, Hn by done. cbn [mbind outcome_bind]. by rewrite IH.
Qed.

Lemma read_i16_app z rest : in_signed 16 z -> read_i16 (to_be 2 z ++ rest) = Ok (z, rest).
Proof.
  intros Hz. unfold read_i16, read_be. rewrite next_be_wrap. cbn [mbind outcome_bind]. change (8 * Z.of_nat 2) with 16.
  by rewrite signed_wrap.
Qed.

Lemma read_value_app v rest : value_ok v -> read_value (value_bytes v ++ rest) = Ok (v, rest).
Proof.
  unfold read_value, read_be. destruct v as [data|]; cbn [value_ok value_bytes]; intros Hv; [|by rewrite next_be_wrap].
  rewrite <- app_assoc, next_be_wrap. cbn [mbind outcome_bind]. change (8 * Z.of_nat 4) with 32.
  rewrite signed_wrap by (unfold in_signed; lia). rewrite wrap_small by (unfold in_width; lia).
  destruct (Z.eqb_spec (zlen data) (-1)); [lia|]. destruct (Z.leb_spec 0 (zlen data)); [|lia]. by rewrite next_bytes_app by lia.
Qed.

Lemma lossy_cstring s : name_ok s -> trim_zeros (from_utf8_lossy (cstring s)) = bytes_of s.
Proof.
  intros [Ht Hv]. unfold cstring. rewrite lossy_valid by (apply valid_app; [done|reflexivity]). by apply trim_zeros_end.
Qed.

Lemma read_counted {X} (read : bytes -> outcome (X * bytes)) (enc : X -> bytes) (ok : X -> Prop) l rest :
  (forall x rest, ok x -> read (enc x ++ rest) = Ok (x, rest)) -> Forall ok l -> zlen l < 2 ^ 16 ->
  ('(n, d) ← read_be 2 (counted enc l ++ rest); read_many read (Z.to_nat n) d) = Ok (l, rest).
Proof.
  intros Hr Hl Hn. unfold counted. rewrite <- app_assoc, read_be_app by (change (8 * Z.of_nat 2) with 16; lia).
  cbn [mbind outcome_bind]. rewrite Nat2Z.id. by apply (read_many_concat read enc ok).
Qed.

(** The body of a message that was written decodes to the message. *)
Lemma decode_written m : writable m -> exists tag body, client_write m = message tag body /\ decode_body tag body = Ok (Some m).
Proof.
  intros [_ Hm]. destruct m as [|sql|name sql types|portal statement formats values results|kind name|portal max_rows| |kind name| |];
    cbn [client_write]; try done; eexists _, _; (split; [reflexivity|]); unfold decode_body; cbn [Z.eqb Pos.eqb]; try done.
  - by rewrite lossy_cstring, text_of_bytes.
  - destruct Hm as ([Hn Hn'] & [Hs Hs'] & Ht & Hc). rewrite !read_cstring_app by done.
    pose proof (read_counted (read_be 4) (to_be 4) is_u32 types [] (fun x r Hx => read_be_app 4 x r Hx) Ht Hc) as Hr.
    rewrite app_nil_r in Hr. destruct (read_be 2 (counted (to_be 4) types)) as [[n d]|e|]; try discriminate. cbn [mbind outcome_bind] in *.
    rewrite Hr. cbn. by rewrite !lossy_name.
  - destruct Hm as ([Hn Hn'] & [Hs Hs'] & Hf & Hfc & Hv & Hvc & Hr & Hrc). rewrite !read_cstring_app by done.
    pose proof (read_counted read_i16 (to_be 2) (in_signed 16) formats (counted value_bytes values ++ counted (to_be 2) results)
      read_i16_app Hf Hfc) as E1.
    destruct (read_be 2 (counted (to_be 2) formats ++ _)) as [[n d]|e|]; try discriminate. cbn [mbind outcome_bind] in *. rewrite E1. clear E1.
    cbn [mbind outcome_bind].
    pose proof (read_counted read_value value_bytes value_ok values (counted (to_be 2) results) read_value_app Hv Hvc) as E2.
    destruct (read_be 2 (counted value_bytes values ++ _)) as [[n' d']|e|]; try discriminate. cbn [mbind outcome_bind] in *. rewrite E2. clear E2.
    cbn [mbind outcome_bind].
    pose proof (read_counted read_i16 (to_be 2) (in_signed 16) results [] read_i16_app Hr Hrc) as E3. rewrite app_nil_r in E3.
    destruct (read_be 2 (counted (to_be 2) results)) as [[n'' d'']|e|]; try discriminate. cbn [mbind outcome_bind] in *. rewrite E3.
    cbn. by rewrite !lossy_name.
  - cbn [kind_and_name mbind outcome_bind]. by rewrite lossy_cstring, text_of_bytes.
  - destruct Hm as [[Hp Hp'] Hr]. rewrite read_cstring_app by done. rewrite <- (app_nil_r (to_be 4 max_rows)).
    unfold read_be. rewrite next_be_wrap. cbn [mbind outcome_bind]. change (8 * Z.of_nat 4) with 32. by rewrite signed_wrap, lossy_name.
  - cbn [kind_and_name mbind outcome_bind]. by rewrite lossy_cstring, text_of_bytes.
Qed.

Lemma length_message tag body : length (message tag body) = (5 + length body)%nat.
Proof. unfold message. cbn [length]. by rewrite length_app, length_to_be. Qed.

Section stream.
Context {P : Profile}.

Lemma as_usize_small z : 0 <= z < 2 ^ 31 -> as_usize z = z.
Proof.
  intros Hz. unfold as_usize, signed. rewrite (wrap_small 32 z) by (unfold in_width; lia).
  destruct (Z.ltb_spec z (2 ^ (32 - 1))); [|lia]. apply wrap_small. unfold in_width. lia.
Qed.

Lemma cons_middle {X} (x : X) l r : l ++ x :: r = (l ++ [x]) ++ r.
Proof. by rewrite <- app_assoc. Qed.

(** What the loop does at a header whose length is right: nothing when the body is
    not all there, else the message and what follows. *)
Lemma decode_from_header fuel (pre : bytes) tag (body rest data : bytes) :
  data = pre ++ tag :: to_be 4 (zlen body + 4) ++ rest -> zlen body < 2 ^ 31 - 4 -> zlen data < 2 ^ 63 ->
  decode_from (S fuel) data (zlen pre) =
    if zlen rest <? zlen body then Ok []
    else
      m ← decode_body tag (take (length body) rest);
      ms ← decode_from fuel data (zlen pre + 5 + zlen body);
      Ok (option_list m ++ ms).
Proof.
  intros Ed Hb Hd. assert (Hlen : zlen data = zlen pre + 5 + zlen rest).
  { subst data. rewrite length_app. cbn [length]. rewrite length_app, length_to_be. lia. }
  cbn [decode_from]. destruct (Z.ltb_spec (zlen pre) (zlen data)); [|lia]. cbn [negb].
  destruct (Z.ltb_spec (zlen data) (zlen pre + 4)); [lia|].
  rewrite (index_ok _ _ tag) by (rewrite get_nat, Ed, lookup_app_r, Nat.sub_diag by lia; done). cbn [mbind outcome_bind].
  assert (Eh : slice (zlen pre + 1) (zlen pre + 5) data = Ok (to_be 4 (zlen body + 4))).
  { rewrite Ed, (cons_middle tag). apply slice_app_exact; rewrite ?length_app, ?length_to_be; cbn [length]; lia. }
  rewrite Eh. cbn [mbind outcome_bind]. rewrite from_to_be, (wrap_small 32) by (unfold in_width; lia). rewrite as_usize_small by lia.
  destruct (Z.ltb_spec (zlen body + 4) 4); [lia|]. rewrite add_w_ok by (unfold in_width; lia). cbn [mbind outcome_bind].
  replace (zlen pre + 1 + (zlen body + 4)) with (zlen pre + 5 + zlen body) by lia.
  destruct (Z.ltb_spec (zlen data) (zlen pre + 5 + zlen body)), (Z.ltb_spec (zlen rest) (zlen body)); try lia; [done|].
  assert (Eb : slice (zlen pre + 5) (zlen pre + 5 + zlen body) data = Ok (take (length body) rest)).
  { rewrite slice_ok by lia. f_equal. replace (Z.to_nat (_ - _)) with (length body) by lia. f_equal.
    rewrite Ed, (cons_middle tag), (app_assoc _ (to_be _ _)).
    replace (Z.to_nat (zlen pre + 5)) with (length ((pre ++ [tag]) ++ to_be 4 (zlen body + 4))); [by rewrite drop_app_length|].
    rewrite !length_app, length_to_be. cbn [length]. lia. }
  by rewrite Eb.
Qed.

(** The start of a message that is not all there, but for exactly four bytes. *)
Definition unfinished (tail : bytes) : Prop :=
  exists m k, writable m /\ tail = take k (client_write m) /\ (k < length (client_write m))%nat /\ k <> 4%nat.

Lemma decode_from_unfinished fuel pre tail :
  unfinished tail -> zlen (pre ++ tail) < 2 ^ 63 -> decode_from (S fuel) (pre ++ tail) (zlen pre) = Ok [].
Proof.
  intros (m & k & Hm & -> & Hk & Hk4) Hd. destruct (decode_written m Hm) as (tag & body & Ew & _). rewrite Ew in *.
  rewrite length_message in Hk. assert (Hb : zlen body < 2 ^ 31 - 4) by (destruct Hm as [Hl _]; rewrite Ew, length_message in Hl; lia).
  destruct (decide (k < 4)%nat) as [Hs|].
  - cbn [decode_from]. rewrite length_app, length_take, length_message. destruct (Z.ltb_spec (zlen pre) (Z.of_nat (length pre + k `min` (5 + length body)))); [|done].
    cbn [negb]. destruct (Z.ltb_spec (Z.of_nat (length pre + k `min` (5 + length body))) (zlen pre + 4)); [done|lia].
  - assert (Et : take k (message tag body) = tag :: to_be 4 (zlen body + 4) ++ take (k - 5) body).
    { unfold message. destruct k as [|k]; [lia|]. cbn [take]. f_equal. rewrite take_app_ge by (rewrite length_to_be; lia). by rewrite length_to_be. }
    rewrite Et in *. rewrite (decode_from_header fuel pre tag body (take (k - 5) body)) by done.
    destruct (Z.ltb_spec (zlen (take (k - 5) body)) (zlen body)) as [|Hge]; [done|]. rewrite length_take in Hge. lia.
Qed.
End stream.

(** The server reads the messages a client writes, in order, whatever the kinds,
    and leaves out the start of a message that is not all there. *)
Theorem decode_reads_client {P : Profile} ms tail :
  Forall writable ms -> tail = [] \/ unfinished tail -> zlen (concat (client_write <$> ms) ++ tail) < 2 ^ 63 ->
  decode (concat (client_write <$> ms) ++ tail) = Ok ms.
Proof.
  intros Hms Ht Hd. unfold decode.
  enough (Hgo : forall pre ms fuel, Forall writable ms -> zlen (pre ++ concat (client_write <$> ms) ++ tail) < 2 ^ 63 ->
    (length (concat (client_write <$> ms) ++ tail) < fuel)%nat ->
    decode_from fuel (pre ++ concat (client_write <$> ms) ++ tail) (zlen pre) = Ok ms) by (apply (Hgo []); [done|done|lia]).
  clear ms Hms Hd. intros pre ms fuel Hms. revert pre fuel. induction Hms as [|m ms Hm _ IH]; intros pre fuel Hd Hf; destruct fuel as [|fuel]; [lia| |lia|].
  - cbn [fmap list_fmap List.map concat app] in *. destruct Ht as [->|Ht]; [|by apply decode_from_unfinished].
    cbn [decode_from]. rewrite app_nil_r. by rewrite Z.ltb_irrefl.
  - destruct (decode_written m Hm) as (tag & body & Ew & Eb). rewrite fmap_cons in *. cbn [concat] in *. rewrite Ew, <- app_assoc in *.
    assert (Hb : zlen body < 2 ^ 31 - 4) by (destruct Hm as [Hl _]; rewrite Ew, length_message in Hl; lia).
    set (rest := concat (client_write <$> ms) ++ tail) in *.
    rewrite (decode_from_header fuel pre tag body (body ++ rest)); [|unfold message; cbn [app]; by rewrite <- app_assoc|done|done].
    rewrite length_app. destruct (Z.ltb_spec (Z.of_nat (length body + length rest)) (zlen body)); [lia|].
    rewrite take_app_length, Eb. cbn [mbind outcome_bind].
    replace (zlen pre + 5 + zlen body) with (zlen (pre ++ message tag body)) by (rewrite length_app, length_message; lia).
    rewrite app_assoc in Hd |- *. subst rest. rewrite IH; [done|done|].
    rewrite length_app, length_message in Hf. lia.
Qed.

#[local] Existing Instance debug_profile.

Lemma encode_read_back_witness :
  exists data, encode [ParameterStatus "TimeZone" "Etc/UTC"; DataRow [Some [49]; None]; ReadyForQuery TransactionStatus.Idle] = Ok data /\
    client_reads data = Some [ParameterStatus "TimeZone" "Etc/UTC"; DataRow [Some [49]; None]; ReadyForQuery TransactionStatus.Idle].
Proof.
  destruct (encode_read_back [ParameterStatus "TimeZone" "Etc/UTC"; DataRow [Some [49]; None]; ReadyForQuery TransactionStatus.Idle])
    as (data & E & Hd & _); [repeat constructor; cbn; try lia; done|]. exists data. exact (conj E Hd).
Defined.

Lemma decode_reads_client_witness :
  let ms := [Message_Query "SELECT 1;"; Message_Bind "p" "s" [0] [Some [49]; None] []; Message_Sync] in
  decode (concat (client_write <$> ms) ++ [88; 0]) = Ok ms.
Proof.
  intros ms. apply (decode_reads_client ms [88; 0]).
  - assert (Hn : forall s, forallb (fun b => (0 <? b) && (b <? 128)) (bytes_of s) = true -> name_ok s).
    { intros s Hs. rewrite forallb_forall in Hs. split.
      - apply Forall_forall. intros b Hb. apply list_elem_of_In, Hs in Hb. lia.
      - apply ascii_utf8, Forall_forall. intros b Hb. apply list_elem_of_In, Hs in Hb. lia. }
    unfold ms. repeat (apply Forall_cons; split); [..|by apply Forall_nil]; (split; [cbn; lia|]); cbn [writable].
    + by apply Hn.
    + split_and!; try (by apply Hn); repeat constructor; unfold in_signed; cbn; lia.
    + done.
  - right. exists Message_Terminate, 2%nat. split_and!; [split; [cbn; lia|done]|done|cbn; lia|done].
  - cbn. lia.
Defined.
