(* ===== verification/Requests.v ===== *)
(** From the text of a request to a query: the query type
    ([src/src/protocol/codes.rs]), the reader of lines and the parsers by hand that
    stand behind the SQL parser ([src/src/protocol/parser.rs]), and the prepared
    statements and portals of the extended protocol ([src/src/protocol/extended.rs]). *)

From S2P Require Import Prelude Types Utf8 SqlText TextOps Token Parsing Ast ExprParser SelectParser StatementParser SqlParser.

(** [enum Query]. *)
Inductive Query :=
| Query_Select (table : Oid) (where_clause : option string) (columns : list string)
| Query_Insert (table : Oid) (values : list bytes)
| Query_CreateTable (name : string) (columns : list (string * Oid))
| Query_DropTable (name : string)
| Query_CreateIndex (name table column : string)
| Query_Update (table : Oid) (column : string) (value : bytes) (where_clause : option string)
| Query_Delete (table : Oid) (where_clause : option string)
| Query_Begin (mode : option string)
| Query_Commit
| Query_Rollback
| Query_Statement (s : Statement).

(* ------------------------------------------------------------------ *)
(** ** Helpers *)

(** [fnv_hash]: the 32-bit FNV-1a hash. *)
Definition fnv_hash (data : string) : Z := foldl (fun hash b => wrap 32 (Z.lxor hash b * 16777619)) 2166136261 (bytes_of data).

(** The [?] on an [Option] in a function that can also panic. *)
Definition when_some {A B} (o : option A) (f : A -> outcome (option B)) : outcome (option B) :=
  match o with Some a => f a | None => Ok None end.
Notation "'let?' x := o 'in' k" := (when_some o (fun x => k)) (at level 200, x pattern, o at level 200, k at level 200).

(** [trim().trim_end_matches(';').trim()]. *)
Definition bare (s : string) : string := trim (trim_end_matches ";" (trim s)).

(* ------------------------------------------------------------------ *)
(** ** The parsers by hand *)

Section legacy.
Context `{Unicode}.

(** A table, and a condition behind it from WHERE on. *)
Definition table_and_where (s : string) : outcome (string * option string) :=
  match text_find "WHERE" (to_uppercase s) with
  | Some i => table ← text_slice 0 i s; cond ← text_from i s; Ok (trim table, Some (trim cond))
  | None => Ok (trim s, None)
  end.

Definition parse_select_text (s : string) : outcome (option Query) :=
  let s_upper := to_uppercase s in
  let? select_pos := text_find "SELECT" s_upper in
  after ← text_from (select_pos + 6) s;
  let after := trim after in
  if String.prefix "*" after || String.prefix "*" (to_uppercase after) then
    rest ← text_from 1 after;
    let after_star := trim rest in
    let? from_pos := text_find "FROM" (to_uppercase after_star) in
    tail ← text_from (from_pos + 4) after_star;
    '(table, cond) ← table_and_where (trim tail);
    Ok (Some (Query_Select (fnv_hash table) cond []))
  else
    let? from_pos := text_find "FROM" s_upper in
    cols ← text_slice (select_pos + 6) from_pos s;
    tail ← text_from (from_pos + 4) s;
    '(table, cond) ← table_and_where (trim tail);
    Ok (Some (Query_Select (fnv_hash table) cond (trim <$> text_split "," (trim cols)))).

Definition parse_insert_text (s : string) : outcome (option Query) :=
  let? insert_pos := text_find "INSERT" (to_uppercase s) in
  after ← text_from (insert_pos + 6) s;
  let after_insert := trim after in
  let? into_pos := text_find "INTO" (to_uppercase after_insert) in
  after_into ← text_from (into_pos + 4) after_insert;
  let? (table, values) := split_once "VALUES" (trim after_into) in
  let values_part := trim_end_matches ")" (trim_start_matches "(" (trim values)) in
  Ok (Some (Query_Insert (fnv_hash (trim table)) ((fun v => bytes_of (trim v)) <$> text_split "," values_part))).

(** The type oids of the column types that are known. *)
Definition column_type (ty : string) : Oid :=
  let u := to_uppercase ty in
  if existsb (String.eqb u) ["INT"; "INTEGER"] then 23
  else if existsb (String.eqb u) ["TEXT"; "VARCHAR"] then 25
  else if String.eqb u "BOOL" then 16 else 0.

Definition parse_create_table_text (s : string) : outcome (option Query) :=
  let? pos := text_find "CREATE TABLE" (to_uppercase s) in
  after ← text_from (pos + 12) s;
  let after_create := trim after in
  let? name_end := text_find "(" after_create in
  name ← text_slice 0 name_end after_create;
  cols ← text_from name_end after_create;
  let cols_str := trim (trim_end_matches ")" (trim_start_matches "(" cols)) in
  let columns := omap (fun col_def => match split_whitespace col_def with n :: ty :: _ => Some (n, column_type ty) | _ => None end)
                      (text_split "," cols_str) in
  Ok (Some (Query_CreateTable (trim name) columns)).

Definition parse_drop_table_text (s : string) : outcome (option Query) :=
  let? pos := text_find "DROP TABLE" (to_uppercase s) in
  after ← text_from (pos + 10) s;
  Ok (Some (Query_DropTable (bare (trim after)))).

Definition parse_create_index_text (s : string) : outcome (option Query) :=
  let? pos := text_find "CREATE INDEX" (to_uppercase s) in
  after ← text_from (pos + 12) s;
  let? (index_name, on) := split_once "ON" (trim after) in
  let after_on := trim on in
  let? paren_pos := text_find "(" after_on in
  table ← text_slice 0 paren_pos after_on;
  col ← text_from paren_pos after_on;
  let column := trim (trim_end_matches ";" (trim_end_matches ")" (trim_start_matches "(" col))) in
  Ok (Some (Query_CreateIndex (trim index_name) (bare table) column)).

Definition parse_update_text (s : string) : outcome (option Query) :=
  let? pos := text_find "UPDATE" (to_uppercase s) in
  after ← text_from (pos + 6) s;
  let? (table, set) := split_once "SET" (trim after) in
  let after_set := trim set in
  '(set_part, where_part) ←
    match text_find "WHERE" (to_uppercase after_set) with
    | Some i => a ← text_slice 0 i after_set; b ← text_from i after_set; Ok (a, Some b)
    | None => Ok (after_set, None)
    end;
  let? (column, value) := split_once "=" set_part in
  Ok (Some (Query_Update (fnv_hash (trim table)) (trim column)
              (bytes_of (trim_end_matches quote (trim_start_matches quote (trim value)))) where_part)).

Definition parse_delete_text (s : string) : outcome (option Query) :=
  let? pos := text_find "DELETE" (to_uppercase s) in
  after ← text_from (pos + 6) s;
  let after_delete := trim after in
  let? from_pos := text_find "FROM" (to_uppercase after_delete) in
  tail ← text_from (from_pos + 4) after_delete;
  '(table, cond) ← table_and_where (trim tail);
  Ok (Some (Query_Delete (fnv_hash table) cond)).

Definition parse_query_legacy (s : string) : outcome (option Query) :=
  let s_upper := to_uppercase (bare s) in
  let starts p := String.prefix p s_upper in
  if starts "BEGIN" || starts "START TRANSACTION" then Ok (Some (Query_Begin None))
  else if starts "COMMIT" then Ok (Some Query_Commit)
  else if starts "ROLLBACK" || starts "ABORT" then Ok (Some Query_Rollback)
  else if starts "SELECT" then parse_select_text s
  else if starts "INSERT" then parse_insert_text s
  else if starts "UPDATE" then parse_update_text s
  else if starts "DELETE" then parse_delete_text s
  else if starts "CREATE TABLE" then parse_create_table_text s
  else if starts "DROP TABLE" then parse_drop_table_text s
  else if starts "CREATE INDEX" then parse_create_index_text s
  else Ok None.

(** [parse_query]; [None] when the SQL parser does not end. *)
Definition parse_query (s : string) : option (outcome (option Query)) :=
  let s := bare s in
  match s with
  | EmptyString => Some (Ok None)
  | _ =>
      match parse s with
      | Parsed stmt _ => Some (Ok (Some (Query_Statement stmt)))
      | Failed _ => Some (parse_query_legacy s)
      | Endless => None
      end
  end.

(* ---------------------------------------------------------------- *)
(** ** The reader of lines *)

Definition ends_line (b : Z) : bool := (b =? 10) || (b =? 59).

(** [Parser::feed], on the bytes not yet used, which are the state: a query when a
    line or statement ends, and the bytes kept for the next call. *)
Definition feed (buffer data : bytes) : option (outcome (option Query)) * bytes :=
  let buffer := buffer ++ data in
  match position ends_line buffer with
  | None => (Some (Ok None), buffer)
  | Some pos =>
      let s := trim (text_of (from_utf8_lossy (take (S pos) buffer))) in
      match s with
      | EmptyString => (Some (Ok None), drop (S pos) buffer)
      | _ => (parse_query s, [])
      end
  end.
End legacy.

(* ------------------------------------------------------------------ *)
(** ** Prepared statements and portals *)

Record PreparedStatement := {
  ps_name : string;
  ps_sql : string;
  ps_query : Query;
  ps_parameter_types : list Z;
}.

Record Portal := {
  po_name : string;
  po_statement_name : string;
  po_query : Query;
  po_parameter_values : list (option bytes);
  po_result_formats : list Z;
}.

Record ExtendedQueryState := {
  statements : gmap string PreparedStatement;
  portals : gmap string Portal;
  unnamed_statement : option PreparedStatement;
  unnamed_portal : option Portal;
}.

Definition ExtendedQueryState_new : ExtendedQueryState :=
  {| statements := ∅; portals := ∅; unnamed_statement := None; unnamed_portal := None |}.

Definition no_such (what name : string) : error := Anyhow what (bytes_of name).

Definition is_empty (s : string) : bool := match s with EmptyString => true | _ => false end.

Definition with_statements (st : ExtendedQueryState) (m : gmap string PreparedStatement) (u : option PreparedStatement) : ExtendedQueryState :=
  {| statements := m; portals := portals st; unnamed_statement := u; unnamed_portal := unnamed_portal st |}.
Definition with_portals (st : ExtendedQueryState) (m : gmap string Portal) (u : option Portal) : ExtendedQueryState :=
  {| statements := statements st; portals := m; unnamed_statement := unnamed_statement st; unnamed_portal := u |}.

Section extended.
Context `{Unicode}.

(** [prepare]; [None] when the parser does not end. *)
Definition prepare (name sql : string) (parameter_types : list Z) (st : ExtendedQueryState) : option (outcome unit * ExtendedQueryState) :=
  r ← (feed [] (bytes_of sql)).1;
  Some match r with
       | Ok (Some q) =>
           let stmt := {| ps_name := name; ps_sql := sql; ps_query := q; ps_parameter_types := parameter_types |} in
           (Ok tt, if is_empty name then with_statements st (statements st) (Some stmt)
                   else with_statements st (<[name := stmt]> (statements st)) (unnamed_statement st))
       | Ok None => (Err (no_such "Failed to parse SQL: {}" sql), st)
       | Err e => (Err e, st)
       | Panic => (Panic, st)
       end.

Definition bind (portal_name statement_name : string) (parameter_values : list (option bytes)) (result_formats : list Z)
    (st : ExtendedQueryState) : outcome unit * ExtendedQueryState :=
  let found :=
    if is_empty statement_name
    then match unnamed_statement st with Some s => Ok s | None => Err (no_such "No unnamed prepared statement" EmptyString) end
    else match statements st !! statement_name with Some s => Ok s | None => Err (no_such "Prepared statement {} not found" statement_name) end in
  match found with
  | Ok stmt =>
      let portal := {| po_name := portal_name; po_statement_name := statement_name; po_query := ps_query stmt;
                       po_parameter_values := parameter_values; po_result_formats := result_formats |} in
      (Ok tt, if is_empty portal_name then with_portals st (portals st) (Some portal)
              else with_portals st (<[portal_name := portal]> (portals st)) (unnamed_portal st))
  | Err e => (Err e, st)
  | Panic => (Panic, st)
  end.

Definition get_portal (name : string) (st : ExtendedQueryState) : option Portal :=
  if is_empty name then unnamed_portal st else portals st !! name.

Definition close_statement (name : string) (st : ExtendedQueryState) : ExtendedQueryState :=
  if is_empty name then with_statements st (statements st) None
  else with_statements st (delete name (statements st)) (unnamed_statement st).

Definition close_portal (name : string) (st : ExtendedQueryState) : ExtendedQueryState :=
  if is_empty name then with_portals st (portals st) None
  else with_portals st (delete name (portals st)) (unnamed_portal st).

Definition close_all (st : ExtendedQueryState) : ExtendedQueryState := ExtendedQueryState_new.
End extended.

(* ------------------------------------------------------------------ *)
(** ** Reading requests in pieces *)

Section feeding.
Context `{Unicode}.

(** Feed pieces one after the other. *)
Fixpoint feed_each (buffer : bytes) (pieces : list bytes) : list (option (outcome (option Query))) * bytes :=
  match pieces with
  | [] => ([], buffer)
  | data :: pieces => let '(r, buffer) := feed buffer data in let '(rs, buffer) := feed_each buffer pieces in (r :: rs, buffer)
  end.

Definition no_end (data : bytes) : Prop := Forall (fun b => ends_line b = false) data.

Lemma position_no_end data : no_end data -> position ends_line data = None.
Proof. induction 1 as [|b data Hb _ IH]; cbn; [done|]. by rewrite Hb, IH. Qed.

Lemma position_end a c rest : no_end a -> ends_line c = true -> position ends_line (a ++ c :: rest) = Some (length a).
Proof. intros Ha Hc. induction Ha as [|b a Hb _ IH]; cbn; [by rewrite Hc|]. by rewrite Hb, IH. Qed.

Lemma feed_none buffer data : no_end (buffer ++ data) -> feed buffer data = (Some (Ok None), buffer ++ data).
Proof. intros Hn. unfold feed. by rewrite position_no_end. Qed.

(** Pieces without an end of line or a semicolon give nothing and are kept; the
    piece that has one gives the query of all the bytes before it, wherever they
    were cut, and what stands behind it in the same piece is dropped, another
    statement included. *)
Theorem feed_pieces pieces a c rest :
  no_end (concat pieces ++ a) -> ends_line c = true -> trim (text_of (from_utf8_lossy (concat pieces ++ a ++ [c]))) <> EmptyString ->
  feed_each [] (pieces ++ [a ++ c :: rest]) =
    (replicate (length pieces) (Some (Ok None)) ++ [parse_query (trim (text_of (from_utf8_lossy (concat pieces ++ a ++ [c]))))], []).
Proof.
  intros Hn Hc Ht. enough (Hgo : forall pieces buffer, no_end (buffer ++ concat pieces ++ a) ->
    trim (text_of (from_utf8_lossy (buffer ++ concat pieces ++ a ++ [c]))) <> EmptyString ->
    feed_each buffer (pieces ++ [a ++ c :: rest]) =
      (replicate (length pieces) (Some (Ok None)) ++ [parse_query (trim (text_of (from_utf8_lossy (buffer ++ concat pieces ++ a ++ [c]))))], []))
    by (by apply (Hgo pieces [])).
  clear pieces Hn Ht. induction pieces as [|p pieces IH]; intros buffer Hn Ht; cbn [concat app feed_each] in *.
  - unfold feed. rewrite (app_assoc buffer a), position_end by done.
    replace (take (S (length (buffer ++ a))) ((buffer ++ a) ++ c :: rest)) with (buffer ++ a ++ [c]).
    2:{ change (c :: rest) with ([c] ++ rest). rewrite (app_assoc (buffer ++ a)), take_app_length' by (rewrite (length_app (buffer ++ a)); cbn; lia).
        by rewrite <- app_assoc. }
    destruct (trim _) as [|d s]; [done|]. done.
  - rewrite <- !app_assoc in *. rewrite feed_none.
    2:{ unfold no_end in *. rewrite !Forall_app in *. tauto. }
    rewrite IH by (by rewrite <- app_assoc). by rewrite <- app_assoc.
Qed.
End feeding.

(* ------------------------------------------------------------------ *)
(** ** Prepared statements and portals as plain maps *)

(** The specification: a statement or portal for each name, the empty one
    included. *)
Record ext_spec := { sp_statements : gmap string PreparedStatement; sp_portals : gmap string Portal }.

Inductive ext_op :=
| Prepare (name sql : string) (types : list Z)
| Bind (portal statement : string) (values : list (option bytes)) (formats : list Z)
| CloseStatement (name : string)
| ClosePortal (name : string)
| CloseAll.

Section refinement.
Context `{Unicode}.

Definition ext_step (op : ext_op) (st : ExtendedQueryState) : option (outcome unit * ExtendedQueryState) :=
  match op with
  | Prepare name sql types => prepare name sql types st
  | Bind portal statement values formats => Some (bind portal statement values formats st)
  | CloseStatement name => Some (Ok tt, close_statement name st)
  | ClosePortal name => Some (Ok tt, close_portal name st)
  | CloseAll => Some (Ok tt, close_all st)
  end.

Definition spec_step (op : ext_op) (sp : ext_spec) : option (outcome unit * ext_spec) :=
  match op with
  | Prepare name sql types =>
      r ← (feed [] (bytes_of sql)).1;
      Some match r with
           | Ok (Some q) =>
               (Ok tt, {| sp_statements := <[name := {| ps_name := name; ps_sql := sql; ps_query := q; ps_parameter_types := types |}]> (sp_statements sp);
                          sp_portals := sp_portals sp |})
           | Ok None => (Err (no_such "Failed to parse SQL: {}" sql), sp)
           | Err e => (Err e, sp)
           | Panic => (Panic, sp)
           end
  | Bind portal statement values formats =>
      Some match sp_statements sp !! statement with
           | Some s =>
               (Ok tt, {| sp_statements := sp_statements sp;
                          sp_portals := <[portal := {| po_name := portal; po_statement_name := statement; po_query := ps_query s;
                                                       po_parameter_values := values; po_result_formats := formats |}]> (sp_portals sp) |})
           | None => (Err (if is_empty statement then no_such "No unnamed prepared statement" EmptyString
                           else no_such "Prepared statement {} not found" statement), sp)
           end
  | CloseStatement name => Some (Ok tt, {| sp_statements := delete name (sp_statements sp); sp_portals := sp_portals sp |})
  | ClosePortal name => Some (Ok tt, {| sp_statements := sp_statements sp; sp_portals := delete name (sp_portals sp) |})
  | CloseAll => Some (Ok tt, {| sp_statements := ∅; sp_portals := ∅ |})
  end.

(** Run calls in order, until one does not end. *)
Fixpoint run_each {St} (step : ext_op -> St -> option (outcome unit * St)) (ops : list ext_op) (st : St) : list (outcome unit) * St :=
  match ops with
  | [] => ([], st)
  | op :: ops => match step op st with Some (r, st) => let '(rs, st) := run_each step ops st in (r :: rs, st) | None => ([], st) end
  end.

Definition join_unnamed {X} (u : option X) (m : gmap string X) : gmap string X := partial_alter (fun _ => u) EmptyString m.

(** The unnamed statement and portal stand under the empty name, which the maps
    never hold. *)
Definition view (st : ExtendedQueryState) : ext_spec :=
  {| sp_statements := join_unnamed (unnamed_statement st) (statements st); sp_portals := join_unnamed (unnamed_portal st) (portals st) |}.

Lemma is_empty_spec s : is_empty s = bool_decide (s = EmptyString).
Proof. by destruct s. Qed.

Lemma join_lookup {X} (u : option X) m name : join_unnamed u m !! name = if is_empty name then u else m !! name.
Proof.
  unfold join_unnamed. rewrite is_empty_spec. case_bool_decide as Hn; [subst; apply lookup_partial_alter_eq|].
  by apply lookup_partial_alter_ne.
Qed.

Lemma join_insert {X} (u : option X) m name x :
  join_unnamed (if is_empty name then Some x else u) (if is_empty name then m else <[name := x]> m) = <[name := x]> (join_unnamed u m).
Proof.
  apply map_eq. intros n. rewrite join_lookup. destruct (decide (name = n)) as [<-|Hn].
  - rewrite lookup_insert_eq. destruct (is_empty name); [done|by rewrite lookup_insert_eq].
  - rewrite lookup_insert_ne, join_lookup by done. destruct name, n; cbn; rewrite ?lookup_insert_ne by done; done.
Qed.

Lemma join_delete {X} (u : option X) m name :
  join_unnamed (if is_empty name then None else u) (if is_empty name then m else delete name m) = delete name (join_unnamed u m).
Proof.
  apply map_eq. intros n. rewrite join_lookup. destruct (decide (name = n)) as [<-|Hn].
  - rewrite lookup_delete_eq. destruct (is_empty name); [done|by rewrite lookup_delete_eq].
  - rewrite lookup_delete_ne, join_lookup by done. destruct name, n; cbn; rewrite ?lookup_delete_ne by done; done.
Qed.

Lemma step_refines op st :
  spec_step op (view st) = (fun r => (r.1, view r.2)) <$> ext_step op st.
Proof.
  destruct op as [name sql types|portal statement values formats|name|name|]; cbn [ext_step spec_step].
  - unfold prepare. destruct (feed [] (bytes_of sql)).1 as [[[q|]|e|]|]; try done. cbn. do 2 f_equal. unfold view; cbn.
    rewrite <- join_insert. by destruct (is_empty name).
  - unfold bind. cbn [sp_statements view]. rewrite join_lookup. destruct (is_empty statement).
    + destruct (unnamed_statement st) eqn:Eu; [|done]. cbn. do 2 f_equal. unfold view; cbn. rewrite <- join_insert.
      destruct (is_empty portal); cbn; by rewrite Eu.
    + destruct (statements st !! statement); [|done]. cbn. do 2 f_equal. unfold view; cbn. rewrite <- join_insert. by destruct (is_empty portal).
  - cbn. do 2 f_equal. unfold view, close_statement; cbn. rewrite <- join_delete. by destruct (is_empty name).
  - cbn. do 2 f_equal. unfold view, close_portal; cbn. rewrite <- join_delete. by destruct (is_empty name).
  - done.
Qed.
End refinement.

(** The extended protocol's state behaves as two plain maps from names to prepared
    statements and portals: after any calls the results are the same and every
    portal is the one of the map. In particular a portal keeps the query it was
    bound to when its statement is replaced or closed. *)
Theorem extended_refines `{Unicode} ops :
  let '(rs, st) := run_each ext_step ops ExtendedQueryState_new in
  let '(rs', sp) := run_each spec_step ops {| sp_statements := ∅; sp_portals := ∅ |} in
  rs = rs' /\ (forall name, get_portal name st = sp_portals sp !! name) /\
  (forall name, (if is_empty name then unnamed_statement st else statements st !! name) = sp_statements sp !! name).
Proof.
  change {| sp_statements := ∅; sp_portals := ∅ |} with (view ExtendedQueryState_new). generalize ExtendedQueryState_new as st0.
  induction ops as [|op ops IH]; intros st0; cbn [run_each].
  - split; [done|]. split; intros name; cbn; by rewrite join_lookup.
  - rewrite step_refines. destruct (ext_step op st0) as [[r st1]|]; cbn.
    + specialize (IH st1). destruct (run_each ext_step ops st1) as [rs st], (run_each spec_step ops (view st1)) as [rs' sp].
      destruct IH as (-> & Hp & Hs). done.
    + split; [done|]. split; intros name; by rewrite join_lookup.
Qed.

#[local] Existing Instances Ascii_Unicode Ascii_laws.

Lemma feed_pieces_witness :
  feed_each [] ([bytes_of "COM"; bytes_of "MI"] ++ [bytes_of "T; DROP TABLE t;"]) =
    ([Some (Ok None); Some (Ok None); parse_query "COMMIT;"], []).
Proof.
  apply (feed_pieces [bytes_of "COM"; bytes_of "MI"] (bytes_of "T") 59 (bytes_of " DROP TABLE t;")); [|done|done].
  repeat constructor.
Defined.
