(* ===== verification/Server.v ===== *)
(** The statement handlers of the server ([src/src/server/query.rs], [utils.rs]),
    and the planner they ask ([src/src/executor/planner.rs]). The dispatch to them
    is in Session.v. A handler works on what the connections share (the
    cache with its store, the log, the catalog, the transaction manager) and on what
    the connection owns (its transaction, its statements and portals), and sends
    messages; their bytes are Wire.v's. *)

From S2P Require Import Prelude Types Storage HeapPage Transaction BufferPool Wal BTreePage BTree IndexKeys Catalog TupleCodec HeapAccess.
From S2P Require Import SqlText TextOps Float64 Token Parsing Ast ExprParser SelectParser StatementParser SqlParser Eval RowOps Joins GroupBy Window Query Wire Requests.

(* ------------------------------------------------------------------ *)
(** ** The planner *)

Record PlannedSeqScan := { pss_rel_oid : Z; pss_filter : option string }.
Record IndexScanPlan := { isp_index_oid : Z; isp_scan_from : bytes; isp_rel_oid : Z }.
Inductive Plan := Plan_SeqScan (scan : PlannedSeqScan) | Plan_IndexScan (scan : IndexScanPlan).

(** [trim_matches] of an ASCII character. *)
Definition trim_matches (c : ascii) (s : string) : string := trim_end_matches c (trim_start_matches c s).

Definition double_quote : ascii := of_byte 34.

Definition parse_equality_filter (filter : string) : option (string * string) :=
  '(col, val) ← split_once "=" filter;
  Some (trim col, trim_matches double_quote (trim_matches quote (trim val))).

Definition plan `{Unicode} (query : Query) (indexes : list IndexInfo) : Plan :=
  let seq oid filter := Plan_SeqScan {| pss_rel_oid := oid; pss_filter := filter |} in
  match query with
  | Query_Select table (Some filter) _ =>
      match parse_equality_filter filter with
      | Some (column, value) =>
          match List.find (fun i => (ii_rel_oid i =? table) && String.eqb (to_uppercase (ii_column_name i)) (to_uppercase column)) indexes with
          | Some idx => Plan_IndexScan {| isp_index_oid := ii_index_oid idx; isp_scan_from := bytes_of value; isp_rel_oid := table |}
          | None => seq table (Some filter)
          end
      | None => seq table (Some filter)
      end
  | Query_Select table None _ => seq table None
  | Query_Insert table _ => seq table None
  | _ => seq 0 None
  end.

Definition seq_scan_cost (pages tuples : Z) : f64 :=
  f_add (f_mul (f_of_Z pages) f_one) (f_mul (f_of_Z tuples) (f_of_decimal false 1 (-2))).

Definition index_scan_cost (pages : Z) (selectivity : f64) (total_tuples : Z) : f64 :=
  f_add (f_mul (f_of_Z pages) f_one) (f_mul (f_mul (f_of_Z total_tuples) selectivity) (f_of_decimal false 11 (-1))).

Definition estimate_selectivity (filter : string) : f64 :=
  if text_contains filter "=" then f_of_decimal false 1 (-1)
  else if text_contains filter ">" || text_contains filter "<" then f_of_decimal false 3 (-1)
  else if text_contains filter "LIKE" || text_contains filter "like" then f_of_decimal false 5 (-1)
  else f_one.

(* ------------------------------------------------------------------ *)
(** ** The state of a session *)

(** What the standard library and the derived [Debug] make of values: the text of
    an error, and of an expression that is no literal. *)
Class Rendering := { error_text : error -> string; expr_debug : Expr -> string }.

Record server (S : Type) := {
  sv_heap : heap_state S;
  sv_catalog : Catalog S;
  sv_txns : TransactionManager;
  sv_xid : option TransactionId;
  sv_sent : list BackendMessage;
}.
Arguments Build_server {S} _ _ _ _ _.
Arguments sv_heap {S} _.
Arguments sv_catalog {S} _.
Arguments sv_txns {S} _.
Arguments sv_xid {S} _.
Arguments sv_sent {S} _.

(** A step of a handler: it may panic, and the search of an index may run on. *)
Definition server_m (S X : Type) : Type := server S -> option (outcome X * server S).

#[export] Instance server_ret {S} : MRet (server_m S) := fun X x sv => Some (Ok x, sv).

#[export] Instance server_bind {S} : MBind (server_m S) := fun X Y f m sv =>
  match m sv with
  | Some (Ok x, sv) => f x sv
  | Some (Err e, sv) => Some (Err e, sv)
  | Some (Panic, sv) => Some (Panic, sv)
  | None => None
  end.

Section steps.
Context {P : Profile} {S : Type} `{Storage S} `{Bincode Tuple} `{Bincode WALRecord} `{Unicode} `{Grouping} `{Rendering}.
Abbreviation M := (server_m S).
Context (order : values_order) (index_fuel : nat).

Definition with_heap (sv : server S) (w : heap_state S) : server S :=
  {| sv_heap := w; sv_catalog := sv_catalog sv; sv_txns := sv_txns sv; sv_xid := sv_xid sv; sv_sent := sv_sent sv |}.
Definition with_txns (sv : server S) (m : TransactionManager) (x : option TransactionId) : server S :=
  {| sv_heap := sv_heap sv; sv_catalog := sv_catalog sv; sv_txns := m; sv_xid := x; sv_sent := sv_sent sv |}.
Definition with_sent (sv : server S) (ms : list BackendMessage) : server S :=
  {| sv_heap := sv_heap sv; sv_catalog := sv_catalog sv; sv_txns := sv_txns sv; sv_xid := sv_xid sv; sv_sent := sv_sent sv ++ ms |}.

(** [socket.write_all(&encode_messages(..))]. *)
Definition send (ms : list BackendMessage) : M unit := fun sv => Some (Ok tt, with_sent sv ms).

Definition run_heap {X} (m : heap_m S X) : M X := fun sv => let '(r, w) := m (sv_heap sv) in Some (r, with_heap sv w).
Definition run_query {X} (m : query_m S X) : M X := fun sv => '(r, w) ← m (sv_heap sv); Some (r, with_heap sv w).

(** An operation of the catalog, whose cache is the one the executor works on. *)
Definition on_catalog {X} (f : Catalog S -> X * Catalog S) : M X := fun sv =>
  let '(x, c) := f (Catalog.with_cache (sv_catalog sv) (Some (hs_cache (sv_heap sv)))) in
  Some (Ok x, {| sv_heap := {| hs_cache := default (hs_cache (sv_heap sv)) (cache c); hs_wal := hs_wal (sv_heap sv) |};
                 sv_catalog := Catalog.with_cache c None; sv_txns := sv_txns sv; sv_xid := sv_xid sv; sv_sent := sv_sent sv |}).

Definition read_catalog {X} (f : Catalog S -> X) : M X := fun sv => Some (Ok (f (sv_catalog sv)), sv).

(** [if let Err(e) = ..] and [match ..]: an error is a value, a panic is not. *)
Definition attempt {X} (m : M X) : M (X + error) := fun sv =>
  match m sv with
  | Some (Ok x, sv) => Some (Ok (inl x), sv)
  | Some (Err e, sv) => Some (Ok (inr e), sv)
  | Some (Panic, sv) => Some (Panic, sv)
  | None => None
  end.

Definition fails {X} (e : error) : M X := fun sv => Some (Err e, sv).
Definition lift {X} (o : outcome X) : M X := fun sv => Some (o, sv).

(** [let _ = wal.lock().await.append(..)]. *)
Definition log (r : WALRecord) : M unit := _ ← attempt (run_heap (h_append r)); mret tt.
Definition flush_log : M unit := fun sv =>
  Some (Ok tt, with_heap sv {| hs_cache := hs_cache (sv_heap sv); hs_wal := flush (hs_wal (sv_heap sv)) |}).

Definition get_xid : M (option TransactionId) := fun sv => Some (Ok (sv_xid sv), sv).
Definition set_xid (x : option TransactionId) : M unit := fun sv => Some (Ok tt, with_txns sv (sv_txns sv) x).

Definition begin_txn (isolation : IsolationLevel) : M TransactionId := fun sv =>
  let '(xid, m) := begin (sv_txns sv) isolation in Some (Ok xid, with_txns sv m (sv_xid sv)).

(** [commit] and [rollback] of the manager, their results not used. *)
Definition end_txn (f : TransactionManager -> TransactionId -> outcome unit * TransactionManager) (xid : TransactionId) : M unit := fun sv =>
  Some (Ok tt, with_txns sv (snd (f (sv_txns sv) xid)) (sv_xid sv)).

(** The status for [current_xid]. *)
Definition tx_status (x : option TransactionId) : TransactionStatus :=
  match x with Some _ => TransactionStatus.InTransaction | None => TransactionStatus.Idle end.

Definition send_error (msg : string) : M unit :=
  _ ← send [ErrorResponse [{| ef_field_type := 77; ef_value := msg |}]];
  send [ReadyForQuery TransactionStatus.Idle].

(** What a statement outside a transaction begins with and ends with. *)
Definition open_implicit : M bool :=
  x ← get_xid;
  match x with
  | Some _ => mret false
  | None => xid ← begin_txn ReadCommitted; _ ← set_xid (Some xid); _ ← log (WalBegin xid); mret true
  end.

Definition close_implicit (was_implicit_txn : bool) : M unit :=
  if was_implicit_txn then
    x ← get_xid;
    _ ← match x with
        | Some xid => _ ← log (WalCommit xid); _ ← end_txn commit xid; flush_log
        | None => mret tt
        end;
    set_xid None
  else mret tt.

Definition send_ready : M unit := x ← get_xid; send [ReadyForQuery (tx_status x)].

Definition in_statement (body : M unit) : M unit :=
  was_implicit_txn ← open_implicit; _ ← body; _ ← close_implicit was_implicit_txn; send_ready.

(* ---------------------------------------------------------------- *)
(** ** Helpers of the handlers *)

Definition execute_create_table (name : string) (columns : list (string * Oid)) : M unit :=
  let rel := Relation_empty name columns in
  _ ← on_catalog (create_relation rel); mret tt.

Definition no_table (name : string) : error := no_relation name.

Definition execute_drop_table (name : string) : M unit :=
  rels ← read_catalog (list_relations order);
  match List.find (fun r => bool_decide (rel_name r = name)) rels with
  | Some rel => on_catalog (fun c => (tt, delete_relation (rel_oid rel) c))
  | None => fails (no_table name)
  end.

Definition execute_create_index (name table column : string) : M unit :=
  rels ← read_catalog (list_relations order);
  match List.find (fun r => bool_decide (rel_name r = table)) rels with
  | Some rel =>
      root_page ← on_catalog allocate_oid;
      index_oid ← on_catalog allocate_oid;
      on_catalog (fun c => (tt, register_index {| ii_index_oid := index_oid; ii_rel_oid := rel_oid rel;
                                                  ii_column_name := to_uppercase column; ii_root_page := root_page |} c))
  | None => fails (no_table table)
  end.

(** [send_rows]. *)
Definition field_of (oid : Oid) (attr : Attribute) : FieldDescription :=
  {| fd_name := att_name attr; fd_table_oid := oid; fd_column_attr := att_attnum attr; fd_type_oid := att_type_oid attr;
     fd_type_size := -1; fd_type_mod := att_typmod attr; fd_format := 0 |}.

Definition select_tag (n : nat) : string := "SELECT " +:+ pretty n.

Definition send_rows (oid : Oid) (rs : rows) : M unit :=
  match rs with
  | [] => send [RowDescriptionEmpty; CommandComplete "SELECT 0"]
  | _ =>
      rel ← run_heap (h_relation oid);
      send (RowDescription (field_of (rel_oid rel) <$> td_fields (rel_tuple_desc rel)) ::
            ((fun r : ItemPointerData * list bytes => DataRow (Some <$> r.2)) <$> rs) ++ [CommandComplete (select_tag (length rs))])
  end.

Definition execute_seq_scan (oid : Oid) : M unit := rs ← run_heap (heap_scan oid); send_rows oid rs.

(** [splitn(3, '=')], when there are three parts. *)
Definition split_twice (s : string) : option (string * string * string) :=
  '(a, rest) ← split_once "=" s; '(b, c) ← split_once "=" rest; Some (a, b, c).

Definition parse_filter (s : string) : outcome HeapAccess.Filter :=
  match split_twice s with
  | None => Err (Anyhow "unsupported filter format: {}" (bytes_of s))
  | Some (column, _, value) =>
      Ok {| flt_column := Z.to_nat (default 0 (parse_unsigned 64 (trim column)));
            flt_value := bytes_of (trim_end_matches quote (trim_start_matches quote (trim value))) |}
  end.

Definition execute_slow_scan (oid : Oid) (filter_str : string) : M unit :=
  filter ← lift (parse_filter filter_str);
  rs ← run_heap (slow_scan {| scan_rel_oid := oid; scan_filter := Some filter |});
  send_rows oid rs.

(** [(i as i16) + 1]. *)
Definition column_attr (i : nat) : outcome Z :=
  if overflow_checks && (as_i16 i =? 2 ^ 15 - 1) then Panic else Ok (signed 16 (as_i16 i + 1)).

Fixpoint result_fields (i : nat) (columns : list string) : outcome (list FieldDescription) :=
  match columns with
  | [] => Ok []
  | name :: columns =>
      attr ← column_attr i;
      fields ← result_fields (Datatypes.S i) columns;
      Ok ({| fd_name := name; fd_table_oid := 0; fd_column_attr := attr; fd_type_oid := 25; fd_type_size := -1; fd_type_mod := -1;
             fd_format := 0 |} :: fields)
  end.

Definition build_select_messages (result : SelectResult) : outcome (list BackendMessage) :=
  match sel_rows result with
  | [] => Ok [RowDescriptionEmpty; CommandComplete "SELECT 0"]
  | rows =>
      fields ← result_fields 0 (columns result);
      Ok (RowDescription fields :: ((fun row : Row => DataRow ((fun s => Some (bytes_of s)) <$> row)) <$> rows) ++
          [CommandComplete (select_tag (length rows))])
  end.

(* ---------------------------------------------------------------- *)
(** ** The handlers of statements *)

Definition dotted (name : ObjectName) : string := text_join "." (parts name).

(** The relation a statement names, in any case. *)
Definition named_relation (table_str : string) : M (option Relation) :=
  rels ← read_catalog (list_relations order);
  mret (List.find (fun r => bool_decide (to_uppercase (rel_name r) = to_uppercase table_str)) rels).

Definition literal_bytes (lit : Literal) : bytes :=
  match lit with
  | Literal.Bool b => bytes_of (bool_text b)
  | Literal.Null => []
  | Literal.Blob b => b
  | Literal.String s | Literal.Number s | Literal.Date s | Literal.Time s | Literal.Timestamp s | Literal.TimestampTz s
  | Literal.Interval s | Literal.Json s | Literal.JsonB s | Literal.Uuid s | Literal.Money s | Literal.Bit s | Literal.Hex s => bytes_of s
  end.

Definition value_of (e : Expr) : bytes := match e with Expr_Literal lit => literal_bytes lit | _ => bytes_of (expr_debug e) end.

(** An action whose count is reported. *)
Definition report (m : M string) : M unit :=
  r ← attempt m;
  match r with inl tag => send [CommandComplete tag] | inr e => send_error (error_text e) end.

Definition counted_tag (what : string) (n : Z) : string := what +:+ " " +:+ pretty n.

Definition send_missing (table_str : string) : M unit := send_error (error_text (no_table table_str)).

(** The temporary relations of WITH, and their oids. *)
Fixpoint register_ctes (ctes : list CommonTableExpr) : M (list Oid) :=
  match ctes with
  | [] => mret []
  | mkCommonTableExpr name _ _ _ :: ctes =>
      cte_oid ← on_catalog allocate_oid;
      _ ← on_catalog (create_relation (with_oid (Relation_empty name []) cte_oid));
      oids ← register_ctes ctes;
      mret (cte_oid :: oids)
  end.

Fixpoint remove_ctes (oids : list Oid) : M unit :=
  match oids with
  | [] => mret tt
  | oid :: oids => _ ← on_catalog (fun c => (tt, delete_relation oid c)); remove_ctes oids
  end.

Definition select_ctes (select : SelectStatement) : list CommonTableExpr :=
  match select with mkSelectStatement (Some (mkWithClause _ ctes)) _ _ _ _ _ _ _ _ _ _ _ => ctes | _ => [] end.

Definition statement_snapshot : M (option Snapshot) := fun sv =>
  Some (Ok (get_snapshot_for_statement (sv_txns sv) <$> sv_xid sv), sv).

(** The query over the catalog as it stands. *)
Definition run_select (select : SelectStatement) (snap : option Snapshot) : M SelectResult := fun sv =>
  run_query (execute_select_with_snapshot order (sv_catalog sv) index_fuel select snap) sv.

Definition handle_select_statement (select : SelectStatement) : M unit :=
  in_statement
    (snapshot ← statement_snapshot;
     cte_oids ← register_ctes (select_ctes select);
     r ← attempt (run_select select snapshot);
     _ ← match r with
         | inl result => ms ← lift (build_select_messages result); send ms
         | inr e => send_error (error_text e)
         end;
     remove_ctes cte_oids).

Definition handle_insert_statement (insert : InsertStatement) : M unit :=
  match insert with mkInsertStatement table _ source _ _ =>
    in_statement
      (let table_str := dotted table in
       rel ← named_relation table_str;
       match rel with
       | None => send_missing table_str
       | Some rel =>
           match source with
           | InsertSource_Values (row :: _) =>
               report (_ ← run_heap (tuple_insert {| ins_rel_oid := rel_oid rel; ins_values := value_of <$> row |}); mret "INSERT 1")
           | InsertSource_Values [] => mret tt
           | InsertSource_Select _ => send_error "INSERT...SELECT not yet supported"
           end
       end)
  end.

Definition handle_update_statement (update : UpdateStatement) : M unit :=
  match update with mkUpdateStatement table _ set_clauses _ _ =>
    in_statement
      (let table_str := dotted table in
       rel ← named_relation table_str;
       match rel with
       | None => send_missing table_str
       | Some rel =>
           match set_clauses with
           | mkSetClause _ value :: _ =>
               report (updated ← run_heap (tuple_update (rel_oid rel) 0 (value_of value) None); mret (counted_tag "UPDATE" updated))
           | [] => mret tt
           end
       end)
  end.

Definition handle_delete_statement (delete : DeleteStatement) : M unit :=
  match delete with mkDeleteStatement table _ _ _ =>
    in_statement
      (let table_str := dotted table in
       rel ← named_relation table_str;
       match rel with
       | None => send_missing table_str
       | Some rel => report (deleted ← run_heap (tuple_delete (rel_oid rel) None); mret (counted_tag "DELETE" deleted))
       end)
  end.

(** A catalog statement: an error, or the tag and [ReadyForQuery]. *)
Definition catalog_statement (m : M unit) (tag : string) (status : M TransactionStatus) : M unit :=
  r ← attempt m;
  match r with
  | inr e => send_error (error_text e)
  | inl _ => s ← status; send [CommandComplete tag; ReadyForQuery s]
  end.

Definition always_idle : M TransactionStatus := mret TransactionStatus.Idle.
Definition current_status : M TransactionStatus := x ← get_xid; mret (tx_status x).

Definition type_oid_of (ty : DataType) : Oid :=
  match ty with
  | DataType.Int => 23 | DataType.BigInt => 20 | DataType.SmallInt => 21 | DataType.Text => 25
  | DataType.Varchar _ => 1043 | DataType.Boolean => 16 | _ => 0
  end.

Definition handle_create_table_statement (create : CreateTableStatement) : M unit :=
  match create with mkCreateTableStatement table columns _ _ =>
    catalog_statement
      (execute_create_table (dotted table) ((fun col => match col with mkColumnDef name ty _ => (name, type_oid_of ty) end) <$> columns))
      ("CREATE TABLE " +:+ dotted table) always_idle
  end.

Definition handle_create_index_statement (create : CreateIndexStatement) : M unit :=
  match create with mkCreateIndexStatement name table columns _ _ =>
    let column := match columns with mkIndexColumn (Expr_Identifier id) _ _ :: _ => id | _ => "unknown" end in
    catalog_statement (execute_create_index (dotted name) (dotted table) column) ("CREATE INDEX " +:+ dotted name) always_idle
  end.

Definition handle_drop_table_statement (drop : DropTableStatement) : M unit :=
  match drop with mkDropTableStatement table _ _ =>
    catalog_statement (execute_drop_table (dotted table)) ("DROP TABLE " +:+ dotted table) always_idle
  end.

Definition handle_begin_statement (isolation : IsolationLevel) : M unit :=
  xid ← begin_txn isolation;
  _ ← set_xid (Some xid);
  send [CommandComplete "BEGIN"; ReadyForQuery TransactionStatus.InTransaction].

Definition begin_isolation (b : BeginStatement) : IsolationLevel :=
  match b with mkBeginStatement level _ _ =>
    match level with
    | Some SqlIsolation.Serializable => Serializable
    | Some SqlIsolation.RepeatableRead => RepeatableRead
    | Some SqlIsolation.ReadUncommitted => ReadUncommitted
    | Some SqlIsolation.ReadCommitted | None => ReadCommitted
    end
  end.

(** COMMIT and ROLLBACK: the manager's call, the record and the tag. *)
Definition finish (f : TransactionManager -> TransactionId -> outcome unit * TransactionManager) (record : Z -> WALRecord) (tag : string) : M unit :=
  x ← get_xid;
  _ ← match x with
      | Some xid => _ ← end_txn f xid; _ ← log (record xid); flush_log
      | None => mret tt
      end;
  _ ← set_xid None;
  send [CommandComplete tag; ReadyForQuery TransactionStatus.Idle].

Definition handle_commit_statement : M unit := finish commit WalCommit "COMMIT".
Definition handle_rollback_statement : M unit := finish rollback WalAbort "ROLLBACK".

(** [SET statement_timeout] and [lock_timeout] look the transaction up and set the
    time-out of the copy they are given. *)
Definition timeout_of (values : list SetValue) : option Duration :=
  match values with
  | SetValue.Number n :: _ => let ms := default 0 (parse_unsigned 64 n) in if ms =? 0 then None else Some (ms * 1000000)
  | _ => None
  end.

Definition with_timeout (txn : Transaction) (c : TimeoutConfig) : Transaction :=
  {| txn_xid := txn_xid txn; txn_isolation := txn_isolation txn; txn_state := txn_state txn; txn_snapshot := txn_snapshot txn;
     txn_timeout_config := c; txn_locks := txn_locks txn |}.

Definition set_timeout (change : TimeoutConfig -> TimeoutConfig) (xid : TransactionId) : M (option Transaction) := fun sv =>
  Some (Ok ((fun txn => with_timeout txn (change (txn_timeout_config txn))) <$> get_transaction (sv_txns sv) xid), sv).

Definition handle_set_statement (set_stmt : SetStatement) : M unit :=
  match set_stmt with mkSetStatement name values =>
    let timeout := timeout_of values in
    let name := to_lowercase name in
    x ← get_xid;
    _ ← match x with
        | Some xid =>
            if String.eqb name "statement_timeout" then
              _ ← set_timeout (fun c => {| statement_timeout := timeout; lock_timeout := lock_timeout c |}) xid; mret tt
            else if String.eqb name "lock_timeout" then
              _ ← set_timeout (fun c => {| statement_timeout := statement_timeout c; lock_timeout := timeout |}) xid; mret tt
            else mret tt
        | None => mret tt
        end;
    send [CommandComplete "SET"; ReadyForQuery (tx_status x)]
  end.

Definition not_yet (what : string) : M unit := send_error (what +:+ " not yet supported").

Definition handle_create_view_statement (create : CreateViewStatement) : M unit := not_yet "CREATE VIEW".
Definition handle_alter_table_statement (alter : AlterTableStatement) : M unit := not_yet "ALTER TABLE".
Definition handle_drop_index_statement (drop : DropIndexStatement) : M unit := not_yet "DROP INDEX".
Definition handle_explain_statement (stmt : Statement) : M unit := not_yet "EXPLAIN".

Definition handle_statement (stmt : Statement) : M unit :=
  match stmt with
  | Statement_Select s => handle_select_statement s
  | Statement_Insert s => handle_insert_statement s
  | Statement_Update s => handle_update_statement s
  | Statement_Delete s => handle_delete_statement s
  | Statement_CreateTable s => handle_create_table_statement s
  | Statement_CreateIndex s => handle_create_index_statement s
  | Statement_CreateView s => handle_create_view_statement s
  | Statement_AlterTable s => handle_alter_table_statement s
  | Statement_DropTable s => handle_drop_table_statement s
  | Statement_DropIndex s => handle_drop_index_statement s
  | Statement_Begin s => handle_begin_statement (begin_isolation s)
  | Statement_Commit => handle_commit_statement
  | Statement_Rollback => handle_rollback_statement
  | Statement_Explain s => handle_explain_statement s
  | Statement_CreateSequence _ => not_yet "CREATE SEQUENCE"
  | Statement_CreateType _ => not_yet "CREATE TYPE"
  | Statement_CreateMaterializedView _ => not_yet "CREATE MATERIALIZED VIEW"
  | Statement_CreateSchema _ => not_yet "CREATE SCHEMA"
  | Statement_Set s => handle_set_statement s
  | Statement_Merge _ => not_yet "MERGE"
  end.
End steps.
