(* ===== verification/Session.v ===== *)
(** Queries and connections: the dispatch of a query ([handle_query] in
    [src/src/server/query.rs]) and the loop that serves a connection
    ([handle_connection] and [run] in [src/src/server.rs]), over the handlers of
    Server.v, the messages of Wire.v and the requests of Requests.v. *)

From S2P Require Import Prelude Types Storage HeapPage Transaction BufferPool Wal Catalog TupleCodec HeapAccess.
From S2P Require Import SqlText TextOps Ast Eval RowOps GroupBy Query Wire Requests Server.

Section session.
Context {P : Profile} {S : Type} `{Storage S} `{Bincode Tuple} `{Bincode WALRecord} `{Unicode} `{Grouping} `{Rendering}.
Abbreviation M := (server_m S).
Context (order : values_order) (index_fuel : nat).

(** [where_clause.as_ref().map(parse_filter).transpose()], and what is done with
    the filter. *)
Definition with_filter (where_clause : option string) (f : option HeapAccess.Filter -> M unit) : M unit :=
  match where_clause with
  | None => f None
  | Some s =>
      r ← attempt (lift (parse_filter s));
      match r with inl filter => f (Some filter) | inr e => send_error (error_text e) end
  end.

(** The requests of the parsers by hand, on the rows of a relation. *)
Definition query_insert (table : Z) (values : list bytes) : M unit :=
  in_statement (report (_ ← run_heap (tuple_insert {| ins_rel_oid := table; ins_values := values |}); mret "INSERT 1")).

Definition query_update (table : Z) (value : bytes) (where_clause : option string) : M unit :=
  in_statement (with_filter where_clause (fun filter =>
    report (updated ← run_heap (tuple_update table 0 value filter); mret (counted_tag "UPDATE" updated)))).

Definition query_delete (table : Z) (where_clause : option string) : M unit :=
  in_statement (with_filter where_clause (fun filter =>
    report (deleted ← run_heap (tuple_delete table filter); mret (counted_tag "DELETE" deleted)))).

Definition query_select (query : Query) : M unit :=
  in_statement
    match plan query [] with
    | Plan_SeqScan scan =>
        r ← attempt match pss_filter scan with
                    | None => execute_seq_scan (pss_rel_oid scan)
                    | Some filter => execute_slow_scan (pss_rel_oid scan) filter
                    end;
        match r with inl _ => mret tt | inr e => send_error (error_text e) end
    | Plan_IndexScan _ => send [CommandComplete "SELECT 0"]
    end.

(** [handle_query]. *)
Definition handle_query (query : Query) : M unit :=
  match query with
  | Query_CreateTable name columns =>
      catalog_statement (execute_create_table name columns) ("CREATE TABLE " +:+ name) current_status
  | Query_DropTable name => catalog_statement (execute_drop_table order name) ("DROP TABLE " +:+ name) current_status
  | Query_CreateIndex name table column =>
      catalog_statement (execute_create_index order name table column) ("CREATE INDEX " +:+ name) current_status
  | Query_Begin _ => handle_begin_statement ReadCommitted
  | Query_Commit => handle_commit_statement
  | Query_Rollback => handle_rollback_statement
  | Query_Insert table values => query_insert table values
  | Query_Update table _ value where_clause => query_update table value where_clause
  | Query_Delete table where_clause => query_delete table where_clause
  | Query_Select _ _ _ => query_select query
  | Query_Statement stmt => handle_statement order index_fuel stmt
  end.

(* ---------------------------------------------------------------- *)
(** ** Connections *)

(** What a connection owns beside its transaction: the bytes its parser keeps, its
    statements and portals. *)
Record connection := { cn_server : server S; cn_buffer : bytes; cn_ext : ExtendedQueryState }.

Definition with_server (cn : connection) (sv : server S) : connection :=
  {| cn_server := sv; cn_buffer := cn_buffer cn; cn_ext := cn_ext cn |}.
Definition with_ext (cn : connection) (ext : ExtendedQueryState) : connection :=
  {| cn_server := cn_server cn; cn_buffer := cn_buffer cn; cn_ext := ext |}.

(** Run a handler; [true] to go on. *)
Definition on_server (m : M unit) (cn : connection) : option (outcome bool * connection) :=
  match m (cn_server cn) with Some (r, sv) => Some ((fun _ => true) <$> r, with_server cn sv) | None => None end.

(** [Ok] sends a message, an error is sent as one. *)
Definition answer (r : outcome unit) (done : BackendMessage) (cn : connection) : option (outcome bool * connection) :=
  match r with
  | Ok _ => on_server (send [done]) cn
  | Err e => on_server (send_error (error_text e)) cn
  | Panic => Some (Panic, cn)
  end.

Definition handle_message (msg : Message) (cn : connection) : option (outcome bool * connection) :=
  match msg with
  | Message_Query sql =>
      let '(r, buffer) := feed (cn_buffer cn) (bytes_of sql) in
      let cn := {| cn_server := cn_server cn; cn_buffer := buffer; cn_ext := cn_ext cn |} in
      r ← r;
      match r with
      | Ok (Some query) => on_server (handle_query query) cn
      | Ok None => Some (Ok true, cn)
      | Err e => Some (Err e, cn)
      | Panic => Some (Panic, cn)
      end
  | Message_Parse name sql types => '(r, ext) ← prepare name sql types (cn_ext cn); answer r ParseComplete (with_ext cn ext)
  | Message_Bind portal statement _ values results =>
      let '(r, ext) := bind portal statement values results (cn_ext cn) in answer r BindComplete (with_ext cn ext)
  | Message_Execute portal _ =>
      match get_portal portal (cn_ext cn) with
      | Some p => on_server (handle_query (po_query p)) cn
      | None => Some (Ok true, cn)
      end
  | Message_Sync => on_server send_ready cn
  | Message_Describe _ _ => on_server (send [NoData]) cn
  | Message_Close kind name =>
      let ext := if kind =? 83 then close_statement name (cn_ext cn) else close_portal name (cn_ext cn) in
      on_server (send [CloseComplete]) (with_ext cn ext)
  | Message_Terminate => Some (Ok false, with_ext cn (close_all (cn_ext cn)))
  | Message_Flush | StartupMessage _ _ => Some (Ok true, cn)
  end.

Fixpoint handle_messages (msgs : list Message) (cn : connection) : option (outcome bool * connection) :=
  match msgs with
  | [] => Some (Ok true, cn)
  | msg :: msgs =>
      '(r, cn) ← handle_message msg cn;
      match r with Ok true => handle_messages msgs cn | _ => Some (r, cn) end
  end.

(** What is done with the bytes of one read: bytes that are no whole message are
    not kept for the next. *)
Definition handle_read (data : bytes) (cn : connection) : option (outcome bool * connection) :=
  match decode data with
  | Ok messages => handle_messages messages cn
  | Err _ => Some (Ok true, cn)
  | Panic => Some (Panic, cn)
  end.

(** The loop, on the reads the socket gives until it is closed. *)
Fixpoint serve (reads : list bytes) (cn : connection) : option (outcome bool * connection) :=
  match reads with
  | [] | [] :: _ => Some (Ok false, cn)
  | data :: reads =>
      '(r, cn) ← handle_read data cn;
      match r with Ok true => serve reads cn | _ => Some (r, cn) end
  end.

Definition startup_messages (pid : Z) : list BackendMessage :=
  [BackendKeyData pid 12345; ParameterStatus "client_encoding" "UTF8"; ParameterStatus "server_version" "170000";
   ParameterStatus "server_encoding" "UTF8"; ParameterStatus "DateStyle" "ISO, MDY"; ParameterStatus "TimeZone" "Etc/UTC";
   ParameterStatus "integer_datetimes" "on"; ParameterStatus "standard_conforming_strings" "on"; ReadyForQuery TransactionStatus.Idle].

(** [run] up to the listener: the shared state over a store, seen by a connection
    that has no transaction. *)
Definition start (s : S) : server S :=
  let catalog := bootstrap (register_cache order (SharedBufferCache_new s) Catalog_new) in
  let k := default (SharedBufferCache_new s) (cache catalog) in
  {| sv_heap := {| hs_cache := sync_from_catalog (list_relations order catalog) k; hs_wal := WAL_new 8192 |};
     sv_catalog := Catalog.with_cache catalog None; sv_txns := TransactionManager_new; sv_xid := None; sv_sent := [] |}.

(** [handle_connection]: the start-up messages, then the loop. *)
Definition handle_connection (pid : Z) (reads : list bytes) (sv : server S) : option (outcome bool * connection) :=
  let sv := with_sent sv (startup_messages pid) in
  serve reads {| cn_server := sv; cn_buffer := []; cn_ext := ExtendedQueryState_new |}.
End session.
