(* ===== verification/Replies.v ===== *)
(** What the handlers of Server.v and Session.v reply, and what they do to the
    transactions of the session. *)

From S2P Require Import Prelude Types Storage HeapPage Transaction BufferPool Wal Catalog TupleCodec HeapAccess.
From S2P Require Import SqlText TextOps Token Parsing Ast Eval RowOps GroupBy Query Wire Requests Server Session.

(** The messages that end a reply, and those that carry an error. *)
Definition is_ready (m : BackendMessage) : bool := match m with ReadyForQuery _ => true | _ => false end.
Definition is_error (m : BackendMessage) : bool := match m with ErrorResponse _ => true | _ => false end.

(** The reply of a statement's body: messages of neither kind, or an error that
    [send_error] has sent. *)
Definition body_reply (ms : list BackendMessage) : Prop :=
  Forall (fun m => is_ready m = false /\ is_error m = false) ms \/
  exists fs, ms = [ErrorResponse fs; ReadyForQuery TransactionStatus.Idle].

Section replies.
Context {P : Profile} {S : Type} `{Storage S} `{Bincode Tuple} `{Bincode WALRecord} `{Unicode} `{Grouping} `{Rendering}.
Abbreviation M := (server_m S).
Implicit Types sv : server S.

(** The transactions are those of before, and what was sent stays. *)
Definition same_txns sv sv' : Prop := sv_txns sv' = sv_txns sv /\ sv_xid sv' = sv_xid sv.

(** A step that leaves the transactions alone and, when it succeeds, sends messages
    that satisfy [L]; when it fails it has sent nothing. *)
Definition replies {X} (m : M X) (L : X -> list BackendMessage -> Prop) : Prop :=
  forall sv r sv', m sv = Some (r, sv') ->
  same_txns sv sv' /\
  match r with
  | Ok x => exists ms, sv_sent sv' = sv_sent sv ++ ms /\ L x ms
  | Err _ => sv_sent sv' = sv_sent sv
  | Panic => True
  end.

Definition quiet {X} (m : M X) : Prop := replies m (fun _ ms => ms = []).

(** A step that does not fail, only panics. *)
Definition no_error {X} (m : M X) : Prop := forall sv e sv', m sv <> Some (Err e, sv').

Lemma same_txns_trans sv1 sv2 sv3 : same_txns sv1 sv2 -> same_txns sv2 sv3 -> same_txns sv1 sv3.
Proof. intros [E1 E2] [E3 E4]. split; congruence. Qed.

Lemma replies_ret {X} (x : X) (L : X -> list BackendMessage -> Prop) : L x [] -> replies (mret x) L.
Proof. intros HL sv r sv' [= <- <-]. split; [done|]. exists []. by rewrite app_nil_r. Qed.

Lemma replies_send ms (L : unit -> list BackendMessage -> Prop) : L tt ms -> replies (send ms) L.
Proof. intros HL sv r sv' [= <- <-]. split; [done|]. by exists ms. Qed.

(** First nothing is sent, then the reply. *)
Lemma replies_bind {X Y} (m : M X) (f : X -> M Y) L : quiet m -> (forall x, replies (f x) L) -> replies (m ≫= f) L.
Proof.
  intros Hm Hf sv r sv' E. unfold mbind, server_bind in E. destruct (m sv) as [[[x|e|] sv1]|] eqn:Em; [| | |done].
  - destruct (Hm _ _ _ Em) as [Ht (ms & Es & ->)]. rewrite app_nil_r in Es. destruct (Hf x _ _ _ E) as [Ht' Hr].
    split; [by eapply same_txns_trans|]. by rewrite Es in Hr.
  - injection E as <- <-. by destruct (Hm _ _ _ Em) as [Ht Hs].
  - injection E as <- <-. by destruct (Hm _ _ _ Em) as [Ht Hs].
Qed.

(** First the reply, then nothing, without failing. *)
Lemma replies_then {X Y} (m : M X) (f : X -> M Y) L :
  replies m L -> (forall x, quiet (f x) /\ no_error (f x)) -> replies (m ≫= f) (fun _ ms => exists x, L x ms).
Proof.
  intros Hm Hf sv r sv' E. unfold mbind, server_bind in E. destruct (m sv) as [[[x|e|] sv1]|] eqn:Em; [| | |done].
  - destruct (Hm _ _ _ Em) as [Ht (ms & Es & HL)]. destruct (Hf x) as [Hq Hn]. destruct (Hq _ _ _ E) as [Ht' Hr].
    split; [by eapply same_txns_trans|]. destruct r as [y|e|]; [|by apply Hn in E|done].
    destruct Hr as (ms' & Es' & ->). rewrite app_nil_r in Es'. exists ms. rewrite Es', Es. eauto.
  - injection E as <- <-. by destruct (Hm _ _ _ Em) as [Ht Hs].
  - injection E as <- <-. by destruct (Hm _ _ _ Em) as [Ht Hs].
Qed.

Lemma replies_attempt {X} (m : M X) L :
  replies m L -> replies (attempt m) (fun r ms => match r with inl x => L x ms | inr _ => ms = [] end).
Proof.
  intros Hm sv r sv' E. unfold attempt in E. destruct (m sv) as [[[x|e|] sv1]|] eqn:Em; [| | |done]; injection E as <- <-;
    destruct (Hm _ _ _ Em) as [Ht Hs]; (split; [done|]); [done| |done]. exists []. by rewrite app_nil_r.
Qed.

Lemma replies_weaken {X} (m : M X) (L L' : X -> list BackendMessage -> Prop) :
  replies m L -> (forall x ms, L x ms -> L' x ms) -> replies m L'.
Proof.
  intros Hm Hl sv r sv' E. destruct (Hm _ _ _ E) as [Ht Hr]. split; [done|]. destruct r; [|done..].
  destruct Hr as (ms & Es & HL). eauto.
Qed.

Lemma quiet_attempt {X} (m : M X) : quiet m -> quiet (attempt m).
Proof. intros Hm. apply (replies_weaken _ _ _ (replies_attempt m _ Hm)). by intros []. Qed.

Lemma quiet_heap {X} (m : heap_m S X) : quiet (run_heap m).
Proof.
  intros sv r sv' E. unfold run_heap in E. destruct (m (sv_heap sv)) as [o w]. injection E as <- <-. split; [done|].
  destruct o; [|done..]. exists []. by rewrite app_nil_r.
Qed.

Lemma quiet_query {X} (m : query_m S X) : quiet (run_query m).
Proof.
  intros sv r sv' E. unfold run_query, mbind, option_bind in E. destruct (m (sv_heap sv)) as [[o w]|]; [|done]. injection E as <- <-.
  split; [done|]. destruct o; [|done..]. exists []. by rewrite app_nil_r.
Qed.

Lemma quiet_catalog {X} (f : Catalog S -> X * Catalog S) : quiet (on_catalog f).
Proof.
  intros sv r sv' E. unfold on_catalog in E. destruct (f _) as [x c]. injection E as <- <-. split; [done|]. exists []. by rewrite app_nil_r.
Qed.

Lemma quiet_const {X} (f : server S -> outcome X) : quiet (fun sv => Some (f sv, sv)).
Proof. intros sv r sv' [= <- <-]. split; [done|]. destruct (f sv); [|done..]. exists []. by rewrite app_nil_r. Qed.

Lemma quiet_bind {X Y} (m : M X) (f : X -> M Y) : quiet m -> (forall x, quiet (f x)) -> quiet (m ≫= f).
Proof. apply replies_bind. Qed.

Lemma quiet_log r : quiet (log r).
Proof. apply quiet_bind; [apply quiet_attempt, quiet_heap|]. intros. by apply replies_ret. Qed.

Lemma quiet_flush : quiet flush_log.
Proof. intros sv r sv' [= <- <-]. split; [done|]. exists []. by rewrite app_nil_r. Qed.

(** [send_error] is the error and [ReadyForQuery]. *)
Lemma replies_error msg : replies (send_error msg : M unit) (fun _ ms => body_reply ms).
Proof.
  intros sv r sv' [= <- <-]. split; [done|]. exists [ErrorResponse [{| ef_field_type := 77; ef_value := msg |}]; ReadyForQuery TransactionStatus.Idle].
  cbn. rewrite <- app_assoc. split; [done|]. right. eauto.
Qed.

Lemma plain_reply ms : forallb (fun m => negb (is_ready m) && negb (is_error m)) ms = true -> body_reply ms.
Proof.
  intros Hm. left. apply Forall_forall. intros m Hin. rewrite forallb_forall in Hm. apply list_elem_of_In, Hm in Hin.
  by destruct (is_ready m), (is_error m).
Qed.

Lemma replies_report (m : M string) : quiet m -> replies (report m) (fun _ ms => body_reply ms).
Proof.
  intros Hm. apply replies_bind; [by apply quiet_attempt|]. intros [tag|e]; [|apply replies_error].
  by apply replies_send, plain_reply.
Qed.

(* ---------------------------------------------------------------- *)
(** ** Steps that do not fail *)

Lemma total_bind {X Y} (m : M X) (f : X -> M Y) : no_error m -> (forall x, no_error (f x)) -> no_error (m ≫= f).
Proof.
  intros Hm Hf sv e sv' E. unfold mbind, server_bind in E. destruct (m sv) as [[[x|e'|] sv1]|] eqn:Em; [| |done..].
  - by apply Hf in E.
  - by apply Hm in Em.
Qed.

Lemma total_attempt {X} (m : M X) : no_error (attempt m).
Proof. intros sv e sv' E. unfold attempt in E. by destruct (m sv) as [[[x|e'|] sv1]|]. Qed.

Lemma total_ret {X} (x : X) : no_error (mret x : M X).
Proof. done. Qed.

Lemma total_send ms : no_error (send ms : M unit).
Proof. done. Qed.

Lemma total_catalog {X} (f : Catalog S -> X * Catalog S) : no_error (on_catalog f).
Proof. intros sv e sv' E. unfold on_catalog in E. by destruct (f _). Qed.

Lemma total_log r : no_error (log r : M unit).
Proof. apply total_bind; [apply total_attempt|]. by intros. Qed.

Lemma total_error msg : no_error (send_error msg : M unit).
Proof. done. Qed.

Lemma total_report (m : M string) : no_error (report m).
Proof. apply total_bind; [apply total_attempt|]. by intros []. Qed.

(* ---------------------------------------------------------------- *)
(** ** Bodies of statements *)

Definition body (m : M unit) : Prop := replies m (fun _ ms => body_reply ms) /\ no_error m.

Lemma body_error msg : body (send_error msg).
Proof. split; [apply replies_error|apply total_error]. Qed.

Lemma body_report (m : M string) : quiet m -> body (report m).
Proof. split; [by apply replies_report|apply total_report]. Qed.

Lemma body_ret : body (mret tt).
Proof. split; [|done]. apply replies_ret. by left. Qed.

Lemma body_bind {X} (m : M X) (f : X -> M unit) : quiet m -> no_error m -> (forall x, body (f x)) -> body (m ≫= f).
Proof. intros Hq Hn Hf. split; [apply replies_bind|apply total_bind]; try done; intros x; apply Hf. Qed.

Lemma body_send ms : forallb (fun m => negb (is_ready m) && negb (is_error m)) ms = true -> body (send ms).
Proof. split; [|done]. by apply replies_send, plain_reply. Qed.

(** A reply that may fail before it sends, then the error's report. *)
Lemma body_attempt (m : M unit) :
  replies m (fun _ ms => body_reply ms) ->
  body (r ← attempt m; match r with inl _ => mret tt | inr e => send_error (error_text e) end).
Proof.
  intros Hm. split; [|apply total_bind; [apply total_attempt|by intros []]].
  intros sv r sv' E. unfold mbind, server_bind in E. destruct (attempt m sv) as [[[x|e|] sv1]|] eqn:Em; [| | |done].
  - destruct (replies_attempt _ _ Hm _ _ _ Em) as [Ht (ms & Es & HL)]. destruct x as [[]|e].
    + injection E as <- <-. eauto.
    + destruct (replies_error _ _ _ _ E) as [Ht' Hr]. split; [by eapply same_txns_trans|]. subst. rewrite app_nil_r in Es. by rewrite Es in Hr.
  - injection E as <- <-. by apply total_attempt in Em.
  - injection E as <- <-. by destruct (replies_attempt _ _ Hm _ _ _ Em).
Qed.

(* ---------------------------------------------------------------- *)
(** ** What a query asks of the transaction manager, and its answer *)

Inductive ask := AskBegin (isolation : IsolationLevel) | AskEnd (commits : bool) | AskWork | AskNothing.

Definition asked (q : Query) : ask :=
  match q with
  | Query_Begin _ => AskBegin ReadCommitted
  | Query_Statement (Statement_Begin b) => AskBegin (begin_isolation b)
  | Query_Commit | Query_Statement Statement_Commit => AskEnd true
  | Query_Rollback | Query_Statement Statement_Rollback => AskEnd false
  | Query_Insert _ _ | Query_Update _ _ _ _ | Query_Delete _ _ | Query_Select _ _ _
  | Query_Statement (Statement_Select _ | Statement_Insert _ | Statement_Update _ | Statement_Delete _) => AskWork
  | _ => AskNothing
  end.

(** The calls to the manager, given the session's transaction and the next id, and
    the session's transaction afterwards. *)
Definition ask_ops (a : ask) (x : option TransactionId) (next : TransactionId) : list txn_op * option TransactionId :=
  match a, x with
  | AskBegin iso, _ => ([OpBegin iso], Some next)
  | AskEnd c, Some xid => ([OpEnd c xid], None)
  | AskEnd _, None => ([], None)
  | AskWork, None => ([OpBegin ReadCommitted; OpEnd true next], None)
  | AskWork, Some _ | AskNothing, _ => ([], x)
  end.

(** What is sent, when the session's transaction is [x] afterwards. *)
Definition answer_shape (a : ask) (x : option TransactionId) (ms : list BackendMessage) : Prop :=
  match a with
  | AskBegin _ => ms = [CommandComplete "BEGIN"; ReadyForQuery TransactionStatus.InTransaction]
  | AskEnd c => ms = [CommandComplete (if c then "COMMIT" else "ROLLBACK"); ReadyForQuery TransactionStatus.Idle]
  | AskWork => exists ms', ms = ms' ++ [ReadyForQuery (tx_status x)] /\ body_reply ms'
  | AskNothing =>
      (exists fs, ms = [ErrorResponse fs; ReadyForQuery TransactionStatus.Idle]) \/
      (exists tag s, ms = [CommandComplete tag; ReadyForQuery s] /\ s ∈ [TransactionStatus.Idle; tx_status x])
  end.

Definition answered (a : ask) sv (r : outcome unit) sv' : Prop :=
  match r with
  | Ok _ =>
      let '(ops, x) := ask_ops a (sv_xid sv) (next_xid (sv_txns sv)) in
      sv_txns sv' = (run_ops ops (sv_txns sv)).2 /\ sv_xid sv' = x /\
      exists ms, sv_sent sv' = sv_sent sv ++ ms /\ answer_shape a x ms
  | Err _ => False
  | Panic => True
  end.

Definition answers (a : ask) (m : M unit) : Prop := forall sv r sv', m sv = Some (r, sv') -> answered a sv r sv'.

(** Steps that keep the session's state and send nothing can only panic. *)
Lemma quiet_total {X} (m : M X) sv r sv' :
  quiet m -> no_error m -> m sv = Some (r, sv') ->
  same_txns sv sv' /\ match r with Ok _ => sv_sent sv' = sv_sent sv | Err _ => False | Panic => True end.
Proof.
  intros Hq Hn E. destruct (Hq _ _ _ E) as [Ht Hr]. split; [done|]. destruct r as [x|e|]; [|by apply Hn in E|done].
  destruct Hr as (ms & Es & ->). by rewrite app_nil_r in Es.
Qed.

Lemma begin_fst m iso : begin m iso = (next_xid m, (begin m iso).2).
Proof. done. Qed.

Lemma open_implicit_spec sv r sv' :
  open_implicit sv = Some (r, sv') ->
  match r with
  | Ok implicit =>
      sv_sent sv' = sv_sent sv /\
      match sv_xid sv with
      | Some x => implicit = false /\ sv_xid sv' = Some x /\ sv_txns sv' = sv_txns sv
      | None => implicit = true /\ sv_xid sv' = Some (next_xid (sv_txns sv)) /\ sv_txns sv' = (begin (sv_txns sv) ReadCommitted).2
      end
  | Err _ => False
  | Panic => True
  end.
Proof.
  unfold open_implicit, get_xid. unfold mbind at 1, server_bind at 1. destruct (sv_xid sv) as [x|] eqn:Ex.
  { by intros [= <- <-]. }
  unfold begin_txn, set_xid, mbind, server_bind. rewrite begin_fst. cbn [with_txns sv_xid sv_txns sv_heap].
  destruct (log _ _) as [[r1 sv1]|] eqn:El; [|done].
  pose proof (quiet_total _ _ _ _ (quiet_log _) (total_log _) El) as [[E1 E2] Hr].
  destruct r1 as [[]| |]; [intros [= <- <-]|done|by intros [= <- <-]].
  by rewrite Hr, E1, E2.
Qed.

Lemma close_implicit_spec implicit sv r sv' x :
  close_implicit implicit sv = Some (r, sv') -> sv_xid sv = Some x ->
  match r with
  | Ok _ =>
      sv_sent sv' = sv_sent sv /\
      if implicit then sv_xid sv' = None /\ sv_txns sv' = (commit (sv_txns sv) x).2
      else sv_xid sv' = Some x /\ sv_txns sv' = sv_txns sv
  | Err _ => False
  | Panic => True
  end.
Proof.
  intros E Ex. destruct implicit; [|by injection E as <- <-].
  unfold close_implicit, get_xid, set_xid, end_txn, mbind, server_bind in E. rewrite Ex in E.
  destruct (log _ _) as [[r1 sv1]|] eqn:El; [|done].
  pose proof (quiet_total _ _ _ _ (quiet_log _) (total_log _) El) as [[E1 E2] Hr].
  destruct r1 as [[]| |]; [|done|by injection E as <- <-]. injection E as <- <-. cbn. by rewrite Hr, E1.
Qed.

(** A statement run in the session's transaction, or in one of its own. *)
Lemma answers_statement m : body m -> answers AskWork (in_statement m).
Proof.
  intros [Hm Hn] sv r sv' E. unfold in_statement in E. unfold mbind at 1, server_bind at 1 in E.
  destruct (open_implicit sv) as [[r1 sv1]|] eqn:E1; [|done]. apply open_implicit_spec in E1.
  destruct r1 as [implicit|e|]; [|done|by injection E as <- <-]. destruct E1 as [Es1 Ht1].
  unfold mbind at 1, server_bind at 1 in E.
  destruct (m sv1) as [[r2 sv2]|] eqn:E2; [|done]. destruct (Hm _ _ _ E2) as [[Et2 Ex2] Hr2].
  destruct r2 as [[]|e|]; [|by apply Hn in E2|by injection E as <- <-]. destruct Hr2 as (ms & Es2 & Hms).
  unfold mbind at 1, server_bind at 1 in E.
  destruct (close_implicit implicit sv2) as [[r3 sv3]|] eqn:E3; [|done].
  assert (exists x, sv_xid sv1 = Some x) as [x Ex1] by (destruct (sv_xid sv); naive_solver).
  apply (close_implicit_spec _ _ _ _ x) in E3; [|congruence].
  destruct r3 as [[]|e|]; [|done|by injection E as <- <-]. destruct E3 as [Es3 Ht3].
  injection E as <- <-. cbn -[begin commit]. rewrite Es3, Es2, Es1, <- app_assoc.
  destruct (sv_xid sv) as [y|] eqn:Ey; destruct Ht1 as (-> & Ht1 & Hx1); destruct Ht3 as [Hx3 Ht3]; cbn -[begin commit];
    rewrite Hx3, ?Ht3, Et2, Hx1; (split_and!; [|congruence|eauto 6]).
  - done.
  - assert (x = next_xid (sv_txns sv)) as -> by congruence. rewrite (begin_fst (sv_txns sv) ReadCommitted). cbn -[begin commit].
    destruct (commit (begin (sv_txns sv) ReadCommitted).2 (next_xid (sv_txns sv))). reflexivity.
Qed.

(** The body's steps. *)
Lemma body_then (m : M unit) (f : M unit) : body m -> quiet f -> no_error f -> body (_ ← m; f).
Proof.
  intros [Hm Hn] Hq Hf. split; [|by apply total_bind].
  apply (replies_weaken _ _ _ (replies_then m (fun _ => f) _ Hm (fun _ => conj Hq Hf))). by intros _ ms [_ HL].
Qed.

Lemma body_named (order : values_order) table_str (f : option Relation -> M unit) :
  (forall rel, body (f rel)) -> body (named_relation order table_str ≫= f).
Proof.
  intros Hf. apply body_bind; [|by apply total_bind|done].
  apply quiet_bind; [apply (quiet_const (fun sv => Ok (list_relations order (sv_catalog sv))))|]. intros. by apply replies_ret.
Qed.

Lemma quiet_send_rows_rows oid rs : replies (send_rows oid rs : M unit) (fun _ ms => body_reply ms).
Proof.
  unfold send_rows. destruct rs as [|row rs]; [by apply replies_send, plain_reply|].
  apply replies_bind; [apply quiet_heap|]. intros rel. apply replies_send. left. apply Forall_cons. split; [done|].
  apply Forall_app. split; [|by repeat constructor].
  apply Forall_forall. intros m Hm. apply list_elem_of_fmap in Hm as (r & -> & _). done.
Qed.

Lemma quiet_seq_scan oid : replies (execute_seq_scan oid : M unit) (fun _ ms => body_reply ms).
Proof. apply replies_bind; [apply quiet_heap|]. intros. apply quiet_send_rows_rows. Qed.

Lemma quiet_slow_scan oid filter : replies (execute_slow_scan oid filter : M unit) (fun _ ms => body_reply ms).
Proof.
  apply replies_bind; [apply (quiet_const (fun _ => parse_filter filter))|]. intros f.
  apply replies_bind; [apply quiet_heap|]. intros. apply quiet_send_rows_rows.
Qed.

Lemma body_filter where_clause (f : option HeapAccess.Filter -> M unit) : (forall x, body (f x)) -> body (with_filter where_clause f).
Proof.
  intros Hf. unfold with_filter. destruct where_clause as [s|]; [|done].
  apply body_bind; [apply quiet_attempt, (quiet_const (fun _ => parse_filter s))|apply total_attempt|].
  intros [filter|e]; [done|apply body_error].
Qed.

(** The messages of a result. *)
Lemma result_fields_total i cols : forall e, result_fields i cols <> Err e.
Proof.
  revert i. induction cols as [|c cols IH]; intros i e; cbn; [done|]. unfold column_attr. case_match; cbn; [done|].
  specialize (IH (Datatypes.S i)). destruct (result_fields _ _); cbn; [done| |done]. by destruct (IH e0).
Qed.

Lemma body_result result : body (ms ← lift (build_select_messages result); send ms).
Proof.
  assert (Hb : match build_select_messages result with
               | Ok ms => Forall (fun m => is_ready m = false /\ is_error m = false) ms | Err _ => False | Panic => True end).
  { unfold build_select_messages. destruct (sel_rows result); [by repeat constructor|]. pose proof (result_fields_total 0 (columns result)) as Hf.
    destruct (result_fields _ _) as [fields|e|]; cbn; [|by destruct (Hf e)|done].
    repeat constructor. apply Forall_app. split; [|by repeat constructor].
    apply Forall_forall. intros m Hm. apply list_elem_of_fmap in Hm as (r & -> & _). done. }
  unfold lift. split; intros sv; unfold mbind, server_bind; destruct (build_select_messages result) as [ms|e|]; try done.
  - intros r sv' [= <- <-]. split; [done|]. exists ms. split; [done|]. by left.
  - intros r sv' [= <- <-]. done.
Qed.

Lemma quiet_register_ctes ctes : quiet (register_ctes ctes : M (list Oid)) /\ no_error (register_ctes ctes : M (list Oid)).
Proof.
  induction ctes as [|[name ? ? ?] ctes [IHq IHn]]; cbn [register_ctes]; [by split; [apply replies_ret|]|].
  split.
  - apply quiet_bind; [apply quiet_catalog|]. intros. apply quiet_bind; [apply quiet_catalog|]. intros.
    apply quiet_bind; [done|]. intros. by apply replies_ret.
  - apply total_bind; [apply total_catalog|]. intros. apply total_bind; [apply total_catalog|]. intros.
    apply total_bind; [done|]. by intros.
Qed.

Lemma quiet_remove_ctes oids : quiet (remove_ctes oids : M unit) /\ no_error (remove_ctes oids : M unit).
Proof.
  induction oids as [|oid oids [IHq IHn]]; cbn [remove_ctes]; [by split; [apply replies_ret|]|].
  split; [apply quiet_bind; [apply quiet_catalog|done]|apply total_bind; [apply total_catalog|done]].
Qed.

Lemma body_select order fuel select snapshot :
  body (cte_oids ← register_ctes (select_ctes select);
        r ← attempt (run_select order fuel select snapshot);
        _ ← match r with
            | inl result => ms ← lift (build_select_messages result); send ms
            | inr e => send_error (error_text e)
            end;
        remove_ctes cte_oids : M unit).
Proof.
  destruct (quiet_register_ctes (select_ctes select)) as [Hq Hn]. apply body_bind; [done..|]. intros oids.
  apply body_bind; [|apply total_attempt|].
  { apply quiet_attempt. intros sv. apply (quiet_query (execute_select_with_snapshot order (sv_catalog sv) fuel select snapshot)). }
  intros r. destruct (quiet_remove_ctes oids). apply body_then; [|done..]. destruct r; [apply body_result|apply body_error].
Qed.

Lemma quiet_counted {X} (m : heap_m S X) (tag : X -> string) : quiet (x ← run_heap m; mret (tag x)).
Proof. apply quiet_bind; [apply quiet_heap|]. intros. by apply replies_ret. Qed.

(* ---------------------------------------------------------------- *)
(** ** Statements that do not work on rows *)

Lemma answers_error msg : answers AskNothing (send_error msg).
Proof.
  intros sv r sv' [= <- <-]. split_and!; [done..|]. eexists. cbn. rewrite <- app_assoc. split; [done|]. left. eauto.
Qed.

Lemma answers_catalog m tag status :
  quiet m -> status = always_idle \/ status = current_status -> answers AskNothing (catalog_statement m tag status).
Proof.
  intros Hm Hs sv r sv' E. unfold catalog_statement, mbind, server_bind in E.
  destruct (attempt m sv) as [[r1 sv1]|] eqn:Em; [|done].
  destruct (quiet_total _ _ _ _ (quiet_attempt _ Hm) (total_attempt _) Em) as [[Et Ex] Hr].
  destruct r1 as [[x|e]|e|]; [| |done|by injection E as <- <-].
  - assert (exists s, s ∈ [TransactionStatus.Idle; tx_status (sv_xid sv)] /\ status sv1 = Some (Ok s, sv1)) as (s & Hin & Est).
    { destruct Hs as [->| ->]; eexists; (split; [|reflexivity]); rewrite ?Ex; set_solver. }
    rewrite Est in E. injection E as <- <-. cbn. rewrite Et, Ex, Hr. split_and!; [done..|]. eexists. split; [done|]. right. eauto.
  - apply answers_error in E. unfold answered in *. destruct r; [|done..]. by rewrite <- Et, <- Ex, <- Hr.
Qed.

Lemma answers_begin iso : answers (AskBegin iso) (handle_begin_statement iso).
Proof.
  intros sv r sv' E. unfold handle_begin_statement, begin_txn, set_xid, send, mbind, server_bind in E. rewrite begin_fst in E.
  injection E as <- <-. cbn -[begin]. rewrite begin_fst. split_and!; [done..|]. eauto.
Qed.

Lemma answers_finish (c : bool) f record :
  f = (if c then commit else rollback) -> answers (AskEnd c) (finish f record (if c then "COMMIT" else "ROLLBACK")).
Proof.
  intros -> sv r sv' E. unfold finish, get_xid, set_xid, end_txn, send, mbind, server_bind in E.
  destruct (sv_xid sv) as [x|] eqn:Ex.
  - destruct (log _ _) as [[r1 sv1]|] eqn:El; [|done].
    destruct (quiet_total _ _ _ _ (quiet_log _) (total_log _) El) as [[E1 E2] Hr].
    destruct r1 as [[]|e|]; [|done|by injection E as <- <-]. injection E as <- <-. cbn -[commit rollback] in *.
    rewrite E1, Hr, Ex. cbn -[commit rollback]. split_and!; [|done|eauto]. by destruct c; [destruct (commit _ _)|destruct (rollback _ _)].
  - injection E as <- <-. cbn -[commit rollback]. rewrite Ex. split_and!; [done..|]. eauto.
Qed.

Lemma answers_set s : answers AskNothing (handle_set_statement s).
Proof.
  destruct s as [name values]. intros sv r sv' E. unfold handle_set_statement, get_xid, set_timeout, send, mbind, server_bind in E.
  destruct (sv_xid sv) as [x|] eqn:Ex; [destruct (String.eqb (to_lowercase name) "statement_timeout"), (String.eqb (to_lowercase name) "lock_timeout")|];
    injection E as <- <-; cbn; rewrite Ex;
    (split_and!; [done..|]); eexists; (split; [done|]); right; do 2 eexists; (split; [done|]); set_solver.
Qed.

Lemma quiet_create_index order name table column : quiet (execute_create_index order name table column : M unit).
Proof.
  apply quiet_bind; [apply (quiet_const (fun sv => Ok (list_relations order (sv_catalog sv))))|]. intros rels.
  destruct (List.find _ _); [|apply (quiet_const (fun _ => Err (no_table table)))].
  do 2 (apply quiet_bind; [apply quiet_catalog|intros]). apply quiet_catalog.
Qed.

Lemma quiet_drop_table order name : quiet (execute_drop_table order name : M unit).
Proof.
  apply quiet_bind; [apply (quiet_const (fun sv => Ok (list_relations order (sv_catalog sv))))|]. intros rels.
  destruct (List.find _ _); [apply quiet_catalog|apply (quiet_const (fun _ => Err (no_table name)))].
Qed.

Lemma quiet_create_table name columns : quiet (execute_create_table name columns : M unit).
Proof. apply quiet_bind; [apply quiet_catalog|]. intros. by apply replies_ret. Qed.

(* ---------------------------------------------------------------- *)
(** ** Queries *)

Lemma statement_spec order fuel stmt : answers (asked (Query_Statement stmt)) (handle_statement order fuel stmt).
Proof.
  destruct stmt as [s|s|s|s|s|s|s|s|s|s|s|s|s|s|s|s|s|s| |]; cbn [asked handle_statement]; try apply answers_error.
  - apply answers_statement, body_bind; [apply (quiet_const (fun sv => Ok (get_snapshot_for_statement (sv_txns sv) <$> sv_xid sv)))|done|].
    intros snapshot. apply body_select.
  - destruct s. apply answers_statement, body_named. intros [rel|]; cbn beta iota; [|apply body_error].
    case_match; [|apply body_error]. case_match; [apply body_ret|]. apply body_report, (quiet_counted _ (fun _ => "INSERT 1")).
  - destruct s. apply answers_statement, body_named. intros [rel|]; cbn beta iota; [|apply body_error].
    repeat case_match; subst; [apply body_ret|]. apply body_report, quiet_counted.
  - destruct s. apply answers_statement, body_named. intros [rel|]; cbn beta iota; [|apply body_error]. apply body_report, quiet_counted.
  - destruct s. apply answers_catalog; [|by left]. apply quiet_create_table.
  - destruct s. apply answers_catalog; [|by left]. apply quiet_create_index.
  - destruct s. apply answers_catalog; [|by left]. apply quiet_drop_table.
  - apply answers_set.
  - apply answers_begin.
  - by apply (answers_finish true).
  - by apply (answers_finish false).
Qed.

(** What a query does besides its work on the store: it asks the manager for what
    its kind says, it sends one reply, and it does not fail. *)
Lemma query_spec order fuel q : answers (asked q) (handle_query order fuel q).
Proof.
  destruct q; cbn [asked handle_query].
  - apply answers_statement. destruct (plan _ _) as [scan|scan]; [|by apply body_send].
    apply body_attempt. destruct (pss_filter scan); [apply quiet_slow_scan|apply quiet_seq_scan].
  - apply answers_statement, body_report, (quiet_counted _ (fun _ => "INSERT 1")).
  - apply answers_catalog; [apply quiet_create_table|by right].
  - apply answers_catalog; [apply quiet_drop_table|by right].
  - apply answers_catalog; [apply quiet_create_index|by right].
  - apply answers_statement, body_filter. intros filter. apply body_report, quiet_counted.
  - apply answers_statement, body_filter. intros filter. apply body_report, quiet_counted.
  - apply answers_begin.
  - by apply (answers_finish true).
  - by apply (answers_finish false).
  - apply statement_spec.
Qed.

(* ---------------------------------------------------------------- *)
(** ** Queries end *)

(** From a catalog whose indexes satisfy [J] the step ends, and they still do. *)
Definition ends (J : list IndexInfo -> Prop) {X} (m : M X) : Prop :=
  forall sv, J (indexes (sv_catalog sv)) -> match m sv with Some (_, sv') => J (indexes (sv_catalog sv')) | None => False end.

(** The step changes no index. *)
Ltac kept := let sv := fresh in let HJ := fresh in intros sv HJ; exact HJ.

Section ends.
Context (J : list IndexInfo -> Prop).
Abbreviation ends := (ends J).

Lemma ends_bind {X Y} (m : M X) (f : X -> M Y) : ends m -> (forall x, ends (f x)) -> ends (m ≫= f).
Proof.
  intros Hm Hf sv HJ. specialize (Hm sv HJ). unfold mbind, server_bind. destruct (m sv) as [[[x|e|] sv1]|]; [by apply Hf|done..].
Qed.

Lemma ends_attempt {X} (m : M X) : ends m -> ends (attempt m).
Proof. intros Hm sv HJ. specialize (Hm sv HJ). unfold attempt. by destruct (m sv) as [[[x|e|] sv1]|]. Qed.

Lemma ends_heap {X} (m : heap_m S X) : ends (run_heap m).
Proof. intros sv HJ. unfold run_heap. by destruct (m (sv_heap sv)). Qed.

Lemma ends_query {X} (m : query_m S X) : query_ends m -> ends (run_query m).
Proof. intros Hm sv HJ. unfold run_query, mbind, option_bind. specialize (Hm (sv_heap sv)). by destruct (m (sv_heap sv)) as [[o w]|]. Qed.

Lemma ends_catalog {X} (f : Catalog S -> X * Catalog S) : (forall c, J (indexes c) -> J (indexes (f c).2)) -> ends (on_catalog f).
Proof.
  intros Hf sv HJ. unfold on_catalog. specialize (Hf (Catalog.with_cache (sv_catalog sv) (Some (hs_cache (sv_heap sv)))) HJ).
  by destruct (f _).
Qed.

Lemma ends_log r : ends (log r).
Proof. apply ends_bind; [apply ends_attempt, ends_heap|intros; kept]. Qed.

Lemma ends_begin iso : ends (begin_txn iso).
Proof. intros sv HJ. unfold begin_txn. by destruct (begin _ _). Qed.

Lemma ends_statement (m : M unit) : ends m -> ends (in_statement m).
Proof.
  intros Hm. unfold in_statement, open_implicit, close_implicit. apply ends_bind.
  - apply ends_bind; [kept|]. intros [x|]; [kept|]. apply ends_bind; [apply ends_begin|]. intros xid. apply ends_bind; [kept|]. intros _.
    apply ends_bind; [apply ends_log|intros; kept].
  - intros []; (apply ends_bind; [exact Hm|]); intros _; (apply ends_bind; [|intros; kept]); [|intros; kept].
    apply ends_bind; [kept|]. intros [xid|]; [|kept]. apply ends_bind; [|intros; kept]. apply ends_bind; [apply ends_log|intros; kept].
Qed.

Lemma ends_report (m : M string) : ends m -> ends (report m).
Proof. intros Hm. apply ends_bind; [by apply ends_attempt|intros []; kept]. Qed.

Lemma ends_counted {X} (m : heap_m S X) (tag : X -> string) : ends (report (x ← run_heap m; mret (tag x))).
Proof. apply ends_report, ends_bind; [apply ends_heap|intros; kept]. Qed.

Lemma ends_catalog_statement (m : M unit) tag status :
  ends m -> status = always_idle \/ status = current_status -> ends (catalog_statement m tag status).
Proof. intros Hm Hs. apply ends_bind; [by apply ends_attempt|]. intros [x|e]; [|kept]. destruct Hs as [-> | ->]; kept. Qed.

Lemma ends_create_relation rel (c : Catalog S) : J (indexes c) -> J (indexes (create_relation rel c).2).
Proof. unfold create_relation, allocate_oid. by destruct (rel_oid rel =? 0). Qed.

Lemma ends_create_table name columns : ends (execute_create_table name columns).
Proof. apply ends_bind; [|intros; kept]. apply ends_catalog, ends_create_relation. Qed.

Lemma ends_delete_relation oid (c : Catalog S) : J (indexes c) -> J (indexes (delete_relation oid c)).
Proof. done. Qed.

Lemma ends_drop_table order name : ends (execute_drop_table order name).
Proof.
  apply ends_bind; [kept|]. intros rels. destruct (List.find _ _); [|kept]. apply ends_catalog. intros c. cbn [snd]. apply ends_delete_relation.
Qed.

Lemma ends_finish f record tag : ends (finish f record tag).
Proof.
  apply ends_bind; [kept|]. intros x. apply ends_bind; [|intros; kept]. destruct x as [xid|]; [|kept]. apply ends_bind; [kept|]. intros _.
  apply ends_bind; [apply ends_log|intros; kept].
Qed.

Lemma ends_register_ctes ctes : ends (register_ctes ctes).
Proof.
  induction ctes as [|[name ? ? ?] ctes IH]; [kept|]. cbn [register_ctes]. apply ends_bind; [by apply ends_catalog|]. intros oid.
  apply ends_bind; [apply ends_catalog, ends_create_relation|]. intros _. apply ends_bind; [exact IH|intros; kept].
Qed.

Lemma ends_remove_ctes oids : ends (remove_ctes oids).
Proof.
  induction oids as [|oid oids IH]; [kept|]. cbn [remove_ctes]. apply ends_bind; [|intros; exact IH]. apply ends_catalog. intros c. cbn [snd]. apply ends_delete_relation.
Qed.

Lemma ends_set s : ends (handle_set_statement s).
Proof.
  destruct s as [name values]. apply ends_bind; [kept|]. intros x. apply ends_bind; [|intros; kept]. destruct x; [repeat case_match|]; kept.
Qed.

Lemma ends_named (order : values_order) table (f : option Relation -> M unit) : (forall rel, ends (f rel)) -> ends (named_relation order table ≫= f).
Proof. intros Hf. apply ends_bind; [kept|exact Hf]. Qed.
Lemma ends_select order fuel select :
  (forall c : Catalog S, J (indexes c) -> no_index c) -> ends (handle_select_statement order fuel select).
Proof.
  intros HJ. apply ends_statement, ends_bind; [kept|]. intros snapshot. apply ends_bind; [apply ends_register_ctes|]. intros oids.
  apply ends_bind.
  { apply ends_attempt. intros sv Hsv. by apply ends_query; [apply execute_select_ends, HJ|]. }
  intros r. apply ends_bind; [|intros; apply ends_remove_ctes]. destruct r; [apply ends_bind; [kept|intros; kept]|kept].
Qed.

Lemma ends_send_rows oid rs : ends (send_rows oid rs).
Proof. destruct rs; [kept|]. apply ends_bind; [apply ends_heap|intros; kept]. Qed.

Lemma ends_filter where_clause (f : option HeapAccess.Filter -> M unit) : (forall x, ends (f x)) -> ends (with_filter where_clause f).
Proof.
  intros Hf. unfold with_filter. destruct where_clause as [s|]; [|done]. apply ends_bind; [apply ends_attempt; kept|]. intros [x|e]; [done|kept].
Qed.

Lemma ends_query_select q : ends (query_select q).
Proof.
  apply ends_statement. destruct (plan q _) as [scan|scan]; [|kept]. apply ends_bind; [|intros []; kept]. apply ends_attempt.
  destruct (pss_filter scan) as [filter|].
  - apply ends_bind; [kept|]. intros x. apply ends_bind; [apply ends_heap|intros; apply ends_send_rows].
  - apply ends_bind; [apply ends_heap|intros; apply ends_send_rows].
Qed.
End ends.

Lemma ends_create_index order name table column : ends (fun _ => True) (execute_create_index order name table column).
Proof.
  apply ends_bind; [kept|]. intros rels. destruct (List.find _ _); [|kept]. do 2 (apply ends_bind; [by apply ends_catalog|intros]).
  by apply ends_catalog.
Qed.

(** Whatever the store holds, a query ends, unless it is a SELECT that can search an
    index. *)
Lemma statement_ends order fuel stmt : (forall select, stmt <> Statement_Select select) -> ends (fun _ => True) (handle_statement order fuel stmt).
Proof.
  intros Hns. destruct stmt as [s|s|s|s|s|s|s|s|s|s|s|s|s|s|s|s|s|s| |]; cbn [handle_statement]; try kept.
  - by destruct (Hns s).
  - destruct s. apply ends_statement, ends_named. intros [rel|]; [|kept]. do 2 (case_match; try kept). apply (ends_counted _ _ (fun _ => "INSERT 1"%string)).
  - destruct s. apply ends_statement, ends_named. intros [rel|]; [|kept]. repeat (case_match; try kept). apply ends_counted.
  - destruct s. apply ends_statement, ends_named. intros [rel|]; [|kept]. apply ends_counted.
  - destruct s. apply ends_catalog_statement; [apply ends_create_table|by left].
  - destruct s. apply ends_catalog_statement; [apply ends_create_index|by left].
  - destruct s. apply ends_catalog_statement; [apply ends_drop_table|by left].
  - apply ends_set.
  - apply ends_finish.
  - apply ends_finish.
Qed.

Definition is_select (q : Query) : bool := match q with Query_Statement (Statement_Select _) => true | _ => false end.

Lemma query_ends_spec order fuel q sv :
  is_select q = false \/ no_index (sv_catalog sv) -> handle_query order fuel q sv <> None.
Proof.
  intros Hq. assert (Hany : forall m : M unit, ends (fun _ => True) m -> m sv <> None) by (intros m Hm; specialize (Hm sv I); by destruct (m sv)).
  destruct q as [? ? ?|? ?|? ?|?|? ? ?|? ? ? ?|? ?|?| | |stmt]; cbn [handle_query].
  - apply Hany, ends_query_select.
  - apply Hany, ends_statement, (ends_counted _ _ (fun _ => "INSERT 1"%string)).
  - apply Hany, ends_catalog_statement; [apply ends_create_table|by right].
  - apply Hany, ends_catalog_statement; [apply ends_drop_table|by right].
  - apply Hany, ends_catalog_statement; [apply ends_create_index|by right].
  - apply Hany, ends_statement, ends_filter. intros. apply ends_counted.
  - apply Hany, ends_statement, ends_filter. intros. apply ends_counted.
  - apply Hany, ends_bind; [apply ends_begin|]. intros. apply ends_bind; [kept|intros; kept].
  - apply Hany, ends_finish.
  - apply Hany, ends_finish.
  - destruct (decide (is_select (Query_Statement stmt) = true)) as [Hs|Hs]; [|apply Hany, statement_ends; intros s ->; by apply Hs].
    destruct stmt; try done. destruct Hq as [?|Hni]; [done|].
    pose proof (ends_select (fun l => Forall (fun idx => ii_root_page idx = 0) l) order fuel s (fun c Hc => Hc) sv Hni) as He.
    cbn [handle_statement]. by destruct (handle_select_statement _ _ _ sv).
Qed.

(* ---------------------------------------------------------------- *)
(** ** Sessions *)



















(** C7. Every query is answered or panics; only a SELECT over a catalog with an index
    to search can run without an end. A statement on rows runs in the session's
    transaction, or in one of its own that is begun before it and committed after it;
    it sends its own messages and then [ReadyForQuery] with the session's status, or,
    when it fails, the error, a [ReadyForQuery] that says Idle, and then that second
    [ReadyForQuery]. BEGIN makes a new transaction the session's, COMMIT and ROLLBACK
    end the session's and leave it none, each with its tag and one [ReadyForQuery];
    every other query leaves the transactions alone and sends an error or a tag, and
    one [ReadyForQuery]. No query fails with an error of its own. *)
Theorem query_reply order fuel q sv :
  match handle_query order fuel q sv with
  | Some (r, sv') => answered (asked q) sv r sv'
  | None => is_select q = true /\ ~ no_index (sv_catalog sv)
  end.
Proof.
  destruct (handle_query order fuel q sv) as [[r sv']|] eqn:E; [by apply (query_spec order fuel q)|]. split.
  - destruct (is_select q) eqn:Es; [done|]. exfalso. apply (query_ends_spec order fuel q sv); auto.
  - intros Hni. apply (query_ends_spec order fuel q sv); auto.
Qed.

End replies.
