(* ===== verification/SessionRuns.v ===== *)
(** Sessions on the server as it starts over an empty store: the witnesses of the
    theorems of Replies.v, and runs that show what the statements of a session do to
    each other. *)

From S2P Require Import Prelude Types Storage HeapPage Transaction BufferPool Wal Catalog TupleCodec HeapAccess HeapRuns.
From S2P Require Import SqlText TextOps Token Parsing Ast Eval RowOps GroupBy Query Answers SqlParser Wire Requests Server Session Replies.

#[local] Existing Instances Ascii_Unicode Ascii_laws Some_Grouping Tuple_Bincode Tuple_laws debug_profile heap_records.

Definition plain_rendering : Rendering := {| error_text := err_fmt; expr_debug := fun _ => "Expr" |}.
#[local] Existing Instance plain_rendering.

(** The catalog's values in the order of their oids. *)
Definition by_oid : values_order := fun m => (map_to_list m).*2.

Definition fresh_connection : @connection EphemeralStorage :=
  {| cn_server := start by_oid EphemeralStorage_new; cn_buffer := []; cn_ext := ExtendedQueryState_new |}.

(** The connection after it has received the messages. *)
Definition after (l : list Message) (cn : @connection EphemeralStorage) : @connection EphemeralStorage := from_option snd cn (handle_messages by_oid 100 l cn).

(** The answers to the last of some queries, the others sent before it. *)
Definition answer_to (before : list string) (sql : string) : list BackendMessage :=
  let cn := after (Message_Query <$> before) fresh_connection in
  drop (length (sv_sent (cn_server cn))) (sv_sent (cn_server (after [Message_Query sql] cn))).

Definition ok (tag : string) : list BackendMessage := [CommandComplete tag; ReadyForQuery TransactionStatus.Idle].
Definition column (name : string) (num : Z) : FieldDescription :=
  {| fd_name := name; fd_table_oid := 0; fd_column_attr := num; fd_type_oid := 25; fd_type_size := -1; fd_type_mod := -1; fd_format := 0 |}.
Definition table_of (rows : list (list string)) : list BackendMessage :=
  RowDescription [column "id" 1; column "v" 2] :: ((fun r => DataRow ((fun s => Some (bytes_of s)) <$> r)) <$> rows) ++
  ok (select_tag (length rows)).
Definition no_rows : list BackendMessage := [RowDescriptionEmpty; CommandComplete "SELECT 0"; ReadyForQuery TransactionStatus.Idle].

Definition create_t : string := "CREATE TABLE t (id INT, v TEXT);".
Definition one : string := "INSERT INTO t VALUES (1, 'a');".
Definition two : string := "INSERT INTO t VALUES (2, 'b');".
Definition all_of_t : string := "SELECT * FROM t;".

Example table_created : answer_to [] create_t = ok "CREATE TABLE t".
Proof. vm_compute. reflexivity. Qed.

Example insert_then_select : answer_to [create_t; one] all_of_t = table_of [["1"; "a"]].
Proof. vm_compute. reflexivity. Qed.

Example two_inserts : answer_to [create_t; one; two] all_of_t = table_of [["1"; "a"]; ["2"; "b"]].
Proof. vm_compute. reflexivity. Qed.

(** A page the cache holds is not read again: rows inserted after a SELECT do not
    show in the next. *)
Example select_after_select_is_stale : answer_to [create_t; one; all_of_t; two] all_of_t = table_of [["1"; "a"]].
Proof. vm_compute. reflexivity. Qed.

(** UPDATE and DELETE work on all rows, and UPDATE on the first column, whatever
    the statement names. *)
Example update_ignores_its_clauses :
  answer_to [create_t; one; two; "BEGIN;"; "ROLLBACK;"; "UPDATE t SET v = 'z' WHERE id = 2;"] all_of_t = table_of [["z"; "a"]; ["z"; "b"]].
Proof. vm_compute. reflexivity. Qed.

Example delete_ignores_where : answer_to [create_t; one; "DELETE FROM t WHERE id = 2;"] all_of_t = no_rows.
Proof. vm_compute. reflexivity. Qed.

(** ROLLBACK undoes nothing. *)
Example rolled_back_row_stays : answer_to [create_t; "BEGIN;"; one; "ROLLBACK;"] all_of_t = table_of [["1"; "a"]].
Proof. vm_compute. reflexivity. Qed.

(** The rows are stamped with ids of the log, not with those of the transaction: in
    the transaction its own rows do not show, and not all show after COMMIT. *)
Example own_rows_do_not_show :
  let ms := answer_to [create_t; "BEGIN;"; one; two] all_of_t in
  ms = [RowDescriptionEmpty; CommandComplete "SELECT 0"; ReadyForQuery TransactionStatus.InTransaction].
Proof. vm_compute. reflexivity. Qed.

Example committed_rows_are_missing : answer_to [create_t; "BEGIN;"; one; two; "COMMIT;"] all_of_t = table_of [["1"; "a"]].
Proof. vm_compute. reflexivity. Qed.

(** An error of a statement on rows is followed by two [ReadyForQuery], the first of
    which says Idle even inside a transaction. *)
Example error_is_ready_twice :
  match answer_to [create_t; "BEGIN;"] "INSERT INTO u VALUES (1);" with
  | [ErrorResponse _; s1; s2] => s1 = ReadyForQuery TransactionStatus.Idle /\ s2 = ReadyForQuery TransactionStatus.InTransaction
  | _ => False
  end.
Proof. vm_compute. done. Qed.

(** Inside a transaction CREATE TABLE reports Idle; a second BEGIN leaves the first
    transaction active for good. *)
Example create_in_transaction_reports_idle : answer_to ["BEGIN;"] create_t = ok "CREATE TABLE t".
Proof. vm_compute. reflexivity. Qed.

Example nested_begin_abandons :
  let sv := cn_server (after (Message_Query <$> ["BEGIN;"; "BEGIN;"; "COMMIT;"]) fresh_connection) in
  sv_xid sv = None /\ active_keys (sv_txns sv) = [1].
Proof. vm_compute. done. Qed.

(** A query without its semicolon waits for the next, and joins it. *)
Example query_waits_for_semicolon :
  answer_to [create_t; one] "SELECT * FROM" = [] /\ answer_to [create_t; one; "SELECT * FROM"] " t;" = table_of [["1"; "a"]].
Proof. vm_compute. done. Qed.

(** What WITH names is an empty table, and hides the one of that name. *)
Example with_is_not_executed : answer_to [create_t; one] "WITH t2 AS (SELECT * FROM t) SELECT * FROM t2;" = no_rows.
Proof. vm_compute. reflexivity. Qed.

(** A message whose bytes come in two reads is lost. *)
Definition query_message (sql : string) : bytes := 81 :: to_be 4 (Z.of_nat (String.length sql) + 5) ++ bytes_of sql ++ [0].

Definition sent_after (reads : list bytes) : list BackendMessage :=
  let sv := start by_oid EphemeralStorage_new in
  match handle_connection by_oid 100 7 reads sv with
  | Some (_, cn) => drop (length (startup_messages 7)) (sv_sent (cn_server cn))
  | None => []
  end.

Example split_message_is_lost :
  let data := query_message create_t in
  sent_after [data] = ok "CREATE TABLE t" /\ sent_after [take 10 data; drop 10 data] = [].
Proof. vm_compute. done. Qed.

(* ---------------------------------------------------------------- *)
(** ** Witnesses *)

(** The query that selects all of [t], on a server that has it with one row. *)
Definition select_all : Query := match (feed [] (bytes_of all_of_t)).1 with Some (Ok (Some q)) => q | _ => Query_Commit end.

(** Whether a run ends well. *)
Definition ends_well {X Y} (r : option (outcome X * Y)) : bool := match r with Some (Ok _, _) => true | _ => false end.

Definition one_row_server : server EphemeralStorage := cn_server (after (Message_Query <$> [create_t; one]) fresh_connection).

Lemma select_all_ends : ends_well (handle_query by_oid 100 select_all one_row_server) = true.
Proof. vm_compute. reflexivity. Qed.

Lemma query_reply_witness :
  exists u sv', handle_query by_oid 100 select_all one_row_server = Some (Ok u, sv') /\ answered AskWork one_row_server (Ok u) sv'.
Proof.
  pose proof select_all_ends as He. pose proof (query_reply by_oid 100 select_all one_row_server) as Hq.
  destruct (handle_query by_oid 100 select_all one_row_server) as [[[u|e|] sv']|]; cbn in He; try discriminate He.
  exists u, sv'. exact (conj eq_refl Hq).
Defined.





(** A query over the relation of one row, whose page the pool does not have. *)
Definition select_of (sql : string) : SelectStatement :=
  default (mkSelectStatement None DistinctClause_All [] None None [] None [] None None [] []) (query_of (parse sql)).

Definition some_select : SelectStatement :=
  select_of "SELECT name FROM (SELECT * FROM t WHERE id = '1') s UNION ALL SELECT id FROM T;".

Definition one_relation : Catalog EphemeralStorage :=
  {| relations := {[1 := mrs_relation one_row_state]}; indexes := []; next_oid := 10000; Catalog.cache := None |}.

Definition one_table : sql_table := SqlTable "t" two_columns [({| ip_page_id := 1; ip_offset := 0 |}, tuple_a)].

Lemma one_row_ready : ready (fun _ => True) 1024 {[1]} one_row 0 one_row.
Proof.
  assert (Hall : map_Forall (fun _ d => length d = Z.to_nat 8192) (eph_pages (store one_row))) by (refine (bool_decide_unpack _ _); vm_compute; exact I).
  apply ready_new; [done|done|rewrite size_singleton; lia|reflexivity|]. intros q _. eexists. split; [reflexivity|].
  destruct (eph_pages (store one_row) !! q) as [d|] eqn:E; [exact (Hall _ _ E)|apply length_replicate].
Qed.

Lemma some_select_meaning :
  select_meaning [one_table] None some_select = Ok {| columns := ["name"%string]; sel_rows := [["1"; "ana"]; ["1"; "ana"]]%string |}.
Proof. vm_compute. reflexivity. Qed.

Lemma select_answers_witness :
  exists w', execute_select_with_snapshot by_oid one_relation 100 some_select None one_row =
    Some (Ok {| columns := ["name"%string]; sel_rows := [["1"; "ana"]; ["1"; "ana"]]%string |}, w').
Proof.
  destruct (select_answers (fun _ => True) by_oid one_relation 100 1024 {[1]} one_row [one_table] some_select None 0 one_row)
    as (w' & E & _).
  - constructor.
  - unfold holds_tables. replace (list_relations by_oid one_relation) with [mrs_relation one_row_state] by (vm_compute; reflexivity).
    constructor; [|constructor]. split; [done|]. split; [done|]. exists one_row_state. split_and!; [done|done|exact one_row_ok| |].
    + apply Forall_singleton. set_solver.
    + vm_compute. reflexivity.
  - exact one_row_ready.
  - done.
  - vm_compute. reflexivity.
  - exists w'. rewrite <- some_select_meaning. exact E.
Defined.

(** The rows of an answer are those of the table, whatever the query selects: the
    names of its columns are the only part of the list that is used. *)
Example select_does_not_project :
  answer_to [create_t; one] "SELECT v FROM t;" = RowDescription [column "v" 1] :: DataRow [Some (bytes_of "1"); Some (bytes_of "a")] :: ok "SELECT 1".
Proof. vm_compute. reflexivity. Qed.
