(* ===== verification/Auth.v ===== *)
(** Authentication ([src/src/protocol/auth.rs]): the password hashes, the verification
    of a password and of a SCRAM proof, and the table of users. No other file of the
    program calls it. *)

From S2P Require Import Prelude SqlText Float64 TextOps.

(* ------------------------------------------------------------------ *)
(** ** The functions called hashes *)

(** [md5_hash]: a polynomial in 31, modulo [2^64]. *)
Definition md5_hash (input : string) : Z := foldl (fun hash b => wrap 64 (wrap 64 (hash * 31) + b)) 0 (bytes_of input).

(** Byte [i], or 0 behind the end. *)
Definition byte_or_zero (data : bytes) (i : nat) : Z := default 0 (data !! i).

(** [hmac_sha256]. *)
Definition hmac_sha256 (key message : bytes) : bytes := (fun i => Z.lxor (byte_or_zero key i) (byte_or_zero message i)) <$> seq 0 32.

(** [sha256]: bytes are added at their position modulo 32. *)
Fixpoint add_bytes (i : nat) (input hash : bytes) : bytes :=
  match input with
  | [] => hash
  | b :: input => add_bytes (S i) input (alter (fun h => wrap 8 (h + b)) (i mod 32)%nat hash)
  end.
Definition sha256 (input : bytes) : bytes := add_bytes 0 input (replicate 32 0).

Definition xor (a b : bytes) : bytes := zip_with Z.lxor a b.

(** The rounds of [pbkdf2] after the first. *)
Fixpoint pbkdf2_rounds (n : nat) (password u result : bytes) : bytes :=
  match n with
  | O => result
  | S n => let u := hmac_sha256 password u in pbkdf2_rounds n password u (xor result u)
  end.

Definition pbkdf2 (password : string) (salt : bytes) (iterations : Z) : bytes :=
  let u := hmac_sha256 (bytes_of password) salt in pbkdf2_rounds (Z.to_nat (iterations - 1)) (bytes_of password) u u.

(* ------------------------------------------------------------------ *)
(** ** Authentication of a connection *)

Inductive AuthMethod := Trust | Md5 | ScramSha256.

Record AuthState := { as_method : AuthMethod; as_salt : bytes; as_server_nonce : string; as_iterations : Z }.

Definition start_auth (method : AuthMethod) : AuthState :=
  {| as_method := method; as_salt := (fun i => wrap 8 (i * 7)) <$> [0; 1; 2; 3];
     as_server_nonce := hex_text false 16 1234567890; as_iterations := 4096 |}.

Definition md5_text (password user : string) : string := "md5" +:+ hex_text false 32 (md5_hash (password +:+ user)).

Definition verify_md5 (password_hash : bytes) (user password : string) : bool := bool_decide (password_hash = bytes_of (md5_text password user)).

Record ScramClientFinal := { auth_message : string; client_proof : bytes }.

(** The parts of the client's message that are signed. *)
Definition signed_message (r : ScramClientFinal) : string :=
  let part n := default EmptyString (text_split "," (auth_message r) !! n) in "n,," +:+ part 1%nat +:+ "," +:+ part 2%nat.

(** The proof that is expected of a client with the password. *)
Definition expected_proof (st : AuthState) (message : string) (password : string) : bytes :=
  let client_key := hmac_sha256 (pbkdf2 password (as_salt st) (as_iterations st)) (bytes_of "Client Key") in
  xor client_key (hmac_sha256 (sha256 client_key) (bytes_of message)).

Definition verify_scram (st : AuthState) (r : ScramClientFinal) (password : string) : bool :=
  bool_decide (expected_proof st (signed_message r) password = client_proof r).

(* ------------------------------------------------------------------ *)
(** ** The users *)

Record UserStore := { users : gmap string string }.

Definition UserStore_new : UserStore := {| users := ∅ |}.
Definition add_user (username password : string) (s : UserStore) : UserStore :=
  {| users := <[username := md5_text password username]> (users s) |}.
Definition verify_user (username password : string) (s : UserStore) : bool :=
  match users s !! username with Some stored_hash => String.eqb stored_hash (md5_text password username) | None => false end.
Definition has_user (username : string) (s : UserStore) : bool := bool_decide (is_Some (users s !! username)).

(* ------------------------------------------------------------------ *)
(** ** Lemmas on the hashes *)

Lemma hmac_lookup key message i : (i < 32)%nat -> hmac_sha256 key message !! i = Some (Z.lxor (byte_or_zero key i) (byte_or_zero message i)).
Proof. intros Hi. unfold hmac_sha256. rewrite list_lookup_fmap, lookup_seq_lt by done. done. Qed.

Lemma length_hmac key message : length (hmac_sha256 key message) = 32%nat.
Proof. reflexivity. Qed.

(** The key cancels in two rounds. *)
Lemma hmac_twice key u : length u = 32%nat -> hmac_sha256 key (hmac_sha256 key u) = u.
Proof.
  intros Hu. apply (list_eq_same_length _ _ 32); [done|apply length_hmac|]. intros i x y Hi Hx Hy.
  rewrite hmac_lookup in Hx by done. injection Hx as <-. unfold byte_or_zero at 2. rewrite hmac_lookup by done. cbn [default].
  unfold byte_or_zero. rewrite Hy. cbn. by rewrite <- Z.lxor_assoc, Z.lxor_nilpotent, Z.lxor_0_l.
Qed.

Lemma length_xor a b : length (xor a b) = Nat.min (length a) (length b).
Proof. apply length_zip_with. Qed.

Lemma xor_cons x a y b : xor (x :: a) (y :: b) = Z.lxor x y :: xor a b.
Proof. done. Qed.

Lemma xor_assoc a b c : xor (xor a b) c = xor a (xor b c).
Proof. revert b c. induction a as [|x a IH]; intros [|y b] [|z c]; [done..|]. by rewrite !xor_cons, IH, Z.lxor_assoc. Qed.

Lemma xor_self a : xor a a = replicate (length a) 0.
Proof. induction a as [|x a IH]; [done|]. by rewrite xor_cons, IH, Z.lxor_nilpotent. Qed.

Lemma xor_comm a b : xor a b = xor b a.
Proof. revert b. induction a as [|x a IH]; intros [|y b]; [done..|]. by rewrite !xor_cons, IH, Z.lxor_comm. Qed.

Lemma xor_zeros a n : length a = n -> xor a (replicate n 0) = a.
Proof. intros <-. induction a as [|x a IH]; [done|]. cbn [length replicate]. by rewrite xor_cons, IH, Z.lxor_0_r. Qed.

(** Four rounds change nothing: each of two values is added twice. *)
Lemma pbkdf2_four n password u result :
  length u = 32%nat -> length result = 32%nat -> pbkdf2_rounds (4 + n) password u result = pbkdf2_rounds n password u result.
Proof.
  intros Hu Hr. cbn [Nat.add pbkdf2_rounds]. rewrite !(hmac_twice password) by apply length_hmac || done.
  f_equal. set (v := hmac_sha256 password u).
  assert (length v = 32%nat) by done.
  rewrite !xor_assoc, (xor_comm v (xor u (xor v u))), !xor_assoc, (xor_comm u v), <- (xor_assoc v v), xor_self, <- !xor_assoc.
  rewrite (xor_zeros (xor result u)) by (rewrite length_xor; lia). rewrite xor_assoc, xor_self, Hu. by apply xor_zeros.
Qed.

Lemma pbkdf2_zero password salt k : 0 <= k -> pbkdf2 password salt (4 * k + 4) = replicate 32 0.
Proof.
  intros Hk. unfold pbkdf2. set (p := bytes_of password). set (u := hmac_sha256 p salt).
  assert (Hu : length u = 32%nat) by done.
  replace (Z.to_nat (4 * k + 4 - 1)) with (4 * Z.to_nat k + 3)%nat by lia.
  enough (Hgo : forall n, pbkdf2_rounds (4 * n + 3) p u u = replicate 32 0) by apply Hgo.
  induction n as [|n IH].
  - cbn [Nat.mul Nat.add pbkdf2_rounds]. rewrite !(hmac_twice p) by done. set (v := hmac_sha256 p u).
    rewrite !xor_assoc, (xor_comm u v), <- (xor_assoc v v), xor_self.
    rewrite (xor_comm (replicate _ _)), (xor_zeros u) by done. by rewrite xor_self.
  - replace (4 * S n + 3)%nat with (4 + (4 * n + 3))%nat by lia. by rewrite pbkdf2_four.
Qed.

Lemma md5_hash_u64 s : is_u64 (md5_hash s).
Proof.
  unfold md5_hash. assert (H0 : is_u64 0) by done. revert H0. generalize 0. induction (bytes_of s) as [|b bs IH]; intros h Hh; [done|].
  cbn. apply IH. by apply wrap_in_width.
Qed.

Lemma md5_text_eq p u p' u' : md5_text p u = md5_text p' u' <-> md5_hash (p +:+ u) = md5_hash (p' +:+ u').
Proof.
  unfold md5_text. split; [|by intros ->]. intros E%(inj (String.append "md5")). apply hex_text_inj in E; [done|..].
  - pose proof (md5_hash_u64 (p +:+ u)) as [? Hb]. split; [done|]. apply (Z.lt_trans _ _ _ Hb). done.
  - pose proof (md5_hash_u64 (p' +:+ u')) as [? Hb]. split; [done|]. apply (Z.lt_trans _ _ _ Hb). done.
Qed.

Lemma bytes_of_inj s t : bytes_of s = bytes_of t -> s = t.
Proof. intros E. by rewrite <- (text_of_bytes s), E, text_of_bytes. Qed.

(* ------------------------------------------------------------------ *)
(** ** What is accepted *)

(** A proof that anyone can compute. *)
Definition forged_proof (message : string) : bytes :=
  let client_key := hmac_sha256 (replicate 32 0) (bytes_of "Client Key") in
  xor client_key (hmac_sha256 (sha256 client_key) (bytes_of message)).

(** SCRAM accepts a proof without regard to the password: after the 4096 rounds that
    [start_auth] sets, the key cancels out, and the one proof that is accepted for a
    message can be computed from the message alone. *)
Theorem scram_ignores_password method r password :
  verify_scram (start_auth method) r password = bool_decide (forged_proof (signed_message r) = client_proof r).
Proof. unfold verify_scram, expected_proof. change (as_iterations (start_auth method)) with (4 * 1023 + 4). by rewrite pbkdf2_zero. Qed.

(** The passwords that were set, the last first. *)
Fixpoint run_adds (adds : list (string * string)) : UserStore :=
  match adds with [] => UserStore_new | (u, p) :: adds => add_user u p (run_adds adds) end.

Fixpoint last_added (username : string) (adds : list (string * string)) : option string :=
  match adds with [] => None | (u, p) :: adds => if String.eqb u username then Some p else last_added username adds end.

(** A password is accepted exactly when the user is known and the last password set
    for the user has the same hash together with the user's name, which other
    passwords may have as well; the check against a stored hash agrees. *)
Theorem verify_user_spec adds username password :
  (verify_user username password (run_adds adds) = true <->
   exists p, last_added username adds = Some p /\ md5_hash (p +:+ username) = md5_hash (password +:+ username)) /\
  has_user username (run_adds adds) = bool_decide (is_Some (last_added username adds)) /\
  forall p, last_added username adds = Some p ->
    verify_user username password (run_adds adds) = verify_md5 (bytes_of (md5_text p username)) username password.
Proof.
  assert (Hu : users (run_adds adds) !! username = (fun p => md5_text p username) <$> last_added username adds).
  { induction adds as [|[u p] adds IH]; [done|]. cbn. destruct (String.eqb_spec u username) as [->|Hne].
    - by rewrite lookup_insert_eq.
    - by rewrite lookup_insert_ne. }
  unfold verify_user, has_user, verify_md5. rewrite Hu. split_and!.
  - destruct (last_added username adds) as [p|]; cbn; [|naive_solver].
    rewrite String.eqb_eq, md5_text_eq. naive_solver.
  - apply bool_decide_ext. by rewrite fmap_is_Some.
  - intros p ->. cbn -[md5_text]. apply eq_true_iff_eq. rewrite String.eqb_eq, bool_decide_eq_true.
    split; [by intros ->|apply bytes_of_inj].
Qed.

Example wrong_password_accepted : verify_user "ana" "BB" (run_adds [("ana", "Aa")]) = true.
Proof. vm_compute. reflexivity. Qed.
