(* ===== verification/Gin.v ===== *)
(** The inverted index ([src/src/btree/gin_index.rs]): row pointers in lists, one for
    each value, term or key that a row has. *)

From S2P Require Import Prelude Types SqlText.

Abbreviation tid := (PageId * Z)%type.

Record GinIndexEntry := { gin_key : string; gin_tids : list tid }.

Inductive GinIndexType := Array | FullText | Jsonb.

Record GinIndex := {
  gin_index_oid : Oid;
  gin_rel_oid : Oid;
  index_type : GinIndexType;
  gin_entries : gmap string (list tid);
}.

Definition GinIndex_new (index_oid rel_oid : Oid) (ty : GinIndexType) : GinIndex :=
  {| gin_index_oid := index_oid; gin_rel_oid := rel_oid; index_type := ty; gin_entries := ∅ |}.

Definition with_gin_entries (g : GinIndex) (e : gmap string (list tid)) : GinIndex :=
  {| gin_index_oid := gin_index_oid g; gin_rel_oid := gin_rel_oid g; index_type := index_type g; gin_entries := e |}.

(** [entries.entry(key).or_default().push(tid)]. *)
Definition push_tid (t : tid) (e : gmap string (list tid)) (key : string) : gmap string (list tid) :=
  <[key := default [] (e !! key) ++ [t]]> e.

Section gin.
Context `{Unicode}.

Definition insert_array_values (values : list string) (t : tid) (g : GinIndex) : GinIndex :=
  with_gin_entries g (foldl (push_tid t) (gin_entries g) values).

Definition insert_full_text (terms : list string) (t : tid) (g : GinIndex) : GinIndex :=
  with_gin_entries g (foldl (push_tid t) (gin_entries g) (to_lowercase <$> terms)).

Definition insert_jsonb_keys (keys : list string) (t : tid) (g : GinIndex) : GinIndex :=
  with_gin_entries g (foldl (push_tid t) (gin_entries g) keys).

Definition gin_lookup (key : string) (g : GinIndex) : list tid :=
  match index_type g with
  | FullText => default [] (gin_entries g !! to_lowercase key)
  | _ => default [] (gin_entries g !! key)
  end.

(** The pointers of the first value that are among those of all others. *)
Definition among (g : GinIndex) (t : tid) (value : string) : bool :=
  match gin_entries g !! value with Some tids => bool_decide (t ∈ tids) | None => false end.

Definition gin_contains (values : list string) (g : GinIndex) : list tid :=
  match values with
  | [] => []
  | first :: others =>
      match gin_entries g !! first with
      | Some first_tids => List.filter (fun t => forallb (among g t) others) first_tids
      | None => []
      end
  end.

(** The pointers of a list that were not seen, with the set of those seen. *)
Fixpoint add_unseen (ts : list tid) (seen : gset tid) : list tid * gset tid :=
  match ts with
  | [] => ([], seen)
  | t :: ts =>
      if decide (t ∈ seen) then add_unseen ts seen
      else let '(r, seen) := add_unseen ts ({[t]} ∪ seen) in (t :: r, seen)
  end.

Fixpoint any_from (values : list string) (g : GinIndex) (seen : gset tid) : list tid :=
  match values with
  | [] => []
  | value :: values =>
      match gin_entries g !! value with
      | Some tids => let '(r, seen) := add_unseen tids seen in r ++ any_from values g seen
      | None => any_from values g seen
      end
  end.

Definition any_contains (values : list string) (g : GinIndex) : list tid := any_from values g ∅.

Definition gin_delete (key : string) (t : tid) (g : GinIndex) : bool * GinIndex :=
  match gin_entries g !! key with
  | Some tids =>
      match position (fun x => bool_decide (x = t)) tids with
      | Some pos =>
          let tids := remove_at pos tids in
          (true, with_gin_entries g (if decide (tids = []) then delete key (gin_entries g) else <[key := tids]> (gin_entries g)))
      | None => (false, g)
      end
  | None => (false, g)
  end.

(** [scan], in the order of the hash map. *)
Definition gin_scan (g : GinIndex) : list GinIndexEntry :=
  (fun kt => {| gin_key := kt.1; gin_tids := kt.2 |}) <$> map_to_list (gin_entries g).

Definition gin_entry_count (g : GinIndex) : nat := size (gin_entries g).
Definition gin_tid_count (g : GinIndex) : nat := map_fold (fun _ ts n => (length ts + n)%nat) 0%nat (gin_entries g).

(* ------------------------------------------------------------------ *)
(** ** The index as a function from keys to pointers *)

(** The calls that change the index; an insertion is the one of its type. *)
Inductive gin_op := GInsert (values : list string) (t : tid) | GDelete (key : string) (t : tid).

Definition run_gin_op (g : GinIndex) (op : gin_op) : GinIndex :=
  match op with
  | GInsert values t =>
      match index_type g with
      | Array => insert_array_values values t g
      | FullText => insert_full_text values t g
      | Jsonb => insert_jsonb_keys values t g
      end
  | GDelete key t => snd (gin_delete key t g)
  end.

(** What values are filed under. *)
Definition filed_as (ty : GinIndexType) (value : string) : string := match ty with FullText => to_lowercase value | _ => value end.

Definition occurrences (key : string) (keys : list string) : nat := length (filter (fun k => k = key) keys).

Definition remove_first (t : tid) (ts : list tid) : list tid :=
  match position (fun x => bool_decide (x = t)) ts with Some pos => remove_at pos ts | None => ts end.

(** The pointers under a key after a call. *)
Definition posting_step (ty : GinIndexType) (f : string -> list tid) (op : gin_op) (key : string) : list tid :=
  match op with
  | GInsert values t => f key ++ replicate (occurrences key (filed_as ty <$> values)) t
  | GDelete k t => if decide (k = key) then remove_first t (f key) else f key
  end.

(** The index holds what the function says, and keeps no empty list. *)
Definition refines_postings (g : GinIndex) (f : string -> list tid) : Prop :=
  forall key, default [] (gin_entries g !! key) = f key /\ gin_entries g !! key <> Some [].

Lemma pushed keys t e key :
  (forall k, e !! k <> Some []) ->
  default [] (foldl (push_tid t) e keys !! key) = default [] (e !! key) ++ replicate (occurrences key keys) t /\
  foldl (push_tid t) e keys !! key <> Some [].
Proof.
  revert e. induction keys as [|k keys IH]; intros e He; cbn [foldl].
  { cbn. rewrite app_nil_r. auto. }
  destruct (IH (push_tid t e k)) as [IH1 IH2].
  { intros k'. unfold push_tid. rewrite lookup_insert. case_decide; [|done]. intros [= Hnil]. by destruct (default [] (e !! k)). }
  split; [|done]. rewrite IH1. unfold push_tid, occurrences. rewrite lookup_insert, filter_cons.
  destruct (decide (k = key)) as [->|]; cbn; [|done]. by rewrite <- app_assoc.
Qed.

Lemma gin_op_type g op : index_type (run_gin_op g op) = index_type g.
Proof. destruct op as [values t|key t]; cbn; [by destruct (index_type g) eqn:E; cbn|]. unfold gin_delete. by repeat case_match. Qed.

Lemma remove_first_none t ts : t ∉ ts -> remove_first t ts = ts.
Proof.
  intros Hn. unfold remove_first. destruct (position _ ts) as [pos|] eqn:Ep; [|done].
  destruct (position_spec _ _ _ Ep) as (x & Hx & ->%bool_decide_eq_true & _). by apply list_elem_of_lookup_2 in Hx.
Qed.

Lemma gin_op_refines g f op : refines_postings g f -> refines_postings (run_gin_op g op) (posting_step (index_type g) f op).
Proof.
  intros Hr. destruct op as [values t|k t]; intros key; cbn [run_gin_op posting_step].
  - assert (Hp : forall keys, let g' := with_gin_entries g (foldl (push_tid t) (gin_entries g) keys) in
      default [] (gin_entries g' !! key) = f key ++ replicate (occurrences key keys) t /\ gin_entries g' !! key <> Some []).
    { intros keys. cbn. destruct (pushed keys t (gin_entries g) key) as [-> Hne]; [intros k; apply Hr|]. by rewrite (proj1 (Hr key)). }
    destruct (index_type g); cbn [filed_as]; rewrite ?list_fmap_id; apply Hp.
  - destruct (Hr k) as [Hk Hke], (Hr key) as [Hkey Hkeye]. unfold gin_delete.
    destruct (gin_entries g !! k) as [ts|] eqn:Et; cbn in Hk.
    + unfold remove_first. destruct (decide (k = key)) as [->|Hne].
      * rewrite <- Hk. destruct (position _ ts) as [pos|] eqn:Ep; cbn; [|by rewrite Et].
        case_decide as Hnil; [rewrite lookup_delete_eq, Hnil|rewrite lookup_insert_eq]; cbn; split; congruence.
      * destruct (position _ ts) as [pos|] eqn:Ep; cbn; [|done].
        case_decide; [rewrite lookup_delete_ne by done|rewrite lookup_insert_ne by done]; done.
    + cbn. case_decide; [|done]. subst. rewrite <- Hk, Et. done.
Qed.

Lemma add_unseen_spec ts seen :
  let '(r, seen') := add_unseen ts seen in
  NoDup r /\ (forall t, t ∈ r <-> t ∈ ts /\ t ∉ seen) /\ seen' ≡ seen ∪ list_to_set r.
Proof.
  revert seen. induction ts as [|t ts IH]; intros seen; cbn [add_unseen].
  { split_and!; [constructor|set_solver|set_solver]. }
  case_decide as Hs.
  - specialize (IH seen). destruct (add_unseen ts seen) as [r seen']. destruct IH as (Hn & Hr & Hs'). split_and!; [done| |done].
    intros t'. rewrite Hr. set_solver.
  - specialize (IH ({[t]} ∪ seen)). destruct (add_unseen ts _) as [r seen']. destruct IH as (Hn & Hr & Hs'). split_and!.
    + constructor; [|done]. rewrite Hr. set_solver.
    + intros t'. rewrite !elem_of_cons, Hr, not_elem_of_union, not_elem_of_singleton. destruct (decide (t' = t)); naive_solver.
    + set_solver.
Qed.

Lemma any_from_spec values g seen :
  NoDup (any_from values g seen) /\
  forall t, t ∈ any_from values g seen <-> t ∉ seen /\ exists v, v ∈ values /\ t ∈ default [] (gin_entries g !! v).
Proof.
  revert seen. induction values as [|v values IH]; intros seen; cbn [any_from]; [split; [constructor|set_solver]|].
  destruct (gin_entries g !! v) as [ts|] eqn:Ev.
  - pose proof (add_unseen_spec ts seen) as Ha. destruct (add_unseen ts seen) as [r seen']. destruct Ha as (Hn & Hr & Hs).
    destruct (IH seen') as [Hn' Hr']. split.
    + apply NoDup_app. split_and!; [done| |done]. intros t Ht. rewrite Hr'. set_solver.
    + intros t. rewrite elem_of_app, Hr, Hr', Hs. split.
      * intros [[Ht Hns]|(Hns & v' & Hv' & Ht)]; (split; [set_solver|]); [exists v|exists v']; rewrite ?Ev; set_solver.
      * intros (Hns & v' & Hv' & Ht). apply elem_of_cons in Hv' as [->|Hv']; [rewrite Ev in Ht; by left|].
        destruct (decide (t ∈ ts)); [by left|right]. split; [|eauto]. rewrite elem_of_union, elem_of_list_to_set, Hr. naive_solver.
  - destruct (IH seen) as [Hn Hr]. split; [done|]. intros t. rewrite Hr. split; [intros (? & v' & ? & ?); split; [done|exists v'; set_solver]|].
    intros (? & v' & Hv' & Ht). apply elem_of_cons in Hv' as [->|Hv']; [rewrite Ev in Ht; set_solver|eauto].
Qed.

(** C38. After any insertions and deletions the index holds under every key the pointers
    that the calls leave there, in their order. A lookup returns those of its key,
    [contains] exactly the pointers that are under every one of its values,
    [any_contains] exactly those under at least one, each once; a deletion reports
    whether it found its pointer. *)
Theorem gin_refines index_oid rel_oid ty ops :
  let g := foldl run_gin_op (GinIndex_new index_oid rel_oid ty) ops in
  let f := foldl (posting_step ty) (fun _ => []) ops in
  (forall key, gin_lookup key g = f (filed_as ty key)) /\
  (forall values t, t ∈ gin_contains values g <-> values <> [] /\ forall v, v ∈ values -> t ∈ f v) /\
  (forall values, NoDup (any_contains values g) /\ forall t, t ∈ any_contains values g <-> exists v, v ∈ values /\ t ∈ f v) /\
  (forall key t, fst (gin_delete key t g) = bool_decide (t ∈ f key)).
Proof.
  intros g f.
  assert (Hg : refines_postings g f /\ index_type g = ty).
  { assert (Hn : refines_postings (GinIndex_new index_oid rel_oid ty) (fun _ => [])) by (intros k; cbn; by rewrite lookup_empty).
    subst g f. revert Hn. cut (index_type (GinIndex_new index_oid rel_oid ty) = ty); [|done].
    generalize (GinIndex_new index_oid rel_oid ty) (fun _ : string => @nil tid).
    induction ops as [|op ops IH]; intros g f Hty Hn; [done|]. cbn [foldl]. apply IH; [by rewrite gin_op_type|].
    rewrite <- Hty. by apply gin_op_refines. }
  clearbody g f. destruct Hg as [Hr Hty]. split_and!.
  - intros key. unfold gin_lookup, filed_as. rewrite Hty. destruct ty; apply Hr.
  - intros [|v values] t; cbn [gin_contains]; [set_solver|].
    assert (Ha : forall v', among g t v' = bool_decide (t ∈ f v')).
    { intros v'. unfold among. rewrite <- (proj1 (Hr v')). destruct (gin_entries g !! v'); cbn; [done|]. by rewrite bool_decide_eq_false_2 by set_solver. }
    assert (Hf : forallb (among g t) values = true <-> forall v', v' ∈ values -> t ∈ f v').
    { rewrite forallb_forall. setoid_rewrite Ha. setoid_rewrite bool_decide_eq_true. by setoid_rewrite list_elem_of_In. }
    pose proof (proj1 (Hr v)) as Hv. destruct (gin_entries g !! v) as [ts|]; cbn in Hv.
    + rewrite list_elem_of_In, filter_In, <- list_elem_of_In, Hf, Hv. set_solver.
    + split; [set_solver|]. intros [_ Hall]. specialize (Hall v ltac:(set_solver)). by rewrite <- Hv in Hall.
  - intros values. destruct (any_from_spec values g ∅) as [Hn Ht]. split; [done|]. intros t. unfold any_contains. rewrite Ht.
    setoid_rewrite (fun v => proj1 (Hr v)). set_solver.
  - intros key t. unfold gin_delete. rewrite <- (proj1 (Hr key)). destruct (gin_entries g !! key) as [ts|]; cbn; [|by rewrite bool_decide_eq_false_2 by set_solver].
    destruct (position _ ts) as [pos|] eqn:Ep; cbn; symmetry.
    + destruct (position_spec _ _ _ Ep) as (x & Hx & ->%bool_decide_eq_true & _). apply bool_decide_eq_true. by eapply list_elem_of_lookup_2.
    + apply position_None in Ep. apply bool_decide_eq_false. rewrite Forall_forall in Ep. intros Hin. specialize (Ep _ Hin).
      by apply bool_decide_eq_false in Ep.
Qed.
End gin.

(** [contains] and [any_contains] do not put their values in lower case, as lookups
    in a full text index do: what a lookup finds, they miss. *)
Example contains_keeps_case :
  let _ := Ascii_Unicode in
  let g := insert_full_text ["Rust"] (1, 0) (GinIndex_new 1 2 FullText) in
  gin_lookup "Rust" g = [(1, 0)] /\ gin_contains ["Rust"] g = [] /\ any_contains ["Rust"] g = [].
Proof. vm_compute. done. Qed.
