(* ===== verification/Partitions.v ===== *)
(** Partitioned tables ([src/src/executor/partition/mod.rs], [pruning.rs]): the bounds of
    the partitions, the partition of a value, and the partitions a query has to read. *)

From S2P Require Import Prelude Types SqlText Float64 Ast Eval.

Inductive PartitionStrategy := Range | List | Hash.

Record PartitionSpec := { ps_strategy : PartitionStrategy; ps_columns : list Expr }.

Record RangeBound := { inclusive : bool; rb_values : list string }.
Record ListBound := { lb_values : list string }.
Record HashBound := { modulus : Z; remainder : Z }.

Inductive PartitionBound :=
| PartitionBound_Range (bounds : list RangeBound)
| PartitionBound_List (bounds : list ListBound)
| PartitionBound_Hash (bound : HashBound).

Record PartitionEntry := { partition_oid : Oid; bound : PartitionBound }.

Record PartitionManager := {
  parent_oid : Oid;
  strategy : PartitionStrategy;
  pm_columns : list string;
  partitions : list PartitionEntry;
}.

Definition PartitionManager_new (oid : Oid) (s : PartitionStrategy) (columns : list string) : PartitionManager :=
  {| parent_oid := oid; strategy := s; pm_columns := columns; partitions := [] |}.

Definition add_partition (entry : PartitionEntry) (pm : PartitionManager) : PartitionManager :=
  {| parent_oid := parent_oid pm; strategy := strategy pm; pm_columns := pm_columns pm; partitions := partitions pm ++ [entry] |}.

Definition partition_count (pm : PartitionManager) : Z := zlen (partitions pm).

(** [hash_value]. *)
Definition partition_hash (value : string) : Z := foldl (fun hash b => wrap 32 (wrap 32 (hash * 31) + b)) 0 (bytes_of value).

(** Whether a partition takes a value, under a strategy; a remainder of division by
    zero panics. *)
Definition takes (s : PartitionStrategy) (value : string) (p : PartitionEntry) : outcome bool :=
  match s, bound p with
  | Range, PartitionBound_Range bounds =>
      Ok (existsb (fun b => let first := default EmptyString (head (rb_values b)) in
                            if inclusive b then text_leb value first else text_ltb value first) bounds)
  | List, PartitionBound_List bounds => Ok (existsb (fun b => bool_decide (value ∈ lb_values b)) bounds)
  | Hash, PartitionBound_Hash h => if modulus h =? 0 then Panic else Ok (partition_hash value mod modulus h =? remainder h)
  | _, _ => Ok false
  end.

(** [iter().find]. *)
Fixpoint find_first {A} (p : A -> outcome bool) (l : list A) : outcome (option A) :=
  match l with
  | [] => Ok None
  | a :: l => b ← p a; if b : bool then Ok (Some a) else find_first p l
  end.

Definition find_partition_for_value (value : string) (pm : PartitionManager) : outcome (option PartitionEntry) :=
  find_first (takes (strategy pm) value) (partitions pm).

(** The first [column = literal] of a conjunction. *)
Fixpoint extract_equality_predicate (e : Expr) : option (string * string) :=
  match e with
  | Expr_BinaryOp l BinaryOperator.Equals r =>
      match l, r with
      | Expr_Identifier col, Expr_Literal (Literal.String v | Literal.Number v) => Some (col, v)
      | _, _ => None
      end
  | Expr_BinaryOp l BinaryOperator.And r =>
      match extract_equality_predicate l with Some x => Some x | None => extract_equality_predicate r end
  | _ => None
  end.

Definition all_partitions (pm : PartitionManager) : list Oid := partition_oid <$> partitions pm.

Definition prune_partitions (where_clause : option Expr) (pm : PartitionManager) : outcome (list Oid) :=
  match where_clause ≫= extract_equality_predicate with
  | Some (column, value) =>
      if bool_decide (column ∈ pm_columns pm) then
        entry ← find_partition_for_value value pm;
        Ok (match entry with Some entry => [partition_oid entry] | None => all_partitions pm end)
      else Ok (all_partitions pm)
  | None => Ok (all_partitions pm)
  end.

Definition estimate_partition_selectivity (where_clause : option Expr) (pm : PartitionManager) : outcome f64 :=
  if partition_count pm =? 0 then Ok f_one
  else
    pruned ← prune_partitions where_clause pm;
    Ok (if zlen pruned =? 1 then f_div f_one (f_of_Z (partition_count pm)) else f_one).

(* ------------------------------------------------------------------ *)
(** ** The partition of a value *)

Lemma find_first_spec {A} (p : A -> outcome bool) l x :
  find_first p l = Ok (Some x) -> exists i, l !! i = Some x /\ p x = Ok true /\ forall j y, (j < i)%nat -> l !! j = Some y -> p y = Ok false.
Proof.
  induction l as [|a l IH]; [done|]. cbn. destruct (p a) as [[]|e|] eqn:Ea; cbn; [|intros H|done..].
  - intros [= <-]. exists 0%nat. split_and!; [done|done|lia].
  - destruct (IH H) as (i & Hi & Hx & Hj). exists (S i). split_and!; [done|done|]. intros [|j] y Hlt; cbn; [by intros [= <-]|].
    apply Hj. lia.
Qed.

Lemma find_first_none {A} (p : A -> outcome bool) l : find_first p l = Ok None <-> Forall (fun a => p a = Ok false) l.
Proof.
  induction l as [|a l IH]; cbn; [split; [constructor|done]|]. rewrite Forall_cons.
  destruct (p a) as [[]|e|]; cbn; rewrite ?IH; naive_solver.
Qed.

Lemma find_first_ok {A} (p : A -> outcome bool) l : (forall a, a ∈ l -> exists b, p a = Ok b) -> exists r, find_first p l = Ok r.
Proof.
  induction l as [|a l IH]; intros Hp; cbn; [eauto|]. destruct (Hp a ltac:(left)) as [[] ->]; cbn; [eauto|].
  apply IH. intros b Hb. apply Hp. by right.
Qed.

(** Partitions by hash with the same modulus, one for each remainder, in any order,
    take every value: exactly one of them does, and it is the one that is found. *)
Lemma hash_partitions_total (pm : PartitionManager) m value :
  0 < m -> strategy pm = Hash ->
  (forall p, p ∈ partitions pm -> exists r, bound p = PartitionBound_Hash {| modulus := m; remainder := r |}) ->
  (forall r, 0 <= r < m -> exists p, p ∈ partitions pm /\ bound p = PartitionBound_Hash {| modulus := m; remainder := r |}) ->
  exists p, find_partition_for_value value pm = Ok (Some p) /\
    bound p = PartitionBound_Hash {| modulus := m; remainder := partition_hash value mod m |}.
Proof.
  intros Hm Hs Hall Hcover. unfold find_partition_for_value. rewrite Hs.
  assert (Ht : forall p, p ∈ partitions pm -> exists r, bound p = PartitionBound_Hash {| modulus := m; remainder := r |} /\
    takes Hash value p = Ok (partition_hash value mod m =? r)).
  { intros p Hp. destruct (Hall p Hp) as [r Hr]. exists r. split; [done|]. unfold takes. rewrite Hr. cbn.
    by destruct (Z.eqb_spec m 0); [lia|]. }
  destruct (find_first_ok (takes Hash value) (partitions pm)) as [r E]; [intros p Hp; destruct (Ht p Hp) as (r & _ & ->); eauto|].
  rewrite E. destruct r as [p|].
  - exists p. split; [done|]. destruct (find_first_spec _ _ _ E) as (i & Hi%list_elem_of_lookup_2 & Hp & _).
    destruct (Ht p Hi) as (r & Hr & Hp'). rewrite Hp' in Hp. injection Hp as ->%Z.eqb_eq. done.
  - apply find_first_none in E. destruct (Hcover (partition_hash value mod m) (Z.mod_pos_bound _ _ Hm)) as (p & Hp & Hr).
    rewrite Forall_forall in E. specialize (E p Hp). destruct (Ht p Hp) as (r & Hr' & Htk). rewrite Hr in Hr'. injection Hr' as <-.
    rewrite Htk in E. by rewrite Z.eqb_refl in E.
Qed.

(* ------------------------------------------------------------------ *)
(** ** Pruning *)

Section pruning.
Context `{Unicode}.

Lemma bool_text_true b : bool_text b = "true" \/ bool_text b = "t" -> b = true.
Proof. destruct b; [done|]. by intros [|]. Qed.

Lemma logic_and_true l r v : logic andb l r = Some v -> v = "true" \/ v = "t" -> l = "true" /\ r = "true".
Proof.
  unfold logic. intros E Hv. destruct (parse_bool l) as [a|] eqn:El; [|done]. destruct (parse_bool r) as [b|] eqn:Er; [|done].
  cbn in E. injection E as <-. apply bool_text_true, andb_prop in Hv as [-> ->].
  revert El Er. unfold parse_bool. repeat case_match; try done. intros _ _.
  repeat match goal with H : String.eqb _ _ = true |- _ => apply String.eqb_eq in H; subst end. done.
Qed.

(** The predicate that is taken out of a condition follows from it. *)
Lemma extracted_holds e row desc c v :
  extract_equality_predicate e = Some (c, v) -> is_true (evaluate_expr e row desc) = true -> column_value row desc c = Some v.
Proof.
  revert e c v. fix IH 1. intros e c v He Ht.
  assert (Hv : exists t, evaluate_expr e row desc = Some t /\ (t = "true" \/ t = "t")).
  { unfold is_true in Ht. destruct (evaluate_expr e row desc) as [t|]; [|done]. exists t. split; [done|].
    by apply orb_prop in Ht as [?%String.eqb_eq|?%String.eqb_eq]; auto. }
  destruct Hv as (t & Et & Hv). destruct e as [| | | | | | | | |l op r| | | | | | | | | | | | | |]; try done.
  destruct op; try done; cbn [extract_equality_predicate evaluate_expr] in He, Et;
    destruct (evaluate_expr l row desc) as [a|] eqn:El; try done; destruct (evaluate_expr r row desc) as [b|] eqn:Er; try done; cbn in Et.
  - destruct l; try done. destruct r as [| |lit| | | | | | | | | | | | | | | | | | | | |]; try done.
    injection Et as <-. apply bool_text_true in Hv. apply bool_decide_eq_true in Hv as ->.
    cbn in El, Er. destruct lit; try done; injection He as <- <-; injection Er as <-; done.
  - destruct (logic_and_true _ _ _ Et Hv) as [-> ->]. destruct (extract_equality_predicate l) as [[c' v']|] eqn:Ex.
    + injection He as <- <-. apply (IH l); [done|]. by rewrite El.
    + apply (IH r); [done|]. by rewrite Er.
Qed.

(** Pruning is safe for a table that is partitioned by one column and whose rows
    are where [find_partition_for_value] puts their values: the partition of every
    row that satisfies the condition is among those that are read, and they are
    either that one partition or all. *)
Theorem pruning_safe pm column where_clause row desc value entry :
  pm_columns pm = [column] -> evaluate_where where_clause row desc = true ->
  column_value row desc column = Some value -> find_partition_for_value value pm = Ok (Some entry) ->
  exists oids, prune_partitions (Some where_clause) pm = Ok oids /\ partition_oid entry ∈ oids /\
    (oids = [partition_oid entry] \/ oids = all_partitions pm).
Proof.
  intros Hc Hw Hv Hf.
  assert (Hin : partition_oid entry ∈ all_partitions pm).
  { apply list_elem_of_fmap. exists entry. split; [done|]. destruct (find_first_spec _ _ _ Hf) as (i & Hi & _). by eapply list_elem_of_lookup_2. }
  unfold prune_partitions. cbn [mbind option_bind].
  destruct (extract_equality_predicate where_clause) as [[c v]|] eqn:Ex; [|eauto].
  rewrite Hc. case_bool_decide as Hcc; [|eauto]. apply list_elem_of_singleton in Hcc as ->.
  pose proof (extracted_holds _ _ _ _ _ Ex Hw) as Hv'. rewrite Hv in Hv'. injection Hv' as <-. rewrite Hf. cbn.
  exists [partition_oid entry]. split_and!; [done|set_solver|by left].
Qed.
End pruning.

(** With two columns the partition of one is looked up with the value of the other. *)
Example second_column_misleads :
  let pm := {| parent_oid := 1; strategy := List; pm_columns := ["region"; "kind"];
               partitions := [{| partition_oid := 2; bound := PartitionBound_List [{| lb_values := ["eu"] |}] |};
                              {| partition_oid := 3; bound := PartitionBound_List [{| lb_values := ["us"] |}] |}] |} in
  let condition := Expr_BinaryOp (Expr_Identifier "kind") BinaryOperator.Equals (Expr_Literal (Literal.String "us")) in
  prune_partitions (Some condition) pm = Ok [3].
Proof. vm_compute. reflexivity. Qed.

Example zero_modulus_panics :
  find_partition_for_value "x" {| parent_oid := 1; strategy := Hash; pm_columns := ["id"];
    partitions := [{| partition_oid := 2; bound := PartitionBound_Hash {| modulus := 0; remainder := 0 |} |}] |} = Panic.
Proof. vm_compute. reflexivity. Qed.

Definition regions : PartitionManager :=
  {| parent_oid := 1; strategy := List; pm_columns := ["region"];
     partitions := [{| partition_oid := 2; bound := PartitionBound_List [{| lb_values := ["eu"] |}] |};
                    {| partition_oid := 3; bound := PartitionBound_List [{| lb_values := ["us"] |}] |}] |}.

Lemma pruning_safe_witness :
  let _ := Ascii_Unicode in
  let desc := Some {| td_fields := [{| att_name := "region"; att_type_oid := 25; att_attnum := 1; att_typmod := -1 |}] |} in
  let condition := Expr_BinaryOp (Expr_Identifier "region") BinaryOperator.Equals (Expr_Literal (Literal.String "us")) in
  exists oids, prune_partitions (Some condition) regions = Ok oids /\ 3 ∈ oids /\ (oids = [3] \/ oids = [2; 3]).
Proof.
  intros u desc condition.
  exact (@pruning_safe u regions "region" condition ["us"] desc "us" {| partition_oid := 3; bound := PartitionBound_List [{| lb_values := ["us"] |}] |}
    eq_refl ltac:(vm_compute; reflexivity) eq_refl ltac:(vm_compute; reflexivity)).
Defined.
