(* ===== verification/Latches.v ===== *)
(** Latches and condition variables ([src/src/concurrency/latch.rs],
    [condition_variable.rs]) as steps of threads: the atomic flag, the waiters that
    spin and those that sleep, and what [tokio]'s [Notify] does for the latter. *)

From S2P Require Import Prelude.

(* ------------------------------------------------------------------ *)
(** ** What the code uses of [tokio::sync::Notify] *)

(** [notified] registers a waiter, [notify_waiters] releases all that are registered
    and [notify_one] one of them, or leaves a permit. *)
Class Notify (N : Type) := {
  notify_new : N;
  notified : nat -> N -> N;
  notify_waiters : N -> N;
  notify_one : N -> N;
  registered : N -> nat -> bool;
}.

(** Its documentation: a waiter that finds no permit is registered, nobody else
    becomes so; [notify_waiters] releases everyone and stores no permit. *)
Class NotifyLaws (N : Type) `{Notify N} (permit : N -> bool) := {
  new_permit : permit notify_new = false;
  new_registered : forall t, registered notify_new t = false;
  notified_self : forall t n, permit n = false -> registered (notified t n) t = true;
  notified_others : forall t u n, u <> t -> registered (notified t n) u = registered n u;
  notified_permit : forall t n, permit n = false -> permit (notified t n) = false;
  waiters_released : forall t n, registered (notify_waiters n) t = false;
  waiters_permit : forall n, permit (notify_waiters n) = permit n;
}.

(* ------------------------------------------------------------------ *)
(** ** A latch *)

(** [Latch]: the [AtomicI32] and the [Notify]. *)
Record Latch (N : Type) := { latch_state : Z; latch_notify : N }.
Arguments Build_Latch {N} _ _.
Arguments latch_state {N} _.
Arguments latch_notify {N} _.

Section latch.
Context {N : Type} `{Notify N}.

Definition Latch_new : Latch N := {| latch_state := 0; latch_notify := notify_new |}.

(** [set] is a store and then a notification; [unset] is a store. *)
Definition latch_store (z : Z) (l : Latch N) : Latch N := {| latch_state := z; latch_notify := latch_notify l |}.
Definition latch_wake (l : Latch N) : Latch N := {| latch_state := latch_state l; latch_notify := notify_waiters (latch_notify l) |}.
Definition latch_set (l : Latch N) : Latch N := latch_wake (latch_store 1 l).
Definition latch_unset (l : Latch N) : Latch N := latch_store 0 l.

Definition is_set (l : Latch N) : bool := negb (latch_state l =? 0).
Definition try_wait (l : Latch N) : bool := is_set l.

(** A clone is a new latch: it does not share the flag. *)
Definition latch_clone (l : Latch N) : Latch N := Latch_new.

(** Where a thread is: in [wait]'s loop; in [async_wait], before the test of the
    flag, behind a test that read 0, or asleep, and the same in [wait] of the condition
    variable; in [set], before the store or before the notification; in [unset]; in
    [notify_one] or [notify_all]; or behind its call. *)
Inductive thread_pc :=
| Spinning | Testing | Registering | Sleeping | CvTesting | CvRegistering | CvSleeping
| Storing | Waking | Unsetting | NotifyingOne | NotifyingAll | Passed.

(** A latch and a condition variable, which is a [Notify], among threads. *)
Record world := { the_latch : Latch N; the_cv : N; threads : gmap nat thread_pc }.

Definition at_pc (w : world) (t : nat) (pc : thread_pc) : Prop := threads w !! t = Some pc.
Definition move (t : nat) (pc : thread_pc) (l : Latch N) (w : world) : world :=
  {| the_latch := l; the_cv := the_cv w; threads := <[t := pc]> (threads w) |}.
Definition move_cv (t : nat) (pc : thread_pc) (cv : N) (w : world) : world :=
  {| the_latch := the_latch w; the_cv := cv; threads := <[t := pc]> (threads w) |}.

Definition with_notify (n : N) (l : Latch N) : Latch N := {| latch_state := latch_state l; latch_notify := n |}.

(** A step of thread [t]. *)
Inductive thread_step (t : nat) (w : world) : world -> Prop :=
| step_spin : at_pc w t Spinning ->
    thread_step t w (move t (if is_set (the_latch w) then Passed else Spinning) (the_latch w) w)
| step_test : at_pc w t Testing ->
    thread_step t w (move t (if is_set (the_latch w) then Passed else Registering) (the_latch w) w)
| step_register : at_pc w t Registering ->
    thread_step t w (move t Sleeping (with_notify (notified t (latch_notify (the_latch w))) (the_latch w)) w)
| step_resume : at_pc w t Sleeping -> registered (latch_notify (the_latch w)) t = false -> thread_step t w (move t Testing (the_latch w) w)
| step_store : at_pc w t Storing -> thread_step t w (move t Waking (latch_store 1 (the_latch w)) w)
| step_wake : at_pc w t Waking -> thread_step t w (move t Passed (latch_wake (the_latch w)) w)
| step_unset : at_pc w t Unsetting -> thread_step t w (move t Passed (latch_unset (the_latch w)) w)
| step_cv_test : at_pc w t CvTesting ->
    thread_step t w (move t (if is_set (the_latch w) then Passed else CvRegistering) (the_latch w) w)
| step_cv_register : at_pc w t CvRegistering -> thread_step t w (move_cv t CvSleeping (notified t (the_cv w)) w)
| step_cv_resume : at_pc w t CvSleeping -> registered (the_cv w) t = false -> thread_step t w (move t CvTesting (the_latch w) w)
| step_notify_one : at_pc w t NotifyingOne -> thread_step t w (move_cv t Passed (notify_one (the_cv w)) w)
| step_notify_all : at_pc w t NotifyingAll -> thread_step t w (move_cv t Passed (notify_waiters (the_cv w)) w).

Inductive run_of : world -> world -> Prop :=
| run_refl w : run_of w w
| run_step w w' w'' t : run_of w w' -> thread_step t w' w'' -> run_of w w''.

(** No thread is about to unset the latch. *)
Definition no_unset (w : world) : Prop := forall t, ~ at_pc w t Unsetting.

Lemma at_move w t pc l u pc' : at_pc (move t pc l w) u pc' <-> (u = t /\ pc' = pc) \/ (u <> t /\ at_pc w u pc').
Proof.
  unfold at_pc, move. cbn. destruct (decide (u = t)) as [->|Hne].
  - rewrite lookup_insert_eq. naive_solver.
  - rewrite lookup_insert_ne by done. naive_solver.
Qed.

Lemma at_move_cv w t pc n u pc' : at_pc (move_cv t pc n w) u pc' <-> (u = t /\ pc' = pc) \/ (u <> t /\ at_pc w u pc').
Proof. apply (at_move w t pc (the_latch w)). Qed.

(** A thread that is about to unset was so before. *)
Lemma step_no_unset t w w' : thread_step t w w' -> no_unset w -> no_unset w'.
Proof.
  intros Hs Hn u. destruct Hs; rewrite ?at_move, ?at_move_cv; intros [[-> E]|[Hne E]]; try done; try (by apply (Hn u)); by destruct (is_set _).
Qed.

(** A set latch stays set when nobody unsets it. *)
Lemma step_stays_set t w w' : thread_step t w w' -> no_unset w -> is_set (the_latch w) = true -> is_set (the_latch w') = true.
Proof. intros Hs Hn Hset. destruct Hs as [| | | | | |Hu| | | | |]; try done. by destruct (Hn t). Qed.

Lemma step_other t w w' u pc : thread_step t w w' -> u <> t -> at_pc w' u pc <-> at_pc w u pc.
Proof. intros Hs Hne. destruct Hs; rewrite ?at_move, ?at_move_cv; naive_solver. Qed.

Lemma step_spinning t w w' : thread_step t w w' -> at_pc w t Spinning -> is_set (the_latch w) = true -> at_pc w' t Passed.
Proof.
  intros Hs Ht Hset. destruct Hs as [H1|H1|H1|H1|H1|H1|H1|H1|H1|H1|H1|H1]; unfold at_pc in *; rewrite Ht in H1; try discriminate.
  rewrite Hset. apply at_move. by left.
Qed.

(** A thread behind its call stays there. *)
Lemma step_passed t w w' u : thread_step t w w' -> at_pc w u Passed -> at_pc w' u Passed.
Proof.
  intros Hs Hu. destruct (decide (u = t)) as [->|Hne]; [|by rewrite step_other].
  exfalso. destruct Hs as [H1|H1|H1|H1|H1|H1|H1|H1|H1|H1|H1|H1]; unfold at_pc in *; rewrite Hu in H1; discriminate.
Qed.

(* ---------------------------------------------------------------- *)
(** ** Spinning waiters pass *)

(** A run without end: who steps at each moment, if anyone does, and weak fairness to
    a thread in [wait]. *)
Definition moment (who : option nat) (w w' : world) : Prop := match who with Some t => thread_step t w w' | None => w' = w end.
Definition execution (e : nat -> world) (who : nat -> option nat) : Prop := forall n, moment (who n) (e n) (e (S n)).
Definition fair_to (t : nat) (e : nat -> world) (who : nat -> option nat) : Prop :=
  forall n, exists m, (n <= m)%nat /\ (who m = Some t \/ ~ at_pc (e m) t Spinning).

Lemma execution_set e who n m :
  execution e who -> no_unset (e n) -> is_set (the_latch (e n)) = true -> (n <= m)%nat ->
  no_unset (e m) /\ is_set (the_latch (e m)) = true.
Proof.
  intros He Hn Hset Hle. induction Hle as [|m Hle [IH1 IH2]]; [done|].
  specialize (He m). destruct (who m) as [u|]; cbn in He; [|by rewrite He].
  split; [by apply (step_no_unset u (e m))|by apply (step_stays_set u (e m))].
Qed.

(** In [wait] a thread is at its loop until it has passed. *)
Lemma spinning_or_passed e who n m t :
  execution e who -> at_pc (e n) t Spinning -> (n <= m)%nat -> at_pc (e m) t Spinning \/ at_pc (e m) t Passed.
Proof.
  intros He Ht Hle. induction Hle as [|m Hle IH]; [by left|]. specialize (He m).
  destruct (who m) as [u|]; cbn in He; [|by rewrite He].
  destruct (decide (t = u)) as [->|Hne]; [|by rewrite !(step_other _ _ _ _ _ He Hne)].
  destruct IH as [Hs|Hp]; [|right; by apply (step_passed _ _ _ _ He)].
  destruct He as [H1|H1|H1|H1|H1|H1|H1|H1|H1|H1|H1|H1]; unfold at_pc in *; rewrite Hs in H1; try discriminate.
  cbn. rewrite lookup_insert_eq. destruct (is_set _); auto.
Qed.

(** C30. Every thread in [wait] on a latch that has been set, and that nobody is about to
    unset, passes, as long as the scheduler lets it run now and then. *)
Theorem spin_wait_passes e who t n :
  execution e who -> fair_to t e who -> at_pc (e n) t Spinning ->
  is_set (the_latch (e n)) = true -> no_unset (e n) ->
  exists m, (n <= m)%nat /\ at_pc (e m) t Passed.
Proof.
  intros He Hfair Ht Hset Hn. destruct (Hfair n) as (m & Hle & Hm). destruct (execution_set e who n m He Hn Hset Hle) as [Hnm Hsm].
  destruct (spinning_or_passed e who n m t He Ht Hle) as [Hs|Hp]; [|eauto]. destruct Hm as [Hw|Hm]; [|done].
  exists (S m). split; [lia|]. specialize (He m). rewrite Hw in He. by apply (step_spinning t (e m)).
Qed.

(* ---------------------------------------------------------------- *)
(** ** Sleeping waiters may not *)

Context (permit : N -> bool) `{!NotifyLaws N permit}.

(** Nobody is going to notify the sleepers of the latch. *)
Definition no_waker (w : world) : Prop := forall t, ~ at_pc w t Storing /\ ~ at_pc w t Waking.

Lemma step_no_waker t w w' : thread_step t w w' -> no_waker w -> no_waker w'.
Proof.
  intros Hs Hn u. pose proof (Hn u) as Hu. pose proof (Hn t) as Ht.
  destruct Hs as [H1|H1|H1|H1|H1|H1|H1|H1|H1|H1|H1|H1]; rewrite ?at_move, ?at_move_cv; try (destruct (is_set _)); naive_solver.
Qed.

(** A thread asleep, registered, with nobody to notify it, sleeps for ever. *)
Lemma asleep_for_ever w w' t :
  run_of w w' -> no_waker w -> at_pc w t Sleeping -> registered (latch_notify (the_latch w)) t = true -> at_pc w' t Sleeping.
Proof.
  intros Hr Hn Ht Hreg.
  enough (no_waker w' /\ at_pc w' t Sleeping /\ registered (latch_notify (the_latch w')) t = true) by naive_solver.
  induction Hr as [|w w' w'' u Hr IH Hs]; [done|]. destruct IH as (Hn' & Ht' & Hreg'); [done..|].
  split; [by apply (step_no_waker u w')|]. destruct (decide (t = u)) as [<-|Hne].
  - exfalso. destruct Hs as [H1|H1|H1|H1|H1|H1|H1|H1|H1|H1|H1|H1]; unfold at_pc in *; rewrite Ht' in H1; try discriminate. congruence.
  - split; [by rewrite (step_other _ _ _ _ _ Hs Hne)|]. destruct Hs as [H1|H1|H1|H1|H1|H1|H1|H1|H1|H1|H1|H1]; try done.
    + cbn. by rewrite notified_others.
    + by destruct (Hn' u).
Qed.

(** One thread in [async_wait], another about to set the latch. *)
Definition waiter_and_setter : world :=
  {| the_latch := Latch_new; the_cv := notify_new; threads := <[0%nat := Testing]> (<[1%nat := Storing]> ∅) |}.

(** C31. A waiter that has read 0 and has not yet gone to sleep misses the notification of
    [set]: there is a run after which the latch is set and nobody will unset it, and
    the waiter sleeps for ever. *)
Theorem async_wait_loses_wakeup :
  exists w, run_of waiter_and_setter w /\ is_set (the_latch w) = true /\ no_unset w /\
    forall w', run_of w w' -> at_pc w' 0 Sleeping.
Proof.
  set (w0 := waiter_and_setter). set (w1 := move 0 Registering (the_latch w0) w0).
  set (w2 := move 1 Waking (latch_store 1 (the_latch w1)) w1). set (w3 := move 1 Passed (latch_wake (the_latch w2)) w2).
  set (w4 := move 0 Sleeping (with_notify (notified 0 (latch_notify (the_latch w3))) (the_latch w3)) w3).
  exists w4. split_and!.
  - apply (run_step _ w3 _ 0%nat); [|by apply step_register]. apply (run_step _ w2 _ 1%nat); [|by apply step_wake].
    apply (run_step _ w1 _ 1%nat); [|by apply step_store]. apply (run_step _ w0 _ 0%nat); [constructor|]. by apply step_test.
  - done.
  - intros t. unfold w4, w3, w2, w1, w0. rewrite !at_move. unfold at_pc. cbn. rewrite !lookup_insert, lookup_empty. repeat case_decide; naive_solver.
  - intros w' Hr. apply (asleep_for_ever w4 w'); [done| |by apply at_move; left|].
    + intros t. unfold w4, w3, w2, w1, w0. rewrite !at_move. unfold at_pc. cbn. rewrite !lookup_insert, lookup_empty. repeat case_decide; naive_solver.
    + cbn. apply notified_self. by rewrite waiters_permit, new_permit.
Qed.

End latch.
Arguments world N : clear implicits.

(* ------------------------------------------------------------------ *)
(** ** A [Notify] *)

(** The registered waiters and the permit. *)
#[export] Instance set_notify : Notify (gset nat * bool) := {
  notify_new := (∅, false);
  notified t n := if n.2 then (n.1, false) else ({[t]} ∪ n.1, n.2);
  notify_waiters n := (∅, n.2);
  notify_one n := match elements n.1 with t :: _ => (n.1 ∖ {[t]}, n.2) | [] => (n.1, true) end;
  registered n t := bool_decide (t ∈ n.1);
}.

#[export] Instance set_notify_laws : NotifyLaws (gset nat * bool) snd.
Proof.
  split; cbn; try done.
  - intros t [s p] Hp. cbn in *. subst. cbn. apply bool_decide_eq_true. set_solver.
  - intros t u [s []] Hne; cbn; apply bool_decide_ext; set_solver.
  - intros t [s []]; [done|]. done.
Qed.

(** One thread that waits for a latch that is set. *)
Definition waits_for_set : world (gset nat * bool) :=
  {| the_latch := latch_set Latch_new; the_cv := notify_new; threads := {[0%nat := Spinning]} |}.

Lemma spin_wait_passes_witness :
  exists m, (0 <= m)%nat /\ at_pc ((fun n => match n with O => waits_for_set | S _ => move 0 Passed (the_latch waits_for_set) waits_for_set end) m) 0 Passed.
Proof.
  apply (spin_wait_passes (fun n => match n with O => waits_for_set | S _ => move 0 Passed (the_latch waits_for_set) waits_for_set end)
           (fun n => match n with O => Some 0%nat | S _ => None end) 0 0).
  - intros [|n]; [|done]. exact (step_spin 0 waits_for_set eq_refl).
  - intros n. exists (S n). split; [lia|]. right. intros Hs. discriminate Hs.
  - reflexivity.
  - reflexivity.
  - intros t Ht. unfold at_pc, waits_for_set in Ht. cbn in Ht. by apply lookup_singleton_Some in Ht as [_ ?].
Defined.

Lemma async_wait_loses_wakeup_witness :
  exists w : world (gset nat * bool), run_of waiter_and_setter w /\ is_set (the_latch w) = true /\ no_unset w /\
    forall w', run_of w w' -> at_pc w' 0 Sleeping.
Proof. apply (async_wait_loses_wakeup snd). Defined.
