(* ===== verification/Checkpoints.v ===== *)
(** Checkpoints and the background writer ([BgWriter] and [Checkpointer] in
    [src/src/buffer_cache/mod.rs]) over the cache of BufferPool.v and the log of
    Wal.v. Their tasks run rounds for ever; a round is modelled, the timer is not. *)

From Stdlib Require Import SpecFloat.
From S2P Require Import Prelude Types SqlText Float64 Storage BufferPool Wal.

(* ------------------------------------------------------------------ *)
(** ** Checkpoints *)

Record CheckpointState := { redo_lsn : Z }.

Definition CheckpointState_new : CheckpointState := {| redo_lsn := 0 |}.
Definition get_redo_lsn (st : CheckpointState) : Z := redo_lsn st.

(** What a checkpointer has hold of. *)
Record Checkpointer (S : Type) := { ck_cache : SharedBufferCache S; ck_wal : WAL; ck_state : CheckpointState }.
Arguments Build_Checkpointer {S} _ _ _.
Arguments ck_cache {S} _.
Arguments ck_wal {S} _.
Arguments ck_state {S} _.

Definition Checkpointer_new {S} (cache : SharedBufferCache S) (wal : WAL) : Checkpointer S :=
  {| ck_cache := cache; ck_wal := wal; ck_state := CheckpointState_new |}.

Section checkpoint.
Context {P : Profile} {S : Type} `{Storage S} (order : gmap PageId nat -> list PageId).

Definition do_checkpoint (c : Checkpointer S) : outcome Z * Checkpointer S :=
  let '(r, cache) := flush_dirty_pages order (ck_cache c) in
  match r with
  | Ok _ =>
      let wal := flush (ck_wal c) in
      let lsn := get_flushed_lsn wal in
      (Ok lsn, {| ck_cache := cache; ck_wal := wal; ck_state := {| redo_lsn := lsn |} |})
  | Err e => (Err e, {| ck_cache := cache; ck_wal := ck_wal c; ck_state := ck_state c |})
  | Panic => (Panic, {| ck_cache := cache; ck_wal := ck_wal c; ck_state := ck_state c |})
  end.

(** A round of [start_periodic]: a failed checkpoint is logged and the next is
    tried. *)
Definition periodic_round (c : Checkpointer S) : option (Checkpointer S) :=
  match do_checkpoint c with (Panic, _) => None | (_, c) => Some c end.

(* ------------------------------------------------------------------ *)
(** ** The background writer *)

Record BgWriterConfig := { lru_multiplier : f64; flush_after : Z; delay_ms : Z; max_written : Z }.

Definition BgWriterConfig_default : BgWriterConfig :=
  {| lru_multiplier := f_of_Z 2; flush_after := 512 * 1024; delay_ms := 200; max_written := 128 |}.

Record BgWriter := { newly_dirtied : Z; bytes_written : Z }.

Definition BgWriter_new : BgWriter := {| newly_dirtied := 0; bytes_written := 0 |}.

Definition notify_dirty (b : BgWriter) : outcome BgWriter :=
  n ← add_w 64 (newly_dirtied b) 1; Ok {| newly_dirtied := n; bytes_written := bytes_written b |}.

(** [as usize] of a double: towards zero, within the range. *)
Definition f_to_usize (x : f64) : Z :=
  match x with
  | S754_finite false m e => Z.min (Z.shiftl (Z.pos m) e) (2 ^ 64 - 1)
  | S754_infinity false => 2 ^ 64 - 1
  | _ => 0
  end.

Definition bg_target (cfg : BgWriterConfig) (b : BgWriter) : Z :=
  Z.min (f_to_usize (f_mul (f_of_Z (newly_dirtied b)) (lru_multiplier cfg))) (max_written cfg).

(** A round of the loop in [start]. *)
Definition bg_round (cfg : BgWriterConfig) (b : BgWriter) (cache : SharedBufferCache S) : outcome BgWriter * SharedBufferCache S :=
  let target := bg_target cfg b in
  let b := {| newly_dirtied := 0; bytes_written := bytes_written b |} in
  if target =? 0 then (Ok b, cache)
  else
    let '(r, cache) := flush_dirty_pages order cache in
    let r := match r with
             | Ok n => m ← mul_w 64 n 8192; add_w 64 (bytes_written b) m
             | Err _ => Ok (bytes_written b)
             | Panic => Panic
             end in
    match r with
    | Ok bytes =>
        if flush_after cfg <=? bytes then
          (match sync_all (cache_storage cache) with
           | Panic => Panic
           | _ => Ok {| newly_dirtied := 0; bytes_written := 0 |}
           end, cache)
        else (Ok {| newly_dirtied := 0; bytes_written := bytes |}, cache)
    | Err e => (Err e, cache)
    | Panic => (Panic, cache)
    end.

(** The rounds of the task that [start] spawns, on a writer that nobody else has. *)
Fixpoint bg_rounds (n : nat) (cfg : BgWriterConfig) (b : BgWriter) (cache : SharedBufferCache S) : outcome BgWriter * SharedBufferCache S :=
  match n with
  | O => (Ok b, cache)
  | Datatypes.S n =>
      let '(r, cache) := bg_round cfg b cache in
      match r with Ok b => bg_rounds n cfg b cache | _ => (r, cache) end
  end.
End checkpoint.

(* ------------------------------------------------------------------ *)
(** ** Lemmas *)

Section proofs.
Context {P : Profile} {S : Type} (psize : nat) (valid : S -> Prop) `{StorageLaws S psize valid}.
Context (order : gmap PageId nat -> list PageId) (order_perm : forall m : gmap PageId nat, order m ≡ₚ (map_to_list m).*1).

Definition cache_coherent (c : SharedBufferCache S) : Prop :=
  coherent psize valid (cache_storage c) (cache_pool c) /\ dirty_mapped (fun _ => False) (cache_pool c).

(** What a client of the cache reads. *)
Definition cache_view (c : SharedBufferCache S) (q : PageId) : outcome bytes := view (cache_storage c) (cache_pool c) q.

(** The loop ends well, shows clients the same pages, keeps the relation table, and
    leaves dirty only slots that were, of pages it was not given. *)
Lemma flush_dirty_from_ok map pids n c :
  cache_coherent c -> page_map (cache_pool c) = map -> (forall pid, pid ∈ pids -> is_Some (map !! pid)) ->
  exists n' c', flush_dirty_from map pids n c = (Ok n', c') /\ n <= n' <= n + zlen pids /\ cache_coherent c' /\
    cache_rels c' = cache_rels c /\ page_map (cache_pool c') = map /\ (forall q, is_u32 q -> cache_view c' q = cache_view c q) /\
    forall idx b, buffers (cache_pool c') !! idx = Some b -> buf_dirty b = true ->
      buffers (cache_pool c) !! idx = Some b /\ buf_page_id b ∉ pids.
Proof.
  revert n c. induction pids as [|pid pids IH]; intros n c Hc Hmap Hpids; cbn [flush_dirty_from].
  { exists n, c. split_and!; try done; try lia. set_solver. }
  destruct (Hpids pid ltac:(left)) as [i Hi]. rewrite Hi. destruct Hc as [Hco Hd].
  destruct (coh_map _ _ _ _ Hco pid i ltac:(by rewrite Hmap)) as (b & Hb & Hid & _). rewrite Hb. cbn [fmap option_fmap option_map].
  destruct (buf_dirty b) eqn:Eb.
  - destruct (flush_page_ok psize valid _ _ pid Hco Hd) as (s' & p' & -> & Hco' & Hd' & Hv' & Hm' & Hcl).
    destruct (IH (n + 1) (with_cache c s' p')) as (n' & c' & -> & Hn & Hc' & Hrels & Hm2 & Hv2 & Hcl2);
      [done|cbn; congruence|set_solver|]. cbn [length].
    exists n', c'. split_and!; try done; try lia.
    + intros q Hq. rewrite Hv2 by done. by apply Hv'.
    + intros idx b' Hb' Hdb. destruct (Hcl2 idx b' Hb' Hdb) as [Hb1 Hn1]. destruct (Hcl idx b' Hb1 Hdb) as [Hb2 Hn2]. set_solver.
  - destruct (IH n c) as (n' & c' & -> & Hn & Hc' & Hrels & Hm2 & Hv2 & Hcl2); [done|done|set_solver|]. cbn [length].
    exists n', c'. split_and!; try done; try lia. intros idx b' Hb' Hdb. destruct (Hcl2 idx b' Hb' Hdb) as [Hb1 Hn1]. split; [done|].
    intros [Hpid|]%elem_of_cons; [|done]. assert (page_map (cache_pool c) !! buf_page_id b' = Some idx) as Hix by (apply (Hd idx b'); tauto).
    rewrite Hmap, Hpid, Hi in Hix. injection Hix as ->. congruence.
Qed.

Lemma flush_dirty_pages_ok c :
  cache_coherent c ->
  exists n c', flush_dirty_pages order c = (Ok n, c') /\ 0 <= n <= zlen (order (page_map (cache_pool c))) /\ cache_coherent c' /\
    cache_rels c' = cache_rels c /\ dirty_count (cache_pool c') = 0%nat /\
    forall q, is_u32 q -> read_page (cache_storage c') q = cache_view c q /\ cache_view c' q = cache_view c q.
Proof.
  intros Hc. unfold flush_dirty_pages.
  destruct (flush_dirty_from_ok (page_map (cache_pool c)) (order (page_map (cache_pool c))) 0 c Hc eq_refl)
    as (n & c' & -> & Hn & Hc' & Hrels & Hm & Hv & Hcl).
  { intros pid. rewrite order_perm. intros ([q i] & -> & Hq%elem_of_map_to_list)%list_elem_of_fmap. eauto. }
  assert (Hclean : forall idx b, buffers (cache_pool c') !! idx = Some b -> buf_dirty b = false).
  { intros idx b Hb. apply not_true_is_false. intros Hdb. destruct (Hcl _ _ Hb Hdb) as [Hb0 Hni]. apply Hni.
    rewrite order_perm. apply list_elem_of_fmap. exists (buf_page_id b, idx). split; [done|].
    apply elem_of_map_to_list. apply (proj2 Hc idx b); tauto. }
  exists n, c'. split_and!; try done; try lia.
  - unfold dirty_count. enough (List.filter buf_dirty (buffers (cache_pool c')) = []) as -> by done.
    assert (Hall : Forall (fun b => buf_dirty b = false) (buffers (cache_pool c'))).
    { apply Forall_forall. intros b [i Hi]%list_elem_of_lookup. eauto. }
    clear -Hall. induction Hall as [|b bs Hb _ IH]; [done|]. cbn. by rewrite Hb.
  - intros q Hq. split; [|by apply Hv]. rewrite <- Hv by done. unfold cache_view, view, slot_data.
    destruct (page_map (cache_pool c') !! q) as [idx|] eqn:E; [|done].
    destruct (coh_map _ _ _ _ (proj1 Hc') _ _ E) as (b & Hb & _ & _ & _ & Hr). rewrite Hb. apply Hr. eauto.
Qed.

(** C23. A checkpoint of a coherent cache succeeds. Afterwards no buffer is dirty, the
    store holds every page as clients of the cache saw it before and still see it,
    the log is flushed up to its end, and the redo point is that end: nothing that was
    logged before the checkpoint is behind it. *)
Theorem checkpoint_spec c :
  cache_coherent (ck_cache c) ->
  exists c', do_checkpoint order c = (Ok (current_lsn (ck_wal c)), c') /\
    cache_coherent (ck_cache c') /\ dirty_count (cache_pool (ck_cache c')) = 0%nat /\
    (forall q, is_u32 q -> read_page (cache_storage (ck_cache c')) q = cache_view (ck_cache c) q /\
                           cache_view (ck_cache c') q = cache_view (ck_cache c) q) /\
    get_redo_lsn (ck_state c') = current_lsn (ck_wal c) /\ get_flushed_lsn (ck_wal c') = current_lsn (ck_wal c') /\
    current_lsn (ck_wal c') = current_lsn (ck_wal c) /\ wal_storage (ck_wal c') = wal_storage (ck_wal c).
Proof.
  intros Hc. destruct (flush_dirty_pages_ok (ck_cache c) Hc) as (n & cache & E & _ & Hc' & _ & Hd & Hr).
  unfold do_checkpoint. rewrite E. eexists. split; [done|]. by split_and!.
Qed.
End proofs.

(** The counter of a writer that [start] has made is not reached by anyone else, so
    every round finds 0 and writes nothing, whatever the configuration and the cache. *)
Theorem bgwriter_never_writes {P : Profile} {S} `{Storage S} order n cfg (cache : SharedBufferCache S) :
  0 <= max_written cfg -> bg_rounds order n cfg BgWriter_new cache = (Ok BgWriter_new, cache).
Proof.
  intros Hmax. induction n as [|n IH]; [done|]. cbn [bg_rounds].
  assert (Ht : bg_target cfg BgWriter_new = 0).
  { unfold bg_target. cbn [BgWriter_new newly_dirtied]. change (f_of_Z 0) with (S754_zero false).
    assert (E : f_to_usize (f_mul (S754_zero false) (lru_multiplier cfg)) = 0) by (by destruct (lru_multiplier cfg)).
    rewrite E. lia. }
  unfold bg_round. rewrite Ht. cbn [Z.eqb newly_dirtied bytes_written BgWriter_new]. exact IH.
Qed.

Lemma bgwriter_never_writes_witness :
  let _ := debug_profile in
  bg_rounds (fun m => (map_to_list m).*1) 3 BgWriterConfig_default BgWriter_new (SharedBufferCache_new EphemeralStorage_new) =
    (Ok BgWriter_new, SharedBufferCache_new EphemeralStorage_new).
Proof. intros p. apply bgwriter_never_writes. cbn. lia. Defined.

(** A cache with one page changed since it was read, and a log of some length. *)
Definition dirty_cache : SharedBufferCache EphemeralStorage := with_cache (SharedBufferCache_new numbered_store) numbered_store one_dirty.

Lemma dirty_cache_coherent : cache_coherent 1 (fun _ => True) dirty_cache.
Proof.
  split; cbn.
  - split; [split; [reflexivity|cbn; lia]|exact I|]. intros pid idx Hm.
    change (({[1 := 0%nat]} : gmap PageId nat) !! pid = Some idx) in Hm.
    apply lookup_singleton_Some in Hm as [<- <-]. eexists. split; [reflexivity|]. split; [reflexivity|].
    split; [vm_compute; split; [discriminate|reflexivity]|]. split; [reflexivity|]. discriminate.
  - intros [|idx] b Hb _ _; [|done]. cbn in Hb. injection Hb as <-. reflexivity.
Qed.

Lemma checkpoint_spec_witness :
  let _ := debug_profile in
  exists c', do_checkpoint (fun m => (map_to_list m).*1) (Checkpointer_new dirty_cache (with_current_lsn (WAL_new 8192) 40)) = (Ok 40, c') /\
    dirty_count (cache_pool (ck_cache c')) = 0%nat /\ read_page (cache_storage (ck_cache c')) 1 = Ok [7] /\ get_redo_lsn (ck_state c') = 40.
Proof.
  intros p.
  destruct (checkpoint_spec 1 (fun _ => True) (fun m => (map_to_list m).*1) (fun m => Permutation_refl _)
              (Checkpointer_new dirty_cache (with_current_lsn (WAL_new 8192) 40)) dirty_cache_coherent) as (c' & E & _ & Hd & Hr & Hl & _).
  exists c'. split; [exact E|]. split; [exact Hd|]. split; [|exact Hl].
  refine (eq_trans (proj1 (Hr 1 _)) _); [vm_compute; split; [discriminate|reflexivity]|vm_compute; reflexivity].
Defined.
