(* ===== verification/RowSecurity.v ===== *)
(** Row level security ([src/src/security/rls.rs]) and the audit log
    ([src/src/security/auditing.rs]). No other file of the program calls them. *)

From S2P Require Import Prelude Types SqlText Ast Eval.

(* ------------------------------------------------------------------ *)
(** ** Policies *)

Inductive PolicyCommand := All | Select | Insert | Update | Delete.
Inductive PolicyPermissive := Permissive | Restrictive.

#[export] Instance PolicyCommand_eq_dec : EqDecision PolicyCommand.
Proof. solve_decision. Defined.

Record Policy := {
  policy_name : string;
  pol_table_oid : Oid;
  pol_command : PolicyCommand;
  permissive : PolicyPermissive;
  pol_roles : list string;
  using_expr : option Expr;
  check_expr : option Expr;
}.

Definition Policy_new (name : string) (table_oid : Oid) (command : PolicyCommand) : Policy :=
  {| policy_name := name; pol_table_oid := table_oid; pol_command := command; permissive := Permissive; pol_roles := [];
     using_expr := None; check_expr := None |}.

Definition with_roles (p : Policy) (roles : list string) : Policy :=
  {| policy_name := policy_name p; pol_table_oid := pol_table_oid p; pol_command := pol_command p; permissive := permissive p;
     pol_roles := roles; using_expr := using_expr p; check_expr := check_expr p |}.
Definition with_using (p : Policy) (e : Expr) : Policy :=
  {| policy_name := policy_name p; pol_table_oid := pol_table_oid p; pol_command := pol_command p; permissive := permissive p;
     pol_roles := pol_roles p; using_expr := Some e; check_expr := check_expr p |}.
Definition with_check (p : Policy) (e : Expr) : Policy :=
  {| policy_name := policy_name p; pol_table_oid := pol_table_oid p; pol_command := pol_command p; permissive := permissive p;
     pol_roles := pol_roles p; using_expr := using_expr p; check_expr := Some e |}.

Definition applies_to_command (cmd : PolicyCommand) (p : Policy) : bool := bool_decide (pol_command p = All) || bool_decide (pol_command p = cmd).
Definition applies_to_role (role : string) (p : Policy) : bool := bool_decide (pol_roles p = []) || existsb (fun r => String.eqb r role) (pol_roles p).

Record RlsFilter := { policies : list Policy; rls_command : PolicyCommand }.

Definition RlsFilter_new (command : PolicyCommand) : RlsFilter := {| policies := []; rls_command := command |}.
Definition add_policy (p : Policy) (f : RlsFilter) : RlsFilter :=
  if applies_to_command (rls_command f) p then {| policies := policies f ++ [p]; rls_command := rls_command f |} else f.
Definition has_policies (f : RlsFilter) : bool := negb (bool_decide (length (policies f) = 0%nat)).
Definition get_using_expressions (f : RlsFilter) : list Expr := omap using_expr (policies f).
Definition get_check_expressions (f : RlsFilter) : list Expr := omap check_expr (policies f).

Definition combine_using_expressions (f : RlsFilter) : option Expr :=
  match get_using_expressions f with
  | [] => None
  | e :: es => Some (foldl (fun result e => Expr_BinaryOp result BinaryOperator.And e) e es)
  end.

(* ------------------------------------------------------------------ *)
(** ** The rows that policies let through *)

Section rows.
Context `{Unicode}.

(** The value is a boolean: the text true or false. *)
Definition boolean_on (row : Row) (desc : option TupleDesc) (e : Expr) : Prop :=
  exists b, evaluate_expr e row desc = Some (bool_text b).

Lemma is_true_bool b : is_true (Some (bool_text b)) = b.
Proof. by destruct b. Qed.

Lemma logic_bool f b c : logic f (bool_text b) (bool_text c) = Some (bool_text (f b c)).
Proof. unfold logic. by rewrite !parse_bool_text. Qed.

Lemma combined_value row desc e es :
  boolean_on row desc e -> Forall (boolean_on row desc) es ->
  evaluate_expr (foldl (fun result e => Expr_BinaryOp result BinaryOperator.And e) e es) row desc =
    Some (bool_text (forallb (fun e => evaluate_where e row desc) (e :: es))).
Proof.
  intros He Hes. revert e He. induction Hes as [|e' es [b' Eb'] _ IH]; intros e [b Eb].
  - cbn. unfold evaluate_where. by rewrite Eb, is_true_bool, andb_true_r.
  - cbn [foldl].
    assert (E : evaluate_expr (Expr_BinaryOp e BinaryOperator.And e') row desc = Some (bool_text (b && b'))).
    { cbn [evaluate_expr]. rewrite Eb, Eb'. cbn [mbind option_bind eval_binary]. apply logic_bool. }
    rewrite IH by (by exists (b && b')). cbn [forallb]. unfold evaluate_where. rewrite E, Eb, Eb', !is_true_bool. by rewrite andb_assoc.
Qed.

(** The policies of a filter are those that were added for its command, or for all,
    in order. When their conditions are boolean on a row, the combined condition lets
    the row through exactly when every one of them does, permissive ones included,
    and whatever roles they are for; without a condition there is none. *)
Theorem combine_using_spec command added row desc :
  let f := foldl (fun f p => add_policy p f) (RlsFilter_new command) added in
  policies f = List.filter (applies_to_command command) added /\
  (combine_using_expressions f = None <-> get_using_expressions f = []) /\
  (Forall (boolean_on row desc) (get_using_expressions f) ->
   forall e, combine_using_expressions f = Some e ->
   evaluate_where e row desc = forallb (fun e => evaluate_where e row desc) (get_using_expressions f)).
Proof.
  assert (Hp : forall f, rls_command f = command ->
    policies (foldl (fun f p => add_policy p f) f added) = policies f ++ List.filter (applies_to_command command) added).
  { induction added as [|p added IH]; intros f Hf; cbn [foldl List.filter]; [by rewrite app_nil_r|]. unfold add_policy at 2. rewrite Hf.
    destruct (applies_to_command command p); rewrite IH by done; cbn; [by rewrite <- app_assoc|done]. }
  intros f. split_and!; [by apply (Hp (RlsFilter_new command))| |].
  - unfold combine_using_expressions. by destruct (get_using_expressions f).
  - intros Hb e. unfold combine_using_expressions. destruct (get_using_expressions f) as [|e0 es]; [done|]. intros [= <-].
    apply Forall_cons in Hb as [He Hes]. unfold evaluate_where at 1. by rewrite combined_value, is_true_bool.
Qed.
End rows.

(** Two permissive policies, each of which admits its own rows, together admit none. *)
Example permissive_policies_restrict :
  let is_one v := Expr_BinaryOp (Expr_Identifier "owner") BinaryOperator.Equals (Expr_Literal (Literal.String v)) in
  let f := foldl (fun f p => add_policy p f) (RlsFilter_new Select)
             [with_using (Policy_new "a" 1 All) (is_one "ana"); with_using (Policy_new "b" 1 Select) (is_one "bob")] in
  let desc := Some {| td_fields := [{| att_name := "owner"; att_type_oid := 25; att_attnum := 1; att_typmod := -1 |}] |} in
  let _ := Ascii_Unicode in
  (fun e => evaluate_where e ["ana"] desc) <$> combine_using_expressions f = Some false.
Proof. vm_compute. reflexivity. Qed.

(* ------------------------------------------------------------------ *)
(** ** The audit log *)

Record AuditLog := {
  timestamp : string;
  user : string;
  database : string;
  statement : string;
  duration : Z;
  rows_affected : option Z;
  connection_id : Z;
  success : bool;
  error_message : option string;
}.

(** The time [Utc::now] gives is an argument. *)
Definition AuditLog_new (now u db stmt : string) (connection : Z) : AuditLog :=
  {| timestamp := now; user := u; database := db; statement := stmt; duration := 0; rows_affected := None;
     connection_id := connection; success := true; error_message := None |}.

Definition with_duration (l : AuditLog) (d : Z) : AuditLog :=
  {| timestamp := timestamp l; user := user l; database := database l; statement := statement l; duration := d;
     rows_affected := rows_affected l; connection_id := connection_id l; success := success l; error_message := error_message l |}.
Definition with_rows (l : AuditLog) (rows : Z) : AuditLog :=
  {| timestamp := timestamp l; user := user l; database := database l; statement := statement l; duration := duration l;
     rows_affected := Some rows; connection_id := connection_id l; success := success l; error_message := error_message l |}.
Definition with_error (l : AuditLog) (msg : string) : AuditLog :=
  {| timestamp := timestamp l; user := user l; database := database l; statement := statement l; duration := duration l;
     rows_affected := rows_affected l; connection_id := connection_id l; success := false; error_message := Some msg |}.

Record AuditLogger := { logs : list AuditLog; enabled : bool }.

Definition with_enabled (on : bool) : AuditLogger := {| logs := []; enabled := on |}.
Definition AuditLogger_new : AuditLogger := with_enabled true.
Definition log_statement (entry : AuditLog) (a : AuditLogger) : AuditLogger :=
  if enabled a then {| logs := logs a ++ [entry]; enabled := enabled a |} else a.
Definition connection_entry (now u addr : string) (connected : bool) : AuditLog :=
  AuditLog_new now u EmptyString ((if connected then "connection from " else "disconnection from ") +:+ addr) 0.
Definition log_connection (now u addr : string) (connected : bool) (a : AuditLogger) : AuditLogger :=
  if enabled a then {| logs := logs a ++ [connection_entry now u addr connected]; enabled := enabled a |} else a.
Definition get_logs (a : AuditLogger) : list AuditLog := logs a.
Definition clear_logs (a : AuditLogger) : AuditLogger := {| logs := []; enabled := enabled a |}.
Definition log_count (a : AuditLogger) : nat := length (logs a).

(** The calls on a logger. *)
Inductive audit_op := LogStatement (entry : AuditLog) | LogConnection (now u addr : string) (connected : bool) | ClearLogs.

Definition run_audit_op (a : AuditLogger) (op : audit_op) : AuditLogger :=
  match op with
  | LogStatement entry => log_statement entry a
  | LogConnection now u addr connected => log_connection now u addr connected a
  | ClearLogs => clear_logs a
  end.

(** What was logged since the last clearing. *)
Definition entry_of (op : audit_op) : option AuditLog :=
  match op with
  | LogStatement entry => Some entry
  | LogConnection now u addr connected => Some (connection_entry now u addr connected)
  | ClearLogs => None
  end.
Definition since_clear (kept : list AuditLog) (op : audit_op) : list AuditLog :=
  match entry_of op with Some e => kept ++ [e] | None => [] end.

(** A logger that is on holds everything that was logged since it was last cleared, in
    order; one that is off holds nothing. *)
Lemma audit_history on ops :
  get_logs (foldl run_audit_op (with_enabled on) ops) = (if on then foldl since_clear [] ops else []).
Proof.
  enough (Hgo : forall a, enabled a = on -> (on = false -> logs a = []) ->
    get_logs (foldl run_audit_op a ops) = if on then foldl since_clear (logs a) ops else []).
  { rewrite Hgo by done. done. }
  induction ops as [|op ops IH]; intros a Ha Hoff; cbn [foldl]; [destruct on; [done|by apply Hoff]|].
  assert (E : enabled (run_audit_op a op) = on /\ logs (run_audit_op a op) = if on then since_clear (logs a) op else []).
  { destruct op; cbn; unfold log_statement, log_connection; rewrite ?Ha; destruct on; cbn; auto. }
  destruct E as [E1 E2]. rewrite IH; [|done|by intros ->]. rewrite E2. by destruct on.
Qed.

Lemma combine_using_spec_witness :
  let u := Ascii_Unicode in
  let yes := Expr_Literal (Literal.Bool true) in
  let added := [with_using (Policy_new "a" 1 All) yes; with_using (Policy_new "b" 1 Insert) yes] in
  let f := foldl (fun f p => add_policy p f) (RlsFilter_new Select) added in
  @evaluate_where u yes [] None = forallb (fun e => @evaluate_where u e [] None) (get_using_expressions f).
Proof.
  intros u yes added f. refine (proj2 (proj2 (@combine_using_spec u Select added [] None)) _ yes eq_refl).
  constructor; [exists true; reflexivity|constructor].
Defined.
