(* ===== verification/Jsonb.v ===== *)
(** JSON values ([src/src/types/jsonb.rs]): conversion from and to [serde_json], access,
    containment, update and deletion by path. No other file of the program calls it. *)

From Stdlib Require Import SpecFloat.
From S2P Require Import Prelude SqlText Float64.

(* ------------------------------------------------------------------ *)
(** ** Values *)

Unset Elimination Schemes.
Inductive JsonbValue :=
| JNull
| JBool (b : bool)
| JNumber (n : f64)
| JString (s : string)
| JArray (items : list JsonbValue)
| JObject (fields : list (string * JsonbValue)).
Set Elimination Schemes.

Lemma JsonbValue_ind (Q : JsonbValue -> Prop) :
  Q JNull -> (forall b, Q (JBool b)) -> (forall n, Q (JNumber n)) -> (forall s, Q (JString s)) ->
  (forall items, Forall Q items -> Q (JArray items)) -> (forall fields, Forall (fun kv => Q kv.2) fields -> Q (JObject fields)) ->
  forall j, Q j.
Proof.
  intros H1 H2 H3 H4 H5 H6. fix IH 1. intros [|b|n|s|items|fields]; [done|done|done|done|apply H5|apply H6].
  - induction items; constructor; auto.
  - induction fields as [|[k v] fields IHf]; constructor; auto.
Qed.

(** [serde_json::Value]: its numbers are its own, a map is the list of its entries in
    the order of its iterator. *)
Inductive JsonValue (JNum : Type) :=
| SNull
| SBool (b : bool)
| SNumber (n : JNum)
| SString (s : string)
| SArray (items : list (JsonValue JNum))
| SObject (entries : list (string * JsonValue JNum)).
Arguments SNull {JNum}.
Arguments SBool {JNum} b.
Arguments SNumber {JNum} n.
Arguments SString {JNum} s.
Arguments SArray {JNum} items.
Arguments SObject {JNum} entries.

(** What the code calls of [serde_json]. *)
Class SerdeJson := {
  JNum : Type;
  as_f64 : JNum -> option f64;
  from_f64 : f64 -> option JNum;
  number_zero : JNum;
  map_collect : list (string * JsonValue JNum) -> list (string * JsonValue JNum);
  serde_from_str : string -> option (JsonValue JNum);
  serde_pretty : JsonValue JNum -> option string;
}.

(** What its text begins with. *)
Inductive json_kind := KObject | KArray | KScalar.

Definition text_kind (s : string) : json_kind :=
  match s with
  | String c _ => if byte_of c =? 123 then KObject else if byte_of c =? 91 then KArray else KScalar
  | EmptyString => KScalar
  end.

Definition serde_kind {N} (v : JsonValue N) : json_kind :=
  match v with SObject _ => KObject | SArray _ => KArray | _ => KScalar end.

Definition is_finite (x : f64) : bool := match x with S754_zero _ | S754_finite _ _ _ => true | _ => false end.

(** A finite [f64] is a number of [serde_json] with that value; a map collected from
    entries whose keys ascend is those entries; a value is printed, and the text of an
    object and of an array begins with its bracket. *)
Class SerdeLaws `{SerdeJson} := {
  finite_number : forall x, is_finite x = true -> exists n, from_f64 x = Some n /\ as_f64 n = Some x;
  collect_ascending : forall l, StronglySorted (fun a b => text_ltb a b = true) l.*1 -> map_collect l = l;
  pretty_kind : forall v, exists s, serde_pretty v = Some s /\ text_kind s = serde_kind v;
}.

Section jsonb.
Context `{SerdeJson}.

Fixpoint from_serde (v : JsonValue JNum) : JsonbValue :=
  match v with
  | SNull => JNull
  | SBool b => JBool b
  | SNumber n => JNumber (default f_zero (as_f64 n))
  | SString s => JString s
  | SArray arr => JArray (map from_serde arr)
  | SObject m => JObject (map (fun kv => (kv.1, from_serde kv.2)) m)
  end.

Fixpoint to_serde (j : JsonbValue) : JsonValue JNum :=
  match j with
  | JNull => SNull
  | JBool b => SBool b
  | JNumber n => SNumber (default number_zero (from_f64 n))
  | JString s => SString s
  | JArray arr => SArray (map to_serde arr)
  | JObject obj => SObject (map_collect (map (fun kv => (kv.1, to_serde kv.2)) obj))
  end.

Definition jsonb_parse (s : string) : option JsonbValue := from_serde <$> serde_from_str s.

Definition to_string_pretty (j : JsonbValue) : string := default "null" (serde_pretty (to_serde j)).

(* ------------------------------------------------------------------ *)
(** ** Access *)

Definition find_field (key : string) (obj : list (string * JsonbValue)) : option (string * JsonbValue) :=
  List.find (fun kv => bool_decide (kv.1 = key)) obj.

Definition jsonb_get (json : JsonbValue) (key : string) : option JsonbValue :=
  match json with JObject obj => snd <$> find_field key obj | _ => None end.

Definition json_text (v : JsonbValue) : string := match v with JString s => s | other => to_string_pretty other end.

Definition jsonb_get_text (json : JsonbValue) (key : string) : option string := json_text <$> jsonb_get json key.

Fixpoint jsonb_path (json : JsonbValue) (path : list string) : option JsonbValue :=
  match path with
  | [] => Some json
  | first :: rest =>
      match json with
      | JObject obj => kv ← find_field first obj; jsonb_path kv.2 rest
      | JArray arr => i ← parse_unsigned 64 first; v ← get i arr; jsonb_path v rest
      | _ => None
      end
  end.

Definition jsonb_path_text (json : JsonbValue) (path : list string) : option string := json_text <$> jsonb_path json path.

Fixpoint jsonb_contains (json other : JsonbValue) : bool :=
  match json, other with
  | JObject a, JObject b =>
      forallb (fun kv => match find_field kv.1 a with Some av => jsonb_contains av.2 kv.2 | None => false end) b
  | JArray a, JArray b => forallb (fun bv => existsb (fun av => jsonb_contains av bv) a) b
  | a, b => bool_decide (to_string_pretty a = to_string_pretty b)
  end.

Definition jsonb_contained_by (json other : JsonbValue) : bool := jsonb_contains other json.

Definition jsonb_exists (json : JsonbValue) (key : string) : bool :=
  match json with JObject obj => existsb (fun kv => bool_decide (kv.1 = key)) obj | _ => false end.
Definition jsonb_exists_any (json : JsonbValue) (keys : list string) : bool := existsb (jsonb_exists json) keys.
Definition jsonb_exists_all (json : JsonbValue) (keys : list string) : bool := forallb (jsonb_exists json) keys.

(* ------------------------------------------------------------------ *)
(** ** Change *)

Fixpoint jsonb_set (json : JsonbValue) (path : list string) (new_val : JsonbValue) : JsonbValue :=
  match path with
  | [] => new_val
  | first :: rest =>
      match json with
      | JObject obj =>
          JObject match position (fun kv => bool_decide (kv.1 = first)) obj with
          | Some pos => alter (fun kv => (kv.1, match rest with [] => new_val | _ => jsonb_set kv.2 rest new_val end)) pos obj
          | None =>
              match rest with
              | [] => obj ++ [(first, new_val)]
              | _ => obj ++ [(first, jsonb_set (JObject []) rest new_val)]
              end
          end
      | JArray arr =>
          let idx := default 0 (parse_unsigned 64 first) in
          JArray (if idx <? zlen arr
            then alter (fun v => match rest with [] => new_val | _ => jsonb_set v rest new_val end) (Z.to_nat idx) arr
            else match rest with
                 | [] => arr ++ [new_val]
                 | _ => arr ++ [jsonb_set (JObject []) rest new_val]
                 end)
      | _ => new_val
      end
  end.

Fixpoint jsonb_delete (json : JsonbValue) (path : list string) : JsonbValue :=
  match path with
  | [] => json
  | first :: rest =>
      match json with
      | JObject obj =>
          match rest with
          | [] => JObject (List.filter (fun kv => negb (bool_decide (kv.1 = first))) obj)
          | _ => JObject (map (fun kv => if bool_decide (kv.1 = first) then (kv.1, jsonb_delete kv.2 rest) else kv) obj)
          end
      | JArray arr =>
          match rest with
          | [] =>
              let idx := default 0 (parse_unsigned 64 first) in
              JArray (snd <$> List.filter (fun iv => negb (iv.1 =? idx)) (imap (fun i v => (Z.of_nat i, v)) arr))
          | _ => JArray (imap (fun i v => if bool_decide (pretty (N.of_nat i) = first) then jsonb_delete v rest else v) arr)
          end
      | other => other
      end
  end.

(* ------------------------------------------------------------------ *)
(** ** Lemmas *)

Lemma find_field_cons key kv obj : find_field key (kv :: obj) = if bool_decide (kv.1 = key) then Some kv else find_field key obj.
Proof. done. Qed.

Lemma find_field_app key obj obj' :
  find_field key (obj ++ obj') = match find_field key obj with Some kv => Some kv | None => find_field key obj' end.
Proof. induction obj as [|kv obj IH]; [done|]. cbn [app]. rewrite !find_field_cons, IH. by case_bool_decide. Qed.

Lemma find_field_key key obj kv : find_field key obj = Some kv -> kv ∈ obj /\ kv.1 = key.
Proof.
  intros E. apply List.find_some in E as [Hin Ek]. split; [by apply list_elem_of_In|]. by apply bool_decide_eq_true in Ek.
Qed.

Lemma find_field_position key obj :
  find_field key obj = position (fun kv => bool_decide (kv.1 = key)) obj ≫= (obj !!.).
Proof.
  induction obj as [|kv obj IH]; [done|]. rewrite find_field_cons, IH. cbn [position].
  case_bool_decide; [done|]. by destruct (position _ _).
Qed.

(** Changing the field of a key changes what is found at that key alone. *)
Lemma find_field_alter f key key' obj pos :
  position (fun kv : string * JsonbValue => bool_decide (kv.1 = key)) obj = Some pos ->
  find_field key' (alter (fun kv => (kv.1, f kv.2)) pos obj)
  = (if bool_decide (key' = key) then fun kv => (kv.1, f kv.2) else id) <$> find_field key' obj.
Proof.
  revert pos. induction obj as [|kv obj IH]; intros pos; cbn [position]; [done|].
  destruct (decide (kv.1 = key)) as [E|E]; [rewrite (bool_decide_true _ E)|rewrite (bool_decide_false _ E)].
  - intros [= <-]. cbn [alter list_alter]. rewrite !find_field_cons. cbn [fst]. rewrite E.
    destruct (decide (key = key')) as [<-|]; [rewrite !bool_decide_true by done; cbn; by rewrite E|].
    rewrite (bool_decide_false (key = key')), (bool_decide_false (key' = key)) by congruence. by destruct (find_field _ _).
  - intros (p & Hp & ->)%fmap_Some. cbn [alter list_alter]. rewrite !find_field_cons. destruct (decide (kv.1 = key')) as [<-|].
    + rewrite bool_decide_true, bool_decide_false by done. done.
    + rewrite bool_decide_false by done. by apply IH.
Qed.

(** Where the path of a [jsonb_set] leads through fields, and through elements that
    exist or follow the last. *)
Fixpoint settable (json : JsonbValue) (path : list string) : bool :=
  match path with
  | [] => true
  | first :: rest =>
      match json with
      | JObject obj => match find_field first obj with Some kv => settable kv.2 rest | None => true end
      | JArray arr =>
          match parse_unsigned 64 first with
          | Some i => match get i arr with Some v => settable v rest | None => i =? zlen arr end
          | None => false
          end
      | _ => false
      end
  end.

Lemma settable_empty path : settable (JObject []) path = true.
Proof. by destruct path. Qed.

Lemma set_rest json rest v : match rest with [] => v | _ => jsonb_set json rest v end = jsonb_set json rest v.
Proof. by destruct rest. Qed.

Lemma parse_unsigned_nonneg w s i : parse_unsigned w s = Some i -> 0 <= i.
Proof.
  unfold parse_unsigned, in_range. intros E.
  assert (E' : exists t, parse_digits t ≫= (fun z => if (0 <=? z) && (z <=? 2 ^ w - 1) then Some z else None) = Some i).
  { destruct s as [|c s]; [done|]. destruct c as [[] [] [] [] [] [] [] []]; eauto. }
  destruct E' as (t & (z & _ & Ez)%bind_Some). case_match eqn:Et; simplify_eq. apply andb_prop in Et as [? _]. lia.
Qed.

Lemma get_alter {A} f i (l : list A) x : get i l = Some x -> get i (alter f (Z.to_nat i) l) = Some (f x).
Proof. rewrite !get_Some. intros [? E]. by rewrite list_lookup_alter_eq, E. Qed.

Lemma jsonb_path_set json path v : settable json path = true -> jsonb_path (jsonb_set json path v) path = Some v.
Proof.
  revert json. induction path as [|first rest IH]; intros json Hs; [done|].
  destruct json as [| | | |arr|obj]; cbn [settable jsonb_set jsonb_path] in *; try done.
  - destruct (parse_unsigned 64 first) as [i|] eqn:Ei; [|done]. cbn.
    pose proof (parse_unsigned_nonneg _ _ _ Ei) as Hi. destruct (get i arr) as [w|] eqn:Ew.
    + pose proof (get_Some_lt _ _ _ Ew). rewrite (proj2 (Z.ltb_lt i (zlen arr))) by lia.
      rewrite (get_alter _ _ _ _ Ew), set_rest. by apply IH.
    + apply Z.eqb_eq in Hs as ->. rewrite Z.ltb_irrefl.
      assert (E : forall w, get (zlen arr) (arr ++ [w]) = Some w).
      { intros w. apply get_Some. split; [lia|]. rewrite Nat2Z.id, lookup_app_r by done. by rewrite Nat.sub_diag. }
      destruct rest; rewrite E; [done|]. apply IH, settable_empty.
  - destruct (position _ obj) as [pos|] eqn:Ep.
    + rewrite (find_field_alter (fun w => match rest with [] => v | _ => jsonb_set w rest v end) _ _ _ _ Ep), bool_decide_true by done.
      rewrite find_field_position, Ep in *. cbn [mbind option_bind] in *.
      destruct (obj !! pos) as [kv|] eqn:Ekv; [cbn; rewrite set_rest; by apply IH|].
      apply position_spec in Ep as (? & ? & _). congruence.
    + assert (E : find_field first obj = None) by (by rewrite find_field_position, Ep).
      rewrite E in *. destruct rest as [|r rest].
      * rewrite find_field_app, E. cbn. by rewrite bool_decide_true.
      * rewrite find_field_app, E. cbn -[jsonb_set jsonb_path]. rewrite bool_decide_true by done. apply IH. done.
Qed.

(** Where the path of a [jsonb_delete] leads through fields alone. *)
Fixpoint through_fields (json : JsonbValue) (path : list string) : bool :=
  match path with
  | [] => false
  | first :: rest =>
      match json with
      | JObject obj =>
          match rest with
          | [] => true
          | _ => match find_field first obj with Some kv => through_fields kv.2 rest | None => true end
          end
      | JArray _ => false
      | _ => true
      end
  end.

Lemma find_field_filter key obj :
  find_field key (List.filter (fun kv => negb (bool_decide (kv.1 = key))) obj) = None.
Proof.
  induction obj as [|kv obj IH]; [done|]. cbn [List.filter]. case_bool_decide; cbn [negb]; [done|].
  by rewrite find_field_cons, bool_decide_false.
Qed.

Lemma find_field_filter_ne key key' obj : key' <> key ->
  find_field key' (List.filter (fun kv => negb (bool_decide (kv.1 = key))) obj) = find_field key' obj.
Proof.
  intros Hne. induction obj as [|kv obj IH]; [done|]. cbn [List.filter]. rewrite find_field_cons.
  destruct (decide (kv.1 = key)) as [E|E].
  - by rewrite (bool_decide_true _ E), E, (bool_decide_false (key = key')).
  - rewrite (bool_decide_false _ E). cbn [negb]. by rewrite find_field_cons, IH.
Qed.

Lemma find_field_map f key key' obj :
  find_field key' (map (fun kv => if bool_decide (kv.1 = key) then (kv.1, f kv.2) else kv) obj)
  = (fun kv => if bool_decide (kv.1 = key) then (kv.1, f kv.2) else kv) <$> find_field key' obj.
Proof.
  induction obj as [|kv obj IH]; [done|]. cbn [map]. rewrite !find_field_cons, IH.
  destruct (decide (kv.1 = key)) as [E|E]; [rewrite (bool_decide_true _ E)|rewrite (bool_decide_false _ E)]; cbn [fst].
  - case_bool_decide; [|done]. cbn. by rewrite bool_decide_true.
  - case_bool_decide; [|done]. cbn. by rewrite bool_decide_false.
Qed.

Lemma jsonb_path_delete json path : through_fields json path = true -> jsonb_path (jsonb_delete json path) path = None.
Proof.
  revert json. induction path as [|first rest IH]; intros json Ht; [done|].
  destruct json as [| | | | |obj]; cbn [through_fields jsonb_delete jsonb_path] in *; try done.
  destruct rest as [|r rest]; [by rewrite find_field_filter|].
  rewrite (find_field_map (fun v => jsonb_delete v (r :: rest))).
  destruct (find_field first obj) as [kv|] eqn:E; [|done].
  apply find_field_key in E as [_ E]. cbn. rewrite bool_decide_true by done. by apply IH.
Qed.

(** Deleting an element by its index, which is 0 for a text that is no number. *)
Lemma delete_element first arr :
  jsonb_delete (JArray arr) [first] = JArray (remove_at (Z.to_nat (default 0 (parse_unsigned 64 first))) arr).
Proof.
  cbn. f_equal. set (idx := default 0 (parse_unsigned 64 first)).
  assert (Hidx : 0 <= idx).
  { subst idx. destruct (parse_unsigned 64 first) eqn:E; cbn; [by eapply parse_unsigned_nonneg|lia]. }
  generalize dependent idx. clear first. intros idx Hidx. unfold remove_at.
  assert (Hg : forall (l : list JsonbValue) (k : nat),
    snd <$> List.filter (fun iv : Z * JsonbValue => negb (iv.1 =? idx)) (imap (fun i v => (Z.of_nat (k + i), v)) l)
    = take (Z.to_nat idx - k) l ++ drop (if (Z.of_nat k <=? idx) then S (Z.to_nat idx - k) else 0) l).
  { induction l as [|v l IH]; intros k; [by destruct (Z.of_nat k <=? idx), (Z.to_nat idx - k)%nat|].
    cbn [imap List.filter fst]. rewrite Nat.add_0_r.
    assert (E : imap ((fun i w => (Z.of_nat (k + i), w)) ∘ S) l = imap (fun i w => (Z.of_nat (S k + i), w)) l).
    { apply imap_ext. intros. cbn. do 2 f_equal. lia. }
    rewrite E. destruct (Z.eqb_spec (Z.of_nat k) idx) as [<-|Hk]; cbn [negb].
    - rewrite IH, Nat2Z.id, Z.leb_refl. rewrite (proj2 (Z.leb_gt (Z.of_nat (S k)) (Z.of_nat k))) by lia.
      replace (k - S k)%nat with 0%nat by lia. by rewrite Nat.sub_diag.
    - cbn [fmap list_fmap]. cbn [snd]. rewrite IH.
      destruct (Z.leb_spec (Z.of_nat (S k)) idx), (Z.leb_spec (Z.of_nat k) idx); try (exfalso; lia).
      + replace (Z.to_nat idx - k)%nat with (S (Z.to_nat idx - S k)) by lia. done.
      + replace (Z.to_nat idx - k)%nat with 0%nat by lia. by replace (Z.to_nat idx - S k)%nat with 0%nat by lia. }
  specialize (Hg arr 0%nat). change (Z.of_nat 0) with 0 in Hg. rewrite Nat.sub_0_r, (proj2 (Z.leb_le 0 idx)) in Hg by lia. exact Hg.
Qed.

(** No object of the value has a key twice. *)
Fixpoint unique_keys (j : JsonbValue) : Prop :=
  match j with
  | JArray arr => foldr (fun v Q => unique_keys v /\ Q) True arr
  | JObject obj => NoDup obj.*1 /\ foldr (fun kv Q => unique_keys kv.2 /\ Q) True obj
  | _ => True
  end.

(** The keys of each object ascend, and each number is finite. *)
Fixpoint canonical (j : JsonbValue) : Prop :=
  match j with
  | JNumber n => is_finite n = true
  | JArray arr => foldr (fun v Q => canonical v /\ Q) True arr
  | JObject obj => StronglySorted (fun a b => text_ltb a b = true) obj.*1 /\ foldr (fun kv Q => canonical kv.2 /\ Q) True obj
  | _ => True
  end.

Lemma foldr_Forall {A} (Q : A -> Prop) l : foldr (fun a R => Q a /\ R) True l <-> Forall Q l.
Proof. induction l; cbn; [done|]. rewrite IHl. split; [by intros []; constructor|by inversion 1]. Qed.

Lemma find_field_here obj kv : NoDup obj.*1 -> kv ∈ obj -> find_field kv.1 obj = Some kv.
Proof.
  induction obj as [|kv' obj IH]; [by intros _ ?%not_elem_of_nil|]. cbn [fmap list_fmap].
  intros [Hn Hd]%NoDup_cons. rewrite find_field_cons. intros [->|Hin]%elem_of_cons; [by rewrite bool_decide_true|].
  rewrite bool_decide_false; [by apply IH|]. intros E. apply Hn. rewrite E. by apply list_elem_of_fmap_2.
Qed.

Lemma contains_refl j : unique_keys j -> jsonb_contains j j = true.
Proof.
  induction j as [|b|n|t|items IH|fields IH] using JsonbValue_ind; cbn -[find_field]; try (intros; by apply bool_decide_eq_true).
  - rewrite foldr_Forall. intros Hu. apply forallb_forall. intros v Hv. apply existsb_exists. exists v. split; [done|].
    apply list_elem_of_In in Hv. rewrite Forall_forall in IH, Hu. auto.
  - intros [Hd Hu]. rewrite foldr_Forall in Hu. apply forallb_forall. intros kv Hkv%list_elem_of_In.
    rewrite find_field_here by done. rewrite Forall_forall in IH, Hu. auto.
Qed.

Lemma finite_roundtrip `{!SerdeLaws} x : is_finite x = true -> default f_zero (as_f64 (default number_zero (from_f64 x))) = x.
Proof. intros (n & -> & E)%finite_number. cbn. by rewrite E. Qed.

Lemma from_to_serde `{!SerdeLaws} j : canonical j -> from_serde (to_serde j) = j.
Proof.
  induction j as [|b|n|t|items IH|fields IH] using JsonbValue_ind; cbn; try done.
  - intros. f_equal. by apply finite_roundtrip.
  - rewrite foldr_Forall. intros Hc. f_equal. rewrite map_map. induction IH as [|v items Hv _ IH']; [done|].
    apply Forall_cons in Hc as [Hv' Hc]. cbn. by rewrite Hv, IH'.
  - intros [Hs Hc]. rewrite foldr_Forall in Hc. rewrite collect_ascending.
    + f_equal. rewrite map_map. clear Hs. induction IH as [|[k v] fields Hv _ IH']; [done|].
      apply Forall_cons in Hc as [Hv' Hc]. cbn in *. by rewrite Hv, IH'.
    + assert (E : (map (fun kv => (kv.1, to_serde kv.2)) fields).*1 = fields.*1) by (rewrite <- list_fmap_compose; done).
      by rewrite E.
Qed.

Definition jsonb_kind (j : JsonbValue) : json_kind := match j with JObject _ => KObject | JArray _ => KArray | _ => KScalar end.

Lemma pretty_same_kind `{!SerdeLaws} a b : to_string_pretty a = to_string_pretty b -> jsonb_kind a = jsonb_kind b.
Proof.
  assert (E : forall j, text_kind (to_string_pretty j) = jsonb_kind j).
  { intros j. unfold to_string_pretty. destruct (pretty_kind (to_serde j)) as (s & -> & E). cbn. rewrite E. by destruct j. }
  intros Hp. by rewrite <- !E, Hp.
Qed.

(** Values that are not both objects or both arrays are compared by their text. *)
Lemma contains_scalar `{!SerdeLaws} a b :
  jsonb_kind a = KScalar \/ jsonb_kind b = KScalar ->
  jsonb_contains a b = true <-> to_string_pretty a = to_string_pretty b.
Proof. destruct a, b; cbn -[to_string_pretty]; intros [?|?]; try done; by rewrite bool_decide_eq_true. Qed.

Lemma contains_kind `{!SerdeLaws} a b : jsonb_contains a b = true -> jsonb_kind a = jsonb_kind b.
Proof. destruct a, b; cbn -[to_string_pretty]; try done; intros Hp%bool_decide_eq_true; by apply pretty_same_kind in Hp. Qed.

Lemma contains_trans `{!SerdeLaws} c a b : jsonb_contains a b = true -> jsonb_contains b c = true -> jsonb_contains a c = true.
Proof.
  revert a b. induction c as [|v|n|t|items IH|fields IH] using JsonbValue_ind; intros a b Hab Hbc;
    pose proof (contains_kind _ _ Hab) as Kab; pose proof (contains_kind _ _ Hbc) as Kbc.
  1-4: rewrite contains_scalar in * by (rewrite ?Kab, ?Kbc; auto); congruence.
  - destruct a, b; try done. cbn [jsonb_contains] in *. rewrite forallb_forall in *. intros v Hv.
    specialize (Hbc v Hv) as (w & Hw & Ewv)%existsb_exists. specialize (Hab w Hw) as (u & Hu & Euw)%existsb_exists.
    apply existsb_exists. exists u. split; [done|]. rewrite Forall_forall in IH. eapply IH; [by apply list_elem_of_In|done|done].
  - destruct a as [| | | | |fa], b as [| | | | |fb]; try done. cbn [jsonb_contains] in *. rewrite forallb_forall in *. intros kv Hkv.
    specialize (Hbc kv Hkv). destruct (find_field kv.1 fb) as [w|] eqn:Ew; [|done].
    apply find_field_key in Ew as [Hw%list_elem_of_In Ew]. specialize (Hab w Hw). rewrite Ew in Hab.
    destruct (find_field kv.1 fa) as [u|]; [|done]. rewrite Forall_forall in IH. eapply IH; [by apply list_elem_of_In|done|done].
Qed.

Lemma set_other_field obj first rest v key : key <> first ->
  jsonb_get (jsonb_set (JObject obj) (first :: rest) v) key = jsonb_get (JObject obj) key.
Proof.
  intros Hne. cbn [jsonb_set jsonb_get]. destruct (position _ obj) as [pos|] eqn:Ep.
  - rewrite (find_field_alter (fun w => match rest with [] => v | _ => jsonb_set w rest v end) _ _ _ _ Ep), bool_decide_false by done.
    by destruct (find_field key obj).
  - destruct rest; rewrite find_field_app, find_field_cons, bool_decide_false by (cbn; congruence); by destruct (find_field key obj).
Qed.

Lemma delete_other_field obj first rest key : key <> first ->
  jsonb_get (jsonb_delete (JObject obj) (first :: rest)) key = jsonb_get (JObject obj) key.
Proof.
  intros Hne. destruct rest as [|r rest]; cbn [jsonb_delete jsonb_get]; [by rewrite find_field_filter_ne|].
  rewrite (find_field_map (fun v => jsonb_delete v (r :: rest))). destruct (find_field key obj) as [kv|] eqn:E; [|done].
  apply find_field_key in E as [_ E]. cbn. by rewrite bool_decide_false by congruence.
Qed.

(** Update and deletion of a JSON value. What is set at a path is found there, when
    the path leads through objects (whose missing fields are made) and through
    elements of arrays that exist or follow the last; what is deleted at a path through
    objects is no longer found, however often its key occurred; neither changes what
    the other keys of the object have. An index that is no number counts as 0: setting
    and deleting it change the first element. A value that is neither object nor array
    is replaced whole, with the rest of the path dropped. *)
Theorem jsonb_update_spec :
  (forall json path v, settable json path = true -> jsonb_path (jsonb_set json path v) path = Some v)
  /\ (forall json path, through_fields json path = true -> jsonb_path (jsonb_delete json path) path = None)
  /\ (forall obj first rest v key, key <> first ->
       jsonb_get (jsonb_set (JObject obj) (first :: rest) v) key = jsonb_get (JObject obj) key
       /\ jsonb_get (jsonb_delete (JObject obj) (first :: rest)) key = jsonb_get (JObject obj) key)
  /\ (forall x arr first rest v, parse_unsigned 64 first = None ->
       jsonb_set (JArray (x :: arr)) (first :: rest) v = JArray (jsonb_set x rest v :: arr)
       /\ jsonb_delete (JArray (x :: arr)) [first] = JArray arr)
  /\ (forall json first rest v, jsonb_kind json = KScalar ->
       jsonb_set json (first :: rest) v = v /\ jsonb_delete json (first :: rest) = json).
Proof.
  split_and!.
  - intros json path v. apply jsonb_path_set.
  - apply jsonb_path_delete.
  - intros. split; [by apply set_other_field|by apply delete_other_field].
  - intros x arr first rest v E. split; [|by rewrite delete_element, E].
    cbn [jsonb_set]. rewrite E. cbn [default from_option id]. rewrite (proj2 (Z.ltb_lt 0 (zlen (x :: arr)))) by (cbn; lia).
    change (JArray (match rest with [] => v | _ => jsonb_set x rest v end :: arr) = JArray (jsonb_set x rest v :: arr)). by rewrite set_rest.
  - by intros [].
Qed.

(** Containment is a preorder of JSON values: a value contains itself when its
    objects have no key twice, and what is contained in a contained value is contained.
    It only relates values of the same kind, objects, arrays or others; others are
    compared by the text that they print to. *)
Theorem jsonb_contains_preorder `{!SerdeLaws} :
  (forall j, unique_keys j -> jsonb_contains j j = true)
  /\ (forall a b c, jsonb_contains a b = true -> jsonb_contained_by c b = true -> jsonb_contains a c = true)
  /\ (forall a b, jsonb_contains a b = true -> jsonb_kind a = jsonb_kind b
       /\ (jsonb_kind a = KScalar -> to_string_pretty a = to_string_pretty b)).
Proof.
  split_and!; [apply contains_refl|intros a b c; apply contains_trans|].
  intros a b Hc. split; [by apply contains_kind|]. intros Hk. apply contains_scalar; auto.
Qed.

(** The keys of an object: one is there when it has a value. *)
Lemma jsonb_exists_get j key : jsonb_exists j key = true <-> is_Some (jsonb_get j key).
Proof.
  destruct j as [| | | | |obj]; cbn [jsonb_exists jsonb_get]; try (split; [done|by intros []]).
  rewrite fmap_is_Some, existsb_exists. split.
  - intros (kv & Hin & E). destruct (find_field key obj) eqn:Ef; [done|]. by rewrite (List.find_none _ _ Ef _ Hin) in E.
  - intros [kv E]. apply List.find_some in E as [? ?]. eauto.
Qed.

End jsonb.

(* ------------------------------------------------------------------ *)
(** ** An instance *)

(** Maps sorted by their keys, the last value of a key winning, and a printer. *)
Fixpoint map_insert {V} (k : string) (v : V) (m : list (string * V)) : list (string * V) :=
  match m with
  | [] => [(k, v)]
  | (k', v') :: m' =>
      match text_cmp k k' with Lt => (k, v) :: m | Eq => (k, v) :: m' | Gt => (k', v') :: map_insert k v m' end
  end.

Fixpoint print_json (v : JsonValue f64) : string :=
  match v with
  | SNull => "null"
  | SBool b => bool_text b
  | SNumber x => "0" +:+ f64_text x
  | SString s => String (of_byte 34) s +:+ String (of_byte 34) EmptyString
  | SArray l => "[" +:+ text_join "," (map print_json l) +:+ "]"
  | SObject m => "{" +:+ text_join "," (map (fun kv => kv.1 +:+ ":" +:+ print_json kv.2) m) +:+ "}"
  end.

Definition sorted_json : SerdeJson := {|
  JNum := f64;
  as_f64 := Some;
  from_f64 x := if is_finite x then Some x else None;
  number_zero := f_zero;
  map_collect l := foldl (fun m kv => map_insert kv.1 kv.2 m) [] l;
  serde_from_str _ := None;
  serde_pretty v := Some (print_json v);
|}.

Lemma map_insert_last {V} k (v : V) m : Forall (fun k' => text_ltb k' k = true) m.*1 -> map_insert k v m = m ++ [(k, v)].
Proof.
  induction m as [|[k' v'] m IH]; [done|]. cbn [fmap list_fmap fst map_insert]. intros [Hk Hm]%Forall_cons.
  unfold text_ltb in Hk. rewrite text_cmp_antisym. destruct (text_cmp k' k); try done. cbn [CompOpp]. by rewrite IH.
Qed.

Lemma map_collect_ascending {V} (l m : list (string * V)) :
  StronglySorted (fun a b => text_ltb a b = true) (m ++ l).*1 -> foldl (fun m kv => map_insert kv.1 kv.2 m) m l = m ++ l.
Proof.
  revert m. induction l as [|[k v] l IH]; intros m Hs; cbn; [by rewrite app_nil_r|].
  rewrite map_insert_last.
  - rewrite IH; by rewrite <- app_assoc.
  - apply Forall_forall. intros k' Hk'. rewrite fmap_app in Hs. cbn in Hs.
    apply (StronglySorted_app_1_elem_of _ _ _ _ k Hs Hk'). set_solver.
Qed.

Lemma sorted_json_laws : @SerdeLaws sorted_json.
Proof.
  split; cbn.
  - intros x ->. eauto.
  - intros l Hl. by rewrite map_collect_ascending.
  - intros v. eexists. split; [done|]. destruct v as [|[]| | | |]; done.
Qed.

Example contains_witness_value : JsonbValue :=
  JObject [("a", JArray [JBool true; JNull]); ("b", JString "x")].

Lemma jsonb_contains_preorder_witness :
  (@jsonb_contains sorted_json contains_witness_value contains_witness_value = true)
  /\ @jsonb_contains sorted_json contains_witness_value (JObject [("a", JArray [JNull])]) = true.
Proof.
  split.
  - apply (@jsonb_contains_preorder sorted_json sorted_json_laws). vm_compute. repeat split; try set_solver; repeat constructor; set_solver.
  - apply (proj1 (proj2 (@jsonb_contains_preorder sorted_json sorted_json_laws)) _ contains_witness_value); [by vm_compute|by vm_compute].
Defined.

(** Setting the index "x" of an array changes its first element. *)
Example set_no_index :
  jsonb_set (JArray [JBool true; JBool false]) ["x"] JNull = JArray [JNull; JBool false].
Proof. reflexivity. Qed.

(** An element is found by any text that reads as its index, and changed through a
    path only by the text the index prints to. *)
Example delete_through_plus :
  let j := JArray [JObject [("a", JNull)]] in
  jsonb_path j ["+0"; "a"] = Some JNull /\ jsonb_delete j ["+0"; "a"] = j
  /\ jsonb_delete j ["0"; "a"] = JArray [JObject []].
Proof. split_and!; reflexivity. Qed.
