(* ===== verification/FloatOrder.v ===== *)
(** More of floating-point numbers: single precision, comparison as a lexicographic
    order, the maximum and the minimum, and sorting by [partial_cmp]. *)

From Stdlib Require Import SpecFloat.
From S2P Require Import Prelude SqlText Float64.

(** [<], [is_nan], [abs]. *)
Definition f_ltb : f64 -> f64 -> bool := SFltb.
Definition f_is_nan (x : f64) : bool := match x with S754_nan => true | _ => false end.
Definition f_abs : f64 -> f64 := SFabs.

(** [f64::MAX], [f64::MIN], [f64::EPSILON]. *)
Definition f_MAX : f64 := S754_finite false (2 ^ 53 - 1) 971.
Definition f_MIN : f64 := S754_finite true (2 ^ 53 - 1) 971.
Definition f_EPSILON : f64 := S754_finite false (2 ^ 52) (-104).

(** [min] and [max]: the other number beside a NaN. *)
Definition f_min (x y : f64) : f64 := if f_is_nan x then y else if f_is_nan y then x else if f_ltb y x then y else x.
Definition f_max (x y : f64) : f64 := if f_is_nan x then y else if f_is_nan y then x else if f_ltb x y then y else x.

(** [partial_cmp(..).unwrap_or(Equal)]. *)
Definition f_cmp (x y : f64) : comparison := default Eq (SFcompare x y).

(* ------------------------------------------------------------------ *)
(** ** [f32] *)

Abbreviation f32 := spec_float.
Definition f32_of_Z (z : Z) : f32 := binary_normalize 24 128 z 0 false.
Definition f32_div : f32 -> f32 -> f32 := SFdiv 24 128.
Definition f32_of_ratio (num den : Z) : f32 := f32_div (f32_of_Z num) (f32_of_Z den).

(** [sum]. *)
Definition f32_sum (l : list f32) : f32 := foldl (SFadd 24 128) (S754_zero false) l.

(** [as] between the two, and to [u64]. *)
Definition f_round (prec emax : Z) (x : spec_float) : spec_float :=
  match x with S754_finite s m e => binary_normalize prec emax (cond_Zopp s (Zpos m)) e s | _ => x end.
Definition f32_of_f64 : f64 -> f32 := f_round 24 128.
Definition f64_of_f32 : f32 -> f64 := f_round 53 1024.
Definition f_to_u64 (x : f64) : Z :=
  match x with
  | S754_finite false m e => Z.min (2 ^ 64 - 1) (if 0 <=? e then Zpos m * 2 ^ e else Zpos m / 2 ^ (- e))
  | S754_infinity false => 2 ^ 64 - 1
  | _ => 0
  end.

(* ------------------------------------------------------------------ *)
(** ** The order by class, exponent and mantissa *)

Definition f_class (x : f64) : Z :=
  match x with
  | S754_infinity true => -2 | S754_finite true _ _ => -1 | S754_finite false _ _ => 1 | S754_infinity false => 2 | _ => 0
  end.
Definition f_exp (x : f64) : Z :=
  match x with S754_finite true _ e => - e | S754_finite false _ e => e | _ => 0 end.
Definition f_mant (x : f64) : Z :=
  match x with S754_finite true m _ => - Zpos m | S754_finite false m _ => Zpos m | _ => 0 end.

(** [fle x y] is [x <= y]; a NaN is not related. *)
Definition fle (x y : f64) : Prop :=
  f_is_nan x = false /\ f_is_nan y = false
  /\ (f_class x < f_class y \/ (f_class x = f_class y
      /\ (f_exp x < f_exp y \/ (f_exp x = f_exp y /\ f_mant x <= f_mant y)))).

Ltac fle := unfold fle in *; destruct_and?; split_and?; solve [assumption | lia].

Lemma compare_fle x y : f_is_nan x = false -> f_is_nan y = false ->
  exists c, SFcompare x y = Some c /\ (c <> Gt <-> fle x y) /\ (c <> Lt <-> fle y x).
Proof.
  intros Hx Hy. unfold fle. rewrite Hx, Hy.
  destruct x as [sx|sx| |sx mx ex], y as [sy|sy| |sy my ey]; try done.
  all: try (destruct sx, sy; eexists; cbn; (split; [reflexivity|]); split; split; intros; try lia; done).
  all: try (destruct sx; eexists; cbn; (split; [reflexivity|]); split; split; intros; try lia; done).
  all: try (destruct sy; eexists; cbn; (split; [reflexivity|]); split; split; intros; try lia; done).
  all: try (eexists; cbn; (split; [reflexivity|]); split; split; intros; try lia; done).
  eexists. split; [reflexivity|]. change (Pos.compare_cont Eq mx my) with (Pos.compare mx my).
  destruct sx, sy; cbn; [| | |]; try (split; split; intros; try lia; done).
  all: destruct (Z.compare_spec ex ey), (Pos.compare_spec mx my); cbn; split; split; intros; try lia; done.
Qed.

Lemma f_leb_fle x y : f_leb x y = true <-> fle x y.
Proof.
  destruct (f_is_nan x) eqn:Hx; [destruct x; try done; by split; [|intros (? & _)]|].
  destruct (f_is_nan y) eqn:Hy; [destruct x, y; try done; by split; [|intros (_ & ? & _)]|].
  destruct (compare_fle x y Hx Hy) as (c & E & <- & _). unfold f_leb, SFleb. rewrite E. by destruct c; split.
Qed.

Lemma f_ltb_fle x y : f_is_nan x = false -> f_is_nan y = false -> f_ltb x y = true <-> ~ fle y x.
Proof.
  intros Hx Hy. destruct (compare_fle x y Hx Hy) as (c & E & _ & <-). unfold f_ltb, SFltb. rewrite E.
  destruct c; (split; [intros Ht|intros Hn]); first [done | by intros Hn; apply Hn | destruct Hn; done].
Qed.

Lemma f_ltb_not_leb x y : f_is_nan x = false -> f_is_nan y = false -> f_ltb x y = negb (f_leb y x).
Proof.
  intros Hx Hy. apply Bool.eq_iff_eq_true. rewrite f_ltb_fle, negb_true_iff by done. rewrite <- f_leb_fle. by destruct (f_leb y x).
Qed.

Lemma fle_refl x : f_is_nan x = false -> fle x x.
Proof. intros Hx. fle. Qed.
Lemma fle_trans x y z : fle x y -> fle y z -> fle x z.
Proof. intros Hxy Hyz. fle. Qed.
Lemma fle_total x y : f_is_nan x = false -> f_is_nan y = false -> fle x y \/ fle y x.
Proof.
  intros Hx Hy. unfold fle. rewrite Hx, Hy.
  assert (Ht : forall a b c a' b' c' : Z, (a < a' \/ a = a' /\ (b < b' \/ b = b' /\ c <= c')) \/ (a' < a \/ a' = a /\ (b' < b \/ b' = b /\ c' <= c))) by lia.
  destruct (Ht (f_class x) (f_exp x) (f_mant x) (f_class y) (f_exp y) (f_mant y)); auto.
Qed.

Lemma f_min_nan x y : f_is_nan x = false -> f_is_nan (f_min x y) = false.
Proof. unfold f_min. intros Hx. rewrite Hx. destruct (f_is_nan y) eqn:E; [done|]. by destruct (f_ltb y x). Qed.
Lemma f_max_nan x y : f_is_nan x = false -> f_is_nan (f_max x y) = false.
Proof. unfold f_max. intros Hx. rewrite Hx. destruct (f_is_nan y) eqn:E; [done|]. by destruct (f_ltb x y). Qed.

Lemma f_min_le x y : f_is_nan x = false -> fle (f_min x y) x /\ (f_is_nan y = false -> fle (f_min x y) y).
Proof.
  unfold f_min. intros Hx. rewrite Hx. destruct (f_is_nan y) eqn:Hy; [split; [by apply fle_refl|done]|].
  destruct (f_ltb y x) eqn:E.
  - apply f_ltb_fle in E; [|done..]. split; [|intros _; by apply fle_refl]. destruct (fle_total x y); done.
  - split; [by apply fle_refl|]. intros _. destruct (fle_total x y) as [|Hle]; [done..|].
    destruct (decide (f_leb x y = true)) as [Hl|Hl]; [by apply f_leb_fle|]. rewrite f_leb_fle in Hl.
    apply (f_ltb_fle y x) in Hl; [congruence|done..].
Qed.

Lemma f_max_ge x y : f_is_nan x = false -> fle x (f_max x y) /\ (f_is_nan y = false -> fle y (f_max x y)).
Proof.
  unfold f_max. intros Hx. rewrite Hx. destruct (f_is_nan y) eqn:Hy; [split; [by apply fle_refl|done]|].
  destruct (f_ltb x y) eqn:E.
  - apply f_ltb_fle in E; [|done..]. split; [|intros _; by apply fle_refl]. destruct (fle_total x y); done.
  - split; [by apply fle_refl|]. intros _. rewrite f_ltb_not_leb in E by done. apply negb_false_iff in E. by apply f_leb_fle.
Qed.

(* ------------------------------------------------------------------ *)
(** ** Differences *)

Lemma f_sub_self x : match x with S754_zero _ | S754_finite _ _ _ => f_sub x x = S754_zero false | _ => f_sub x x = S754_nan end.
Proof.
  destruct x as [[]|[]| |s m e]; try done. unfold f_sub, SFsub. rewrite Z.sub_diag. done.
Qed.

(** Without NaN, [partial_cmp] is a total order. *)
Lemma f_cmp_spec x y : f_is_nan x = false -> f_is_nan y = false -> (f_cmp x y <> Gt <-> fle x y) /\ f_cmp x y = CompOpp (f_cmp y x).
Proof.
  intros Hx Hy. unfold f_cmp. destruct (compare_fle x y Hx Hy) as (c & -> & H1 & H2), (compare_fle y x Hy Hx) as (c' & -> & H3 & H4).
  cbn. split; [done|]. pose proof (fle_total x y Hx Hy). destruct c, c'; cbn; try done; exfalso; intuition congruence.
Qed.
