(* ===== verification/TextSearch.v ===== *)
(** Full text search ([src/src/types/tsvector.rs], [tsquery.rs]): the lexemes of a text
    with their positions, queries, matching and ranks. No other file of the program
    calls it. *)

From Stdlib Require Import SpecFloat.
From S2P Require Import Prelude SqlText Float64 TextOps FloatOrder.

(* ------------------------------------------------------------------ *)
(** ** Queries *)

Unset Elimination Schemes.
Inductive TsQuery :=
| Lexeme (text : string)
| TsAnd (left right : TsQuery)
| TsOr (left right : TsQuery)
| TsNot (inner : TsQuery)
| Phrase (terms : list TsQuery) (distance : Z).
Set Elimination Schemes.

Lemma TsQuery_ind (Q : TsQuery -> Prop) :
  (forall t, Q (Lexeme t)) -> (forall l r, Q l -> Q r -> Q (TsAnd l r)) -> (forall l r, Q l -> Q r -> Q (TsOr l r)) ->
  (forall q, Q q -> Q (TsNot q)) -> (forall terms d, Forall Q terms -> Q (Phrase terms d)) -> forall q, Q q.
Proof.
  intros H1 H2 H3 H4 H5. fix IH 1. intros [t|l r|l r|q|terms d]; [done|by apply H2|by apply H3|by apply H4|].
  apply H5. induction terms; constructor; auto.
Qed.

(** [strip_prefix('!')]. *)
Definition strip_not (s : string) : option string :=
  match s with String c s => if Ascii.eqb c "!" then Some s else None | EmptyString => None end.

(** [to_tsquery]; [None] when the fuel does not last. *)
Fixpoint to_tsquery_from (fuel : nat) (query : string) : option TsQuery :=
  match fuel with
  | O => None
  | S fuel =>
      let query := trim query in
      if String.eqb query EmptyString then Some (Lexeme EmptyString)
      else match split_once " & " query with
      | Some (l, r) => ql ← to_tsquery_from fuel l; qr ← to_tsquery_from fuel r; Some (TsAnd ql qr)
      | None =>
      match split_once " | " query with
      | Some (l, r) => ql ← to_tsquery_from fuel l; qr ← to_tsquery_from fuel r; Some (TsOr ql qr)
      | None =>
      match split_once " <-> " query with
      | Some (l, r) => ql ← to_tsquery_from fuel l; qr ← to_tsquery_from fuel r; Some (Phrase [ql; qr] 1)
      | None =>
      match strip_not query with
      | Some stripped => TsNot <$> to_tsquery_from fuel stripped
      | None => Some (Lexeme query)
      end end end end
  end.
Definition to_tsquery (query : string) : option TsQuery := to_tsquery_from (S (String.length query)) query.

Definition plainto_tsquery (text : string) : TsQuery :=
  match split_whitespace text with
  | [] => Lexeme EmptyString
  | word :: words => foldl (fun result word => TsAnd result (Lexeme word)) (Lexeme word) words
  end.

Definition phraseto_tsquery (text : string) : TsQuery :=
  match split_whitespace text with
  | [] => Lexeme EmptyString
  | words => Phrase (map Lexeme words) 1
  end.

(* ------------------------------------------------------------------ *)
(** ** Vectors *)

Inductive TsWeight := WA | WB | WC | WD.

Definition TsWeight_from_char (c : string) : TsWeight :=
  if bool_decide (c ∈ ["A"; "a"]) then WA else if bool_decide (c ∈ ["B"; "b"]) then WB
  else if bool_decide (c ∈ ["C"; "c"]) then WC else if bool_decide (c ∈ ["D"; "d"]) then WD else WD.

Record TsPosition := { word : Z; weight : TsWeight }.
Record TsLexeme := { lex_text : string; positions : list TsPosition }.
Record TsVector := { lexemes : list TsLexeme }.

Definition STOP_WORDS : list string :=
  ["the"; "a"; "an"; "is"; "are"; "was"; "were"; "in"; "on"; "at"; "to"; "for"; "of"; "and"; "or"; "but"; "not"].

(** [char::is_alphanumeric]. *)
Class Alphanumeric := is_alphanumeric : string -> bool.

(** Of ASCII alone. *)
Definition Ascii_Alphanumeric : Alphanumeric := fun c =>
  match bytes_of c with [b] => ((48 <=? b) && (b <=? 57)) || ((65 <=? b) && (b <=? 90)) || ((97 <=? b) && (b <=? 122)) | _ => false end.

Section vector.
Context `{Unicode, Alphanumeric} {P : Profile}.

(** [split(|c| !c.is_alphanumeric())]. *)
Fixpoint split_pieces (piece : string) (cs : list string) : list string :=
  match cs with
  | [] => [piece]
  | c :: cs => if is_alphanumeric c then split_pieces (piece +:+ c) cs else piece :: split_pieces EmptyString cs
  end.
Definition pieces (text : string) : list string := split_pieces EmptyString (text_chars text).

(** The lexeme of a word takes one more position. *)
Definition add_position (w : string) (p : TsPosition) (ls : list TsLexeme) : list TsLexeme :=
  match position (fun l => bool_decide (lex_text l = w)) ls with
  | Some i => alter (fun l => {| lex_text := lex_text l; positions := positions l ++ [p] |}) i ls
  | None => ls ++ [{| lex_text := w; positions := [p] |}]
  end.

Definition skipped (w : string) : bool := String.eqb w EmptyString || bool_decide (w ∈ STOP_WORDS).

(** The loop of [to_tsvector]. *)
Fixpoint index_words (ws : list string) (word_pos : Z) (ls : list TsLexeme) : outcome (list TsLexeme) :=
  match ws with
  | [] => Ok ls
  | w :: ws =>
      let w := to_lowercase w in
      let ls := if skipped w then ls else add_position w {| word := word_pos; weight := WD |} ls in
      word_pos ← add_w 32 word_pos 1;
      index_words ws word_pos ls
  end.

Definition to_tsvector (text : string) : outcome TsVector :=
  ls ← index_words (pieces text) 1 [];
  Ok {| lexemes := sort_by (fun a b => text_cmp (lex_text a) (lex_text b)) ls |}.

(* ------------------------------------------------------------------ *)
(** ** Matching and ranks *)

Fixpoint ts_match (tsvector : TsVector) (query : TsQuery) : bool :=
  match query with
  | Lexeme lexeme => let lexeme_lower := to_lowercase lexeme in
      existsb (fun l => bool_decide (lex_text l = lexeme_lower)) (lexemes tsvector)
  | TsAnd l r => ts_match tsvector l && ts_match tsvector r
  | TsOr l r => ts_match tsvector l || ts_match tsvector r
  | TsNot inner => negb (ts_match tsvector inner)
  | Phrase terms _ => forallb (ts_match tsvector) terms
  end.

Definition weight_rank (w : TsWeight) : f32 :=
  match w with WA => f32_of_Z 1 | WB => f32_of_ratio 4 10 | WC => f32_of_ratio 2 10 | WD => f32_of_ratio 1 10 end.

Fixpoint ts_rank (tsvector : TsVector) (query : TsQuery) : f32 :=
  match query with
  | Lexeme lexeme => let lexeme_lower := to_lowercase lexeme in
      f32_sum (map (fun l => f32_sum (map (fun p => weight_rank (weight p)) (positions l)))
                   (List.filter (fun l => bool_decide (lex_text l = lexeme_lower)) (lexemes tsvector)))
  | TsAnd l r => f_min (ts_rank tsvector l) (ts_rank tsvector r)
  | TsOr l r => f_max (ts_rank tsvector l) (ts_rank tsvector r)
  | TsNot _ => S754_zero false
  | Phrase terms _ => f32_div (f32_sum (map (ts_rank tsvector) terms)) (f32_of_Z (zlen terms))
  end.

Definition ts_rank_cd (tsvector : TsVector) (query : TsQuery) : f32 := SFmul 24 128 (ts_rank tsvector query) (f32_of_ratio 1 2).

(* ------------------------------------------------------------------ *)
(** ** The lexemes of a text *)

(** The positions, from [k], of the pieces that are [w] in lower case. *)
Fixpoint occurrences (ws : list string) (k : Z) (w : string) : list TsPosition :=
  match ws with
  | [] => []
  | p :: ws => (if String.eqb (to_lowercase p) w then [{| word := k; weight := WD |}] else []) ++ occurrences ws (k + 1) w
  end.

(** The positions of a word in the lexemes. *)
Definition positions_at (ls : list TsLexeme) (w : string) : list TsPosition :=
  default [] (positions <$> List.find (fun l => bool_decide (lex_text l = w)) ls).

Record lexemes_ok (ls : list TsLexeme) : Prop := {
  lex_unique : NoDup (lex_text <$> ls);
  lex_positions : Forall (fun l => positions l <> []) ls;
}.

Lemma find_position {A} (p : A -> bool) l : List.find p l = position p l ≫= (l !!.).
Proof. induction l as [|a l IH]; cbn; [done|]. destruct (p a); [done|]. rewrite IH. by destruct (position p l). Qed.

Lemma positions_at_none ls w : lexemes_ok ls -> positions_at ls w = [] <-> w ∉ (lex_text <$> ls).
Proof.
  intros [_ Hp]. unfold positions_at. destruct (List.find _ ls) as [l|] eqn:E; cbn.
  - apply List.find_some in E as [Hin%list_elem_of_In <-%bool_decide_eq_true]. rewrite Forall_forall in Hp.
    split; [by intros ?%(Hp l Hin)|]. intros Hn. destruct Hn. by apply list_elem_of_fmap_2.
  - split; [|done]. intros _ (l & -> & Hin%list_elem_of_In)%list_elem_of_fmap.
    apply (List.find_none _ _ E) in Hin. by rewrite bool_decide_true in Hin.
Qed.

Lemma positions_at_here ls l : lexemes_ok ls -> l ∈ ls -> positions_at ls (lex_text l) = positions l.
Proof.
  intros [Hn _] Hin. unfold positions_at. destruct (List.find _ ls) as [l'|] eqn:E; cbn.
  - apply List.find_some in E as [Hin'%list_elem_of_In Et%bool_decide_eq_true].
    apply list_elem_of_lookup in Hin as [i Hi]. apply list_elem_of_lookup in Hin' as [j Hj].
    assert (i = j) as <- by (apply (NoDup_lookup _ _ _ (lex_text l) Hn); rewrite list_lookup_fmap, ?Hi, ?Hj; cbn; congruence). congruence.
  - apply list_elem_of_In in Hin. apply (List.find_none _ _ E) in Hin. by rewrite bool_decide_true in Hin.
Qed.

Lemma find_app_text w (ls : list TsLexeme) l :
  List.find (fun l => bool_decide (lex_text l = w)) (ls ++ [l])
  = match List.find (fun l => bool_decide (lex_text l = w)) ls with
    | Some l' => Some l' | None => if bool_decide (lex_text l = w) then Some l else None end.
Proof. induction ls as [|a ls IH]; cbn; [done|]. rewrite IH. by destruct (bool_decide (lex_text a = w)). Qed.

Lemma find_alter_text w i f (ls : list TsLexeme) :
  (forall l, lex_text (f l) = lex_text l) ->
  List.find (fun l => bool_decide (lex_text l = w)) (alter f i ls)
  = (fun l => if bool_decide (position (fun l => bool_decide (lex_text l = w)) ls = Some i) then f l else l)
    <$> List.find (fun l => bool_decide (lex_text l = w)) ls.
Proof.
  intros Hf. revert i. induction ls as [|a ls IH]; intros i; [done|]. destruct i as [|i]; cbn.
  - rewrite Hf. destruct (decide (lex_text a = w)) as [E|E]; [rewrite !(bool_decide_true _ E)|rewrite !(bool_decide_false _ E)]; cbn; [done|].
    destruct (List.find _ ls), (position _ ls); done.
  - destruct (decide (lex_text a = w)) as [E|E]; [rewrite !(bool_decide_true _ E)|rewrite !(bool_decide_false _ E)]; cbn; [done|].
    rewrite IH. destruct (List.find _ ls); [|done]. cbn. f_equal. destruct (position _ ls) as [j|]; cbn; [|done].
    destruct (decide (j = i)) as [->|]; [by rewrite !bool_decide_true|by rewrite !bool_decide_false by congruence].
Qed.

Lemma fmap_alter_same {A B} (g : A -> B) (f : A -> A) (i : nat) (l : list A) : (forall a, g (f a) = g a) -> g <$> alter f i l = g <$> l.
Proof. intros Hg. revert i. induction l as [|a l IH]; intros [|i]; cbn; rewrite ?Hg; [done..|]. f_equal. apply IH. Qed.

(** Adding a position. *)
Lemma add_position_ok w p ls : lexemes_ok ls -> lexemes_ok (add_position w p ls).
Proof.
  intros [Hn Hp]. unfold add_position. destruct (position _ ls) as [i|] eqn:E; split.
  - by rewrite fmap_alter_same.
  - apply Forall_alter; [done|]. intros l _ _. cbn. by destruct (positions l).
  - rewrite fmap_app. apply NoDup_app. split_and!; [done| |apply NoDup_singleton].
    intros x (l & -> & Hl)%list_elem_of_fmap Ew%list_elem_of_singleton. apply position_None in E.
    rewrite Forall_forall in E. specialize (E l Hl). by rewrite bool_decide_true in E by exact Ew.
  - apply Forall_app. split; [done|]. by constructor.
Qed.

Lemma positions_add w p ls w' :
  positions_at (add_position w p ls) w' = positions_at ls w' ++ (if String.eqb w w' then [p] else []).
Proof.
  unfold add_position, positions_at. destruct (position _ ls) as [i|] eqn:E.
  - rewrite find_alter_text by done. destruct (String.eqb_spec w w') as [<-|Hne].
    + rewrite bool_decide_true by done. rewrite find_position, E. cbn. apply position_spec in E as (a & -> & _). done.
    + rewrite app_nil_r. rewrite bool_decide_false; [by destruct (List.find _ ls)|].
      intros E'. apply position_spec in E as (a & Ha & Ea%bool_decide_eq_true & _).
      apply position_spec in E' as (b & Hb & Eb%bool_decide_eq_true & _). congruence.
  - rewrite find_app_text. cbn. destruct (String.eqb_spec w w') as [<-|Hne].
    + rewrite find_position, E. cbn. by rewrite bool_decide_true.
    + rewrite app_nil_r. destruct (List.find _ ls); [done|]. by rewrite bool_decide_false.
Qed.

Lemma index_words_ok ws k ls :
  0 <= k -> k + zlen ws < 2 ^ 32 -> lexemes_ok ls ->
  exists ls', index_words ws k ls = Ok ls' /\ lexemes_ok ls'
    /\ forall w, positions_at ls' w = positions_at ls w ++ (if skipped w then [] else occurrences ws k w).
Proof.
  revert k ls. induction ws as [|p ws IH]; intros k ls Hk Hlen Hok; cbn [index_words occurrences].
  - exists ls. split_and!; [done|done|]. intros w. by destruct (skipped w); rewrite app_nil_r.
  - cbn [length] in Hlen. set (ls1 := if skipped (to_lowercase p) then ls else _).
    assert (Hok1 : lexemes_ok ls1) by (subst ls1; destruct (skipped _); [done|by apply add_position_ok]).
    rewrite (add_w_ok 32 k 1) by (unfold in_width; lia). rewrite ok_bind.
    destruct (IH (k + 1) ls1) as (ls' & E & Hok' & Hp); [lia|lia|done|]. exists ls'. split_and!; [done|done|].
    intros w. rewrite Hp. subst ls1. destruct (skipped (to_lowercase p)) eqn:Es.
    + destruct (String.eqb_spec (to_lowercase p) w) as [<-|]; [by rewrite Es|done].
    + rewrite positions_add, <- app_assoc. f_equal. destruct (String.eqb_spec (to_lowercase p) w) as [<-|]; [by rewrite Es|done].
Qed.

(** The words of a text: its pieces in lower case, stop words left out. *)
Definition text_has (text w : string) : bool := negb (skipped w) && existsb (fun p => String.eqb (to_lowercase p) w) (pieces text).

(** A query as a formula over words, with a phrase as the conjunction of its terms. *)
Fixpoint query_holds (has : string -> bool) (query : TsQuery) : bool :=
  match query with
  | Lexeme lexeme => has (to_lowercase lexeme)
  | TsAnd l r => query_holds has l && query_holds has r
  | TsOr l r => query_holds has l || query_holds has r
  | TsNot inner => negb (query_holds has inner)
  | Phrase terms _ => forallb (query_holds has) terms
  end.

Lemma occurrences_some ws k w : occurrences ws k w <> [] <-> existsb (fun p => String.eqb (to_lowercase p) w) ws = true.
Proof.
  revert k. induction ws as [|p ws IH]; intros k; cbn; [done|]. destruct (String.eqb _ w); cbn; [done|]. apply IH.
Qed.

Lemma ascending_texts ls :
  StronglySorted (cmp_le (fun a b => text_cmp (lex_text a) (lex_text b))) ls -> NoDup (lex_text <$> ls) ->
  StronglySorted (fun a b => text_ltb a b = true) (lex_text <$> ls).
Proof.
  induction 1 as [|l ls Hs IH Hl]; [constructor|]. cbn [fmap list_fmap]. intros [Hn Hd]%NoDup_cons. constructor; [by apply IH|].
  apply Forall_forall. intros t (l' & -> & Hin)%list_elem_of_fmap. rewrite Forall_forall in Hl. specialize (Hl l' Hin).
  unfold cmp_le in Hl. unfold text_ltb. destruct (text_cmp (lex_text l) (lex_text l')) eqn:E; [|done|done].
  apply text_cmp_eq in E. destruct Hn. rewrite E. by apply list_elem_of_fmap_2.
Qed.

(** The vector of a text that has fewer than [2 ^ 32 - 1] pieces. *)
Definition indexable (text : string) : Prop := zlen (pieces text) < 2 ^ 32 - 1.

Lemma to_tsvector_lexemes text : indexable text ->
  exists ls, to_tsvector text = Ok {| lexemes := ls |} /\ lexemes_ok ls
    /\ StronglySorted (fun a b => text_ltb a b = true) (lex_text <$> ls)
    /\ forall w, positions_at ls w = if skipped w then [] else occurrences (pieces text) 1 w.
Proof.
  intros Hlen. unfold indexable in Hlen. destruct (index_words_ok (pieces text) 1 []) as (ls & E & Hok & Hp);
    [lia|lia|by split; constructor|].
  unfold to_tsvector. rewrite E, ok_bind. set (cmp := fun a b => text_cmp (lex_text a) (lex_text b)).
  pose proof (sort_by_perm cmp ls) as Hperm. exists (sort_by cmp ls).
  assert (Hok' : lexemes_ok (sort_by cmp ls)).
  { destruct Hok. split; rewrite Hperm; done. }
  split_and!; [done|done| |].
  - assert (Ht : TotalOrder cmp) by apply (key_total lex_text text_cmp).
    apply ascending_texts; [by apply sort_by_sorted|by destruct Hok'].
  - intros w. rewrite <- (app_nil_l (if skipped w then _ else _)). change [] with (positions_at [] w) at 1. rewrite <- Hp.
    destruct (decide (w ∈ (lex_text <$> ls))) as [(l & -> & Hl)%list_elem_of_fmap|Hn].
    + rewrite !positions_at_here; rewrite ?Hperm; done.
    + rewrite (proj2 (positions_at_none ls w Hok)) by done. apply positions_at_none; [done|]. by rewrite Hperm.
Qed.

Lemma ts_match_holds ls text query :
  (forall w, (exists l, l ∈ ls /\ lex_text l = w) <-> text_has text w = true) ->
  ts_match {| lexemes := ls |} query = query_holds (text_has text) query.
Proof.
  intros Hls. induction query as [t|l r IHl IHr|l r IHl IHr|q IH|terms d IH] using TsQuery_ind; cbn; [|congruence..|].
  - apply Bool.eq_iff_eq_true. rewrite existsb_exists, <- Hls.
    split; intros (l & Hin & Et); exists l; [rewrite list_elem_of_In|rewrite <- list_elem_of_In]; split; try done;
      by apply bool_decide_eq_true in Et || by apply bool_decide_eq_true.
  - induction IH as [|q terms Hq _ IHt]; cbn; [done|]. by rewrite Hq, IHt.
Qed.

Lemma lexemes_of_text text ls w : lexemes_ok ls ->
  (forall w, positions_at ls w = if skipped w then [] else occurrences (pieces text) 1 w) ->
  (exists l, l ∈ ls /\ lex_text l = w) <-> text_has text w = true.
Proof.
  intros Hok Hp. trans (w ∈ (lex_text <$> ls)).
  { rewrite list_elem_of_fmap. split; intros (l & ? & ?); eauto. }
  trans (positions_at ls w <> []).
  { split; [by intros Hin ?%positions_at_none|]. intros Hne. destruct (decide (w ∈ (lex_text <$> ls))) as [|Hn]; [done|].
    by apply positions_at_none in Hn. }
  rewrite Hp. unfold text_has. destruct (skipped w); cbn; [done|]. apply occurrences_some.
Qed.

(** C39. Indexing and matching, of a text of fewer than [2 ^ 32 - 1] pieces. Indexing
    succeeds; the lexemes ascend, and are the pieces of the text in lower case that are
    neither empty nor stop words, each with the numbers of its pieces, counted from 1
    over all pieces. A query matches the vector when, as a formula, it holds of the
    words of the text: a stop word never does, and a phrase asks only that each of its
    terms does. So the two ways to make a query of plain text match the same texts. *)
Theorem ts_match_spec text (Hlen : indexable text) :
  exists tv, to_tsvector text = Ok tv
    /\ StronglySorted (fun a b => text_ltb a b = true) (lex_text <$> lexemes tv)
    /\ (forall l, l ∈ lexemes tv -> positions l = occurrences (pieces text) 1 (lex_text l))
    /\ (forall query, ts_match tv query = query_holds (text_has text) query)
    /\ (forall s, ts_match tv (plainto_tsquery s)
         = match split_whitespace s with [] => text_has text (to_lowercase EmptyString) | ws => forallb (text_has text ∘ to_lowercase) ws end)
    /\ (forall s, ts_match tv (phraseto_tsquery s) = ts_match tv (plainto_tsquery s)).
Proof.
  destruct (to_tsvector_lexemes text Hlen) as (ls & E & Hok & Hs & Hp). exists {| lexemes := ls |}.
  assert (Hm : forall query, ts_match {| lexemes := ls |} query = query_holds (text_has text) query).
  { intros query. apply ts_match_holds. intros w. by apply lexemes_of_text. }
  assert (Hplain : forall s, ts_match {| lexemes := ls |} (plainto_tsquery s)
    = match split_whitespace s with [] => text_has text (to_lowercase EmptyString) | ws => forallb (text_has text ∘ to_lowercase) ws end).
  { intros s. rewrite Hm. unfold plainto_tsquery. destruct (split_whitespace s) as [|w ws]; [done|].
    enough (G : forall q, query_holds (text_has text) (foldl (fun result word => TsAnd result (Lexeme word)) q ws)
      = query_holds (text_has text) q && forallb (text_has text ∘ to_lowercase) ws) by apply G.
    induction ws as [|w' ws IH]; intros q; cbn; [by rewrite andb_true_r|]. by rewrite IH, andb_assoc. }
  split_and!; [done|done| |done|done|].
  - intros l Hl. rewrite <- (positions_at_here ls l Hok Hl), Hp.
    assert (Hh : text_has text (lex_text l) = true) by (apply (lexemes_of_text text ls); eauto).
    unfold text_has in Hh. by destruct (skipped (lex_text l)).
  - intros s. rewrite Hplain, Hm. unfold phraseto_tsquery. destruct (split_whitespace s) as [|w ws]; [done|].
    cbn [query_holds]. generalize (w :: ws). intros l. induction l as [|x l IH]; cbn; [done|]. by rewrite IH.
Qed.

End vector.

(* ------------------------------------------------------------------ *)
(** ** Parsing queries *)

Lemma length_text_concat_app l l' : String.length (text_concat (l ++ l')) = (String.length (text_concat l) + String.length (text_concat l'))%nat.
Proof. induction l; cbn; [done|]. rewrite !text_length_app. lia. Qed.

Lemma length_text_concat_rev l : String.length (text_concat (rev l)) = String.length (text_concat l).
Proof. induction l; cbn; [done|]. rewrite length_text_concat_app, text_length_app. cbn. rewrite text_length_app. cbn. lia. Qed.

Lemma length_drop_spaces cs : (String.length (text_concat (drop_spaces cs)) <= String.length (text_concat cs))%nat.
Proof. induction cs as [|c cs IH]; cbn; [lia|]. destruct (is_space c); cbn; rewrite text_length_app; lia. Qed.

Lemma length_trim s : (String.length (trim s) <= String.length s)%nat.
Proof.
  unfold trim. rewrite length_text_concat_rev. etrans; [apply length_drop_spaces|]. rewrite length_text_concat_rev.
  etrans; [apply length_drop_spaces|]. by rewrite text_chars_concat.
Qed.

Lemma length_substring i n s : (String.length (String.substring i n s) <= Nat.min n (String.length s - i))%nat.
Proof.
  revert i n. induction s as [|c s IH]; intros i n; [by destruct i, n|].
  destruct i as [|i]; [destruct n as [|n]; cbn; [lia|]; specialize (IH 0%nat n); lia|]. specialize (IH i n). cbn. lia.
Qed.

Lemma text_find_fits needle hay i : text_find needle hay = Some i -> 0 <= i /\ i + text_len needle <= text_len hay.
Proof.
  assert (Hp : forall n h, String.prefix n h = true -> (String.length n <= String.length h)%nat).
  { induction n as [|c n IH]; intros [|d h]; cbn; [lia|lia|done|]. destruct (ascii_dec c d); [|done]. intros E%IH. lia. }
  unfold text_len. revert i. induction hay as [|c hay IH]; intros i; cbn [text_find]; destruct (String.prefix needle _) eqn:E.
  - intros [= <-]. apply Hp in E. lia.
  - done.
  - intros [= <-]. apply Hp in E. lia.
  - intros (j & Ej & ->)%fmap_Some. specialize (IH j Ej). cbn. lia.
Qed.

Lemma split_once_shorter pat s l r : (0 < String.length pat)%nat ->
  split_once pat s = Some (l, r) -> (String.length l < String.length s)%nat /\ (String.length r < String.length s)%nat.
Proof.
  unfold split_once. intros Hpat (i & Ei & [= <- <-])%bind_Some. apply text_find_fits in Ei. unfold text_len in Ei.
  pose proof (length_substring 0 (Z.to_nat i) s). pose proof (length_substring (Z.to_nat i + String.length pat) (String.length s) s). lia.
Qed.

Lemma to_tsquery_fuel fuel query : (String.length query < fuel)%nat -> is_Some (to_tsquery_from fuel query).
Proof.
  revert query. induction fuel as [|fuel IH]; intros query Hf; [lia|]. cbn [to_tsquery_from].
  pose proof (length_trim query) as Ht. set (q := trim query) in *. clearbody q.
  destruct (String.eqb q EmptyString); [eauto|].
  assert (Hs : forall pat l r, (0 < String.length pat)%nat -> split_once pat q = Some (l, r) ->
    is_Some (to_tsquery_from fuel l) /\ is_Some (to_tsquery_from fuel r)).
  { intros pat l r Hpat [? ?]%split_once_shorter; [|done]. split; apply IH; lia. }
  repeat match goal with
  | |- context [split_once ?pat q] => destruct (split_once pat q) as [[l r]|] eqn:E;
      [destruct (Hs pat l r) as [[ql ->] [qr ->]]; [cbn; lia|done|cbn; eauto]|clear E]
  end.
  destruct (strip_not q) as [stripped|] eqn:E; [|eauto]. rewrite fmap_is_Some. apply IH.
  destruct q as [|c q]; cbn in *; [done|]. destruct (Ascii.eqb c "!"); simplify_eq. lia.
Qed.

(** The recursion of [to_tsquery] ends on every text. *)
Lemma to_tsquery_total query : is_Some (to_tsquery query).
Proof. apply to_tsquery_fuel. lia. Qed.

(* ------------------------------------------------------------------ *)
(** ** Examples *)

#[local] Existing Instances Ascii_Unicode Ascii_Alphanumeric debug_profile.

Lemma ts_match_spec_witness :
  exists tv, to_tsvector "The cat, the hat: Cat!" = Ok tv /\ (lex_text <$> lexemes tv) = ["cat"; "hat"]
    /\ ts_match tv (plainto_tsquery "CAT hat") = true.
Proof.
  destruct (ts_match_spec "The cat, the hat: Cat!") as (tv & E & _ & _ & _ & Hp & _); [by vm_compute|].
  exists tv. split; [done|]. split; [|rewrite Hp; by vm_compute]. vm_compute in E. by injection E as <-.
Defined.

(** [&] binds looser than [|], and parentheses belong to the words. *)
Example and_binds_looser :
  to_tsquery "a & b | c" = Some (TsAnd (Lexeme "a") (TsOr (Lexeme "b") (Lexeme "c")))
  /\ to_tsquery "(a | b) & c" = Some (TsAnd (TsOr (Lexeme "(a") (Lexeme "b)")) (Lexeme "c")).
Proof. split; by vm_compute. Qed.

(** A stop word in a query hides the text it came from. *)
Example stop_word_hides :
  (tv ← to_tsvector "the cat"; Ok (ts_match tv (plainto_tsquery "the cat"))) = Ok false.
Proof. by vm_compute. Qed.

(** Two positions of weight D. *)
Example rank_of_two : 
  (tv ← to_tsvector "cat dog cat"; Ok (SFeqb (ts_rank tv (Lexeme "cat")) (f32_of_ratio 2 10))) = Ok true.
Proof. by vm_compute. Qed.
