(* ===== verification/Gist.v ===== *)
(** The generalised search index ([src/src/btree/gist_index.rs]): points, boxes and
    ranges in one list, scanned by every query. *)

From Stdlib Require Import SpecFloat.
From S2P Require Import Prelude Types SqlText Float64 FloatOrder.

Abbreviation tid := (PageId * Z)%type.

(** [PartialOrd]: [<] and [<=]; [x > y] and [x >= y] are these with the sides changed. *)
Class PartialOrd (T : Type) := { p_ltb : T -> T -> bool; p_leb : T -> T -> bool }.

Class PartialOrdLaws (T : Type) `{PartialOrd T} : Prop := {
  p_le_trans : forall x y z, p_leb x y = true -> p_leb y z = true -> p_leb x z = true;
  p_lt_le_trans : forall x y z, p_ltb x y = true -> p_leb y z = true -> p_ltb x z = true;
  p_le_lt_trans : forall x y z, p_leb x y = true -> p_ltb y z = true -> p_ltb x z = true;
  p_lt_le : forall x y, p_ltb x y = true -> p_leb x y = true;
}.

#[export] Instance f64_PartialOrd : PartialOrd f64 := {| p_ltb := f_ltb; p_leb := f_leb |}.

Lemma f_ltb_nan x y : f_ltb x y = true -> f_is_nan x = false /\ f_is_nan y = false.
Proof. destruct x, y; done. Qed.

#[export] Instance f64_laws : PartialOrdLaws f64.
Proof.
  split; cbn.
  - intros x y z. rewrite !f_leb_fle. apply fle_trans.
  - intros x y z Hxy Hyz. pose proof (f_ltb_nan _ _ Hxy) as [Hx Hy]. apply f_ltb_fle in Hxy; [|done..]. rewrite f_leb_fle in Hyz.
    apply f_ltb_fle; [done|by destruct Hyz as (_ & ? & _)|]. intros Hzx. apply Hxy. by apply (fle_trans _ z).
  - intros x y z Hxy Hyz. pose proof (f_ltb_nan _ _ Hyz) as [Hy Hz]. apply f_ltb_fle in Hyz; [|done..]. rewrite f_leb_fle in Hxy.
    apply f_ltb_fle; [by destruct Hxy as (? & _)|done|]. intros Hzx. apply Hyz. by apply (fle_trans _ x).
  - intros x y Hxy. pose proof (f_ltb_nan _ _ Hxy) as [Hx Hy]. apply f_ltb_fle in Hxy; [|done..]. apply f_leb_fle. by destruct (fle_total x y).
Qed.

(* ------------------------------------------------------------------ *)
(** ** Boxes and ranges *)

Record BoundingBox := { min_x : f64; min_y : f64; max_x : f64; max_y : f64 }.

Definition contains_point (b : BoundingBox) (x y : f64) : bool :=
  f_leb (min_x b) x && f_leb x (max_x b) && f_leb (min_y b) y && f_leb y (max_y b).

Definition intersects (b other : BoundingBox) : bool :=
  f_leb (min_x b) (max_x other) && f_leb (min_x other) (max_x b) && f_leb (min_y b) (max_y other) && f_leb (min_y other) (max_y b).

Definition contains_box (b other : BoundingBox) : bool :=
  f_leb (min_x b) (min_x other) && f_leb (max_x other) (max_x b) && f_leb (min_y b) (min_y other) && f_leb (max_y other) (max_y b).

Definition area (b : BoundingBox) : f64 := f_mul (f_sub (max_x b) (min_x b)) (f_sub (max_y b) (min_y b)).

Record Range (T : Type) := { lower : option T; upper : option T; lower_inclusive : bool; upper_inclusive : bool }.
Arguments lower {T} r.
Arguments upper {T} r.
Arguments lower_inclusive {T} r.
Arguments upper_inclusive {T} r.

Section range.
Context {T : Type} `{PartialOrd T}.

Definition range_contains (r : Range T) (value : T) : bool :=
  let lower_ok := match lower r with Some l => if lower_inclusive r then p_leb l value else p_ltb l value | None => true end in
  let upper_ok := match upper r with Some u => if upper_inclusive r then p_leb value u else p_ltb value u | None => true end in
  lower_ok && upper_ok.

Definition range_overlaps (r other : Range T) : bool :=
  let lower_ok := match lower r, upper other with
    | Some l, Some u => if lower_inclusive r && upper_inclusive other then p_leb l u else p_ltb l u
    | _, _ => true end in
  let upper_ok := match upper r, lower other with
    | Some u, Some l => if upper_inclusive r && lower_inclusive other then p_leb l u else p_ltb l u
    | _, _ => true end in
  lower_ok && upper_ok.

(** Ranges that share a value overlap. *)
Lemma overlaps_complete `{!PartialOrdLaws T} r other v :
  range_contains r v = true -> range_contains other v = true -> range_overlaps r other = true.
Proof.
  unfold range_contains, range_overlaps. intros [Hl Hu]%andb_prop [Hl' Hu']%andb_prop. apply andb_true_intro.
  assert (G : forall l u (li ui : bool), (if li then p_leb l v else p_ltb l v) = true -> (if ui then p_leb v u else p_ltb v u) = true ->
    (if li && ui then p_leb l u else p_ltb l u) = true).
  { intros l u [] [] H1 H2; cbn; [by eapply p_le_trans|by eapply p_le_lt_trans|by eapply p_lt_le_trans|].
    eapply p_lt_le_trans; [exact H1|by apply p_lt_le]. }
  split.
  - destruct (lower r), (upper other); auto.
  - destruct (upper r), (lower other); try done. rewrite andb_comm. auto.
Qed.

End range.

(** Boxes that share a point intersect. *)
Lemma intersects_complete b other x y :
  contains_point b x y = true -> contains_point other x y = true -> intersects b other = true.
Proof.
  unfold contains_point, intersects. rewrite !andb_true_iff, !f_leb_fle. intros H1 H2. destruct_and?.
  split_and!; (eapply fle_trans; [eassumption|assumption]).
Qed.

Lemma contains_box_points b other x y :
  contains_box b other = true -> contains_point other x y = true -> contains_point b x y = true.
Proof.
  unfold contains_point, contains_box. rewrite !andb_true_iff, !f_leb_fle. intros H1 H2. destruct_and?.
  split_and!; (eapply fle_trans; [eassumption|assumption]).
Qed.

(* ------------------------------------------------------------------ *)
(** ** The index *)

Inductive GiSTEntry :=
| Point (x y : f64) (t : tid)
| Box (bbox : BoundingBox) (t : tid)
| EntryRange (range : Range f64) (t : tid).

Inductive GiSTIndexType := TPoint | TBox | TRange.

Record GiSTIndex := { gist_index_oid : Oid; gist_rel_oid : Oid; gist_index_type : GiSTIndexType; gist_entries : list GiSTEntry }.

Definition entry_tid (e : GiSTEntry) : tid := match e with Point _ _ t => t | Box _ t => t | EntryRange _ t => t end.

Definition GiSTIndex_new (index_oid rel_oid : Oid) (ty : GiSTIndexType) : GiSTIndex :=
  {| gist_index_oid := index_oid; gist_rel_oid := rel_oid; gist_index_type := ty; gist_entries := [] |}.

Definition with_gist_entries (g : GiSTIndex) (es : list GiSTEntry) : GiSTIndex :=
  {| gist_index_oid := gist_index_oid g; gist_rel_oid := gist_rel_oid g; gist_index_type := gist_index_type g; gist_entries := es |}.

Definition push_entry (e : GiSTEntry) (g : GiSTIndex) : GiSTIndex := with_gist_entries g (gist_entries g ++ [e]).
Definition insert_point (x y : f64) (t : tid) : GiSTIndex -> GiSTIndex := push_entry (Point x y t).
Definition insert_box (bbox : BoundingBox) (t : tid) : GiSTIndex -> GiSTIndex := push_entry (Box bbox t).
Definition insert_range (range : Range f64) (t : tid) : GiSTIndex -> GiSTIndex := push_entry (EntryRange range t).

Definition query_point (x y : f64) (g : GiSTIndex) : list tid :=
  omap (fun e => match e with
    | Point px py t => if f_ltb (f_abs (f_sub px x)) f_EPSILON && f_ltb (f_abs (f_sub py y)) f_EPSILON then Some t else None
    | Box bbox t => if contains_point bbox x y then Some t else None
    | _ => None end) (gist_entries g).

Definition query_bbox (query : BoundingBox) (g : GiSTIndex) : list tid :=
  omap (fun e => match e with
    | Point x y t => if contains_point query x y then Some t else None
    | Box bbox t => if intersects bbox query then Some t else None
    | _ => None end) (gist_entries g).

Definition query_range (query : Range f64) (g : GiSTIndex) : list tid :=
  omap (fun e => match e with
    | EntryRange range t => if range_overlaps range query then Some t else None
    | Point x _ _ => if range_contains query x then Some (entry_tid e) else None
    | _ => None end) (gist_entries g).

Definition gist_delete (t : tid) (g : GiSTIndex) : bool * GiSTIndex :=
  match position (fun e => bool_decide (entry_tid e = t)) (gist_entries g) with
  | Some pos => (true, with_gist_entries g (remove_at pos (gist_entries g)))
  | None => (false, g)
  end.

Definition gist_entry_count (g : GiSTIndex) : Z := zlen (gist_entries g).

(** The loop of [compute_bounding_box]: the box so far, and whether there was an entry. *)
Definition grow (acc : BoundingBox * bool) (e : GiSTEntry) : BoundingBox * bool :=
  let '(b, found) := acc in
  match e with
  | Point x y _ =>
      ({| min_x := f_min (min_x b) x; min_y := f_min (min_y b) y; max_x := f_max (max_x b) x; max_y := f_max (max_y b) y |}, true)
  | Box o _ =>
      ({| min_x := f_min (min_x b) (min_x o); min_y := f_min (min_y b) (min_y o);
          max_x := f_max (max_x b) (max_x o); max_y := f_max (max_y b) (max_y o) |}, true)
  | _ => acc
  end.

Definition compute_bounding_box (g : GiSTIndex) : option BoundingBox :=
  let '(b, found) := foldl grow ({| min_x := f_MAX; min_y := f_MAX; max_x := f_MIN; max_y := f_MIN |}, false) (gist_entries g) in
  if found then Some b else None.

(* ------------------------------------------------------------------ *)
(** ** Lemmas *)

(** The points that an entry of the plane covers. *)
Definition covers (e : GiSTEntry) (x y : f64) : Prop :=
  match e with Point px py _ => px = x /\ py = y | Box b _ => contains_point b x y = true | EntryRange _ _ => False end.

Definition finite (x : f64) : bool := match x with S754_zero _ | S754_finite _ _ _ => true | _ => false end.

Definition finite_entry (e : GiSTEntry) : Prop := match e with Point x y _ => finite x = true /\ finite y = true | _ => True end.

Lemma f_sub_same x : finite x = true -> f_sub x x = S754_zero false.
Proof. destruct x as [s|s| |s m e]; try done; intros _; [by destruct s|]. cbn. by rewrite Z.sub_diag. Qed.

Lemma query_bbox_complete query e x y g :
  e ∈ gist_entries g -> covers e x y -> contains_point query x y = true -> entry_tid e ∈ query_bbox query g.
Proof.
  intros Hin Hc Hq. apply list_elem_of_omap. exists e. split; [done|]. destruct e as [px py t|b t|r t]; cbn in *; [| |done].
  - destruct Hc as [-> ->]. by rewrite Hq.
  - by rewrite (intersects_complete b query x y).
Qed.

Lemma query_point_complete e x y g :
  e ∈ gist_entries g -> covers e x y -> finite_entry e -> entry_tid e ∈ query_point x y g.
Proof.
  intros Hin Hc Hf. apply list_elem_of_omap. exists e. split; [done|]. destruct e as [px py t|b t|r t]; cbn in *; [| |done].
  - destruct Hc as [<- <-], Hf as [Hx Hy]. by rewrite !f_sub_same.
  - by rewrite Hc.
Qed.

(** The values that an entry has on the line: those of a range, the abscissa of a
    point. *)
Definition spans (e : GiSTEntry) (v : f64) : Prop :=
  match e with EntryRange r _ => range_contains r v = true | Point x _ _ => v = x | Box _ _ => False end.

Lemma query_range_complete query e v g :
  e ∈ gist_entries g -> spans e v -> range_contains query v = true -> entry_tid e ∈ query_range query g.
Proof.
  intros Hin Hr Hq. apply list_elem_of_omap. exists e. split; [exact Hin|]. destruct e as [x y t|b t|r t]; cbn in *; [|done|].
  - subst v. by rewrite Hq.
  - by rewrite (overlaps_complete r query v).
Qed.

(** A box with a point in it. *)
Definition box_nonempty (b : BoundingBox) : Prop := f_leb (min_x b) (max_x b) = true /\ f_leb (min_y b) (max_y b) = true.

Definition entry_nonempty (e : GiSTEntry) : Prop := match e with Box b _ => box_nonempty b | _ => True end.

(** Of two segments that meet, the one that begins later begins in the other. *)
Lemma segments_meet a b c d :
  fle a b -> fle c d -> fle a d -> fle c b -> exists x, fle a x /\ fle x b /\ fle c x /\ fle x d.
Proof.
  intros Hab Hcd Had Hcb. destruct (fle_total a c) as [Hac|Hca]; [by destruct Hab|by destruct Hcd|exists c|exists a]; split_and!; try done; apply fle_refl;
    [by destruct Hcd|by destruct Hab].
Qed.

Lemma intersects_sound b other :
  box_nonempty b -> box_nonempty other -> intersects b other = true -> exists x y, contains_point b x y = true /\ contains_point other x y = true.
Proof.
  unfold box_nonempty, intersects, contains_point. rewrite !andb_true_iff, !f_leb_fle. intros [Hbx Hby] [Hox Hoy] Hi. destruct_and?.
  destruct (segments_meet (min_x b) (max_x b) (min_x other) (max_x other)) as (x & ? & ? & ? & ?); [done..|].
  destruct (segments_meet (min_y b) (max_y b) (min_y other) (max_y other)) as (y & ? & ? & ? & ?); [done..|].
  exists x, y. rewrite !andb_true_iff, !f_leb_fle. done.
Qed.

(** A box query reports nothing else. *)
Lemma query_bbox_sound query t g :
  box_nonempty query -> Forall entry_nonempty (gist_entries g) -> t ∈ query_bbox query g ->
  exists e x y, e ∈ gist_entries g /\ entry_tid e = t /\ covers e x y /\ contains_point query x y = true.
Proof.
  intros Hq Hes (e & Hin & He)%list_elem_of_omap. rewrite Forall_forall in Hes. specialize (Hes e Hin). destruct e as [x y t'|b t'|r t']; [| |done].
  - destruct (contains_point query x y) eqn:E; [|done]. injection He as ->. by exists (Point x y t), x, y.
  - destruct (intersects b query) eqn:E; [|done]. injection He as ->. destruct (intersects_sound b query Hes Hq E) as (x & y & Hb & Hqp).
    by exists (Box b t), x, y.
Qed.

(** No coordinate is NaN. *)
Definition no_nan (e : GiSTEntry) : Prop :=
  match e with
  | Point x y _ => f_is_nan x = false /\ f_is_nan y = false
  | Box b _ => f_is_nan (min_x b) = false /\ f_is_nan (min_y b) = false /\ f_is_nan (max_x b) = false /\ f_is_nan (max_y b) = false
  | EntryRange _ _ => True
  end.

Definition box_no_nan (b : BoundingBox) : Prop :=
  f_is_nan (min_x b) = false /\ f_is_nan (min_y b) = false /\ f_is_nan (max_x b) = false /\ f_is_nan (max_y b) = false.

(** Within the box. *)
Definition inside (b : BoundingBox) (e : GiSTEntry) : Prop :=
  match e with Point x y _ => contains_point b x y = true | Box o _ => contains_box b o = true | EntryRange _ _ => True end.

Definition planar (e : GiSTEntry) : bool := match e with EntryRange _ _ => false | _ => true end.

(** [b] reaches at least as far as [b']. *)
Definition wider (b b' : BoundingBox) : Prop :=
  fle (min_x b) (min_x b') /\ fle (min_y b) (min_y b') /\ fle (max_x b') (max_x b) /\ fle (max_y b') (max_y b).

Lemma inside_wider b b' e : wider b b' -> inside b' e -> inside b e.
Proof.
  intros (H1 & H2 & H3 & H4). destruct e as [x y t|o t|r t]; cbn; [unfold contains_point|unfold contains_box|done].
  all: rewrite !andb_true_iff, !f_leb_fle; intros H5; destruct_and?; split_and!; (eapply fle_trans; [eassumption|assumption]).
Qed.

Lemma wider_trans b b' b'' : wider b b' -> wider b' b'' -> wider b b''.
Proof. unfold wider. intros H1 H2. destruct_and?. split_and!; (eapply fle_trans; [eassumption|assumption]). Qed.

Lemma grow_wider b found e : box_no_nan b -> no_nan e ->
  let '(b', found') := grow (b, found) e in
  box_no_nan b' /\ wider b' b /\ inside b' e /\ found' = found || planar e.
Proof.
  intros (H1 & H2 & H3 & H4) Hn. destruct e as [x y t|o t|r t]; cbn [grow].
  - destruct Hn as [Hx Hy]. unfold box_no_nan, wider, inside, contains_point. cbn.
    rewrite !andb_true_iff, !f_leb_fle, orb_true_r.
    split_and!; try done; first [by apply f_min_nan | by apply f_max_nan | by apply f_min_le | by apply f_max_ge].
  - destruct Hn as (Hn1 & Hn2 & Hn3 & Hn4). unfold box_no_nan, wider, inside, contains_box. cbn.
    rewrite !andb_true_iff, !f_leb_fle, orb_true_r.
    split_and!; try done; first [by apply f_min_nan | by apply f_max_nan | by apply f_min_le | by apply f_max_ge].
  - rewrite orb_false_r. split_and!; try done. split_and!; by apply fle_refl.
Qed.

Lemma foldl_grow es b found : box_no_nan b -> Forall no_nan es ->
  let '(b', found') := foldl grow (b, found) es in
  wider b' b /\ Forall (inside b') es /\ found' = found || existsb planar es.
Proof.
  revert b found. induction es as [|e es IH]; intros b found Hb Hes; cbn [foldl existsb].
  - rewrite orb_false_r. split_and!; [|constructor|done]. destruct Hb as (? & ? & ? & ?). split_and!; by apply fle_refl.
  - apply Forall_cons in Hes as [He Hes]. pose proof (grow_wider b found e Hb He) as Hg.
    destruct (grow (b, found) e) as [b1 found1]. destruct Hg as (Hb1 & Hw1 & Hi1 & ->).
    specialize (IH b1 (found || planar e) Hb1 Hes). destruct (foldl grow _ es) as [b2 found2]. destruct IH as (Hw2 & Hi2 & ->).
    split; [by apply (wider_trans _ b1)|split].
    + constructor; [by apply (inside_wider b2 b1)|done].
    + by rewrite orb_assoc.
Qed.

(** C37. The search index. Its queries miss no row: a box query finds the row of every
    point and of every box that has a point in the box asked for, and reports no other
    when no box has its sides the wrong way round; a range query finds that of every
    range that shares a value with the range asked for, and of every point whose
    abscissa lies in it; a point query finds that of every box around the point and,
    when the coordinates are finite, of the point itself. The bounding box exists when
    there is a point or a box, and contains them all, if no coordinate is NaN.
    Deleting a row removes one entry of it, if there is one, and leaves the others. *)
Theorem gist_spec g :
  (forall query e x y, e ∈ gist_entries g -> covers e x y -> contains_point query x y = true -> entry_tid e ∈ query_bbox query g)
  /\ (forall query t, box_nonempty query -> Forall entry_nonempty (gist_entries g) -> t ∈ query_bbox query g ->
       exists e x y, e ∈ gist_entries g /\ entry_tid e = t /\ covers e x y /\ contains_point query x y = true)
  /\ (forall query e v, e ∈ gist_entries g -> spans e v -> range_contains query v = true -> entry_tid e ∈ query_range query g)
  /\ (forall e x y, e ∈ gist_entries g -> covers e x y -> finite_entry e -> entry_tid e ∈ query_point x y g)
  /\ (Forall no_nan (gist_entries g) ->
       match compute_bounding_box g with
       | Some b => Forall (inside b) (gist_entries g)
       | None => existsb planar (gist_entries g) = false
       end)
  /\ (forall t, match gist_delete t g with
       | (true, g') => exists e, entry_tid e = t /\ gist_entries g ≡ₚ e :: gist_entries g'
       | (false, g') => g' = g /\ Forall (fun e => entry_tid e <> t) (gist_entries g)
       end).
Proof.
  split_and!.
  - intros. by eapply query_bbox_complete.
  - intros. by apply query_bbox_sound.
  - intros. by eapply query_range_complete.
  - intros. by eapply query_point_complete.
  - intros Hn. unfold compute_bounding_box. pose proof (foldl_grow (gist_entries g)
      {| min_x := f_MAX; min_y := f_MAX; max_x := f_MIN; max_y := f_MIN |} false) as Hg.
    destruct (foldl grow _ _) as [b found]. destruct Hg as (_ & Hi & E); [done|done|]. cbn in E. by destruct found.
  - intros t. unfold gist_delete. destruct (position _ _) as [pos|] eqn:E.
    + apply position_spec in E as (e & He & Et%bool_decide_eq_true & _). exists e. split; [done|]. by apply remove_at_perm.
    + split; [done|]. apply position_None in E. eapply Forall_impl; [exact E|]. intros e Hb. by apply bool_decide_eq_false in Hb.
Qed.

(** A point at infinity is not found where it was put. *)
Example infinity_not_found :
  query_point (S754_infinity false) f_zero (insert_point (S754_infinity false) f_zero (1, 0) (GiSTIndex_new 1 1 TPoint)) = [].
Proof. by vm_compute. Qed.

(** Ranges that share no value can overlap: (0,1) and (1,1]. *)
Example empty_range_overlaps :
  let one_one := {| lower := Some f_one; upper := Some f_one; lower_inclusive := false; upper_inclusive := true |} in
  let zero_one := {| lower := Some f_zero; upper := Some f_one; lower_inclusive := true; upper_inclusive := true |} in
  range_contains one_one f_one = false /\ range_overlaps zero_one one_one = false
  /\ range_overlaps {| lower := Some f_zero; upper := None; lower_inclusive := true; upper_inclusive := true |} one_one = true.
Proof. split_and!; by vm_compute. Qed.
