(* ===== verification/Statistics.v ===== *)
(** Table statistics ([src/src/catalog/statistics.rs]): what is counted of the visible
    rows of a table, and the estimates made from it. *)

From Stdlib Require Import SpecFloat.
From S2P Require Import Prelude Types SqlText Float64 FloatOrder.

Record ColumnStatistics := {
  cs_table_oid : Oid;
  column_name : string;
  null_fraction : f64;
  average_width : f32;
  distinct_values : f32;
  mcv_frequency : list f32;
  histogram_bounds : list string;
}.

Record TableStatistics := {
  ts_table_oid : Oid;
  row_count : Z;
  page_count : Z;
  columns : gmap string ColumnStatistics;
}.

Record StatisticsCollector := { tables : gmap Oid TableStatistics }.

Definition StatisticsCollector_new : StatisticsCollector := {| tables := ∅ |}.

(* ------------------------------------------------------------------ *)
(** ** Collection *)

(** The counters of one column. *)
Record Counters := {
  null_count : Z;
  distinct : gset string;
  total_width : Z;
  value_counts : gmap string Z;
}.
Definition no_counts : Counters := {| null_count := 0; distinct := ∅; total_width := 0; value_counts := ∅ |}.

Definition is_null (val : string) : bool := String.eqb val "" || String.eqb val "NULL".

(** [step_by]: the elements at the multiples of [n]. *)
Definition step_by {A} (n : Z) (l : list A) : list A :=
  snd <$> List.filter (fun iv => iv.1 mod n =? 0) (imap (fun i v => (Z.of_nat i, v)) l).

Section collect.
Context {P : Profile}.

(** [+= 1] on an [i32]. *)
Definition inc_i32 (z : Z) : outcome Z :=
  if z + 1 <? 2 ^ 31 then Ok (z + 1) else if overflow_checks then Panic else Ok (z + 1 - 2 ^ 32).

Definition count_value (val : string) (c : Counters) : outcome Counters :=
  if is_null val then
    n ← inc_i32 (null_count c);
    Ok {| null_count := n; distinct := distinct c; total_width := total_width c; value_counts := value_counts c |}
  else
    w ← add_w 64 (total_width c) (text_len val);
    n ← inc_i32 (default 0 (value_counts c !! val));
    Ok {| null_count := null_count c; distinct := {[ val ]} ∪ distinct c; total_width := w; value_counts := <[ val := n ]> (value_counts c) |}.

Fixpoint count_column (col_idx : nat) (rows : list (list string * bool)) (c : Counters) : outcome Counters :=
  match rows with
  | [] => Ok c
  | (values, is_visible) :: rows =>
      if is_visible then
        match values !! col_idx with
        | Some val => c ← count_value val c; count_column col_idx rows c
        | None => count_column col_idx rows c
        end
      else count_column col_idx rows c
  end.

Definition visible_rows (rows : list (list string * bool)) : f64 := f_of_Z (zlen (List.filter snd rows)).

(** What is kept of the counters. *)
Definition mcv (visible : f64) (c : Counters) : list f32 :=
  take 10 (sort_by (fun a b => f_cmp b a)
    (List.filter (fun f => f_ltb (f32_of_ratio 1 100) f)
      (map (fun kv => f32_div (f32_of_Z kv.2) (f32_of_f64 visible)) (map_to_list (value_counts c))))).

Definition histogram (values : gset string) : list string :=
  let bounds := sort_by text_cmp (elements values) in
  let step := if 1 <? zlen bounds then zlen bounds / 10 else 1 in
  step_by (Z.max step 1) bounds.

Definition column_stats (table_oid : Oid) (name : string) (visible : f64) (c : Counters) : ColumnStatistics :=
  let count := Z.of_nat (size (distinct c)) in
  {| cs_table_oid := table_oid;
     column_name := name;
     null_fraction := if f_ltb f_zero visible then f_div (f_of_Z (null_count c)) visible else f_zero;
     average_width := if 0 <? count then f32_div (f32_of_Z (total_width c)) (f32_of_Z count) else f_zero;
     distinct_values := if f_ltb f_zero visible then f32_of_Z count else f_zero;
     mcv_frequency := mcv visible c;
     histogram_bounds := histogram (distinct c) |}.

Fixpoint collect_columns (table_oid : Oid) (rows : list (list string * bool)) (col_idx : nat) (names : list string)
    (cols : gmap string ColumnStatistics) : outcome (gmap string ColumnStatistics) :=
  match names with
  | [] => Ok cols
  | name :: names =>
      c ← count_column col_idx rows no_counts;
      collect_columns table_oid rows (Datatypes.S col_idx) names (<[ name := column_stats table_oid name (visible_rows rows) c ]> cols)
  end.

Definition collect_table_stats (table_oid : Oid) (rows : list (list string * bool)) (column_names : list string)
    (s : StatisticsCollector) : outcome StatisticsCollector :=
  cols ← collect_columns table_oid rows 0 column_names ∅;
  Ok {| tables := <[ table_oid :=
    {| ts_table_oid := table_oid; row_count := f_to_u64 (visible_rows rows); page_count := 0; columns := cols |} ]> (tables s) |}.

End collect.

(* ------------------------------------------------------------------ *)
(** ** Estimates *)

Definition get_table_stats (s : StatisticsCollector) (table_oid : Oid) : option TableStatistics := tables s !! table_oid.

Definition get_column_stats (s : StatisticsCollector) (table_oid : Oid) (name : string) : option ColumnStatistics :=
  t ← tables s !! table_oid; columns t !! name.

Definition tenths (n : Z) : f64 := f_of_ratio false n 10.

Definition column_selectivity (s : StatisticsCollector) (table_oid : Oid) (name op value : string) : f64 :=
  match get_column_stats s table_oid name with
  | Some stats =>
      if bool_decide (op ∈ ["="; "=="]) then
        if f_ltb f_zero (distinct_values stats) then f_div f_one (f64_of_f32 (distinct_values stats)) else tenths 1
      else if bool_decide (op ∈ ["<"; "<="]) then tenths 3
      else if bool_decide (op ∈ [">"; ">="]) then tenths 3
      else if bool_decide (op ∈ ["<>"; "!="]) then tenths 9
      else if bool_decide (op ∈ ["LIKE"]) then tenths 1 else tenths 1
  | None => tenths 1
  end.

Section join.
(** The order in which a hash map of columns is iterated. *)
Context (values_order : gmap string ColumnStatistics -> list ColumnStatistics).

Definition first_distinct (s : StatisticsCollector) (oid : Oid) : f64 :=
  default (f_of_Z 1000) (t ← get_table_stats s oid; c ← head (values_order (columns t)); Some (f64_of_f32 (distinct_values c))).

Definition estimate_join_cost (s : StatisticsCollector) (left_oid right_oid : Oid) (left_rows right_rows : f64) : f64 :=
  f_div (f_mul left_rows right_rows) (f_max (first_distinct s left_oid) (first_distinct s right_oid)).

End join.

(* ------------------------------------------------------------------ *)
(** ** What is counted *)

(** The values of a column in the visible rows that are long enough. *)
Definition column_values (col_idx : nat) (rows : list (list string * bool)) : list string :=
  omap (fun r : list string * bool => if r.2 then r.1 !! col_idx else None) rows.

Definition nulls (vs : list string) : list string := List.filter is_null vs.
Definition non_nulls (vs : list string) : list string := List.filter (fun v => negb (is_null v)) vs.
Definition widths (vs : list string) : Z := foldr (fun v n => text_len v + n) 0 vs.
Definition occurs (v : string) (vs : list string) : Z := zlen (List.filter (String.eqb v) vs).

(** The counters count the values. *)
Record counts_of (vs : list string) (c : Counters) : Prop := {
  counts_nulls : null_count c = zlen (nulls vs);
  counts_distinct : distinct c = list_to_set (non_nulls vs);
  counts_width : total_width c = widths (non_nulls vs);
  counts_values : forall v, default 0 (value_counts c !! v) = occurs v (non_nulls vs);
  counts_present : forall v, is_Some (value_counts c !! v) <-> v ∈ non_nulls vs;
}.

Lemma counts_none : counts_of [] no_counts.
Proof. split; try done. intros v. cbn. split; [by intros []|by intros ?%not_elem_of_nil]. Qed.

Lemma nulls_snoc vs v : nulls (vs ++ [v]) = nulls vs ++ (if is_null v then [v] else []).
Proof. unfold nulls. rewrite List.filter_app. cbn. by destruct (is_null v). Qed.
Lemma non_nulls_snoc vs v : non_nulls (vs ++ [v]) = non_nulls vs ++ (if is_null v then [] else [v]).
Proof. unfold non_nulls. rewrite List.filter_app. cbn. by destruct (is_null v). Qed.
Lemma widths_app vs ws : widths (vs ++ ws) = widths vs + widths ws.
Proof. unfold widths. induction vs as [|v vs IH]; cbn; [done|]. rewrite IH. lia. Qed.
Lemma widths_nonneg vs : 0 <= widths vs.
Proof. unfold widths. induction vs as [|v vs IH]; cbn; [done|]. unfold text_len in *. lia. Qed.
Lemma occurs_app v vs ws : occurs v (vs ++ ws) = occurs v vs + occurs v ws.
Proof. unfold occurs. rewrite List.filter_app, length_app. lia. Qed.
Lemma occurs_one v v' : occurs v [v'] = if String.eqb v v' then 1 else 0.
Proof. unfold occurs. cbn. by destruct (String.eqb v v'). Qed.
Lemma length_filter_le {A} (p : A -> bool) l : zlen (List.filter p l) <= zlen l.
Proof. induction l as [|a l IH]; cbn; [lia|]. destruct (p a); cbn; lia. Qed.

Section counting.
Context {P : Profile}.

Lemma inc_i32_ok z : z + 1 < 2 ^ 31 -> inc_i32 z = Ok (z + 1).
Proof. intros Hz. unfold inc_i32. by rewrite (proj2 (Z.ltb_lt _ _) Hz). Qed.

Lemma count_value_ok vs v c : counts_of vs c -> zlen vs + 1 < 2 ^ 31 -> widths (non_nulls (vs ++ [v])) < 2 ^ 64 ->
  exists c', count_value v c = Ok c' /\ counts_of (vs ++ [v]) c'.
Proof.
  intros [Hn Hd Hw Hc Hp] Hlen Hwid. unfold count_value. rewrite non_nulls_snoc, widths_app in Hwid.
  destruct (is_null v) eqn:E.
  - pose proof (length_filter_le is_null vs). fold (nulls vs) in *.
    rewrite inc_i32_ok by lia. eexists. split; [done|]. split; cbn; rewrite ?nulls_snoc, ?non_nulls_snoc, E, ?app_nil_r; try done.
    rewrite length_app. cbn. lia.
  - replace (widths [v]) with (text_len v) in Hwid by (cbn; lia). pose proof (widths_nonneg (non_nulls vs)).
    assert (0 <= text_len v) by (unfold text_len; lia). rewrite (add_w_ok 64) by (unfold in_width; lia).
    rewrite ok_bind. pose proof (length_filter_le (String.eqb v) (non_nulls vs)). fold (occurs v (non_nulls vs)) in *.
    pose proof (length_filter_le (fun v => negb (is_null v)) vs). fold (non_nulls vs) in *.
    rewrite inc_i32_ok by (rewrite Hc; lia). eexists. split; [done|].
    split; cbn; rewrite ?nulls_snoc, ?non_nulls_snoc, E, ?app_nil_r; try done.
    + rewrite Hd, list_to_set_app_L. cbn. set_solver.
    + rewrite Hw, widths_app. cbn. lia.
    + intros v'. rewrite occurs_app, occurs_one. destruct (String.eqb_spec v' v) as [->|Hne].
      * rewrite lookup_insert_eq. cbn. by rewrite Hc.
      * rewrite lookup_insert_ne, Hc by done. lia.
    + intros v'. rewrite elem_of_app, list_elem_of_singleton, <- Hp. destruct (decide (v = v')) as [<-|Hne].
      * rewrite lookup_insert_eq. split; [by right|eauto].
      * rewrite lookup_insert_ne by done. split; [by left|]. by intros [|<-].
Qed.

Lemma count_column_ok col_idx rows vs c :
  counts_of vs c -> zlen (vs ++ column_values col_idx rows) < 2 ^ 31 ->
  widths (non_nulls (vs ++ column_values col_idx rows)) < 2 ^ 64 ->
  exists c', count_column col_idx rows c = Ok c' /\ counts_of (vs ++ column_values col_idx rows) c'.
Proof.
  revert vs c. induction rows as [|[values vis] rows IH]; intros vs c Hc Hlen Hw; cbn in *.
  - rewrite app_nil_r. eauto.
  - destruct vis; cbn in *; [|by apply IH]. destruct (values !! col_idx) as [v|]; cbn in *; [|by apply IH].
    rewrite (cons_middle v) , app_assoc in *. destruct (count_value_ok vs v c) as (c1 & E1 & Hc1); [done| | |].
    + rewrite !length_app in Hlen. cbn in Hlen. lia.
    + unfold non_nulls in *. rewrite List.filter_app, widths_app in Hw. pose proof (widths_nonneg (non_nulls (column_values col_idx rows))).
      unfold non_nulls, column_values in *. lia.
    + rewrite E1, ok_bind. by apply IH.
Qed.

End counting.

(* ------------------------------------------------------------------ *)
(** ** Histograms *)

Section step.
Context {A : Type} (n : Z) (Hn : 0 < n).

(** [step_by] of a list whose first element has the number [k]. *)
Definition step_from (k : nat) (l : list A) : list A :=
  snd <$> List.filter (fun iv => iv.1 mod n =? 0) (imap (fun i v => (Z.of_nat (k + i), v)) l).

Lemma step_from_cons k (a : A) (l : list A) : step_from k (a :: l) = (if Z.of_nat k mod n =? 0 then [a] else []) ++ step_from (S k) l.
Proof.
  unfold step_from. cbn [imap List.filter fst]. rewrite Nat.add_0_r.
  assert (E : imap ((fun i v => (Z.of_nat (k + i), v)) ∘ S) l = imap (fun i v => (Z.of_nat (S k + i), v)) l).
  { apply imap_ext. intros. cbn. do 2 f_equal. lia. }
  rewrite E. by destruct (_ =? 0).
Qed.

Lemma step_from_length k l : zlen (step_from k l) = (Z.of_nat k + zlen l + n - 1) / n - (Z.of_nat k + n - 1) / n.
Proof.
  revert k. induction l as [|a l IH]; intros k; [cbn; rewrite Z.add_0_r; lia|].
  rewrite step_from_cons, length_app, Nat2Z.inj_add, IH. cbn [length].
  replace (Z.of_nat k + Z.of_nat (S (length l)) + n - 1) with (Z.of_nat (S k) + zlen l + n - 1) by lia.
  enough ((Z.of_nat (S k) + n - 1) / n - (Z.of_nat k + n - 1) / n = if Z.of_nat k mod n =? 0 then 1 else 0) by (destruct (_ =? 0); cbn [length] in *; lia).
  pose proof (Z.div_mod (Z.of_nat k) n). pose proof (Z.mod_pos_bound (Z.of_nat k) n Hn).
  set (q := Z.of_nat k / n) in *. set (r := Z.of_nat k mod n) in *. destruct (Z.eqb_spec r 0).
  - rewrite <- (Z.div_unique (Z.of_nat (S k) + n - 1) n (q + 1) 0), <- (Z.div_unique (Z.of_nat k + n - 1) n q (n - 1)); lia.
  - rewrite <- (Z.div_unique (Z.of_nat (S k) + n - 1) n (q + 1) r), <- (Z.div_unique (Z.of_nat k + n - 1) n (q + 1) (r - 1)); lia.
Qed.

Lemma step_from_sublist k l : sublist (step_from k l) l.
Proof.
  revert k. induction l as [|a l IH]; intros k; [done|]. rewrite step_from_cons.
  destruct (_ =? 0); cbn; [by constructor|]. by apply sublist_cons.
Qed.

Lemma step_by_from (l : list A) : step_by n l = step_from 0 l.
Proof. done. Qed.

Lemma step_by_head (a : A) (l : list A) : head (step_by n (a :: l)) = Some a.
Proof. rewrite step_by_from, step_from_cons. by rewrite Z.mod_0_l by lia. Qed.
End step.

Lemma Forall_sublist {A} (Q : A -> Prop) l k : sublist l k -> Forall Q k -> Forall Q l.
Proof. rewrite !Forall_forall. intros Hl HQ x Hx. apply HQ. by eapply elem_of_sublist. Qed.

Lemma StronglySorted_sublist {A} (R : A -> A -> Prop) l k : sublist l k -> StronglySorted R k -> StronglySorted R l.
Proof.
  induction 1 as [|x l k Hl IH|x l k Hl IH]; inversion 1; subst; [done| |by apply IH].
  constructor; [by apply IH|]. by eapply Forall_sublist.
Qed.

Lemma histogram_spec (values : gset string) :
  StronglySorted (fun a b => text_ltb a b = true) (histogram values)
  /\ Forall (fun v => v ∈ values) (histogram values)
  /\ zlen (histogram values) <= 19
  /\ (forall v, v ∈ values -> exists h, head (histogram values) = Some h /\ text_leb h v = true).
Proof.
  unfold histogram. set (bounds := sort_by text_cmp (elements values)). set (step := if 1 <? zlen bounds then _ else 1).
  assert (Hstep : 0 < Z.max step 1) by lia.
  assert (Hperm : bounds ≡ₚ elements values) by apply sort_by_perm.
  assert (Hsort : StronglySorted (fun a b => text_cmp a b <> Gt) bounds) by apply (sort_by_sorted text_cmp).
  assert (Hnd : NoDup bounds) by (rewrite Hperm; apply NoDup_elements).
  assert (Hltb : StronglySorted (fun a b => text_ltb a b = true) bounds).
  { clearbody bounds. clear Hperm step Hstep. induction Hsort as [|a l Hl IH Ha]; constructor; apply NoDup_cons in Hnd as [Hna Hnd]; [by apply IH|].
    rewrite Forall_forall in *. intros b Hb. specialize (Ha b Hb). unfold text_ltb. destruct (text_cmp a b) eqn:E; try done.
    by apply text_cmp_eq in E as <-. }
  split_and!.
  - eapply StronglySorted_sublist; [apply (step_from_sublist _ 0)|done].
  - eapply Forall_sublist; [apply (step_from_sublist _ 0)|]. apply Forall_forall. intros v Hv. rewrite Hperm in Hv. by apply elem_of_elements.
  - rewrite step_by_from, step_from_length by done. cbn [Z.of_nat]. rewrite Z.add_0_l.
    assert (0 <= zlen bounds) by lia. generalize dependent (zlen bounds). intros n ? ? Hn. clear -Hn Hstep. 
    rewrite (Z.div_small (0 + Z.max step 1 - 1)) by lia. rewrite Z.sub_0_r.
    subst step. apply Z.lt_succ_r, Z.div_lt_upper_bound; [lia|].
    destruct (Z.ltb_spec 1 n); [|lia]. pose proof (Z.div_mod n 10). pose proof (Z.mod_pos_bound n 10). lia.
  - intros v Hv. apply elem_of_elements in Hv. rewrite <- Hperm in Hv. destruct bounds as [|h l]; [by apply not_elem_of_nil in Hv|].
    exists h. rewrite step_by_head by done. split; [done|]. apply elem_of_cons in Hv as [->|Hv].
    + unfold text_leb. by rewrite text_cmp_refl.
    + apply StronglySorted_inv in Hltb as [_ Hl]. rewrite Forall_forall in Hl. specialize (Hl v Hv). unfold text_leb, text_ltb in *.
      by destruct (text_cmp h v).
Qed.

(* ------------------------------------------------------------------ *)
(** ** Collected statistics *)

Section collected.
Context {P : Profile}.

Definition fits (rows : list (list string * bool)) : Prop :=
  zlen rows < 2 ^ 31 /\ forall i, widths (non_nulls (column_values i rows)) < 2 ^ 64.

Lemma column_values_length i rows : zlen (column_values i rows) <= zlen rows.
Proof.
  unfold column_values. induction rows as [|[vs vis] rows IH]; [done|]. cbn. destruct vis; [|lia]. destruct (vs !! i); cbn; lia.
Qed.

Lemma collect_columns_ok oid rows k names cols : fits rows ->
  exists cols', collect_columns oid rows k names cols = Ok cols'
    /\ (forall name, name ∉ names -> cols' !! name = cols !! name)
    /\ (forall i name, names !! i = Some name -> (forall j, (i < j)%nat -> names !! j <> Some name) ->
        exists c, counts_of (column_values (k + i) rows) c /\ cols' !! name = Some (column_stats oid name (visible_rows rows) c)).
Proof.
  intros [Hr Hw]. revert k cols. induction names as [|name names IH]; intros k cols; cbn [collect_columns].
  - exists cols. split_and!; done.
  - destruct (count_column_ok k rows [] no_counts) as (c & E & Hc); cbn [app] in *;
      [apply counts_none|pose proof (column_values_length k rows); lia|apply Hw|].
    rewrite E, ok_bind. destruct (IH (S k) (<[ name := column_stats oid name (visible_rows rows) c ]> cols)) as (cols' & E' & Hout & Hin).
    exists cols'. split_and!; [done| |].
    + intros name' [Hne Hni]%not_elem_of_cons. by rewrite Hout, lookup_insert_ne by done.
    + intros [|i] name' Hname Hlast; cbn in Hname.
      * injection Hname as <-. rewrite Nat.add_0_r. exists c. split; [done|]. rewrite Hout, lookup_insert_eq; [done|].
        intros [j Hj]%list_elem_of_lookup. apply (Hlast (S j)); [lia|done].
      * replace (k + S i)%nat with (S k + i)%nat by lia. apply Hin; [done|]. intros j Hj. apply (Hlast (S j)). lia.
Qed.

(** C36. Collection. Of a table of fewer than [2 ^ 31] rows whose text fits in 64 bits,
    collection succeeds and replaces the statistics of this table alone; each column
    (the last of its name) gets what the visible rows hold in it: the fraction of
    empty and NULL values, the number of other values, at most ten frequencies, each
    above one percent, and a histogram that ascends, holds values of the column alone,
    starts with the least of them, and has at most 19 bounds. *)
Theorem collect_stats_spec oid rows names s (Hrows : fits rows) :
  exists s', collect_table_stats oid rows names s = Ok s'
    /\ (forall o, o <> oid -> get_table_stats s' o = get_table_stats s o)
    /\ (row_count <$> get_table_stats s' oid) = Some (f_to_u64 (visible_rows rows))
    /\ (forall i name, names !! i = Some name -> (forall j, (i < j)%nat -> names !! j <> Some name) ->
        let vs := column_values i rows in
        exists c, get_column_stats s' oid name = Some c
          /\ null_fraction c = (if f_ltb f_zero (visible_rows rows) then f_div (f_of_Z (zlen (nulls vs))) (visible_rows rows) else f_zero)
          /\ distinct_values c = (if f_ltb f_zero (visible_rows rows)
              then f32_of_Z (Z.of_nat (size (list_to_set (non_nulls vs) : gset string))) else f_zero)
          /\ (zlen (mcv_frequency c) <= 10 /\ Forall (fun f => f_ltb (f32_of_ratio 1 100) f = true) (mcv_frequency c))
          /\ StronglySorted (fun a b => text_ltb a b = true) (histogram_bounds c)
          /\ Forall (fun v => v ∈ non_nulls vs) (histogram_bounds c)
          /\ zlen (histogram_bounds c) <= 19
          /\ (forall v, v ∈ non_nulls vs -> exists h, head (histogram_bounds c) = Some h /\ text_leb h v = true)).
Proof.
  destruct (collect_columns_ok oid rows 0 names ∅ Hrows) as (cols & E & _ & Hcols).
  eexists. unfold collect_table_stats. rewrite E, ok_bind. split; [done|]. unfold get_column_stats, get_table_stats. cbn.
  split_and!; [intros o Ho; by rewrite lookup_insert_ne|by rewrite lookup_insert_eq|].
  intros i name Hname Hlast. destruct (Hcols i name Hname Hlast) as (c & [Hn Hd _ _ _] & Ec).
  exists (column_stats oid name (visible_rows rows) c). rewrite lookup_insert_eq. cbn. split; [done|].
  destruct (histogram_spec (distinct c)) as (H1 & H2 & H3 & H4).
  split_and!; [by rewrite Hn|by rewrite Hd| | |done| |done|].
  - unfold mcv. rewrite length_take. lia.
  - unfold mcv. apply Forall_take. rewrite sort_by_perm. apply Forall_forall. intros f Hf.
    apply list_elem_of_In, List.filter_In in Hf. by destruct Hf.
  - eapply Forall_impl; [exact H2|]. intros v. rewrite Hd. by rewrite elem_of_list_to_set.
  - intros v Hv. apply H4. rewrite Hd. by rewrite elem_of_list_to_set.
Qed.

End collected.

Lemma collect_stats_spec_witness :
  let rows := [(["b"; "1"], true); (["a"; ""], true); (["c"; "2"], false); (["a"; "NULL"], true)] in
  exists s', @collect_table_stats debug_profile 5 rows ["name"; "n"] StatisticsCollector_new = Ok s'
    /\ (row_count <$> get_table_stats s' 5) = Some 3
    /\ (histogram_bounds <$> get_column_stats s' 5 "name") = Some ["a"; "b"]
    /\ (null_fraction <$> get_column_stats s' 5 "n") = Some (f_div (f_of_Z 2) (f_of_Z 3)).
Proof.
  destruct (@collect_stats_spec debug_profile 5 [(["b"; "1"], true); (["a"; ""], true); (["c"; "2"], false); (["a"; "NULL"], true)]
    ["name"; "n"] StatisticsCollector_new) as (s' & E & _ & Hr & Hc).
  { split; [by vm_compute|]. intros [|[|[|i]]]; vm_compute; done. }
  exists s'. split; [done|]. split; [rewrite Hr; by vm_compute|]. split.
  - vm_compute in E. injection E as <-. by vm_compute.
  - destruct (Hc 1%nat "n") as (c & -> & Hn & _); [done|intros [|[|[|j]]]; cbn; try lia; done|]. cbn. rewrite Hn. by vm_compute.
Defined.
