(* ===== verification/Optimizer.v ===== *)
(** The cost optimizer ([src/src/executor/select/optimizer.rs]): costs of scans and
    joins, the choice of a join algorithm, and the order of tables. *)

From Stdlib Require Import SpecFloat.
From S2P Require Import Prelude Types SqlText Float64 Ast FloatOrder Statistics.

Record CostEstimate := {
  startup_cost : f64;
  total_cost : f64;
  estimated_rows : f64;
  width : Z;
}.

Inductive PlanNodeType :=
| SeqScan (table_oid : Oid) (table_name : string)
| IndexScan (table_oid index_oid : Oid) (table_name index_name : string)
| NestedLoopJoin (join_type : JoinType) (condition : option Expr)
| HashJoin (join_type : JoinType) (condition : option Expr)
| MergeJoin (join_type : JoinType) (condition : option Expr)
| Sort (columns : list string) (directions : list SortDirection)
| HashAggregate (group_by aggregates : list Expr)
| Limit (limit offset : Z).

Inductive PlanNode := Plan (node_type : PlanNodeType) (cost : CostEstimate) (children : list PlanNode).

Record CostOptimizer := { stats : StatisticsCollector; table_costs : gmap string CostEstimate }.
Definition CostOptimizer_new (s : StatisticsCollector) : CostOptimizer := {| stats := s; table_costs := ∅ |}.

(** [ln], of which only the value at zero matters below. *)
Class Ln := f_ln : f64 -> f64.
Class LnLaws `{Ln} : Prop := ln_zero : forall s, f_ln (S754_zero s) = S754_infinity true.

Section optimizer.
Context `{Ln} {P : Profile}.

Definition hundredths (n : Z) : f64 := f_of_ratio false n 100.
Definition thousandths (n : Z) : f64 := f_of_ratio false n 1000.

Definition table_rows (o : CostOptimizer) (table_oid : Oid) : f64 :=
  default (f_of_Z 1000) ((fun s => f_of_Z (row_count s)) <$> get_table_stats (stats o) table_oid).

Definition estimate_seq_scan (o : CostOptimizer) (table_name : string) (table_oid : Oid) (selectivity : f64) : CostEstimate :=
  let rows := table_rows o table_oid in
  let cpu_cost := f_mul rows (hundredths 1) in
  let io_cost := f_mul rows (tenths 1) in
  {| startup_cost := f_zero; total_cost := f_add cpu_cost io_cost; estimated_rows := rows; width := 100 |}.

Definition estimate_index_scan (o : CostOptimizer) (table_name : string) (table_oid index_oid : Oid) (selectivity : f64) : CostEstimate :=
  let rows := f_mul (table_rows o table_oid) selectivity in
  let index_cost := if f_ltb f_one rows then f_mul (f_ln rows) (f_of_Z 2) else f_one in
  let heap_cost := f_mul rows (tenths 1) in
  {| startup_cost := index_cost; total_cost := f_add index_cost heap_cost; estimated_rows := rows; width := 100 |}.

Definition estimate_nested_loop_join (l r : CostEstimate) (selectivity : f64) : outcome CostEstimate :=
  let outer_rows := estimated_rows l in
  let inner_rows := estimated_rows r in
  let cpu_cost := f_mul (f_mul outer_rows inner_rows) (thousandths 1) in
  w ← add_w 64 (width l) (width r);
  Ok {| startup_cost := f_add (startup_cost l) (startup_cost r);
        total_cost := f_add (f_add (total_cost l) (total_cost r)) cpu_cost;
        estimated_rows := f_mul (f_mul outer_rows inner_rows) selectivity;
        width := w |}.

Definition estimate_hash_join (l r : CostEstimate) (selectivity : f64) : outcome CostEstimate :=
  let build_rows := estimated_rows r in
  let probe_rows := estimated_rows l in
  let build_cost := f_mul build_rows (tenths 1) in
  let probe_cost := f_mul probe_rows (hundredths 1) in
  w ← add_w 64 (width l) (width r);
  Ok {| startup_cost := f_add (startup_cost r) build_cost;
        total_cost := f_add (f_add (f_add (total_cost l) (total_cost r)) build_cost) probe_cost;
        estimated_rows := f_mul probe_rows selectivity;
        width := w |}.

Definition estimate_merge_join (l r : CostEstimate) (selectivity : f64) : outcome CostEstimate :=
  let left_rows := estimated_rows l in
  let right_rows := estimated_rows r in
  let sort_cost_left := f_mul (f_mul left_rows (f_ln left_rows)) (hundredths 1) in
  let sort_cost_right := f_mul (f_mul right_rows (f_ln right_rows)) (hundredths 1) in
  let merge_cost := f_mul (f_add left_rows right_rows) (thousandths 1) in
  w ← add_w 64 (width l) (width r);
  Ok {| startup_cost := f_add sort_cost_left sort_cost_right;
        total_cost := f_add (f_add (f_add (f_add (total_cost l) (total_cost r)) sort_cost_left) sort_cost_right) merge_cost;
        estimated_rows := f_mul (f_div (f_add left_rows right_rows) (f_of_Z 2)) selectivity;
        width := w |}.

Definition optimizer_join_algorithm (l r : CostEstimate) (selectivity : f64) : outcome (PlanNodeType * CostEstimate) :=
  nested_loop ← estimate_nested_loop_join l r selectivity;
  hash_join ← estimate_hash_join l r selectivity;
  merge_join ← estimate_merge_join l r selectivity;
  Ok (if f_leb (total_cost hash_join) (total_cost nested_loop) && f_leb (total_cost hash_join) (total_cost merge_join)
      then (HashJoin JoinType.Inner None, hash_join)
      else if f_leb (total_cost merge_join) (total_cost nested_loop) then (MergeJoin JoinType.Inner None, merge_join)
      else (NestedLoopJoin JoinType.Inner None, nested_loop)).

Definition optimize_join_order (ts : list (string * Oid * CostEstimate)) : list (string * Oid * CostEstimate) :=
  if zlen ts <=? 1 then ts
  else sort_by (fun a b => f_cmp (estimated_rows a.2) (estimated_rows b.2)) ts.

Definition optimizer_selectivity (o : CostOptimizer) (table_oid : Oid) (column op value : string) : f64 :=
  column_selectivity (stats o) table_oid column op value.

End optimizer.

(* ------------------------------------------------------------------ *)
(** ** The choice of an algorithm *)

Section choice.
Context `{Ln} {P : Profile}.

Lemma f_leb_or x y : f_is_nan x = false -> f_is_nan y = false -> f_leb x y = true \/ (f_leb x y = false /\ fle y x).
Proof.
  intros Hx Hy. destruct (f_leb x y) eqn:E; [by left|right; split; [done|]]. destruct (fle_total x y) as [Hl|]; [done..| |done].
  apply f_leb_fle in Hl. congruence.
Qed.

Lemma add_nan_l x : f_add S754_nan x = S754_nan.
Proof. done. Qed.
Lemma add_nan_r x : f_add x S754_nan = S754_nan.
Proof. by destruct x. Qed.

(** A side of no rows makes the cost of a merge join a NaN. *)
Lemma merge_cost_nan `{!LnLaws} l r sel m : estimate_merge_join l r sel = Ok m ->
  (exists s, estimated_rows l = S754_zero s) \/ (exists s, estimated_rows r = S754_zero s) -> total_cost m = S754_nan.
Proof.
  unfold estimate_merge_join. intros (w & _ & E)%bind_ok. injection E as <-. cbn.
  intros [[s ->]|[s ->]]; rewrite ln_zero.
  - replace (f_mul (S754_zero s) (S754_infinity true)) with S754_nan by by destruct s. change (f_mul S754_nan _) with S754_nan.
    by rewrite add_nan_r, !add_nan_l.
  - replace (f_mul (S754_zero s) (S754_infinity true)) with S754_nan by by destruct s. change (f_mul S754_nan _) with S754_nan.
    by rewrite add_nan_r, !add_nan_l.
Qed.

(** The choice of a join algorithm, for rows whose widths add up in 64 bits. The
    algorithm chosen is one of the three with its own estimate; its cost is the least of
    the three, when none is a NaN. But a side that is estimated to have no rows makes
    the cost of the merge join [0 * ln 0], a NaN, and then the nested loop is chosen
    whatever the other two cost. *)
Theorem choose_join_least `{!LnLaws} l r sel (Hw : 0 <= width l + width r < 2 ^ 64) :
  exists n h m alg c,
    estimate_nested_loop_join l r sel = Ok n /\ estimate_hash_join l r sel = Ok h /\ estimate_merge_join l r sel = Ok m
    /\ optimizer_join_algorithm l r sel = Ok (alg, c)
    /\ ((alg, c) = (NestedLoopJoin JoinType.Inner None, n) \/ (alg, c) = (HashJoin JoinType.Inner None, h)
        \/ (alg, c) = (MergeJoin JoinType.Inner None, m))
    /\ (f_is_nan (total_cost n) = false -> f_is_nan (total_cost h) = false -> f_is_nan (total_cost m) = false ->
        fle (total_cost c) (total_cost n) /\ fle (total_cost c) (total_cost h) /\ fle (total_cost c) (total_cost m))
    /\ ((exists s, estimated_rows l = S754_zero s) \/ (exists s, estimated_rows r = S754_zero s) ->
        (alg, c) = (NestedLoopJoin JoinType.Inner None, n)).
Proof.
  assert (Ew : add_w 64 (width l) (width r) = Ok (width l + width r)) by by apply add_w_ok.
  unfold optimizer_join_algorithm. pose proof (merge_cost_nan l r sel) as Hnan.
  unfold estimate_nested_loop_join, estimate_hash_join, estimate_merge_join in *. rewrite Ew in *. rewrite !ok_bind in *. cbv zeta in *.
  specialize (Hnan _ eq_refl).
  match goal with |- exists n h m _ _, Ok ?n' = _ /\ Ok ?h' = _ /\ Ok ?m' = _ /\ _ =>
    set (nl := n') in *; set (hj := h') in *; set (mj := m') in * end.
  clearbody nl hj mj. exists nl, hj, mj.
  destruct (f_leb (total_cost hj) (total_cost nl) && f_leb (total_cost hj) (total_cost mj)) eqn:E1;
    [|destruct (f_leb (total_cost mj) (total_cost nl)) eqn:E2]; do 2 eexists; (split_and!; [done..|auto| |]).
  - intros Hn Hh Hm. apply andb_prop in E1 as [H1 H2]. rewrite f_leb_fle in H1, H2. split_and!; [done|by apply fle_refl|done].
  - intros Hz. rewrite (Hnan Hz), andb_comm in E1. by destruct (total_cost hj).
  - intros Hn Hh Hm. rewrite f_leb_fle in E2. split_and!; [done| |by apply fle_refl].
    apply andb_false_iff in E1 as [E1|E1]; [destruct (f_leb_or (total_cost hj) (total_cost nl)) as [|[_ ?]]|destruct (f_leb_or (total_cost hj) (total_cost mj)) as [|[_ ?]]];
      try done; try congruence. by apply (fle_trans _ (total_cost nl)).
  - intros Hz. rewrite (Hnan Hz) in E2. done.
  - intros Hn Hh Hm. destruct (f_leb_or (total_cost mj) (total_cost nl)) as [|[_ Hnm]]; [done..|congruence|].
    split_and!; [by apply fle_refl| |done].
    apply andb_false_iff in E1 as [E1|E1]; [destruct (f_leb_or (total_cost hj) (total_cost nl)) as [|[_ ?]]|destruct (f_leb_or (total_cost hj) (total_cost mj)) as [|[_ ?]]];
      try done; try congruence. by apply (fle_trans _ (total_cost mj)).
  - done.
Qed.

End choice.

(* ------------------------------------------------------------------ *)
(** ** The order of tables *)

Lemma sorted_insert_ext {A} (c c' : A -> A -> comparison) x l :
  Forall (fun y => c x y = c' x y) l -> sorted_insert c x l = sorted_insert c' x l.
Proof. induction 1 as [|y l Hy _ IH]; [done|]. cbn. rewrite Hy. destruct (c' x y); [done..|]. by rewrite IH. Qed.

Lemma sort_by_ext {A} (c c' : A -> A -> comparison) (Q : A -> Prop) l :
  (forall x y, Q x -> Q y -> c x y = c' x y) -> Forall Q l -> sort_by c l = sort_by c' l.
Proof.
  intros Hc. induction 1 as [|x l Hx Hl IH]; [done|]. cbn. fold (sort_by c l) (sort_by c' l). rewrite IH.
  apply sorted_insert_ext. rewrite sort_by_perm. eapply Forall_impl; [exact Hl|]. intros y Hy. by apply Hc.
Qed.

(** [partial_cmp] with a NaN taken for 0. *)
Definition f_number (x : f64) : f64 := if f_is_nan x then f_zero else x.
Lemma f_number_nan x : f_is_nan (f_number x) = false.
Proof. unfold f_number. by destruct (f_is_nan x) eqn:E. Qed.

#[export] Instance f_cmp_total : TotalOrder (fun x y => f_cmp (f_number x) (f_number y)).
Proof.
  split.
  - intros x y. pose proof (f_cmp_spec (f_number y) (f_number x)) as [_ ->]; [by apply f_number_nan..|done].
  - intros x y z. unfold cmp_le. rewrite !(proj1 (f_cmp_spec _ _ (f_number_nan _) (f_number_nan _))). apply fle_trans.
Qed.

Definition no_nan_rows (t : string * Oid * CostEstimate) : Prop := f_is_nan (estimated_rows t.2) = false.

Definition same_rows (t t' : string * Oid * CostEstimate) : bool := bool_decide (f_cmp (estimated_rows t.2) (estimated_rows t'.2) = Eq).

(** The order of the tables of a join: the same tables, by their estimated numbers of
    rows, with those of equal numbers in the order given. No number is a NaN. *)
Theorem optimize_join_order_spec ts (Hts : Forall no_nan_rows ts) :
  optimize_join_order ts ≡ₚ ts
  /\ StronglySorted (fun a b => fle (estimated_rows a.2) (estimated_rows b.2)) (optimize_join_order ts)
  /\ forall t, no_nan_rows t -> List.filter (same_rows t) (optimize_join_order ts) = List.filter (same_rows t) ts.
Proof.
  set (c := fun a b : string * Oid * CostEstimate => f_cmp (estimated_rows a.2) (estimated_rows b.2)).
  set (c' := fun a b : string * Oid * CostEstimate => f_cmp (f_number (estimated_rows a.2)) (f_number (estimated_rows b.2))).
  assert (Hnum : forall t, no_nan_rows t -> f_number (estimated_rows t.2) = estimated_rows t.2) by (intros t Ht; unfold f_number; by rewrite Ht).
  assert (Hcc : forall a b, no_nan_rows a -> no_nan_rows b -> c a b = c' a b) by (intros a b Ha Hb; unfold c, c'; by rewrite !Hnum).
  assert (Htot : TotalOrder c') by apply (key_total (fun t : string * Oid * CostEstimate => estimated_rows t.2) (fun x y => f_cmp (f_number x) (f_number y))).
  assert (E : optimize_join_order ts = sort_by c' ts).
  { unfold optimize_join_order. rewrite <- (sort_by_ext c c' no_nan_rows ts Hcc Hts).
    destruct (Z.leb_spec (zlen ts) 1); [|done]. destruct ts as [|t [|t' ts]]; [done..|cbn in *; lia]. }
  rewrite E. split_and!; [apply sort_by_perm| |].
  - pose proof (sort_by_sorted c' ts) as Hs. assert (Hn : Forall no_nan_rows (sort_by c' ts)) by by rewrite sort_by_perm.
    clear E. induction Hs as [|a l _ IH Ha]; [apply SSorted_nil|]. apply Forall_cons in Hn as [Hna Hn].
    apply SSorted_cons; [by apply IH|]. rewrite Forall_forall in *. intros b Hb. specialize (Ha b Hb). unfold cmp_le, c' in Ha. rewrite !Hnum in Ha by auto.
    apply f_cmp_spec; [exact Hna|exact (Hn b Hb)|done].
  - intros t Ht. pose proof (sort_by_stable c' t ts) as Hst.
    assert (Hf : forall l, Forall no_nan_rows l -> List.filter (same_rows t) l = List.filter (fun y => bool_decide (c' t y = Eq)) l).
    { induction 1 as [|y l Hy _ IH]; [done|]. cbn. rewrite IH. unfold same_rows. rewrite (Hcc t y Ht Hy : f_cmp (estimated_rows t.2) (estimated_rows y.2) = c' t y). done. }
    rewrite !Hf by (rewrite ?sort_by_perm; done). exact Hst.
Qed.

(* ------------------------------------------------------------------ *)
(** ** Examples *)

(** A logarithm that is right at zero. *)
Definition some_ln : Ln := fun x => match x with S754_zero _ => S754_infinity true | _ => x end.
Lemma some_ln_laws : @LnLaws some_ln.
Proof. by intros s. Qed.

Definition rows_cost (rows total : Z) : CostEstimate :=
  {| startup_cost := f_zero; total_cost := f_of_Z total; estimated_rows := f_of_Z rows; width := 100 |}.

(** Both sides have a sequential scan's cost; one of them no rows. *)
Lemma choose_join_least_witness :
  exists c, @optimizer_join_algorithm some_ln debug_profile (rows_cost 0 0) (rows_cost 5 1) (tenths 1)
    = Ok (NestedLoopJoin JoinType.Inner None, c).
Proof.
  destruct (@choose_join_least some_ln debug_profile some_ln_laws (rows_cost 0 0) (rows_cost 5 1) (tenths 1))
    as (n & h & m & alg & c & _ & _ & _ & E & _ & _ & Hz); [by vm_compute|].
  exists c. rewrite E. f_equal. rewrite Hz; [|left; exists false; by vm_compute].
  f_equal. assert (Ec : (alg, c) = (NestedLoopJoin JoinType.Inner None, n)) by (apply Hz; left; exists false; by vm_compute). by injection Ec.
Defined.

Example three_tables : list (string * Oid * CostEstimate) :=
  [("a", 1, rows_cost 30 3); ("b", 2, rows_cost 10 1); ("c", 3, rows_cost 30 3)].

Lemma optimize_join_order_witness :
  optimize_join_order three_tables ≡ₚ three_tables /\ (fst ∘ fst) <$> optimize_join_order three_tables = ["b"; "a"; "c"].
Proof. split; [apply optimize_join_order_spec; by repeat constructor|by vm_compute]. Defined.
