(* ===== verification/Channels.v ===== *)
(** What a client's session can hold beside its transaction: cursors
    ([src/src/protocol/cursor.rs]), listening channels ([listen_notify.rs]) and its
    place in the pool ([connection_pool.rs]). The server uses none of them. *)

From S2P Require Import Prelude SqlText.

Abbreviation Row := (list string).

(* ------------------------------------------------------------------ *)
(** ** Cursors *)

Module Cursors.

Record Cursor := { name : string; rows : list Row; pos : Z; fetch_size : Z; columns : list string }.

Definition Cursor_new (name : string) (rows : list Row) (columns : list string) (fetch_size : Z) : Cursor :=
  {| name := name; rows := rows; pos := 0; fetch_size := fetch_size; columns := columns |}.

Definition with_pos (c : Cursor) (p : Z) : Cursor :=
  {| name := name c; rows := rows c; pos := p; fetch_size := fetch_size c; columns := columns c |}.

(** [as i32] of a [usize], and [as usize] of an [i32]. *)
Definition as_i32 (z : Z) : Z := let m := wrap 32 z in if m <? 2 ^ 31 then m else m - 2 ^ 32.

Section fetch.
Context {P : Profile}.

Definition fetch (count : Z) (c : Cursor) : outcome (list Row * Cursor) :=
  let count := wrap 64 (if count <? 0 then as_i32 (fetch_size c) else count) in
  sum ← add_w 64 (pos c) count;
  let end_ := Z.min sum (zlen (rows c)) in
  result ← slice (pos c) end_ (rows c);
  Ok (result, with_pos c end_).
End fetch.

Definition move_to (position : Z) (c : Cursor) : Cursor :=
  if position <? 0 then with_pos c 0
  else if zlen (rows c) <=? position then with_pos c (zlen (rows c))
  else with_pos c position.

Definition close (c : Cursor) : Cursor := {| name := name c; rows := []; pos := 0; fetch_size := fetch_size c; columns := columns c |}.

Definition is_eof (c : Cursor) : bool := zlen (rows c) <=? pos c.
Definition total_rows (c : Cursor) : Z := zlen (rows c).

Abbreviation CursorManager := (gmap string Cursor).
Definition manager_new : CursorManager := ∅.
Definition declare (n : string) (c : Cursor) (m : CursorManager) : CursorManager := <[ n := c ]> m.
Definition get_cursor (n : string) (m : CursorManager) : option Cursor := m !! n.
Definition close_cursor (n : string) (m : CursorManager) : bool * CursorManager := (bool_decide (is_Some (m !! n)), delete n m).
Definition cursors_close_all (m : CursorManager) : CursorManager := ∅.
Definition list_cursors (m : CursorManager) : list string := (map_to_list m).*1.
Definition cursor_count (m : CursorManager) : Z := Z.of_nat (size m).

(** The position lies within the rows, whose number fits in memory. *)
Definition cursor_ok (c : Cursor) : Prop := 0 <= pos c <= zlen (rows c) /\ zlen (rows c) < 2 ^ 63.

Section cursor.
Context {P : Profile}.

(** The number of rows a fetch asks for. *)
Definition asked (count : Z) (c : Cursor) : Z := if count <? 0 then as_i32 (fetch_size c) else count.

Lemma as_i32_range z : - 2 ^ 31 <= as_i32 z < 2 ^ 31.
Proof.
  unfold as_i32. pose proof (wrap_in_width 32 z). unfold in_width in *.
  destruct (Z.ltb_spec (wrap 32 z) (2 ^ 31)); lia.
Qed.

Lemma fetch_ok count c : cursor_ok c -> count < 2 ^ 31 -> 0 <= asked count c ->
  fetch count c = Ok (take (Z.to_nat (asked count c)) (drop (Z.to_nat (pos c)) (rows c)),
                      with_pos c (Z.min (pos c + asked count c) (zlen (rows c)))).
Proof.
  intros [Hp Hlen] Hc Ha. unfold fetch. fold (asked count c).
  assert (Hb : asked count c < 2 ^ 31) by (unfold asked in *; pose proof (as_i32_range (fetch_size c)); destruct (count <? 0); lia).
  rewrite (wrap_small 64) by (unfold in_width; lia). rewrite (add_w_ok 64) by (unfold in_width; lia). rewrite ok_bind.
  rewrite slice_ok by lia. rewrite ok_bind. do 2 f_equal.
  destruct (Z.min_spec (pos c + asked count c) (zlen (rows c))) as [[? ->]|[? ->]]; [do 2 f_equal; lia|].
  rewrite !take_ge; [done|rewrite length_drop; lia..].
Qed.

(** Fetches one after the other. *)
Fixpoint fetch_all (counts : list Z) (c : Cursor) : outcome (list (list Row) * Cursor) :=
  match counts with
  | [] => Ok ([], c)
  | n :: counts => '(r, c) ← fetch n c; '(rs, c) ← fetch_all counts c; Ok (r :: rs, c)
  end.

Definition total (counts : list Z) : Z := foldr Z.add 0 counts.

Lemma total_nonneg counts : Forall (fun n => 0 <= n < 2 ^ 31) counts -> 0 <= total counts.
Proof. induction 1; cbn; unfold total in *; lia. Qed.

Lemma fetch_all_ok counts c : cursor_ok c -> Forall (fun n => 0 <= n < 2 ^ 31) counts ->
  exists rs, fetch_all counts c = Ok (rs, with_pos c (Z.min (pos c + total counts) (zlen (rows c))))
    /\ concat rs = take (Z.to_nat (total counts)) (drop (Z.to_nat (pos c)) (rows c)).
Proof.
  intros Hok Hcs. revert c Hok. induction Hcs as [|n counts Hn Hcs IH]; intros c Hok; cbn [fetch_all].
  - exists []. split; [|done]. destruct Hok, c. cbn in *. do 2 f_equal. unfold with_pos. cbn. f_equal. lia.
  - assert (Ea : asked n c = n) by (unfold asked; destruct (Z.ltb_spec n 0); lia).
    rewrite (fetch_ok n c) by (rewrite ?Ea; try done; lia). rewrite Ea, ok_bind.
    set (c1 := with_pos c (Z.min (pos c + n) (zlen (rows c)))).
    assert (Hok1 : cursor_ok c1) by (destruct Hok; unfold c1; split; cbn; lia).
    destruct (IH c1 Hok1) as (rs & -> & E). rewrite ok_bind. eexists. split.
    + assert (Em : Z.min (Z.min (pos c + n) (zlen (rows c)) + total counts) (zlen (rows c)) = Z.min (pos c + total (n :: counts)) (zlen (rows c)))
        by (pose proof (total_nonneg counts Hcs); unfold total in *; cbn; lia).
      unfold c1, with_pos in *. cbn [pos rows name fetch_size columns] in *. by rewrite Em.
    + cbn. rewrite E. unfold c1. cbn. fold (total counts). pose proof (total_nonneg counts Hcs).
      replace (Z.to_nat (n + total counts)) with (Z.to_nat n + Z.to_nat (total counts))%nat by lia.
      rewrite <- take_take_drop, drop_drop. f_equal. destruct Hok as [Hp _].
      destruct (Z.min_spec (pos c + n) (zlen (rows c))) as [[? ->]|[? ->]]; [do 2 f_equal; lia|].
      rewrite !drop_ge by lia. done.
Qed.

(** Reading a cursor. Fetching from a new cursor, however the rows asked for are
    divided into fetches, gives the rows in their order, each once, up to the total
    asked for; the cursor is at its end when that reaches the number of rows. A move
    puts it where the next fetch starts, or at the nearest end of the rows. *)
Theorem cursor_reads_once nm rs cols size counts (Hlen : zlen rs < 2 ^ 63) (Hcs : Forall (fun n => 0 <= n < 2 ^ 31) counts) :
  exists results c, fetch_all counts (Cursor_new nm rs cols size) = Ok (results, c)
    /\ concat results = take (Z.to_nat (total counts)) rs
    /\ cursor_ok c
    /\ is_eof c = (zlen rs <=? total counts)
    /\ forall p n, 0 <= n < 2 ^ 31 -> exists c',
         fetch n (move_to p c) = Ok (take (Z.to_nat n) (drop (Z.to_nat p) rs), c').
Proof.
  assert (Hok : cursor_ok (Cursor_new nm rs cols size)) by (split; cbn; lia).
  pose proof (total_nonneg counts Hcs). destruct (fetch_all_ok counts _ Hok Hcs) as (results & E & Er). cbn in E, Er.
  eexists _, _. split; [exact E|]. split_and!; [done|split; cbn; lia| |].
  - unfold is_eof. cbn. destruct (Z.leb_spec (zlen rs) (total counts)); [apply Z.leb_le|apply Z.leb_gt]; lia.
  - intros p n Hn. set (c := with_pos _ _). assert (Ea : forall c', asked n c' = n) by (intros; unfold asked; destruct (Z.ltb_spec n 0); lia).
    assert (Hm : cursor_ok (move_to p c) /\ rows (move_to p c) = rs /\ drop (Z.to_nat (pos (move_to p c))) rs = drop (Z.to_nat p) rs).
    { unfold move_to, c. cbn. destruct (Z.ltb_spec p 0); [|destruct (Z.leb_spec (zlen rs) p)]; cbn; split_and!; try done; try (split; cbn; lia).
      - by replace (Z.to_nat p) with 0%nat by lia.
      - by rewrite !drop_ge by lia. }
    destruct Hm as (Hmo & Hmr & Hmd). rewrite (fetch_ok n) by (rewrite ?Ea; try done; lia). rewrite Ea, Hmr, Hmd. eauto.
Qed.

(** A cursor whose fetch size is read as a negative [i32]: fetching by it from beyond
    the first row overflows. *)
Example fetch_size_wraps :
  let c := Cursor_new "c" (replicate 3 []) [] (2 ^ 32 - 1) in
  @fetch debug_profile (-1) (with_pos c 1) = Panic /\ @fetch release_profile (-1) (with_pos c 1) = Panic
  /\ @fetch debug_profile (-1) c = Ok (replicate 3 [], with_pos c 3).
Proof. split_and!; by vm_compute. Qed.

End cursor.

Lemma cursor_reads_once_witness :
  exists results c, @fetch_all debug_profile [2; 0; 5] (Cursor_new "c" [["a"]; ["b"]; ["c"]] ["x"] 10) = Ok (results, c)
    /\ concat results = [["a"]; ["b"]; ["c"]] /\ is_eof c = true.
Proof.
  destruct (@cursor_reads_once debug_profile "c" [["a"]; ["b"]; ["c"]] ["x"] 10 [2; 0; 5]) as (results & c & E & Er & _ & Ee & _);
    [by vm_compute|by repeat constructor|]. exists results, c. split; [done|]. by rewrite Er, Ee.
Defined.
End Cursors.

(* ------------------------------------------------------------------ *)
(** ** The connection pool *)

Module Pool.

Record ConnectionPool := { max_connections : Z; active_connections : Z }.
Definition ConnectionPool_new (max : Z) : ConnectionPool := {| max_connections := max; active_connections := 0 |}.
Definition ConnectionPool_default : ConnectionPool := ConnectionPool_new 100.
Definition with_active (p : ConnectionPool) (n : Z) : ConnectionPool := {| max_connections := max_connections p; active_connections := n |}.

(** Each of these holds the lock from its first access to its last. *)
Definition acquire (p : ConnectionPool) : bool * ConnectionPool :=
  if active_connections p <? max_connections p then (true, with_active p (active_connections p + 1)) else (false, p).
Definition release (p : ConnectionPool) : ConnectionPool :=
  if 0 <? active_connections p then with_active p (active_connections p - 1) else p.
Definition available (p : ConnectionPool) : Z := Z.max 0 (max_connections p - active_connections p).

(** Clients that use the pool, with those that hold a place. *)
Inductive step : ConnectionPool * list Z -> ConnectionPool * list Z -> Prop :=
| step_acquire p held c p' : acquire p = (true, p') -> step (p, held) (p', c :: held)
| step_refused p held p' : acquire p = (false, p') -> step (p, held) (p', held)
| step_release p held held' c : held ≡ₚ c :: held' -> step (p, held) (release p, held').

Definition pool_inv (max : Z) (s : ConnectionPool * list Z) : Prop :=
  max_connections s.1 = max /\ active_connections s.1 = zlen s.2 /\ zlen s.2 <= max.

Lemma step_inv max s s' : step s s' -> pool_inv max s -> pool_inv max s'.
Proof.
  intros Hs (Em & Ea & Hl). unfold pool_inv. destruct Hs as [p1 h1 c p2 E|p1 h1 p2 E|p1 h1 h2 c E]; cbn in *.
  - unfold acquire in E. destruct (Z.ltb_spec (active_connections p1) (max_connections p1)); [|done]. injection E as <-. cbn. lia.
  - unfold acquire in E. destruct (active_connections p1 <? max_connections p1); [done|]. by injection E as <-.
  - rewrite E in *. cbn [length] in *. unfold release. destruct (Z.ltb_spec 0 (active_connections p1)); cbn; lia.
Qed.

Lemma rtc_inv max s s' : rtc step s s' -> pool_inv max s -> pool_inv max s'.
Proof. induction 1; eauto using step_inv. Qed.

(** The connection pool. Whatever the order in which clients acquire places and
    release those that they hold, the number of places held is the pool's count and is
    at most its maximum; a client is refused only when all places are held. *)
Theorem pool_bounded max p held (Hmax : 0 <= max) (Hr : rtc step (ConnectionPool_new max, []) (p, held)) :
  active_connections p = zlen held /\ zlen held <= max /\ available p = max - zlen held
  /\ (fst (acquire p) = false <-> zlen held = max).
Proof.
  assert (Hinv : pool_inv max (p, held)) by (eapply rtc_inv; [exact Hr|split_and!; cbn; lia]).
  destruct Hinv as (Em & Ea & Hl). cbn [fst snd] in *. unfold available, acquire. rewrite Em, Ea. split_and!; try lia.
  destruct (Z.ltb_spec (zlen held) max); cbn; split; try done; lia.
Qed.

Lemma pool_bounded_witness :
  active_connections (snd (acquire (ConnectionPool_new 1))) = 1 /\ fst (acquire (snd (acquire (ConnectionPool_new 1)))) = false.
Proof.
  destruct (pool_bounded 1 (snd (acquire (ConnectionPool_new 1))) [7]) as (E & _ & _ & H); [lia| |].
  - apply rtc_once. by apply step_acquire.
  - split; [exact E|]. by apply H.
Defined.

(** A client that releases a place twice frees one that another client holds. *)
Example double_release :
  let p := snd (acquire (snd (acquire (ConnectionPool_new 2)))) in
  fst (acquire (release (release p))) = true /\ fst (acquire (snd (acquire (release (release p))))) = true.
Proof. done. Qed.

End Pool.

(* ------------------------------------------------------------------ *)
(** ** Notifications *)

Module Notify.

Record Notification := { channel : string; payload : string; sender_pid : Z }.

(** What the code uses of [tokio::sync::mpsc]: channels of a capacity, and a sending
    that ends with success or failure, or waits ([None]). *)
Class Mpsc := {
  Net : Type;
  Sender : Type;
  Receiver : Type;
  mpsc_channel : Z -> Net -> Net * Sender * Receiver;
  mpsc_send : Sender -> Notification -> Net -> option (Net * bool);
}.

Section notify.
Context `{Mpsc}.

Abbreviation NotifyManager := (gmap string (list Sender)).
Definition NotifyManager_new : NotifyManager := ∅.

Definition listen (ch : string) (m : NotifyManager) (n : Net) : NotifyManager * Net * Receiver :=
  let '(n, tx, rx) := mpsc_channel 100 n in
  (<[ ch := default [] (m !! ch) ++ [tx] ]> m, n, rx).

(** [retain(|_| true)] keeps every listener. *)
Definition unlisten (ch : string) (pid : Z) (m : NotifyManager) : NotifyManager :=
  match m !! ch with Some listeners => <[ ch := List.filter (fun _ => true) listeners ]> m | None => m end.

Definition drop_all (pid : Z) (m : NotifyManager) : NotifyManager := (List.filter (fun _ => true)) <$> m.

Fixpoint send_each (txs : list Sender) (x : Notification) (n : Net) : option Net :=
  match txs with
  | [] => Some n
  | tx :: txs => '(n, _) ← mpsc_send tx x n; send_each txs x n
  end.

Definition notify (ch pay : string) (pid : Z) (m : NotifyManager) (n : Net) : option Net :=
  match m !! ch with
  | Some listeners => send_each listeners {| channel := ch; payload := pay; sender_pid := pid |} n
  | None => Some n
  end.

Definition listener_count (ch : string) (m : NotifyManager) : Z := match m !! ch with Some l => zlen l | None => 0 end.

Lemma filter_keeps_all {A} (l : list A) : List.filter (fun _ => true) l = l.
Proof. induction l as [|a l IH]; cbn; [done|]. by rewrite IH. Qed.

(** A history of calls, with the senders that it made for each channel. *)
Inductive call := Listen (ch : string) | Unlisten (ch : string) (pid : Z) | DropAll (pid : Z).

Fixpoint run (calls : list call) (m : NotifyManager) (n : Net) : NotifyManager * Net * list (string * Sender) :=
  match calls with
  | [] => (m, n, [])
  | c :: calls =>
      match c with
      | Listen ch =>
          let tx := snd (fst (mpsc_channel 100 n)) in
          let '(m, n, _) := listen ch m n in
          let '(m, n, made) := run calls m n in (m, n, (ch, tx) :: made)
      | Unlisten ch pid => run calls (unlisten ch pid m) n
      | DropAll pid => run calls (drop_all pid m) n
      end
  end.

Definition made_for (ch : string) (made : list (string * Sender)) : list Sender :=
  snd <$> List.filter (fun e => String.eqb e.1 ch) made.

Lemma unlisten_id ch pid m : unlisten ch pid m = m.
Proof. unfold unlisten. destruct (m !! ch) as [l|] eqn:E; [|done]. by rewrite filter_keeps_all, insert_id. Qed.

Lemma drop_all_id pid m : drop_all pid m = m.
Proof. unfold drop_all. rewrite <- (map_fmap_id m) at 2. apply map_fmap_ext. intros ch l _. apply filter_keeps_all. Qed.

(** Who is notified. After any history of calls, a notification is sent to every
    listener that ever listened on its channel, in that order: [unlisten] and
    [drop_all] remove nobody, whatever process they name. *)
Theorem unlisten_keeps_listeners calls n0 :
  let '(m, n, made) := run calls NotifyManager_new n0 in
  forall ch, default [] (m !! ch) = made_for ch made
    /\ listener_count ch m = zlen (made_for ch made)
    /\ forall pay pid net, notify ch pay pid m net
         = send_each (made_for ch made) {| channel := ch; payload := pay; sender_pid := pid |} net.
Proof.
  assert (G : forall calls m n, let '(m', _, made) := run calls m n in
    forall ch, default [] (m' !! ch) = default [] (m !! ch) ++ made_for ch made).
  { clear. induction calls as [|c calls IH]; intros m n; cbn [run].
    - intros ch. by rewrite app_nil_r.
    - destruct c as [ch0|ch0 pid|pid]; [|rewrite unlisten_id; apply IH|rewrite drop_all_id; apply IH].
      unfold listen. destruct (mpsc_channel 100 n) as [[n1 tx] rx]. cbn [fst snd].
      specialize (IH (<[ch0 := default [] (m !! ch0) ++ [tx]]> m) n1). destruct (run calls _ n1) as [[m' n'] made].
      intros ch. rewrite IH. unfold made_for. cbn [List.filter fst]. destruct (String.eqb_spec ch0 ch) as [<-|Hne].
      + rewrite lookup_insert_eq. cbn. by rewrite <- app_assoc.
      + by rewrite lookup_insert_ne. }
  specialize (G calls NotifyManager_new n0). destruct (run calls _ n0) as [[m n] made]. intros ch. specialize (G ch).
  unfold NotifyManager_new in G. rewrite lookup_empty in G. cbn in G. split_and!; [done| |].
  - rewrite <- G. unfold listener_count. by destruct (m !! ch).
  - intros. rewrite <- G. unfold notify. by destruct (m !! ch).
Qed.

End notify.
End Notify.
