(* ===== verification/Copy.v ===== *)
(** COPY ([src/src/protocol/copy.rs]): parsing of the statement and of its data, and
    the transfer of rows in and out. The session does not dispatch to it. *)

From S2P Require Import Prelude Types SqlText Float64 TextOps Storage HeapPage Transaction BufferPool Wal TupleCodec HeapAccess HeapStatements HeapUpdates HeapHistories HeapRuns.

Inductive CopyFormat := CopyText | Csv | Binary.
Inductive CopyDirection := CopyIn | CopyOut.

Record CopyState := {
  copy_rel_oid : Oid;
  copy_format : CopyFormat;
  copy_direction : CopyDirection;
  copy_columns : list string;
}.

(* ------------------------------------------------------------------ *)
(** ** Transfer *)

Section transfer.
Context {P : Profile} {S : Type} `{Storage S} `{Bincode Tuple} `{Bincode WALRecord}.
Abbreviation M := (heap_m S).

(** The tuple that is serialized and thrown away. *)
Definition joined_tuple (row : list string) : Tuple :=
  {| tup_slots := []; tup_data := bytes_of (text_join (String (of_byte 9) EmptyString) row);
     tup_xmin := 0; tup_xmax := 0; tup_cmin := 0; tup_cmax := 0; tup_xvac := 0 |}.

(** One turn of the loop. *)
Definition copy_row (state : CopyState) (row : list string) : M unit :=
  _ ← h_lift (bincode_serialize (joined_tuple row));
  tuple_insert {| ins_rel_oid := copy_rel_oid state; ins_values := bytes_of <$> row |}.

Fixpoint copy_rows (state : CopyState) (data_rows : list (list string)) (rows_copied : Z) : M Z :=
  match data_rows with
  | [] => mret rows_copied
  | row :: data_rows =>
      _ ← copy_row state row;
      rows_copied ← h_lift (add_w 64 rows_copied 1);
      copy_rows state data_rows rows_copied
  end.

Definition handle_copy_in (state : CopyState) (data_rows : list (list string)) : M Z :=
  _ ← h_relation (copy_rel_oid state);
  copy_rows state data_rows 0.

Definition handle_copy_out (state : CopyState) : M (list (list bytes)) :=
  rows ← heap_scan (copy_rel_oid state);
  mret rows.*2.

(** A relation that is not there is an error that changes nothing. *)
Lemma copy_in_missing state data_rows w :
  get_relation_state (copy_rel_oid state) (hs_cache w) = None -> handle_copy_in state data_rows w = (Err (Anyhow "Relation not found" []), w).
Proof. intros Hst. unfold handle_copy_in, h_relation, mbind, heap_bind. by rewrite Hst. Qed.

End transfer.

(* ------------------------------------------------------------------ *)
(** ** What a copy does to the rows of a relation *)

(** The values of a line, and its row as an insertion. *)
Definition line_values (line : list string) : list bytes := bytes_of <$> line.
Definition line_insert (line : list string) : heap_call := CallInsert (line_values line).

Lemma bytes_of_app a b : bytes_of (a +:+ b) = bytes_of a ++ bytes_of b.
Proof. induction a as [|c a IH]; [done|]. change (String c a +:+ b) with (String c (a +:+ b)). cbn [bytes_of app]. by rewrite IH. Qed.

Section rows.
Context {P : Profile} {S : Type} (valid : S -> Prop) `{StorageLaws S (Z.to_nat 8192) valid} `{TupleLaws} `{Bincode WALRecord}.
Context (state : CopyState) (desc : TupleDesc).
Abbreviation holds := (holds valid (copy_rel_oid state) desc).
Implicit Types w : heap_state S.

Lemma joined_length line : length (bytes_of (text_join (String (of_byte 9) EmptyString) line)) = length (join_values (line_values line)).
Proof.
  induction line as [|v [|v' line] IH]; [done..|]. change (text_join ?s (v :: v' :: line)) with (v +:+ s +:+ text_join s (v' :: line)).
  change (join_values (line_values (v :: v' :: line))) with (bytes_of v ++ 0 :: join_values (line_values (v' :: line))).
  rewrite !bytes_of_app, !length_app. cbn [length bytes_of]. rewrite IH. done.
Qed.

(** A line whose row fits is inserted. *)
Lemma copy_row_run line t n k w st :
  holds t n (1 + k) w st -> 0 <= k -> call_ok desc (line_insert line) -> insert_fits (copy_rel_oid state) (line_values line) w ->
  exists w' st', copy_row state line w = (Ok tt, w') /\ (call_run (copy_rel_oid state) (line_insert line) w).2 = w'
    /\ holds (Contents (live t ++ [line_values line]) (dead t)) (n + 1) k w' st'.
Proof.
  intros Hh Hk Hok Hfit. destruct (insert_step valid _ desc t n k _ w st Hh Hk Hok Hfit) as (w' & st' & Hrun & Hh').
  exists w', st'. destruct Hok as (_ & _ & _ & _ & Hj).
  assert (Hwf : tuple_wf (joined_tuple line)).
  { split; cbn; try done; [apply bytes_of_ok|]. by rewrite joined_length. }
  destruct (tl_encode _ Hwf) as (d & Hd & _). unfold copy_row. rewrite (h_bind_run _ _ w d w) by (unfold h_lift; by rewrite Hd).
  split_and!; [|exact (f_equal snd Hrun)|done]. cbn [call_run] in Hrun. unfold mbind, heap_bind in Hrun.
  fold (line_values line). destruct (tuple_insert _ w) as [[[]| |] w1]; [|done..]. by injection Hrun as ->.
Qed.

Lemma copy_rows_run lines : forall l d n k c w st,
  holds (Contents l d) n (zlen lines + k) w st -> 0 <= k -> 0 <= c -> c + zlen lines < 2 ^ 64 ->
  Forall (call_ok desc) (line_insert <$> lines) -> fits (copy_rel_oid state) (line_insert <$> lines) w ->
  exists w' st', (forall rest, copy_rows state (lines ++ rest) c w = copy_rows state rest (c + zlen lines) w')
    /\ holds (Contents (l ++ (line_values <$> lines)) d) (n + zlen lines) k w' st'.
Proof.
  induction lines as [|line lines IH]; intros l d n k c w st Hh Hk Hc Hlen Hok Hfit.
  { exists w, st. split; [intros rest; by rewrite Z.add_0_r|]. by rewrite app_nil_r, Z.add_0_r. }
  cbn [length fmap list_fmap] in *. apply Forall_cons in Hok as [Hok Hoks]. destruct Hfit as [Hfit Hfits].
  replace (Z.of_nat (Datatypes.S (length lines)) + k) with (1 + (zlen lines + k)) in Hh by lia.
  destruct (copy_row_run line _ _ _ w st Hh ltac:(lia) Hok Hfit) as (w1 & st1 & Hrow & Hrun & Hh1). rewrite Hrun in Hfits. cbn [live dead] in Hh1.
  destruct (IH _ _ _ k (c + 1) w1 st1 Hh1 Hk ltac:(lia) ltac:(lia) Hoks Hfits) as (w' & st' & Hrest & Hh').
  exists w', st'. split.
  - intros rest. cbn [app copy_rows]. rewrite (h_bind_run _ _ w tt w1) by done.
    rewrite (h_bind_run _ _ w1 (c + 1) w1) by (unfold h_lift; rewrite add_w_ok by (unfold in_width; lia); done).
    rewrite Hrest. f_equal. lia.
  - rewrite <- app_assoc in Hh'. replace (n + Z.of_nat (Datatypes.S (length lines))) with (n + 1 + zlen lines) by lia. exact Hh'.
Qed.

(** C34. COPY FROM into a relation with the rows [l] (and deleted rows [d]). Lines that
    are rows of the relation and fit their pages, for which the log and the ids last,
    are all inserted: the copy answers with their number, and the relation then has
    the rows [l] and those of the lines. If the next line then fails, by an error or a
    panic, the copy of all lines ends with its failure, and starts it from that very
    state: the rows of the lines before stay inserted. *)
Theorem copy_in_keeps_prefix lines l d n w st :
  holds (Contents l d) n (zlen lines) w st ->
  Forall (call_ok desc) (line_insert <$> lines) -> fits (copy_rel_oid state) (line_insert <$> lines) w ->
  exists w' st', handle_copy_in state lines w = (Ok (zlen lines), w')
    /\ holds (Contents (l ++ (line_values <$> lines)) d) (n + zlen lines) 0 w' st'
    /\ forall line rest, match copy_row state line w' with
                         | (Ok _, _) => True
                         | (Err e, w'') => handle_copy_in state (lines ++ line :: rest) w = (Err e, w'')
                         | (Panic, w'') => handle_copy_in state (lines ++ line :: rest) w = (Panic, w'')
                         end.
Proof.
  intros Hh Hok Hfit. pose proof (ho_xid _ _ _ _ _ _ _ _ Hh) as Hx.
  destruct (copy_rows_run lines l d n 0 0 w st ltac:(by rewrite Z.add_0_r) ltac:(lia) ltac:(lia) ltac:(lia) Hok Hfit) as (w' & st' & Hrun & Hh').
  assert (Hin : forall lines', handle_copy_in state lines' w = copy_rows state lines' 0 w).
  { intros lines'. unfold handle_copy_in. rewrite (h_bind_run _ _ w (mrs_relation st) w); [done|].
    unfold h_relation. by rewrite (ho_state _ _ _ _ _ _ _ _ Hh). }
  exists w', st'. split_and!; [|done|].
  - specialize (Hrun []). rewrite app_nil_r in Hrun. by rewrite Hin, Hrun.
  - intros line rest. specialize (Hrun (line :: rest)). rewrite Hin, Hrun. cbn [copy_rows]. unfold mbind, heap_bind.
    by destruct (copy_row state line w') as [[[]| |] w''].
Qed.
End rows.

(* ------------------------------------------------------------------ *)
(** ** Parsing *)

Section statement.
Context `{Unicode}.

Definition parse_copy_statement (sql : string) : outcome CopyState :=
  let sql_upper := to_uppercase sql in
  direction ← (if text_contains sql_upper "FROM" then Ok CopyIn
    else if text_contains sql_upper "TO" || text_contains sql_upper "STDOUT" then Ok CopyOut
    else Err (Anyhow "COPY requires FROM or TO" []));
  let format := if text_contains sql_upper "FORMAT CSV" then Csv
    else if text_contains sql_upper "FORMAT BINARY" then Binary else CopyText in
  Ok {| copy_rel_oid := 0; copy_format := format; copy_direction := direction; copy_columns := [] |}.
End statement.

(** [lines]: split at line feeds, without a carriage return before them and without an
    empty line at the end. *)
Definition line_feed : ascii := of_byte 10.
Definition tab : ascii := of_byte 9.

Fixpoint strip_cr (s : string) : string :=
  match s with
  | EmptyString => EmptyString
  | String c EmptyString => if byte_of c =? 13 then EmptyString else s
  | String c s => String c (strip_cr s)
  end.

Definition text_lines (s : string) : list string :=
  let ls := text_split line_feed s in
  match last ls with
  | Some EmptyString => strip_cr <$> removelast ls
  | Some l => (strip_cr <$> removelast ls) ++ [l]
  | None => []
  end.

(** The double quote. *)
Definition quote_mark : ascii := of_byte 34.

(** The text gathered so far, when a field ends. *)
Definition finish_field (current : string) : string := trim current.

Fixpoint csv_loop (cs : list string) (in_quotes : bool) (current : string) (result : list string) : list string :=
  match cs with
  | [] => match current with EmptyString => result | _ => result ++ [finish_field current] end
  | c :: cs =>
      if bool_decide (c = String quote_mark EmptyString) then csv_loop cs (negb in_quotes) current result
      else if bool_decide (c = ",") && negb in_quotes then csv_loop cs in_quotes EmptyString (result ++ [finish_field current])
      else if bool_decide (c = String line_feed EmptyString) && negb in_quotes then
        match current with
        | EmptyString => csv_loop cs in_quotes current result
        | _ => csv_loop cs in_quotes EmptyString (result ++ [finish_field current])
        end
      else csv_loop cs in_quotes (current +:+ c) result
  end.
Definition csv_split (data : string) : list string := csv_loop (text_chars data) false EmptyString [].

Definition parse_copy_data (data : string) (format : CopyFormat) : list string :=
  match format with
  | CopyText => concat (text_split tab <$> text_lines data)
  | Csv => csv_split data
  | Binary => text_split tab data
  end.

(* ------------------------------------------------------------------ *)
(** ** Reading CSV back *)

(** Text that begins with a character. *)
Definition starts_char (s : string) : Prop := match s with String c _ => is_continuation c = false | EmptyString => True end.

Lemma text_chars_head c s : exists r cs, text_chars (String c s) = String c r :: cs.
Proof. cbn. destruct (text_chars s) as [|[|d r] cs]; eauto. destruct (is_continuation d); eauto. Qed.

Lemma text_chars_cons c s :
  text_chars (String c s) = match text_chars s with
    | (String d r) :: cs => if is_continuation d then String c (String d r) :: cs else String c EmptyString :: String d r :: cs
    | cs => String c EmptyString :: cs end.
Proof. done. Qed.

Lemma text_chars_app s t : starts_char t -> text_chars (s +:+ t) = text_chars s ++ text_chars t.
Proof.
  intros Ht. induction s as [|c s IH]; [done|]. change (String c s +:+ t) with (String c (s +:+ t)). rewrite !text_chars_cons, IH.
  destruct s as [|c' s].
  - cbn [text_chars app]. destruct t as [|d t]; [done|]. destruct (text_chars_head d t) as (r & cs & ->). cbn in Ht. by rewrite Ht.
  - destruct (text_chars_head c' s) as (r & cs & ->). cbn [app]. by destruct (is_continuation c').
Qed.

Definition quoted (f : string) : string := String quote_mark (f +:+ String quote_mark EmptyString).

(** The fields that CSV can hold: no quote, no white space at the ends. *)
Record csv_field (f : string) : Prop := {
  cf_starts : starts_char f;
  cf_quotes : Forall (fun c => c <> String quote_mark EmptyString) (text_chars f);
  cf_trimmed : trim f = f;
}.

Lemma text_append_assoc a b c : (a +:+ b) +:+ c = a +:+ b +:+ c.
Proof. induction a as [|d a IH]; [done|]. change (String d ((a +:+ b) +:+ c) = String d (a +:+ b +:+ c)). by rewrite IH. Qed.

Lemma csv_inside cs rest cur res : Forall (fun c => c <> String quote_mark EmptyString) cs ->
  csv_loop (cs ++ rest) true cur res = csv_loop rest true (cur +:+ text_concat cs) res.
Proof.
  intros Hcs. revert cur. induction Hcs as [|c cs Hc _ IH]; intros cur; cbn [app text_concat]; [by rewrite text_app_nil|].
  cbn [csv_loop]. rewrite bool_decide_false by done. rewrite !andb_false_r, IH. f_equal. apply text_append_assoc.
Qed.

Lemma text_chars_quoted f : csv_field f ->
  text_chars (quoted f) = String quote_mark EmptyString :: text_chars f ++ [String quote_mark EmptyString].
Proof.
  intros [Hs _ _]. unfold quoted. change (String quote_mark (f +:+ ?t)) with (String quote_mark EmptyString +:+ (f +:+ t)).
  rewrite text_chars_app; [|by destruct f]. by rewrite text_chars_app.
Qed.

Lemma csv_quoted f rest cur res : csv_field f ->
  csv_loop (text_chars (quoted f) ++ rest) false cur res = csv_loop rest false (cur +:+ f) res.
Proof.
  intros Hf. rewrite text_chars_quoted by done. cbn [app csv_loop]. rewrite bool_decide_true by done. cbn [negb].
  rewrite <- app_assoc, csv_inside by apply Hf. rewrite text_chars_concat. cbn [app csv_loop]. by rewrite bool_decide_true.
Qed.

Lemma csv_fields f fs res : csv_field f -> Forall csv_field fs -> last (f :: fs) <> Some EmptyString ->
  csv_loop (text_chars (text_join "," (quoted <$> f :: fs))) false EmptyString res = res ++ f :: fs.
Proof.
  intros Hf Hfs. revert f Hf res. induction Hfs as [|g gs Hg _ IH]; intros f Hf res Hlast.
  - cbn [fmap list_fmap text_join]. rewrite <- (app_nil_r (text_chars _)), csv_quoted by done. change (EmptyString +:+ f) with f.
    pose proof (cf_trimmed _ Hf) as Et. destruct f as [|c f]; [done|]. cbn [csv_loop]. unfold finish_field. by rewrite Et.
  - change (text_join "," (quoted <$> f :: g :: gs)) with (quoted f +:+ "," +:+ text_join "," (quoted <$> g :: gs)).
    rewrite text_chars_app by done. rewrite csv_quoted by done. rewrite text_chars_app by (by destruct gs).
    cbn [text_chars app csv_loop String.append]. rewrite bool_decide_false by done. rewrite bool_decide_true by done. cbn [negb andb].
    change (EmptyString +:+ f) with f. unfold finish_field. rewrite (cf_trimmed _ Hf), IH by done. by rewrite <- app_assoc.
Qed.

(** CSV that quotes every field reads back as the fields, which may hold commas and
    line feeds; they have no quote and no white space at their ends, and the last is not
    empty. *)
Theorem csv_roundtrip fields (Hf : Forall csv_field fields) (Hlast : last fields <> Some EmptyString) :
  parse_copy_data (text_join "," (quoted <$> fields)) Csv = fields.
Proof. destruct Hf as [|f fs Hf Hfs]; [done|]. by apply csv_fields. Qed.

Lemma csv_roundtrip_witness :
  parse_copy_data (text_join "," (quoted <$> ["a,b"; ""; String "x" (String line_feed "y")])) Csv
  = ["a,b"; ""; String "x" (String line_feed "y")].
Proof. apply csv_roundtrip; [|done]. repeat constructor; by vm_compute. Defined.

(** An empty last field is lost, and a doubled quote as well. *)
Example csv_losses :
  parse_copy_data "a," Csv = ["a"]
  /\ parse_copy_data (quoted (String "a" (String quote_mark (String quote_mark "b")))) Csv = ["ab"].
Proof. split; by vm_compute. Qed.

(** The rows of text data run into one list. *)
Example text_rows_run_together :
  parse_copy_data (String "a" (String tab (String "b" (String line_feed (String "c" (String tab "d")))))) CopyText = ["a"; "b"; "c"; "d"].
Proof. by vm_compute. Qed.

(** The direction is that of a word found anywhere in the statement. *)
Example copy_to_reads :
  copy_direction <$> outcome_ok (@parse_copy_statement Ascii_Unicode "COPY from_list TO STDOUT") = Some CopyIn.
Proof. by vm_compute. Qed.

(* ------------------------------------------------------------------ *)
(** ** A copy into a heap *)

Section run.
#[local] Existing Instance debug_profile.
#[local] Existing Instance Tuple_Bincode.
#[local] Existing Instance Tuple_laws.
#[local] Existing Instance heap_records.

Example copy_to_one : CopyState := {| copy_rel_oid := 1; copy_format := CopyText; copy_direction := CopyIn; copy_columns := [] |}.

Definition two_lines : list (list string) := [["1"; "ana"]; ["2"; "bob"]].

Lemma two_lines_fit : fits 1 (line_insert <$> two_lines) empty_heap.
Proof.
  split; [|split; [|done]].
  - intros st d Hst Hd. vm_compute in Hst. injection Hst as <-. vm_compute in Hd. injection Hd as <-. split; [by vm_compute|done].
  - eapply insert_fits_computed; [vm_compute; reflexivity..|by vm_compute|by vm_compute|vm_compute; reflexivity|by vm_compute].
Qed.

Lemma copy_in_keeps_prefix_witness :
  exists w' st', handle_copy_in copy_to_one two_lines empty_heap = (Ok 2, w')
    /\ holds (fun _ => True) 1 two_columns (Contents [row_a; row_b] []) 2 0 w' st'.
Proof.
  destruct (copy_in_keeps_prefix (fun _ => True) copy_to_one two_columns two_lines [] [] 0 empty_heap empty_state) as (w' & st' & Hc & Hh & _).
  - apply empty_holds. by vm_compute.
  - repeat (apply Forall_cons; split); try apply Forall_nil_2; apply some_row_ok; cbn; auto.
  - exact two_lines_fit.
  - exists w', st'. exact (conj Hc Hh).
Defined.

(** The row before one that panics is stored. *)
Example copy_stops_halfway :
  let r := handle_copy_in copy_to_one [text_of <$> wide_row 49 (Z.to_nat 7646); text_of <$> wide_row 50 (Z.to_nat 600)] empty_heap in
  r.1 = Panic /\ stored_rows 1 r.2 = Ok [wide_row 49 (Z.to_nat 7646)].
Proof. split; by vm_compute. Qed.

End run.
