(* ===== verification/Parallel.v ===== *)
(** Parallel execution ([src/src/executor/parallel/mod.rs], [worker.rs]): workers that
    add rows to a state shared under a lock, and the caller that waits for them. The
    barrier and the phase of the shared state are never used. *)

From S2P Require Import Prelude SqlText.

Abbreviation Row := (list string).

Inductive ParallelPhase := ScanComplete | BuildComplete | ProbeComplete.

Record ParallelSharedState := { tuples : list Row; phase : ParallelPhase; p_error : option string }.

(** The shared state and the size of the barrier. *)
Record ParallelContext := { n_workers : Z; shared_state : ParallelSharedState; barrier : Z }.

Definition ParallelContext_new (n : Z) : ParallelContext :=
  {| n_workers := n; shared_state := {| tuples := []; phase := ScanComplete; p_error := None |}; barrier := n |}.

Definition with_shared (c : ParallelContext) (s : ParallelSharedState) : ParallelContext :=
  {| n_workers := n_workers c; shared_state := s; barrier := barrier c |}.

Definition add_tuples (ts : list Row) (c : ParallelContext) : ParallelContext :=
  let s := shared_state c in
  with_shared c {| tuples := tuples s ++ ts; phase := phase s; p_error := p_error s |}.
Definition get_tuples (c : ParallelContext) : list Row := tuples (shared_state c).
Definition set_error (e : string) (c : ParallelContext) : ParallelContext :=
  let s := shared_state c in
  with_shared c {| tuples := tuples s; phase := phase s; p_error := Some e |}.
Definition has_error (c : ParallelContext) : bool := match p_error (shared_state c) with Some _ => true | None => false end.

Record ParallelWorker := { worker_id : Z; join_handle : option unit }.
Definition ParallelWorker_new (id : Z) : ParallelWorker := {| worker_id := id; join_handle := None |}.

(** A task as the calls it makes on the context, each under the lock, and the rows it
    returns; [None] when it panics instead. *)
Inductive task_op := AddTuples (ts : list Row) | SetError (e : string).
Record Task := { ops : list task_op; result : option (list Row) }.

Definition run_op (o : task_op) : ParallelContext -> ParallelContext :=
  match o with AddTuples ts => add_tuples ts | SetError e => set_error e end.

(** What [tokio::spawn] has started. *)
Inductive worker := Running (t : Task) | Finished | Panicked.

Definition state := (ParallelContext * list worker)%type.

(** [execute_parallel] up to its first wait. *)
Definition spawn_all (task : Z -> Task) (c : ParallelContext) : state :=
  (c, (fun i => Running (task i)) <$> seqZ 0 (n_workers c)).

(** One worker takes its next step: a call of its task, or the addition of its rows. *)
Inductive step : state -> state -> Prop :=
| step_op c ws i o os r : ws !! i = Some (Running {| ops := o :: os; result := r |}) ->
    step (c, ws) (run_op o c, <[i := Running {| ops := os; result := r |}]> ws)
| step_return c ws i rows : ws !! i = Some (Running {| ops := []; result := Some rows |}) ->
    step (c, ws) (add_tuples rows c, <[i := Finished]> ws)
| step_panic c ws i : ws !! i = Some (Running {| ops := []; result := None |}) ->
    step (c, ws) (c, <[i := Panicked]> ws).

(** The handles are awaited in their order; the first that panicked ends the waiting. *)
Fixpoint joined (ws : list worker) : option (outcome unit) :=
  match ws with
  | [] => Some (Ok tt)
  | Running _ :: _ => None
  | Finished :: ws => joined ws
  | Panicked :: _ => Some (Err (Anyhow "JoinError" []))
  end.

(** The answer of [execute_parallel], once it stops waiting. *)
Definition parallel_answer (s : state) : option (outcome (list Row)) :=
  match joined s.2 with
  | None => None
  | Some (Ok _) => Some match p_error (shared_state s.1) with
      | Some e => Err (Anyhow ("Parallel execution failed: " +:+ e) [])
      | None => Ok (get_tuples s.1)
      end
  | Some (Err e) => Some (Err e)
  | Some Panic => Some Panic
  end.

(* ------------------------------------------------------------------ *)
(** ** What tasks add *)

Definition op_rows (o : task_op) : list Row := match o with AddTuples ts => ts | SetError _ => [] end.
Definition op_errors (o : task_op) : list string := match o with AddTuples _ => [] | SetError e => [e] end.

Definition task_rows (t : Task) : list Row := (ops t ≫= op_rows) ++ default [] (result t).
Definition task_errors (t : Task) : list string := ops t ≫= op_errors.

(** What a worker has still to add, and to report. *)
Definition pending_rows (w : worker) : list Row := match w with Running t => task_rows t | _ => [] end.
Definition pending_errors (w : worker) : list string := match w with Running t => task_errors t | _ => [] end.
Definition panics (w : worker) : bool :=
  match w with Running t => match result t with None => true | Some _ => false end | Panicked => true | Finished => false end.

Lemma bind_insert_perm {A B} (f : A -> list B) (l : list A) i a a' pre :
  l !! i = Some a -> f a ≡ₚ pre ++ f a' -> l ≫= f ≡ₚ pre ++ (<[i := a']> l ≫= f).
Proof.
  revert i. induction l as [|b l IH]; intros [|i] Hi Hp; cbn in *; [done|done| |].
  - injection Hi as ->. by rewrite Hp, app_assoc.
  - rewrite (IH i Hi Hp). by rewrite !app_assoc, (Permutation_app_comm (f b) pre).
Qed.

Lemma existsb_insert_same {A} (f : A -> bool) (l : list A) i a a' : l !! i = Some a -> f a' = f a -> existsb f (<[i := a']> l) = existsb f l.
Proof.
  revert i. induction l as [|b l IH]; intros [|i] Hi Hf; try done.
  - injection Hi as ->. cbn. by rewrite Hf.
  - change (f b || existsb f (<[i:=a']> l) = f b || existsb f l). by rewrite (IH i).
Qed.

Definition shared_rows (s : state) : list Row := tuples (shared_state s.1).
Definition shared_errors (s : state) : list string := option_list (p_error (shared_state s.1)).

(** Rows move from the workers to the shared state. *)
Lemma step_rows s s' : step s s' -> shared_rows s ++ (s.2 ≫= pending_rows) ≡ₚ shared_rows s' ++ (s'.2 ≫= pending_rows).
Proof.
  destruct 1 as [c ws i o os r Hi|c ws i rows Hi|c ws i Hi]; unfold shared_rows; cbn [fst snd].
  - rewrite (bind_insert_perm pending_rows ws i _ (Running {| ops := os; result := r |}) (op_rows o) Hi)
      by (unfold pending_rows, task_rows; cbn; by rewrite <- app_assoc).
    destruct o; cbn; [by rewrite app_assoc|done].
  - rewrite (bind_insert_perm pending_rows ws i _ Finished rows Hi) by (cbn; by rewrite app_nil_r). cbn. by rewrite app_assoc.
  - by rewrite (bind_insert_perm pending_rows ws i _ Panicked [] Hi).
Qed.

(** So do errors, of which the shared state keeps the last. *)
Lemma step_errors s s' : step s s' ->
  (shared_errors s ++ (s.2 ≫= pending_errors) = [] <-> shared_errors s' ++ (s'.2 ≫= pending_errors) = [])
  /\ (forall e, e ∈ shared_errors s' ++ (s'.2 ≫= pending_errors) -> e ∈ shared_errors s ++ (s.2 ≫= pending_errors)).
Proof.
  assert (Hnil : forall l k : list string, l ≡ₚ k -> l = [] <-> k = []).
  { intros l k Hp. split; intros ->; [by apply Permutation_nil_l in Hp|by apply Permutation_nil_r in Hp]. }
  assert (Hsame : forall l k : list string, l ≡ₚ k -> (l = [] <-> k = []) /\ (forall e, e ∈ k -> e ∈ l)).
  { intros l k Hp. split; [by apply Hnil|]. intros e. by rewrite Hp. }
  destruct 1 as [c ws i o os r Hi|c ws i rows Hi|c ws i Hi]; unfold shared_errors; cbn [fst snd].
  - pose proof (bind_insert_perm pending_errors ws i _ (Running {| ops := os; result := r |}) (op_errors o) Hi ltac:(done)) as Hp.
    destruct o as [ts|e0]; cbn in *; [apply Hsame; by rewrite Hp|].
    split.
    + rewrite (Hnil _ _ (Permutation_app_head _ Hp)). destruct (option_list _); done.
    + intros e He. rewrite Hp. apply elem_of_app. by right.
  - apply Hsame. by rewrite (bind_insert_perm pending_errors ws i _ Finished [] Hi).
  - apply Hsame. by rewrite (bind_insert_perm pending_errors ws i _ Panicked [] Hi).
Qed.

Lemma step_panics s s' : step s s' -> existsb panics s'.2 = existsb panics s.2.
Proof. destruct 1; cbn; by eapply existsb_insert_same. Qed.

(** The steps left. *)
Definition work (w : worker) : nat := match w with Running t => S (length (ops t)) | _ => 0 end.
Definition work_left (s : state) : nat := sum_list_with work s.2.

Lemma sum_insert {A} (f : A -> nat) l i a a' : l !! i = Some a -> (f a' < f a)%nat -> (sum_list_with f (<[i := a']> l) < sum_list_with f l)%nat.
Proof.
  revert i. induction l as [|b l IH]; intros [|i] Hi Hf; try done.
  - injection Hi as ->. cbn. lia.
  - change (f b + sum_list_with f (<[i:=a']> l) < f b + sum_list_with f l)%nat. specialize (IH i Hi Hf). lia.
Qed.

Lemma step_work s s' : step s s' -> (work_left s' < work_left s)%nat.
Proof. destruct 1; unfold work_left; cbn; eapply sum_insert; eauto; cbn; lia. Qed.

(** Some worker can take a step as long as one is running. *)
Lemma running_steps c ws t : Running t ∈ ws -> exists s', step (c, ws) s'.
Proof.
  intros [i Hi]%list_elem_of_lookup. destruct t as [[|o os] r]; [destruct r|]; eexists;
    [by eapply step_return|by eapply step_panic|by eapply step_op].
Qed.

Lemma joined_none ws : joined ws = None -> exists t, Running t ∈ ws.
Proof.
  induction ws as [|[t| |] ws IH]; cbn; try done.
  - intros _. exists t. apply elem_of_cons. by left.
  - intros Hj. destruct (IH Hj) as [t Ht]. exists t. apply elem_of_cons. by right.
Qed.

Lemma joined_ok ws : joined ws = Some (Ok tt) -> (ws ≫= pending_rows) = [] /\ (ws ≫= pending_errors) = [] /\ existsb panics ws = false.
Proof. induction ws as [|[t| |] ws IH]; cbn; try done. Qed.

Lemma joined_panic ws o : joined ws = Some o -> o = Ok tt \/ (o = Err (Anyhow "JoinError" []) /\ existsb panics ws = true).
Proof.
  induction ws as [|[t| |] ws IH]; cbn; [intros [= <-]; by left|done|done|]. intros [= <-]. by right.
Qed.

Record moved (s s' : state) : Prop := {
  mv_rows : shared_rows s ++ (s.2 ≫= pending_rows) ≡ₚ shared_rows s' ++ (s'.2 ≫= pending_rows);
  mv_none : shared_errors s ++ (s.2 ≫= pending_errors) = [] <-> shared_errors s' ++ (s'.2 ≫= pending_errors) = [];
  mv_errors : forall e, e ∈ shared_errors s' ++ (s'.2 ≫= pending_errors) -> e ∈ shared_errors s ++ (s.2 ≫= pending_errors);
  mv_panics : existsb panics s'.2 = existsb panics s.2;
}.

Lemma steps_moved s s' : rtc step s s' -> moved s s'.
Proof.
  induction 1 as [s|s s1 s' Hs _ [Hr Hn He Hp]]; [by split|].
  destruct (step_errors s s1 Hs) as [Hn1 He1]. split.
  - etrans; [by apply step_rows|done].
  - by rewrite Hn1.
  - intros e Hin. by apply He1, He.
  - rewrite Hp. by apply step_panics.
Qed.

Lemma bind_fmap {A B C} (f : B -> list C) (g : A -> B) (l : list A) : (g <$> l) ≫= f = l ≫= (fun a => f (g a)).
Proof. induction l as [|a l IH]; [done|]. cbn. by rewrite IH. Qed.

(** C32. Parallel execution, in every interleaving of the workers' steps. It comes to an
    answer: there are at most as many steps as the tasks have calls and ends, and while
    the caller still waits a worker can take one. The answer is: an error when a task
    panicked; when none panicked but some reported an error, or an earlier execution
    left one in the context, one of these errors; otherwise all rows that the tasks
    added and returned, each as often as it was, together with those that an earlier
    execution left in the context. *)
Theorem parallel_any_schedule task c s (Hs : rtc step (spawn_all task c) s) :
  let tasks := task <$> seqZ 0 (n_workers c) in
  let errors := option_list (p_error (shared_state c)) ++ (tasks ≫= task_errors) in
  (work_left s <= work_left (spawn_all task c))%nat
  /\ (forall s', step s s' -> (work_left s' < work_left s)%nat)
  /\ (parallel_answer s = None -> exists s', step s s')
  /\ (forall o, parallel_answer s = Some o ->
        (Exists (fun t => result t = None) tasks /\ o = Err (Anyhow "JoinError" []))
        \/ (Forall (fun t => result t <> None) tasks
            /\ ((exists e, e ∈ errors /\ o = Err (Anyhow ("Parallel execution failed: " +:+ e) []))
                \/ (errors = [] /\ exists rows, o = Ok rows /\ rows ≡ₚ get_tuples c ++ (tasks ≫= task_rows))))).
Proof.
  intros tasks errors. pose proof (steps_moved _ _ Hs) as [Hr Hn He Hp]. split_and!.
  - clear -Hs. induction Hs as [|s s1 s' H1 _ IH]; [done|]. apply step_work in H1. lia.
  - intros s'. apply step_work.
  - unfold parallel_answer. destruct s as [c' ws]. cbn. destruct (joined ws) as [[|e|]|] eqn:E; try done. intros _.
    apply joined_none in E as [t Ht]. by eapply running_steps.
  - intros o. unfold parallel_answer. destruct (joined s.2) as [o'|] eqn:E; [|done]. destruct (joined_panic _ _ E) as [->|[-> Hpan]].
    2:{ intros [= <-]. left. split; [|done]. rewrite Hp in Hpan. apply existsb_exists in Hpan as (w & Hw%list_elem_of_In & Hpw).
        unfold spawn_all in Hw. cbn in Hw. apply list_elem_of_fmap in Hw as (i & -> & Hi). apply Exists_exists.
        exists (task i). split; [apply list_elem_of_fmap; by exists i|]. cbn in Hpw. by destruct (result (task i)). }
    apply joined_ok in E as (E1 & E2 & E3). intros [= <-]. right. rewrite E1, app_nil_r in Hr. rewrite E2, app_nil_r in Hn, He.
    unfold spawn_all in *. cbn [fst snd] in *. rewrite bind_fmap in Hr. rewrite bind_fmap in Hn. setoid_rewrite bind_fmap in He. unfold shared_errors in Hn, He. cbn in Hr, Hn, He.
    unfold errors, tasks. rewrite !bind_fmap. split.
    + rewrite E3 in Hp. apply Forall_forall. intros t (i & -> & Hi)%list_elem_of_fmap Hres. symmetry in Hp.
      enough (existsb panics ((fun i => Running (task i)) <$> seqZ 0 (n_workers c)) = true) by congruence.
      apply existsb_exists. exists (Running (task i)). split; [apply list_elem_of_In, list_elem_of_fmap; by exists i|]. cbn. by rewrite Hres.
    + destruct (p_error (shared_state s.1)) as [e|] eqn:Ee; cbn in Hn, He.
      * left. exists e. split; [|done]. apply He. apply elem_of_cons. by left.
      * right. split; [by apply Hn|]. eexists. split; [done|]. by rewrite <- Hr.
Qed.

(** A second execution on the same context answers the first one's rows as well. *)
Example rows_accumulate :
  let c := add_tuples [["old"]] (ParallelContext_new 1) in
  exists s, rtc step (spawn_all (fun _ => {| ops := []; result := Some [["new"]] |}) c) s /\ parallel_answer s = Some (Ok [["old"]; ["new"]]).
Proof. eexists. split; [apply rtc_once; by apply (step_return _ _ 0 [["new"]])|done]. Qed.

(** Two workers, of which the second is the first to end. *)
Lemma two_workers_run : rtc step (spawn_all (fun i => {| ops := []; result := Some [[pretty i]] |}) (ParallelContext_new 2))
  (add_tuples [["0"]] (add_tuples [["1"]] (ParallelContext_new 2)), [Finished; Finished]).
Proof. eapply rtc_l; [by apply (step_return _ _ 1 [["1"]])|]. apply rtc_once. by apply (step_return _ [_; _] 0 [["0"]]). Qed.

Lemma parallel_any_schedule_witness :
  exists rows, parallel_answer (add_tuples [["0"]] (add_tuples [["1"]] (ParallelContext_new 2)), [Finished; Finished]) = Some (Ok rows)
    /\ rows ≡ₚ [["0"]; ["1"]].
Proof.
  destruct (parallel_any_schedule _ (ParallelContext_new 2) _ two_workers_run) as (_ & _ & _ & Ho).
  destruct (Ho _ eq_refl) as [[_ [=]]|[_ [(e & _ & [=])|(_ & rows & E & Hr)]]]. exists rows. split; [|exact Hr]. by injection E as <-.
Defined.
