(* ===== verification/Autovacuum.v ===== *)
(** The autovacuum daemon ([src/src/concurrency/autovacuum.rs]): statistics of tables
    and the decision to vacuum or analyze them. Nothing in the program runs it. An
    [Instant] is its number of nanoseconds. *)

From Stdlib Require Import SpecFloat.
From S2P Require Import Prelude Types SqlText Float64 FloatOrder.

Record AutovacuumConfig := {
  vacuum_threshold : f64;
  analyze_threshold : f64;
  cost_delay : Z;
  cost_limit : Z;
  naptime : Z;
}.

Definition AutovacuumConfig_default : AutovacuumConfig := {|
  vacuum_threshold := f_of_ratio false 2 10;
  analyze_threshold := f_of_ratio false 1 10;
  cost_delay := 20 * 10 ^ 6;
  cost_limit := 200;
  naptime := 60 * 10 ^ 9;
|}.

Record TableVacuumStats := {
  vs_rel_oid : Oid;
  n_live_tup : Z;
  n_dead_tup : Z;
  last_vacuum : option Z;
  last_analyze : option Z;
}.

Definition TableVacuumStats_new (rel_oid : Oid) : TableVacuumStats :=
  {| vs_rel_oid := rel_oid; n_live_tup := 0; n_dead_tup := 0; last_vacuum := None; last_analyze := None |}.

Record VacuumDecision := { should_vacuum : bool; should_analyze : bool; estimated_pages : Z }.

Record AutovacuumDaemon := { config : AutovacuumConfig; table_stats : gmap Oid TableVacuumStats }.

Definition AutovacuumDaemon_new (c : AutovacuumConfig) : AutovacuumDaemon := {| config := c; table_stats := ∅ |}.

Definition with_stats (d : AutovacuumDaemon) (m : gmap Oid TableVacuumStats) : AutovacuumDaemon :=
  {| config := config d; table_stats := m |}.

Definition update_stats (rel_oid : Oid) (n_live n_dead : Z) (d : AutovacuumDaemon) : AutovacuumDaemon :=
  let s := default (TableVacuumStats_new rel_oid) (table_stats d !! rel_oid) in
  with_stats d (<[ rel_oid :=
    {| vs_rel_oid := vs_rel_oid s; n_live_tup := n_live; n_dead_tup := n_dead;
       last_vacuum := last_vacuum s; last_analyze := last_analyze s |} ]> (table_stats d)).

Definition record_vacuum (rel_oid : Oid) (now : Z) (d : AutovacuumDaemon) : AutovacuumDaemon :=
  with_stats d (alter (fun s => {| vs_rel_oid := vs_rel_oid s; n_live_tup := n_live_tup s; n_dead_tup := n_dead_tup s;
    last_vacuum := Some now; last_analyze := last_analyze s |}) rel_oid (table_stats d)).

Definition record_analyze (rel_oid : Oid) (now : Z) (d : AutovacuumDaemon) : AutovacuumDaemon :=
  with_stats d (alter (fun s => {| vs_rel_oid := vs_rel_oid s; n_live_tup := n_live_tup s; n_dead_tup := n_dead_tup s;
    last_vacuum := last_vacuum s; last_analyze := Some now |}) rel_oid (table_stats d)).

Definition get_stats (rel_oid : Oid) (d : AutovacuumDaemon) : option TableVacuumStats := table_stats d !! rel_oid.
Definition all_stats (d : AutovacuumDaemon) : gmap Oid TableVacuumStats := table_stats d.

(** [t.elapsed()], which is 0 for an instant to come. *)
Definition elapsed (now t : Z) : Z := Z.max 0 (now - t).

Section decision.
Context {P : Profile}.

Definition dead_ratio (s : TableVacuumStats) : outcome f64 :=
  total ← add_w 64 (n_live_tup s) (n_dead_tup s);
  Ok (if total =? 0 then f_zero else f_div (f_of_Z (n_dead_tup s)) (f_of_Z total)).

(** Whether a threshold is passed and the nap is over. *)
Definition vacuum_due (threshold : f64) (nap now : Z) (last : option Z) (s : TableVacuumStats) : outcome bool :=
  ratio ← dead_ratio s;
  let dominated := f_ltb threshold ratio in
  let timed_out := match last with None => true | Some t => nap <? elapsed now t end in
  Ok (dominated && timed_out).

Definition compute_vacuum_decision (rel_oid : Oid) (now : Z) (d : AutovacuumDaemon) : outcome VacuumDecision :=
  match table_stats d !! rel_oid with
  | None => Ok {| should_vacuum := false; should_analyze := false; estimated_pages := 0 |}
  | Some s =>
      v ← vacuum_due (vacuum_threshold (config d)) (naptime (config d)) now (last_vacuum s) s;
      a ← vacuum_due (analyze_threshold (config d)) (naptime (config d)) now (last_analyze s) s;
      total ← add_w 64 (n_live_tup s) (n_dead_tup s);
      Ok {| should_vacuum := v; should_analyze := a; estimated_pages := (total / 1000) as_u32 |}
  end.

(** The keys in the order that the map iterates them, filtered one after the other. *)
Fixpoint needing_vacuum (keys : list Oid) (now : Z) (d : AutovacuumDaemon) : outcome (list Oid) :=
  match keys with
  | [] => Ok []
  | oid :: keys =>
      dec ← compute_vacuum_decision oid now d;
      rest ← needing_vacuum keys now d;
      Ok (if should_vacuum dec then oid :: rest else rest)
  end.
Definition tables_needing_vacuum (order : gmap Oid TableVacuumStats -> list Oid) (now : Z) (d : AutovacuumDaemon) : outcome (list Oid) :=
  needing_vacuum (order (table_stats d)) now d.

End decision.

(* ------------------------------------------------------------------ *)
(** ** Decisions after a history *)

Inductive event := Updated (oid : Oid) (live dead : Z) | Vacuumed (oid : Oid) (now : Z) | Analyzed (oid : Oid) (now : Z).

Definition happens (d : AutovacuumDaemon) (e : event) : AutovacuumDaemon :=
  match e with
  | Updated oid l k => update_stats oid l k d
  | Vacuumed oid now => record_vacuum oid now d
  | Analyzed oid now => record_analyze oid now d
  end.

(** What the history says of a table: the last counts, and the last vacuum and analyze
    since it has counts at all. *)
Definition seen := option (Z * Z * option Z * option Z).
Definition sees (oid : Oid) (s : seen) (e : event) : seen :=
  match e with
  | Updated o l k => if decide (o = oid) then Some (l, k, s ≫= (fun x => x.1.2), s ≫= (fun x => x.2)) else s
  | Vacuumed o t => if decide (o = oid) then (fun x => (x.1.1, Some t, x.2)) <$> s else s
  | Analyzed o t => if decide (o = oid) then (fun x => (x.1.1, x.1.2, Some t)) <$> s else s
  end.
Definition history (oid : Oid) (h : list event) : seen := foldl (sees oid) None h.

Definition counts_fit (e : event) : Prop := match e with Updated _ l k => 0 <= l /\ 0 <= k /\ l + k < 2 ^ 64 | _ => True end.

Definition ratio_of (l k : Z) : f64 := if l + k =? 0 then f_zero else f_div (f_of_Z k) (f_of_Z (l + k)).
Definition over (nap now : Z) (last : option Z) : bool := match last with None => true | Some t => nap <? elapsed now t end.

Lemma history_state c h oid :
  (fun s => (n_live_tup s, n_dead_tup s, last_vacuum s, last_analyze s)) <$> table_stats (foldl happens (AutovacuumDaemon_new c) h) !! oid
  = history oid h /\ config (foldl happens (AutovacuumDaemon_new c) h) = c.
Proof.
  induction h as [|e h IH] using rev_ind; [done|]. unfold history. rewrite !foldl_app. cbn [foldl]. fold (history oid h).
  destruct IH as [IH Ec]. split; [|by destruct e]. rewrite <- IH. clear IH. generalize (foldl happens (AutovacuumDaemon_new c) h) as d. intros d.
  destruct e as [o l k|o t|o t]; cbn; destruct (decide (o = oid)) as [->|Hne].
  - rewrite lookup_insert_eq. cbn. by destruct (table_stats d !! oid).
  - by rewrite lookup_insert_ne.
  - rewrite lookup_alter_eq. by destruct (table_stats d !! oid).
  - by rewrite lookup_alter_ne.
  - rewrite lookup_alter_eq. by destruct (table_stats d !! oid).
  - by rewrite lookup_alter_ne.
Qed.

Lemma history_fits oid h x : Forall counts_fit h -> history oid h = Some x -> 0 <= x.1.1.1 /\ 0 <= x.1.1.2 /\ x.1.1.1 + x.1.1.2 < 2 ^ 64.
Proof.
  revert x. induction h as [|e h IH] using rev_ind; intros x; [done|]. rewrite Forall_app, Forall_singleton. intros [Hh He].
  unfold history. rewrite foldl_app. cbn [foldl]. fold (history oid h). specialize (fun x => IH x Hh).
  destruct e as [o l k|o t|o t]; cbn; case_decide; try apply IH.
  - intros [= <-]. done.
  - intros (y & E & ->)%fmap_Some. by apply IH in E.
  - intros (y & E & ->)%fmap_Some. by apply IH in E.
Qed.

(** The decision after any history of updates, vacuums and analyses, whose counts add
    up in 64 bits. A table is to be vacuumed exactly when it has counts, the dead ones
    are more than the threshold's share of all, and its last vacuum since it had counts,
    if there was one, is longer ago than the nap; the same for analyzing. The tables
    needing vacuum are those. *)
Theorem decision_after_history {P : Profile} c h now order
    (Hh : Forall counts_fit h) (Horder : forall m, order m ≡ₚ (map_to_list m).*1) :
  let d := foldl happens (AutovacuumDaemon_new c) h in
  (forall oid, exists dec, compute_vacuum_decision oid now d = Ok dec
    /\ match history oid h with
       | None => should_vacuum dec = false /\ should_analyze dec = false
       | Some (l, k, v, a) =>
           should_vacuum dec = f_ltb (vacuum_threshold c) (ratio_of l k) && over (naptime c) now v
           /\ should_analyze dec = f_ltb (analyze_threshold c) (ratio_of l k) && over (naptime c) now a
           /\ estimated_pages dec = ((l + k) / 1000) as_u32
       end)
  /\ exists oids, tables_needing_vacuum order now d = Ok oids
    /\ forall oid, oid ∈ oids <-> exists dec, compute_vacuum_decision oid now d = Ok dec /\ should_vacuum dec = true.
Proof.
  intros d. assert (Hdec : forall oid, exists dec, compute_vacuum_decision oid now d = Ok dec
    /\ match history oid h with
       | None => should_vacuum dec = false /\ should_analyze dec = false
       | Some (l, k, v, a) =>
           should_vacuum dec = f_ltb (vacuum_threshold c) (ratio_of l k) && over (naptime c) now v
           /\ should_analyze dec = f_ltb (analyze_threshold c) (ratio_of l k) && over (naptime c) now a
           /\ estimated_pages dec = ((l + k) / 1000) as_u32
       end).
  { intros oid. destruct (history_state c h oid) as [E Ec]. fold d in E, Ec. pose proof (history_fits oid h) as Hf.
    unfold compute_vacuum_decision. destruct (table_stats d !! oid) as [s|] eqn:Es; cbn in E; rewrite <- E in *; [|by eexists].
    destruct (Hf _ Hh eq_refl) as (Hl & Hk & Hlk). cbn in Hl, Hk, Hlk. unfold vacuum_due, dead_ratio.
    rewrite (add_w_ok 64) by (unfold in_width; lia). rewrite !ok_bind, Ec. eexists. split; [reflexivity|]. done. }
  split; [done|]. unfold tables_needing_vacuum.
  assert (Hall : forall keys, exists oids, needing_vacuum keys now d = Ok oids
    /\ forall oid, oid ∈ oids <-> oid ∈ keys /\ exists dec, compute_vacuum_decision oid now d = Ok dec /\ should_vacuum dec = true).
  { induction keys as [|key keys (oids & E & IH)]; cbn [needing_vacuum].
    - exists []. split; [done|]. intros oid. split; [by intros ?%not_elem_of_nil|by intros [?%not_elem_of_nil _]].
    - destruct (Hdec key) as (dec & Ed & _). rewrite Ed, ok_bind, E, ok_bind. eexists. split; [reflexivity|]. intros oid.
      destruct (should_vacuum dec) eqn:Ev; rewrite ?elem_of_cons, IH.
      + split; [intros [->|[? ?]]; [split; [by left|eauto]|split; [by right|done]]|]. intros [[->|?] ?]; [by left|by right].
      + split; [intros [? ?]; split; [by right|done]|]. intros [[->|?] Hx]; [|done]. destruct Hx as (dec' & Ed' & Ev'). congruence. }
  destruct (Hall (order (table_stats d))) as (oids & E & Ho). exists oids. split; [done|]. intros oid. rewrite Ho.
  split; [by intros [_ ?]|]. intros Hx. split; [|done]. rewrite (Horder (table_stats d)). destruct Hx as (dec & Ed & Ev).
  unfold compute_vacuum_decision in Ed. destruct (table_stats d !! oid) as [s|] eqn:Es; [|by injection Ed as <-].
  apply list_elem_of_fmap. exists (oid, s). split; [done|]. by apply elem_of_map_to_list.
Qed.

(** A table vacuumed before its first counts is due at once; after a vacuum it rests. *)
Lemma decision_after_history_witness :
  let h := [Vacuumed 7 0; Updated 7 10 90; Updated 8 100 0; Updated 9 10 90; Vacuumed 9 100] in
  let d := foldl happens (AutovacuumDaemon_new AutovacuumConfig_default) h in
  exists oids, @tables_needing_vacuum debug_profile (fun m => (map_to_list m).*1) 200 d = Ok oids /\ 7 ∈ oids /\ 9 ∉ oids.
Proof.
  intros h d. destruct (@decision_after_history debug_profile AutovacuumConfig_default h 200 (fun m => (map_to_list m).*1)) as [Hd (oids & E & Ho)];
    [by repeat constructor|done|].
  exists oids. split; [exact E|]. rewrite !Ho. split; [eexists; split; by vm_compute|].
  intros (dec & Ed & Ev). destruct (Hd 9) as (dec' & Ed' & Ev' & _). fold d in Ed, Ed'. rewrite Ed' in Ed. injection Ed as ->.
  rewrite Ev' in Ev. by vm_compute in Ev.
Defined.
