(* ===== verification/Archive.v ===== *)
(** Archiving of log segments ([src/src/wal/archiving.rs]) and the file of the control
    data ([recovery.rs]), over a model of [std::fs]: directories and files by their
    paths, with the errors of missing files and directories. Other failures of the
    operating system are not in the model. *)

From S2P Require Import Prelude Types SqlText Float64 TextOps Storage Wal.

(* ------------------------------------------------------------------ *)
(** ** Files *)

(** A path as its components. *)
Abbreviation path := (list string).

Record Fs := { dirs : gset path; files : gmap path bytes }.

Definition parent (p : path) : path := removelast p.

(** The path itself and the directories above it. *)
Definition prefixes (p : path) : list path := (fun n => take n p) <$> seq 0 (S (length p)).

Definition is_file (p : path) (fs : Fs) : bool := bool_decide (is_Some (files fs !! p)).
Definition is_dir (p : path) (fs : Fs) : bool := bool_decide (p ∈ dirs fs).

(** [Path::exists]. *)
Definition fs_exists (p : path) (fs : Fs) : bool := is_file p fs || is_dir p fs.

Definition fs_read (p : path) (fs : Fs) : outcome bytes :=
  match files fs !! p with Some data => Ok data | None => Err (Anyhow "No such file or directory" []) end.

(** [fs::write]. *)
Definition fs_write (p : path) (data : bytes) (fs : Fs) : outcome unit * Fs :=
  if is_dir p fs then (Err (Anyhow "Is a directory" []), fs)
  else if is_dir (parent p) fs then (Ok tt, {| dirs := dirs fs; files := <[ p := data ]> (files fs) |})
  else (Err (Anyhow "No such file or directory" []), fs).

(** [fs::create_dir_all]. *)
Definition create_dir_all (p : path) (fs : Fs) : outcome unit * Fs :=
  if existsb (fun q => is_file q fs) (prefixes p) then (Err (Anyhow "File exists" []), fs)
  else (Ok tt, {| dirs := list_to_set (prefixes p) ∪ dirs fs; files := files fs |}).

(** [fs::copy]; of a file to itself, it is emptied. *)
Definition fs_copy (src dst : path) (fs : Fs) : outcome unit * Fs :=
  match files fs !! src with
  | None => (Err (Anyhow "No such file or directory" []), fs)
  | Some data => fs_write dst (if bool_decide (src = dst) then [] else data) fs
  end.

(** The names in a directory, in the order of [read_dir]. *)
Definition entries (d : path) (fs : Fs) : list string :=
  omap (fun p => if decide (parent p = d) then last p else None) (elements (dom (files fs) ∪ dirs fs)).

Definition read_dir (d : path) (fs : Fs) : outcome (list string) :=
  if is_dir d fs then Ok (entries d fs) else Err (Anyhow "Not a directory" []).

(** Calls one after the other. *)
Definition fs_then (m : outcome unit * Fs) (k : Fs -> outcome unit * Fs) : outcome unit * Fs :=
  match m with (Ok _, fs) => k fs | r => r end.
Notation "m ;;; k" := (fs_then m k) (at level 100, right associativity).

(* ------------------------------------------------------------------ *)
(** ** The archiver *)

Record WalArchiver := { archive_dir : path }.

(** [format!("{:08X}{:08X}{:08X}", 1, 0, seg_no)]. *)
Definition seg_name (seg_no : Z) : string := hex_text true 8 1 +:+ hex_text true 8 0 +:+ hex_text true 8 seg_no.

Definition ensure_dir (d : path) (fs : Fs) : outcome unit * Fs := if fs_exists d fs then (Ok tt, fs) else create_dir_all d fs.

Definition archive_segment (a : WalArchiver) (seg_no : Z) (wal_dir : path) (fs : Fs) : outcome unit * Fs :=
  let src := wal_dir ++ [seg_name seg_no] in
  let dst := archive_dir a ++ [seg_name seg_no] in
  let status_dir := wal_dir ++ ["archive_status"] in
  ensure_dir (archive_dir a) fs ;;; fun fs =>
  fs_copy src dst fs ;;; fun fs =>
  ensure_dir status_dir fs ;;; fun fs =>
  fs_write (status_dir ++ [seg_name seg_no +:+ ".done"]) [] fs.

Definition restore_segment (a : WalArchiver) (seg_no : Z) (wal_dir : path) (fs : Fs) : outcome unit * Fs :=
  let src := archive_dir a ++ [seg_name seg_no] in
  let dst := wal_dir ++ [seg_name seg_no] in
  ensure_dir wal_dir fs ;;; fun fs => fs_copy src dst fs.

(** The number in a name of 24 bytes. *)
Definition archived_number (name : string) : outcome (option Z) :=
  if text_len name =? 24 then digits ← text_slice 16 24 name; Ok (parse_hex 32 digits) else Ok None.

Fixpoint archived_numbers (names : list string) : outcome (list Z) :=
  match names with
  | [] => Ok []
  | name :: names => n ← archived_number name; rest ← archived_numbers names; Ok (option_list n ++ rest)
  end.

Definition list_archived (a : WalArchiver) (fs : Fs) : outcome (list Z) :=
  segments ← (if fs_exists (archive_dir a) fs then names ← read_dir (archive_dir a) fs; archived_numbers names else Ok []);
  Ok (sort_by Z.compare segments).

(* ------------------------------------------------------------------ *)
(** ** The control file *)

Definition save_control_file (p : path) (control : ControlFile) (fs : Fs) : outcome unit * Fs :=
  fs_write p (ControlFile_serialize control) fs.

Definition from_control_file (p : path) (fs : Fs) : outcome ControlFile :=
  data ← fs_read p fs; ControlFile_deserialize data.

(* ------------------------------------------------------------------ *)
(** ** Lemmas *)

Lemma parse_hex_text n : in_width 32 n -> parse_hex 32 (hex_text true 8 n) = Some n.
Proof.
  intros Hn. pose proof (hex_digits_text true 8 n 0 Hn) as E. rewrite Z.mul_0_l, Z.add_0_l in E.
  unfold parse_hex. destruct (hex_text true 8 n) as [|c s] eqn:Et; [by apply (f_equal String.length) in Et; rewrite length_hex_text in Et|].
  assert (Hc : Ascii.eqb c "+" = false).
  { apply Ascii.eqb_neq. intros ->. by cbn in E. }
  rewrite Hc, E. cbn. unfold in_range. unfold in_width in Hn. by rewrite (proj2 (andb_true_iff _ _)) by (split; apply Z.leb_le; lia).
Qed.

Lemma substring_skip s t i n : String.substring (String.length s + i) n (s +:+ t) = String.substring i n t.
Proof. induction s as [|c s IH]; [done|]. exact IH. Qed.

Lemma substring_all s : String.substring 0 (String.length s) s = s.
Proof. induction s as [|c s IH]; [done|]. cbn. by rewrite IH. Qed.

Lemma hex_head n z : exists c s, hex_text true (S n) z = String c s /\ hex_value c <> None.
Proof.
  revert z. induction n as [|n IH]; intros z; cbn [hex_text].
  - eexists _, _. split; [done|]. rewrite hex_value_digit; [done|]. apply Z.mod_pos_bound. lia.
  - destruct (IH (z / 16)) as (c & s & E & Hc). cbn [hex_text] in E. rewrite E. eexists c, _. split; [done|done].
Qed.

Lemma hex_not_continuation c : hex_value c <> None -> is_continuation c = false.
Proof.
  unfold hex_value, is_continuation. pose proof (byte_of_range c).
  destruct (Z.leb_spec 48 (byte_of c)), (Z.leb_spec (byte_of c) 57), (Z.leb_spec 65 (byte_of c)), (Z.leb_spec (byte_of c) 70),
    (Z.leb_spec 97 (byte_of c)), (Z.leb_spec (byte_of c) 102), (Z.leb_spec 128 (byte_of c)); cbn; intros; try done; try (exfalso; lia).
Qed.

Lemma get_skip s t i : String.get (String.length s + i) (s +:+ t) = String.get i t.
Proof. induction s as [|c s IH]; [done|]. exact IH. Qed.

Lemma archived_seg_name n : in_width 32 n -> archived_number (seg_name n) = Ok (Some n).
Proof.
  intros Hn. unfold archived_number.
  assert (Hlen : String.length (seg_name n) = 24%nat) by (unfold seg_name; by rewrite !text_length_app, !length_hex_text).
  unfold text_len. rewrite Hlen. cbn [Z.eqb Z.of_nat]. rewrite Z.eqb_refl.
  assert (E : seg_name n = (hex_text true 8 1 +:+ hex_text true 8 0) +:+ hex_text true 8 n) by done.
  assert (H16 : is_boundary 16 (seg_name n) = true).
  { unfold is_boundary. rewrite E. change (Z.to_nat 16) with (String.length (hex_text true 8 1 +:+ hex_text true 8 0) + 0)%nat.
    rewrite get_skip. destruct (hex_head 7 n) as (c & s & Es & Hc). rewrite Es. cbn [String.get]. by rewrite hex_not_continuation. }
  assert (H24 : is_boundary 24 (seg_name n) = true).
  { unfold is_boundary, text_len. rewrite Hlen. destruct (String.get (Z.to_nat 24) (seg_name n)) eqn:Eg; [|done].
    exfalso. revert Eg. rewrite E. change (Z.to_nat 24) with (String.length (hex_text true 8 1 +:+ hex_text true 8 0) + 8)%nat. rewrite get_skip.
    assert (Hg : forall s i c, String.get i s = Some c -> (i < String.length s)%nat) by (induction s as [|d s IH]; intros [|i] c; cbn; try done; [lia|intros ?%IH; lia]).
    intros Hget%Hg. rewrite length_hex_text in Hget. lia. }
  unfold text_slice, text_len. rewrite Hlen, H16, H24. cbn [Z.leb Z.compare andb Z.of_nat]. 
  change (Z.to_nat 16) with (String.length (hex_text true 8 1 +:+ hex_text true 8 0) + 0)%nat. rewrite E, substring_skip.
  pose proof (substring_all (hex_text true 8 n)) as Es. rewrite length_hex_text in Es.
  change (Z.to_nat (24 - 16)) with 8%nat. rewrite Es. change ((16 <=? 24) && (24 <=? Z.of_nat 24) && true && true) with true.
  cbv iota. by rewrite ok_bind, parse_hex_text.
Qed.

Lemma is_dir_spec p fs : is_dir p fs = true <-> p ∈ dirs fs.
Proof. apply bool_decide_eq_true. Qed.

Lemma is_file_spec p fs : is_file p fs = true <-> is_Some (files fs !! p).
Proof. apply bool_decide_eq_true. Qed.

(** A directory can be made there, or is there. *)
Definition can_hold (d : path) (fs : Fs) : Prop := Forall (fun q => is_file q fs = false) (prefixes d).

Lemma in_prefixes p : p ∈ prefixes p.
Proof. apply list_elem_of_fmap. exists (length p). split; [by rewrite take_ge|]. apply elem_of_seq. lia. Qed.

Lemma ensure_dir_ok d fs : can_hold d fs ->
  exists fs', ensure_dir d fs = (Ok tt, fs') /\ files fs' = files fs /\ dirs fs ⊆ dirs fs' /\ d ∈ dirs fs'
    /\ (forall p, p ∈ dirs fs' -> p ∈ dirs fs \/ p ∈ prefixes d).
Proof.
  intros Hh. unfold ensure_dir, fs_exists. unfold can_hold in Hh. rewrite Forall_forall in Hh. rewrite (Hh d (in_prefixes d)). cbn.
  destruct (is_dir d fs) eqn:E; [apply is_dir_spec in E; exists fs; by split_and!; auto|].
  unfold create_dir_all. destruct (existsb _ (prefixes d)) eqn:Ex.
  { apply existsb_exists in Ex as (q & Hq%list_elem_of_In & Hf). by rewrite (Hh q Hq) in Hf. }
  eexists. split; [done|]. cbn [files dirs]. split_and!; [done|set_solver| |].
  - apply elem_of_union. left. rewrite elem_of_list_to_set. apply in_prefixes.
  - intros p [Hp%elem_of_list_to_set|Hp]%elem_of_union; auto.
Qed.

Lemma fs_write_ok p data fs : p ∉ dirs fs -> parent p ∈ dirs fs ->
  fs_write p data fs = (Ok tt, {| dirs := dirs fs; files := <[ p := data ]> (files fs) |}).
Proof.
  intros Hn Hp. unfold fs_write. destruct (is_dir p fs) eqn:E; [by apply is_dir_spec in E|].
  by rewrite (proj2 (is_dir_spec _ _) Hp).
Qed.

Lemma parent_snoc d n : parent (d ++ [n]) = d.
Proof. unfold parent. apply removelast_last. Qed.

Definition segment_path (d : path) (n : Z) : path := d ++ [seg_name n].
Definition status_dir (d : path) : path := d ++ ["archive_status"].
Definition done_path (d : path) (n : Z) : path := status_dir d ++ [seg_name n +:+ ".done"].

(** Where nothing stands in the way of archiving a segment. *)
Record archivable (a : WalArchiver) (n : Z) (wal_dir : path) (fs : Fs) : Prop := {
  av_apart : archive_dir a <> wal_dir;
  av_archive : can_hold (archive_dir a) fs;
  av_status : can_hold (status_dir wal_dir) fs;
  av_copy : segment_path (archive_dir a) n ∉ dirs fs;
  av_copy_status : segment_path (archive_dir a) n ∉ prefixes (status_dir wal_dir);
  av_done : done_path wal_dir n ∉ dirs fs;
  av_done_archive : done_path wal_dir n ∉ prefixes (archive_dir a);
}.

Lemma snoc_not_prefix d x : d ++ [x] ∉ prefixes d.
Proof.
  intros (k & E & Hk)%list_elem_of_fmap. apply (f_equal length) in E. rewrite length_app, length_take in E. cbn in E. lia.
Qed.

Lemma archive_ok a n wal_dir fs data : archivable a n wal_dir fs -> files fs !! segment_path wal_dir n = Some data ->
  exists fs', archive_segment a n wal_dir fs = (Ok tt, fs')
    /\ files fs' = <[ done_path wal_dir n := [] ]> (<[ segment_path (archive_dir a) n := data ]> (files fs))
    /\ archive_dir a ∈ dirs fs'.
Proof.
  intros [Hne Ha Hs Hc Hcs Hd Hda] Hdata. unfold archive_segment. fold (status_dir wal_dir) (segment_path wal_dir n) (segment_path (archive_dir a) n).
  fold (done_path wal_dir n). destruct (ensure_dir_ok _ _ Ha) as (fs1 & -> & Ef1 & Hd1 & Hin1 & Hnew1). cbn [fs_then].
  unfold fs_copy. rewrite Ef1, Hdata. rewrite bool_decide_false by (intros [E _]%app_inj_tail; congruence).
  rewrite fs_write_ok.
  2:{ intros [|Hp]%Hnew1; [done|]. by apply snoc_not_prefix in Hp. }
  2:{ unfold segment_path. by rewrite parent_snoc. }
  cbn [fs_then]. rewrite Ef1. set (fs2 := {| dirs := dirs fs1; files := _ |}).
  assert (Hs2 : can_hold (status_dir wal_dir) fs2).
  { unfold can_hold in *. rewrite Forall_forall in *. intros q Hq. specialize (Hs q Hq). unfold is_file, fs2 in *. cbn.
    rewrite lookup_insert_ne; [done|]. by intros <-. }
  destruct (ensure_dir_ok _ _ Hs2) as (fs3 & -> & Ef3 & Hd3 & Hin3 & Hnew3). cbn [fs_then].
  rewrite fs_write_ok.
  2:{ intros [Hp|Hp]%Hnew3; [|by apply snoc_not_prefix in Hp]. apply Hnew1 in Hp as [|]; done. }
  2:{ unfold done_path. by rewrite parent_snoc. }
  eexists. split; [done|]. cbn. rewrite Ef3. split; [done|]. apply Hd3. done.
Qed.

Lemma restore_ok a n wal_dir fs data :
  archive_dir a <> wal_dir -> can_hold wal_dir fs -> segment_path wal_dir n ∉ dirs fs ->
  files fs !! segment_path (archive_dir a) n = Some data ->
  exists fs', restore_segment a n wal_dir fs = (Ok tt, fs') /\ files fs' = <[ segment_path wal_dir n := data ]> (files fs).
Proof.
  intros Hne Hw Hd Hdata. unfold restore_segment. fold (segment_path wal_dir n) (segment_path (archive_dir a) n).
  destruct (ensure_dir_ok _ _ Hw) as (fs1 & -> & Ef1 & Hd1 & Hin1 & Hnew1). cbn [fs_then].
  unfold fs_copy. rewrite Ef1, Hdata. rewrite bool_decide_false by (intros [E _]%app_inj_tail; congruence).
  rewrite fs_write_ok; [|intros [|Hp]%Hnew1; [done|by apply snoc_not_prefix in Hp]|unfold segment_path; by rewrite parent_snoc].
  eexists. split; [done|]. cbn. by rewrite Ef1.
Qed.

Lemma archived_numbers_in names ns n name : archived_numbers names = Ok ns -> name ∈ names -> archived_number name = Ok (Some n) -> n ∈ ns.
Proof.
  revert ns. induction names as [|m names IH]; intros ns; [by intros _ ?%not_elem_of_nil|]. cbn [archived_numbers].
  intros (o & Eo & (rest & Er & E)%bind_ok)%bind_ok Hin En. injection E as <-. apply elem_of_app.
  apply elem_of_cons in Hin as [->|Hin]; [left|right; eauto]. rewrite Eo in En. injection En as ->. cbn. by apply list_elem_of_singleton.
Qed.

Lemma in_entries d name fs : is_Some (files fs !! (d ++ [name])) -> name ∈ entries d fs.
Proof.
  intros Hf. apply list_elem_of_omap. exists (d ++ [name]). split.
  - apply elem_of_elements, elem_of_union. left. by apply elem_of_dom.
  - by rewrite parent_snoc, decide_True, last_snoc.
Qed.

(** C35. Archiving and restoring. A segment of the log that nothing stands in the way of
    is archived: the archive then holds its bytes under its name, the status directory
    its empty mark, and every other file is as it was. As long as the archive keeps it,
    restoring writes those bytes back into the log's directory, whatever has become of
    the segment there. And the list of archived segments, when the names in the archive
    can be sliced, ascends and has the segment. *)
Theorem archive_restores a n wal_dir fs data (Hn : in_width 32 n)
    (Ha : archivable a n wal_dir fs) (Hdata : files fs !! segment_path wal_dir n = Some data) :
  exists fs1, archive_segment a n wal_dir fs = (Ok tt, fs1)
    /\ files fs1 !! done_path wal_dir n = Some []
    /\ (forall p, p <> done_path wal_dir n -> p <> segment_path (archive_dir a) n -> files fs1 !! p = files fs !! p)
    /\ (segment_path (archive_dir a) n <> done_path wal_dir n -> files fs1 !! segment_path (archive_dir a) n = Some data)
    /\ (forall ns, segment_path (archive_dir a) n <> done_path wal_dir n -> list_archived a fs1 = Ok ns ->
         n ∈ ns /\ StronglySorted Z.le ns)
    /\ (forall fs2, files fs2 !! segment_path (archive_dir a) n = Some data ->
         can_hold wal_dir fs2 -> segment_path wal_dir n ∉ dirs fs2 ->
         exists fs3, restore_segment a n wal_dir fs2 = (Ok tt, fs3) /\ files fs3 !! segment_path wal_dir n = Some data
           /\ forall p, p <> segment_path wal_dir n -> files fs3 !! p = files fs2 !! p).
Proof.
  destruct (archive_ok a n wal_dir fs data Ha Hdata) as (fs1 & E1 & Ef & Hdir). exists fs1. split_and!.
  - done.
  - by rewrite Ef, lookup_insert_eq.
  - intros p H1 H2. by rewrite Ef, !lookup_insert_ne.
  - intros Hne. by rewrite Ef, lookup_insert_ne, lookup_insert_eq.
  - intros ns Hne. unfold list_archived, fs_exists. rewrite (proj2 (is_dir_spec _ _) Hdir), orb_true_r.
    unfold read_dir. rewrite (proj2 (is_dir_spec _ _) Hdir), ok_bind. intros (ns0 & E0 & E)%bind_ok. injection E as <-. split.
    + rewrite sort_by_perm. eapply archived_numbers_in; [exact E0| |by apply archived_seg_name].
      apply in_entries. fold (segment_path (archive_dir a) n). rewrite Ef, lookup_insert_ne, lookup_insert_eq; [eauto|done].
    + apply (@sort_by_sorted Z Z.compare). split; [intros x y; apply Z.compare_antisym|]. intros x y z. apply Z.le_trans.
  - intros fs2 Hf Hc Hd. destruct Ha. destruct (restore_ok a n wal_dir fs2 data) as (fs3 & E3 & Ef3); try done.
    exists fs3. rewrite Ef3. split_and!; [done|by rewrite lookup_insert_eq|]. intros p Hp. by rewrite lookup_insert_ne.
Qed.

(** The control file. Saved where a file can be, it is read back as it was; before
    it is saved, a missing file is an error. *)
Theorem control_file_saved p c fs (Hc : control_ok c) (Hp : p ∉ dirs fs) (Hdir : parent p ∈ dirs fs) :
  exists fs', save_control_file p c fs = (Ok tt, fs') /\ from_control_file p fs' = Ok c
    /\ (forall q, q <> p -> files fs' !! q = files fs !! q)
    /\ (files fs !! p = None -> from_control_file p fs = Err (Anyhow "No such file or directory" [])).
Proof.
  unfold save_control_file. rewrite fs_write_ok by done. eexists. split; [done|]. split_and!.
  - unfold from_control_file, fs_read. cbn [files]. rewrite lookup_insert_eq, ok_bind.
    rewrite <- (app_nil_r (ControlFile_serialize c)). by apply control_file_roundtrip_lemma.
  - intros q Hq. cbn. by rewrite lookup_insert_ne.
  - intros E. unfold from_control_file, fs_read. by rewrite E.
Qed.

Example ext : Fs := {| dirs := {[ []; ["wal"] ]}; files := {[ segment_path ["wal"] 2 := [1; 2; 3] ]} |}.
Example to_archive : WalArchiver := {| archive_dir := ["arch"] |}.

Lemma archive_restores_witness :
  exists fs1, archive_segment to_archive 2 ["wal"] ext = (Ok tt, fs1)
    /\ files fs1 !! segment_path ["arch"] 2 = Some [1; 2; 3] /\ list_archived to_archive fs1 = Ok [2].
Proof.
  destruct (archive_restores to_archive 2 ["wal"] ext [1; 2; 3]) as (fs1 & E & _ & _ & Hd & _).
  - by vm_compute.
  - split; try done; try (vm_compute; by repeat constructor); by apply (bool_decide_unpack _); vm_compute.
  - by vm_compute.
  - exists fs1. split; [exact E|]. split; [by apply Hd|].
    assert (Ef : fs1 = (archive_segment to_archive 2 ["wal"] ext).2) by by rewrite E. rewrite Ef. by vm_compute.
Defined.

Lemma control_file_saved_witness :
  let c := ControlFile_create 7 in
  exists fs', save_control_file ["wal"; "control"] c ext = (Ok tt, fs') /\ from_control_file ["wal"; "control"] fs' = Ok c.
Proof.
  intros c. destruct (control_file_saved ["wal"; "control"] c ext) as (fs' & E & Er & _); [|by vm_compute..|by exists fs'].
  split; by vm_compute.
Defined.

(** Any 24 bytes count as a segment when the last eight are a number; of a name whose
    sixteenth byte is inside a character the slice panics. *)
Example other_names :
  archived_number "backup_of_timeline+0000007" = Ok None
  /\ archived_number "backup_timeline_+0000007" = Ok (Some 7)
  /\ archived_number (text_of (replicate 15 97 ++ [195; 169] ++ replicate 7 48)) = Panic.
Proof. split_and!; by vm_compute. Qed.
