(* ===== verification/Functions.v ===== *)
(** The registry of functions and triggers ([src/src/sql/function.rs]). Nothing in the
    program calls it. *)

From S2P Require Import Prelude Types SqlText Ast.

Inductive FunctionLanguage := Sql.
Inductive Volatility := Immutable | Stable | Volatile.
Inductive SecurityDefiner := Invoker | Definer.

Record FunctionArgDef := { arg_name : string; arg_data_type : DataType; arg_default : option Expr }.

Inductive FunctionBody :=
| SqlBody (s : Statement)
| SqlQuery (s : SelectStatement)
| SqlCompound (l : list Statement).

Record FunctionDef := {
  fn_name : string;
  fn_args : list FunctionArgDef;
  fn_returns : option DataType;
  fn_language : FunctionLanguage;
  fn_body : FunctionBody;
  fn_volatility : Volatility;
  fn_security : SecurityDefiner;
  fn_strict : bool;
}.

Definition FunctionDef_new (name : string) (body : FunctionBody) : FunctionDef :=
  {| fn_name := name; fn_args := []; fn_returns := None; fn_language := Sql; fn_body := body;
     fn_volatility := Volatile; fn_security := Invoker; fn_strict := false |}.
Definition with_args (args : list FunctionArgDef) (f : FunctionDef) : FunctionDef :=
  {| fn_name := fn_name f; fn_args := args; fn_returns := fn_returns f; fn_language := fn_language f; fn_body := fn_body f;
     fn_volatility := fn_volatility f; fn_security := fn_security f; fn_strict := fn_strict f |}.
Definition with_returns (returns : DataType) (f : FunctionDef) : FunctionDef :=
  {| fn_name := fn_name f; fn_args := fn_args f; fn_returns := Some returns; fn_language := fn_language f; fn_body := fn_body f;
     fn_volatility := fn_volatility f; fn_security := fn_security f; fn_strict := fn_strict f |}.

Inductive TriggerTiming := Before | After | InsteadOf.
Inductive TriggerEvent := TrInsert | TrUpdate | TrDelete | TrTruncate.
Inductive TriggerLevel := RowLevel | StatementLevel.

#[export] Instance TriggerEvent_eq_dec : EqDecision TriggerEvent.
Proof. solve_decision. Defined.

Record TriggerDef := {
  tr_name : string;
  tr_table_oid : Oid;
  tr_timing : TriggerTiming;
  tr_events : list TriggerEvent;
  tr_function_name : string;
  tr_columns : list string;
  tr_condition : option Expr;
  tr_level : TriggerLevel;
}.

Definition TriggerDef_new (name : string) (table_oid : Oid) (timing : TriggerTiming) (events : list TriggerEvent) (function_name : string) : TriggerDef :=
  {| tr_name := name; tr_table_oid := table_oid; tr_timing := timing; tr_events := events; tr_function_name := function_name;
     tr_columns := []; tr_condition := None; tr_level := RowLevel |}.

Definition applies_to_event (event : TriggerEvent) (t : TriggerDef) : bool := existsb (fun e => bool_decide (e = event)) (tr_events t).

Record TriggerContext := {
  tc_old : option (gmap string string);
  tc_new : option (gmap string string);
  tc_event : TriggerEvent;
  tc_table_name : string;
}.

Record FunctionRegistry := { functions : gmap string FunctionDef; triggers : list TriggerDef }.

Definition FunctionRegistry_new : FunctionRegistry := {| functions := ∅; triggers := [] |}.
Definition register_function (f : FunctionDef) (r : FunctionRegistry) : FunctionRegistry :=
  {| functions := <[ fn_name f := f ]> (functions r); triggers := triggers r |}.
Definition get_function (name : string) (r : FunctionRegistry) : option FunctionDef := functions r !! name.
Definition register_trigger (t : TriggerDef) (r : FunctionRegistry) : FunctionRegistry :=
  {| functions := functions r; triggers := triggers r ++ [t] |}.
Definition get_triggers_for_table (table_oid : Oid) (event : TriggerEvent) (r : FunctionRegistry) : list TriggerDef :=
  List.filter (fun t => (tr_table_oid t =? table_oid) && applies_to_event event t) (triggers r).
Definition drop_function (name : string) (r : FunctionRegistry) : bool * FunctionRegistry :=
  (bool_decide (is_Some (functions r !! name)), {| functions := delete name (functions r); triggers := triggers r |}).
Definition drop_trigger (name : string) (r : FunctionRegistry) : bool * FunctionRegistry :=
  let kept := List.filter (fun t => negb (String.eqb (tr_name t) name)) (triggers r) in
  (zlen kept <? zlen (triggers r), {| functions := functions r; triggers := kept |}).

(* ------------------------------------------------------------------ *)
(** ** Histories *)

Inductive registry_op :=
| RegisterFunction (f : FunctionDef)
| DropFunction (name : string)
| RegisterTrigger (t : TriggerDef)
| DropTrigger (name : string).

Definition run_registry_op (r : FunctionRegistry) (op : registry_op) : FunctionRegistry :=
  match op with
  | RegisterFunction f => register_function f r
  | DropFunction name => (drop_function name r).2
  | RegisterTrigger t => register_trigger t r
  | DropTrigger name => (drop_trigger name r).2
  end.

(** What a history, latest call first, says of a function's name: the first call that
    names it decides. *)
Fixpoint current_function (name : string) (latest : list registry_op) : option FunctionDef :=
  match latest with
  | [] => None
  | RegisterFunction f :: latest => if String.eqb (fn_name f) name then Some f else current_function name latest
  | DropFunction n :: latest => if String.eqb n name then None else current_function name latest
  | _ :: latest => current_function name latest
  end.

Definition drops (name : string) (op : registry_op) : bool := match op with DropTrigger n => String.eqb name n | _ => false end.

(** The triggers of a history that no later call drops. *)
Fixpoint current_triggers (h : list registry_op) : list TriggerDef :=
  match h with
  | [] => []
  | RegisterTrigger t :: h => (if existsb (drops (tr_name t)) h then [] else [t]) ++ current_triggers h
  | _ :: h => current_triggers h
  end.

Lemma current_triggers_snoc h op :
  current_triggers (h ++ [op]) = List.filter (fun t => negb (drops (tr_name t) op)) (current_triggers h) ++ current_triggers [op].
Proof.
  induction h as [|o h IH]; cbn [app current_triggers]; [done|].
  destruct o as [f|n|t|n]; rewrite ?IH; try done.
  rewrite existsb_app. cbn [existsb]. rewrite orb_false_r, List.filter_app, <- app_assoc. f_equal.
  destruct (existsb _ h); cbn; [done|]. by destruct (drops (tr_name t) op).
Qed.

(** The registry after any history of calls. A function's name stands for the one
    registered last under it, unless it was dropped since; a table's triggers for an
    event are those that were registered for both and not dropped by their name since,
    in the order of their registration; and dropping says whether there was something
    of that name. *)
Theorem registry_history h :
  let r := foldl run_registry_op FunctionRegistry_new h in
  (forall name, get_function name r = current_function name (rev h))
  /\ (forall oid event, get_triggers_for_table oid event r
       = List.filter (fun t => (tr_table_oid t =? oid) && applies_to_event event t) (current_triggers h))
  /\ (forall name, (drop_function name r).1 = true <-> is_Some (current_function name (rev h)))
  /\ (forall name, (drop_trigger name r).1 = true <-> exists t, t ∈ current_triggers h /\ tr_name t = name).
Proof.
  intros r.
  assert (Hf : forall name, functions r !! name = current_function name (rev h)).
  { subst r. induction h as [|op h IH] using rev_ind; [done|]. intros name. rewrite foldl_app, rev_app_distr. cbn [foldl rev app].
    destruct op as [f|n|t|n]; cbn; rewrite <- ?IH; [| |done|done].
    - destruct (String.eqb_spec (fn_name f) name) as [<-|]; [by rewrite lookup_insert_eq|by rewrite lookup_insert_ne].
    - destruct (String.eqb_spec n name) as [<-|]; [by rewrite lookup_delete_eq|by rewrite lookup_delete_ne]. }
  assert (Ht : triggers r = current_triggers h).
  { subst r. clear Hf. induction h as [|op h IH] using rev_ind; [done|]. rewrite foldl_app, current_triggers_snoc, <- IH. cbn [foldl].
    destruct op as [f|n|t|n]; cbn; [by rewrite List.filter_true, app_nil_r..| |].
    - by rewrite List.filter_true.
    - by rewrite app_nil_r. }
  split_and!.
  - done.
  - intros oid event. unfold get_triggers_for_table. by rewrite Ht.
  - intros name. cbn. by rewrite bool_decide_eq_true, Hf.
  - intros name. cbn. rewrite Ht, Z.ltb_lt. clear Ht Hf. induction (current_triggers h) as [|t l IH]; cbn.
    + split; [lia|]. by intros (t & ?%not_elem_of_nil & _).
    + destruct (String.eqb_spec (tr_name t) name) as [E|E]; cbn.
      * split; [intros _; exists t; split; [apply elem_of_cons; by left|done]|]. intros _.
        assert (Hl : forall (p : TriggerDef -> bool) k, zlen (List.filter p k) <= zlen k) by (induction k as [|x k IHk]; cbn; [lia|destruct (p x); cbn; lia]).
        specialize (Hl (fun t => negb (String.eqb (tr_name t) name)) l). lia.
      * rewrite <- Nat2Z.inj_lt, <- Nat.succ_lt_mono, Nat2Z.inj_lt, IH. split.
        -- intros (t' & Hin & En). exists t'. split; [apply elem_of_cons; by right|done].
        -- intros (t' & [->|Hin]%elem_of_cons & En); [done|]. by exists t'.
Qed.
